(** * The tiled attention backward kernel of xformers (kernel_backward.h)

    A shallow embedding of [AttentionBackwardKernel]: its compile-time
    configuration, the problem descriptor [Params], the workspace layout, the
    launch precondition check, the block scheduler, the per-tile computation
    of [processBlockIJ], the dropout mask generation and [computeDelta].

    Conventions of the embedding.
    - C++ integers are [Z]; every 32/64-bit operation writes its two's
      complement wrap-around out ([int32], [int64], [uint64]); [/] and [%]
      of C++ are [Z.quot] and [Z.rem].
    - [accum_t], [scalar_t] and [lse_scalar_t] values are real numbers: the
      rounding of the float and half formats is not part of the model.  The
      one non-finite value the kernel writes on purpose, the [-infinity] of
      the causal mask, is kept as a constructor of [accum_t].
    - Tensors are the views of one (batch, head) slice that
      [advance_to_block] selects: functions from a row and a column index
      (both [Z]) to a value.  A read outside the declared shape returns what
      the function has there, as a read of neighbouring memory would. *)

From Stdlib Require Import ZArith Bool List String Lia Reals Lra.
From Stdlib Require Import Sorted.
Import ListNotations.

Local Open Scope Z_scope.

(** ** Machine integers *)

Module MachineInt.

(** Signed two's complement value of [z] on [w] bits. *)
Definition wrap_signed (w z : Z) : Z :=
  (z + 2 ^ (w - 1)) mod 2 ^ w - 2 ^ (w - 1).

Definition int32 (z : Z) : Z := wrap_signed 32 z.
Definition int64 (z : Z) : Z := wrap_signed 64 z.
Definition uint64 (z : Z) : Z := z mod 2 ^ 64.

Definition INT32_MAX : Z := 2 ^ 31 - 1.

Definition in_int32 (z : Z) : Prop := - 2 ^ 31 <= z < 2 ^ 31.
Definition in_int64 (z : Z) : Prop := - 2 ^ 63 <= z < 2 ^ 63.

End MachineInt.
Import MachineInt.

(** ** gemm_kernel_utils.h *)

(** Modelled from the spec: [ceil_div] and [align_up] live in
    gemm_kernel_utils.h, which is not among the sources.  The spec says the
    workspace sizes are "rounded up to tile and alignment boundaries"; the
    usual integer formulas are taken, in the width the caller instantiates
    them at ([wr] is the wrap-around of that width). *)
Definition ceil_div (wr : Z -> Z) (n m : Z) : Z :=
  Z.quot (wr (wr (n + m) - 1)) m.

Definition align_up (wr : Z -> Z) (n m : Z) : Z :=
  wr (ceil_div wr n m * m).

(** ** Compile-time configuration *)

Inductive scalar_type : Type := Float32 | Float16 | BFloat16.

Definition sizeof_bits (t : scalar_type) : Z :=
  match t with Float32 => 32 | Float16 => 16 | BFloat16 => 16 end.

Definition is_same (a b : scalar_type) : bool :=
  match a, b with
  | Float32, Float32 | Float16, Float16 | BFloat16, BFloat16 => true
  | _, _ => false
  end.

(** The template parameters of [AttentionBackwardKernel].  [ArchTag_] is
    represented by its [kMinComputeCapability].  [kMinimumAlignment] and
    [ThreadK] are [GemmType::kMinimumAlignment] and [GemmType::ThreadK],
    constants of gemm_kernel_utils.h, which is not among the sources: they
    are parameters of the configuration. *)
Record KernelConfig : Type := {
  ArchTag_ : Z;
  scalar_t__ : scalar_type;
  kIsAligned_ : bool;
  kApplyDropout : bool;
  kMaxK_ : Z;
  kMinimumAlignment : Z;
  ThreadK : Z
}.

Section Constants.

Variable K : KernelConfig.

Definition scalar_t : scalar_type :=
  if sizeof_bits (scalar_t__ K) <=? 16 then scalar_t__ K else Float16.
Definition output_t : scalar_type := scalar_t.
Definition output_accum_t : scalar_type := Float32.

Definition kMaxK : Z := Z.min (kMaxK_ K) 128.

Definition kSupports64x128 : bool :=
  (ArchTag_ K >=? 80) ||
  ((ArchTag_ K >=? 70) && (sizeof_bits scalar_t <=? 16)).
Definition kWarpSize : Z := 32.
Definition kBlockSizeI : Z :=
  if kSupports64x128 && (kMaxK >? 64) then 128 else 64.

Definition kIsHalf : bool := sizeof_bits scalar_t <=? 16.
Definition kOutputInRF : bool := kIsHalf && (kMaxK <=? kBlockSizeI).
Definition kPreloadMmas : bool :=
  kIsHalf && (ArchTag_ K >=? 80) && kOutputInRF.
Definition kPrologueQK : bool := kPreloadMmas.
Definition kReuseDOi : bool := kIsHalf && (kMaxK <=? 128).

Definition kBlockSizeJ : Z :=
  if kPreloadMmas && (kMaxK >? 64) then 128 else 64.
Definition kNumWarpsPerBlock : Z :=
  Z.quot (kBlockSizeI * kBlockSizeJ) (32 * 32).

Definition kKernelComputesDelta : bool :=
  kIsHalf && (kOutputInRF || negb (ArchTag_ K =? 70)).

Definition kNeedsAccumGradQ : bool := negb (is_same output_accum_t output_t).
Definition kNeedsAccumGradK : bool :=
  negb kOutputInRF && negb (is_same output_accum_t output_t).
Definition kNeedsAccumGradV : bool :=
  negb kOutputInRF && negb (is_same output_accum_t output_t).

Definition kNumThreads : Z := kWarpSize * kNumWarpsPerBlock.

End Constants.

(** ** The problem descriptor *)

(** [Params], restricted to the fields that the embedded functions read.
    Pointers are addresses; [0] is [nullptr].  The row, head and batch
    strides that only serve to locate a slice in memory are represented by
    the tensor views ([Tensors] below). *)
Record Params : Type := {
  query_ptr : Z;
  key_ptr : Z;
  value_ptr : Z;
  bias_ptr : Z;
  output_ptr : Z;
  grad_output_ptr : Z;
  grad_bias_ptr : Z;
  scale : R;
  head_dim : Z;
  head_dim_value : Z;
  num_queries : Z;
  num_keys : Z;
  num_heads : Z;
  causal : bool;
  rng_seed : Z;
  rng_offset : Z;
  dropout_batch_head_rng_offset : Z;
  dropout_prob : R;
  q_strideH : Z;
  k_strideH : Z;
  v_strideH : Z;
  lse_strideM : Z;
  num_batches : Z
}.

(** ** Workspace layout ([Params::workspace_*]) *)

Section Workspace.

Variable K : KernelConfig.
Variable p : Params.

Definition workspace_elements_gk : Z :=
  if negb (kNeedsAccumGradK K) then 0
  else int32 (align_up int32 (num_keys p) (int32 (kBlockSizeJ K)) *
              align_up int32 (head_dim p) (int32 (kBlockSizeI K))).

Definition workspace_elements_gv : Z :=
  if negb (kNeedsAccumGradV K) then 0
  else int32 (align_up int32 (num_keys p) (int32 (kBlockSizeJ K)) *
              align_up int32 (head_dim_value p) (int32 (kBlockSizeI K))).

Definition workspace_elements_gq : Z :=
  if negb (kNeedsAccumGradQ K) then 0
  else if num_keys p <=? kBlockSizeJ K then 0
  else int32 (align_up int32 (num_queries p) (int32 (kBlockSizeI K)) *
              align_up int32 (head_dim p) (int32 (kBlockSizeJ K))).

Definition workspace_strideBH : Z :=
  align_up int64
    (int64 (int64 (workspace_elements_gk + workspace_elements_gv) +
            workspace_elements_gq))
    (int64 4).

(** [sizeof(float)]. *)
Definition sizeof_float : Z := 4.

(** [num_batches * num_heads] is a product of two [int32_t]; the product
    with the [int64_t] stride is 64-bit; the product with [sizeof(float)]
    is unsigned and converted back to [int64_t] by the return. *)
Definition workspace_size : Z :=
  int64 (uint64 (uint64 (int64 (int32 (num_batches p * num_heads p) *
                                workspace_strideBH)) * sizeof_float)).

End Workspace.

(** ** Launch preconditions ([check_supported]) *)

(** The outcome of [check_supported]: [true] is returned, or a check fails
    with its message and nothing else happens. *)
Inductive check_result : Type :=
| Supported
| PreconditionError (msg : string).

(** Modelled from the spec: [XFORMERS_CHECK] and [CHECK_ALIGNED_PTR] are
    macros of gemm_kernel_utils.h, which is not among the sources.  The spec
    says a violated precondition "fails the launch with a descriptive
    precondition error"; a check whose condition holds falls through to the
    statements after it. *)
Definition XFORMERS_CHECK (cond : bool) (msg : string)
  (rest : check_result) : check_result :=
  if cond then rest else PreconditionError msg.

Definition CHECK_ALIGNED_PTR (ptr alignment : Z) (name : string)
  (rest : check_result) : check_result :=
  XFORMERS_CHECK (Z.rem (uint64 ptr) alignment =? 0)
    (name ++ " is not correctly aligned") rest.

Definition check_supported (K : KernelConfig) (p : Params) : check_result :=
  CHECK_ALIGNED_PTR (query_ptr p) (kMinimumAlignment K) "p.query_ptr" (
  CHECK_ALIGNED_PTR (key_ptr p) (kMinimumAlignment K) "p.key_ptr" (
  CHECK_ALIGNED_PTR (value_ptr p) (kMinimumAlignment K) "p.value_ptr" (
  CHECK_ALIGNED_PTR (output_ptr p) (kMinimumAlignment K) "p.output_ptr" (
  CHECK_ALIGNED_PTR (grad_output_ptr p) (kMinimumAlignment K)
    "p.grad_output_ptr" (
  XFORMERS_CHECK (Z.rem (lse_strideM p) 8 =? 0)
    "LSE is not correctly aligned" (
  XFORMERS_CHECK (Z.rem (q_strideH p) (kMinimumAlignment K) =? 0)
    "query is not correctly aligned" (
  XFORMERS_CHECK (Z.rem (k_strideH p) (kMinimumAlignment K) =? 0)
    "key is not correctly aligned" (
  XFORMERS_CHECK (Z.rem (v_strideH p) (kMinimumAlignment K) =? 0)
    "value is not correctly aligned"
  Supported)))))))).

(** The preconditions as the interface states them: the five base pointers
    are aligned on [kMinimumAlignment], the stride of the log-normalizer is
    a multiple of 8 and the head strides of query, key and value are
    multiples of [kMinimumAlignment]. *)
Definition launch_preconditions (K : KernelConfig) (p : Params) : Prop :=
  (kMinimumAlignment K | uint64 (query_ptr p)) /\
  (kMinimumAlignment K | uint64 (key_ptr p)) /\
  (kMinimumAlignment K | uint64 (value_ptr p)) /\
  (kMinimumAlignment K | uint64 (output_ptr p)) /\
  (kMinimumAlignment K | uint64 (grad_output_ptr p)) /\
  (8 | lse_strideM p) /\
  (kMinimumAlignment K | q_strideH p) /\
  (kMinimumAlignment K | k_strideH p) /\
  (kMinimumAlignment K | v_strideH p).

(** A result of [check_supported] other than [Supported] carries one of the
    messages of the source, none of which is empty. *)
Definition descriptive (r : check_result) : Prop :=
  match r with
  | Supported => True
  | PreconditionError msg => msg <> EmptyString
  end.

(** ** Block scheduler *)

Definition getQueryStart (K : KernelConfig) (p : Params) (key_start : Z) : Z :=
  if causal p
  then int32 (int64 (Z.quot key_start (kBlockSizeI K) * kBlockSizeI K))
  else 0.

(** [incrIteration] returns the pair [(next_query, next_key)] that the source
    passes back through its reference arguments. *)
Definition incrIteration (K : KernelConfig) (p : Params)
  (query_start key_start : Z) : Z * Z :=
  let next_query := int32 (int64 (query_start + kBlockSizeI K)) in
  let next_key := key_start in
  if next_query >=? num_queries p then
    let next_key := int32 (int64 (key_start + kBlockSizeJ K)) in
    (getQueryStart K p next_key, next_key)
  else (next_query, next_key).

(** The values taken by the counter of
    [for (i = start; i < stop; i += step)], [i] being an [int32_t]. *)
Fixpoint for_loop (fuel : nat) (i stop step : Z) : list Z :=
  match fuel with
  | O => []
  | S fuel' =>
      if i <? stop then i :: for_loop fuel' (int32 (i + step)) stop step
      else []
  end.

Definition for_range (start stop step : Z) : list Z :=
  for_loop (Z.to_nat (stop - start)) start stop step.

(** The value of the counter when that loop is left. *)
Fixpoint for_exit (fuel : nat) (i stop step : Z) : Z :=
  match fuel with
  | O => i
  | S fuel' =>
      if i <? stop then for_exit fuel' (int32 (i + step)) stop step else i
  end.

Definition for_range_exit (start stop step : Z) : Z :=
  for_exit (Z.to_nat (stop - start)) start stop step.

(** One call of [processBlockIJ<skipBoundsChecks>]. *)
Record BlockCall : Type := {
  call_skipBoundsChecks : bool;
  call_query_start : Z;
  call_key_start : Z
}.

(** The calls of [processBlockIJ] made for one full key tile (the body of
    the first loop of [kernel]). *)
Definition kernel_key_iteration (K : KernelConfig) (p : Params)
  (key_start : Z) : list BlockCall :=
  let query_start := getQueryStart K p key_start in
  let query_end :=
    int32 (int64 (query_start +
      int64 (Z.quot (int32 (num_queries p - query_start)) (kBlockSizeI K)
             * kBlockSizeI K))) in
  map (fun q => Build_BlockCall true q key_start)
    (for_range query_start query_end (kBlockSizeI K)) ++
  (* last (partial) query *)
  let query_start := for_range_exit query_start query_end (kBlockSizeI K) in
  if query_start <? num_queries p
  then [Build_BlockCall false query_start key_start] else [].

(** The calls made for the last, partial key tile. *)
Definition kernel_last_key (K : KernelConfig) (p : Params)
  (key_start : Z) : list BlockCall :=
  if negb (key_start =? num_keys p) then
    map (fun q => Build_BlockCall false q key_start)
      (for_range (getQueryStart K p key_start) (num_queries p) (kBlockSizeI K))
  else [].

(** All calls of [processBlockIJ] made by [kernel], in order. *)
Definition kernel_calls (K : KernelConfig) (p : Params) : list BlockCall :=
  let key_end :=
    int32 (int64 (Z.quot (num_keys p) (kBlockSizeJ K) * kBlockSizeJ K)) in
  flat_map (kernel_key_iteration K p) (for_range 0 key_end (kBlockSizeJ K)) ++
  (* last (partial) key *)
  kernel_last_key K p (for_range_exit 0 key_end (kBlockSizeJ K)).

(** ** Values and tensors *)

(** A value of an accumulator fragment of the score tile: a real number, or
    the [-std::numeric_limits<accum_t>::infinity()] that the causal mask
    writes. *)
Inductive accum_t : Type :=
| Finite (x : R)
| NegInfinity.

(** A matrix indexed by row and column: a tensor view, a tile in shared
    memory or an accumulator fragment seen through its tile coordinates. *)
Definition Tile : Type := Z -> Z -> R.

(** The tensors of the (batch, head) slice selected by [advance_to_block]:
    [query_ptr] [Mq, K], [key_ptr] [Mk, K], [value_ptr] [Mk, Kv],
    [bias_ptr] [Mq, Mk], [logsumexp_ptr] [Mq], [output_ptr] [Mq, Kv],
    [grad_output_ptr] [Mq, Kv] and [delta_ptr] [Mq]. *)
Record Tensors : Type := {
  query : Tile;
  key : Tile;
  value : Tile;
  bias : Tile;
  logsumexp : Z -> R;
  output : Tile;
  grad_output : Tile;
  delta : Z -> R
}.

Definition tile_set (t : Tile) (r c : Z) (v : R) : Tile :=
  fun r' c' => if (r' =? r) && (c' =? c) then v else t r' c'.

(** ** The matrix-multiply engine (cutlass) *)

Fixpoint sum_n (n : nat) (f : Z -> R) : R :=
  match n with
  | O => 0%R
  | S n' => (sum_n n' f + f (Z.of_nat n'))%R
  end.

(** The sum of [f k] for [0 <= k < n]. *)
Definition sum_upto (n : Z) (f : Z -> R) : R := sum_n (Z.to_nat n) f.

(** Modelled from the spec: the tiled matrix-multiply engine and its
    memory-tile iterators are cutlass code that is not among the sources;
    the spec describes them as the capability to "multiply an A-tile by a
    B-tile into an accumulator, given iterators that stream tiles from a
    buffer".  An iterator is built from a tensor, the coordinates of its
    first element and an extent; an element outside the extent is
    predicated off and reads as zero. *)
Definition PredicatedTileIterator (t : Tile) (row0 col0 rows cols : Z) : Tile :=
  fun r c =>
    if (0 <=? r) && (r <? rows) && (0 <=? c) && (c <? cols)
    then t (row0 + r) (col0 + c) else 0%R.

(** The same iterator over a column-major operand: the element [(r, c)] of
    the operand is the element [(c, r)] of the row-major tensor. *)
Definition PredicatedTileIteratorColumnMajor
  (t : Tile) (row0 col0 rows cols : Z) : Tile :=
  fun r c => PredicatedTileIterator t row0 col0 cols rows c r.

(** Modelled from the spec: [mma(gemm_k_iterations, accum, A, B, accum)]
    adds to the accumulator the product of the operands over
    [gemm_k_iterations] steps of [Shape::kK] columns of [A]. *)
Definition mma (kK gemm_k_iterations : Z) (A B accum : Tile) : Tile :=
  fun m n =>
    (accum m n + sum_upto (gemm_k_iterations * kK) (fun k => A m k * B k n))%R.

Definition gemm_k_iterations (kK k : Z) : Z :=
  Z.quot (int32 (int32 (k + kK) - 1)) kK.

Definition clear : Tile := fun _ _ => 0%R.

(** Modelled from the spec: [B2bGemm::accumApplyLSEToSmem] belongs to
    mma_from_smem.h, which is not among the sources.  The spec says the
    kernel must "subtract the log-normalizer for each query row and apply
    the exponential to obtain the probability tile", and that a [-infinity]
    score is "designed to evaluate to exactly zero probability".  The tile
    is transposed: its column is the query row. *)
Definition accumApplyLSEToSmem (accum : Z -> Z -> accum_t)
  (lse : Z -> R) : Tile :=
  fun m n =>
    match accum m n with
    | Finite x => exp (x - lse n)
    | NegInfinity => 0%R
    end.

(** ** cuRAND *)

(** The state of the Philox generator: the seed, the subsequence and the
    position in the stream of that subsequence. *)
Record curandStatePhilox4_32_10_t : Type := {
  philox_seed : Z;
  philox_subsequence : Z;
  philox_position : Z
}.

(** Model of the cuRAND device API, a library outside the repository:
    [curand_init] places the state at [offset], [skipahead] moves it [n]
    draws forward and [curand_uniform4] returns the next four draws.  The
    draw found at a position of the stream, [stream seed subsequence
    position], is a parameter. *)
Definition curand_init (seed subsequence offset : Z) :
  curandStatePhilox4_32_10_t :=
  {| philox_seed := seed;
     philox_subsequence := subsequence;
     philox_position := offset |}.

Definition skipahead (n : Z) (s : curandStatePhilox4_32_10_t) :
  curandStatePhilox4_32_10_t :=
  {| philox_seed := philox_seed s;
     philox_subsequence := philox_subsequence s;
     philox_position := philox_position s + n |}.

Definition curand_uniform4 (stream : Z -> Z -> Z -> R)
  (s : curandStatePhilox4_32_10_t) :
  (Z -> R) * curandStatePhilox4_32_10_t :=
  (fun quad_idx =>
     stream (philox_seed s) (philox_subsequence s)
       (philox_position s + quad_idx),
   skipahead 4 s).

(** [cutlass::ceil_div] and [cutlass::round_nearest] on [int]. *)
Definition cutlass_ceil_div (a b : Z) : Z :=
  Z.quot (int32 (int32 (a + b) - 1)) b.
Definition cutlass_round_nearest (a b : Z) : Z :=
  int32 (Z.quot (int32 (int32 (a + b) - 1)) b * b).

(** ** [Params::advance_to_block] and the generator of the block *)

Definition set_dropout_batch_head_rng_offset (p : Params) (v : Z) : Params :=
  {| query_ptr := query_ptr p; key_ptr := key_ptr p;
     value_ptr := value_ptr p; bias_ptr := bias_ptr p;
     output_ptr := output_ptr p; grad_output_ptr := grad_output_ptr p;
     grad_bias_ptr := grad_bias_ptr p; scale := scale p;
     head_dim := head_dim p; head_dim_value := head_dim_value p;
     num_queries := num_queries p; num_keys := num_keys p;
     num_heads := num_heads p; causal := causal p;
     rng_seed := rng_seed p; rng_offset := rng_offset p;
     dropout_batch_head_rng_offset := v;
     dropout_prob := dropout_prob p;
     q_strideH := q_strideH p; k_strideH := k_strideH p;
     v_strideH := v_strideH p; lse_strideM := lse_strideM p;
     num_batches := num_batches p |}.

(** The part of [advance_to_block] that is not pointer arithmetic: the RNG
    sequence offset of the block [(batch_id, head_id)].  [batch_id] is an
    [int64_t], [head_id] and the dimensions are [int32_t], so both
    parenthesised products are 32-bit; the field is an
    [unsigned long long]. *)
Definition advance_to_block (p : Params) (batch_id head_id : Z) : Params :=
  set_dropout_batch_head_rng_offset p
    (uint64
       (int64
          (int64 (batch_id *
                  int32 (int32 (num_heads p * num_queries p) * num_keys p)) +
           int32 (head_id * int32 (num_queries p * num_keys p))))).

(** [rng_state_init] of [kernel]: [rng_seed] and [rng_offset] are the two
    components of [at::cuda::philox::unpack(p.rng_engine_inputs)]. *)
Definition rng_state_init (p : Params) : curandStatePhilox4_32_10_t :=
  curand_init (rng_seed p) 0
    (uint64 (rng_offset p + dropout_batch_head_rng_offset p)).

(** ** [loadDi] *)

(** The threads of a block, by [thread_id]. *)
Definition thread_ids (K : KernelConfig) : list Z :=
  map Z.of_nat (seq 0 (Z.to_nat (kNumThreads K))).

(** What the thread [thread_id] does to the array [di]. *)
Definition loadDi_thread (K : KernelConfig) (p : Params) (T : Tensors)
  (query_start : Z) (di : Z -> R) (thread_id : Z) : Z -> R :=
  if thread_id <? kBlockSizeI K then
    let di_rf :=
      if int32 (query_start + thread_id) <? num_queries p
      then delta T (int32 (query_start + thread_id)) else 0%R in
    fun i => if i =? thread_id then di_rf else di i
  else di.

Definition loadDi (K : KernelConfig) (p : Params) (T : Tensors)
  (query_start : Z) (di : Z -> R) : Z -> R :=
  fold_left (loadDi_thread K p T query_start) (thread_ids K) di.

(** [threads_per_row] and [elts_per_thread] of [processBlockIJ]: how the
    threads of a block share the mask of [nq] queries and [nk] keys
    ([num_threads] is [blockDim.x * blockDim.y * blockDim.z], that is
    [kNumThreads]). *)
Definition zij_threads_per_row (K : KernelConfig) (nq nk : Z) : Z :=
  Z.min (Z.quot (kNumThreads K) nq) nk.

Definition zij_elts_per_thread (K : KernelConfig) (nq nk : Z) : Z :=
  cutlass_round_nearest
    (cutlass_ceil_div nk (zij_threads_per_row K nq nk)) 4.

(** ** [processBlockIJ] *)

Section ProcessBlockIJ.

Variable K : KernelConfig.
Variable stream : Z -> Z -> Z -> R.
Variable skipBoundsChecks : bool.
Variable p : Params.
Variable T : Tensors.
Variable query_start key_start : Z.

Definition num_queries_in_block : Z :=
  if skipBoundsChecks then kBlockSizeI K
  else Z.min (int32 (kBlockSizeI K)) (int32 (num_queries p - query_start)).

Definition num_keys_in_block : Z :=
  if skipBoundsChecks then kBlockSizeJ K
  else Z.min (int32 (kBlockSizeJ K)) (int32 (num_keys p - key_start)).

(** *** MatmulQK *)

(** [attn_T = k_j @ q_i.transpose(-2, -1)], then the product by [scale]. *)
Definition MatmulQK_mma : Tile :=
  mma (ThreadK K) (gemm_k_iterations (ThreadK K) (head_dim p))
    (PredicatedTileIterator (key T) key_start 0
       num_keys_in_block (head_dim p))
    (PredicatedTileIteratorColumnMajor (query T) query_start 0
       (head_dim p) num_queries_in_block)
    clear.

Definition MatmulQK_scaled : Tile :=
  fun accum_m accum_n => (scale p * MatmulQK_mma accum_m accum_n)%R.

(** The bias tile [Bij] in shared memory, loaded with the extent of the
    block. *)
Definition bias_tensor_ref : Tile :=
  PredicatedTileIterator (bias T) query_start key_start
    num_queries_in_block num_keys_in_block.

Definition MatmulQK_bias : Tile :=
  if negb (bias_ptr p =? 0) then
    fun accum_m accum_n =>
      if skipBoundsChecks ||
         ((accum_n <? num_queries_in_block) && (accum_m <? num_keys_in_block))
      then (MatmulQK_scaled accum_m accum_n + bias_tensor_ref accum_n accum_m)%R
      else MatmulQK_scaled accum_m accum_n
  else MatmulQK_scaled.

Definition MatmulQK_mask : Z -> Z -> accum_t :=
  fun accum_m accum_n =>
    if causal p &&
       (accum_m >? int32 (int32 (accum_n + query_start) - key_start))
    then NegInfinity
    else Finite (MatmulQK_bias accum_m accum_n).

(** The tile stored in [attn_shared_storage]: [Pij] transposed. *)
Definition attn_T : Tile :=
  accumApplyLSEToSmem MatmulQK_mask
    (fun accum_n => logsumexp T (query_start + accum_n)).

(** *** Zij *)

Definition dropout_scale : R := (1 / (1 - dropout_prob p))%R.

(** One turn of the loop on [zij_start_col_idx]: four draws, four stores. *)
Definition zij_quad (thread_i : Z)
  (st : curandStatePhilox4_32_10_t * Tile) (zij_start_col_idx : Z) :
  curandStatePhilox4_32_10_t * Tile :=
  let rand_uniform_quad := fst (curand_uniform4 stream (fst st)) in
  let curand_state := snd (curand_uniform4 stream (fst st)) in
  (curand_state,
   fold_left
     (fun zij quad_idx =>
        tile_set zij (zij_start_col_idx + quad_idx) thread_i
          (dropout_scale *
           (if Rgt_dec (rand_uniform_quad quad_idx) (dropout_prob p)
            then 1 else 0))%R)
     [0; 1; 2; 3] (snd st)).

(** What the thread [thread_id] writes to [zij]. *)
Definition zij_thread (curand_state_init : curandStatePhilox4_32_10_t)
  (zij : Tile) (thread_id : Z) : Tile :=
  let threads_per_row :=
    zij_threads_per_row K num_queries_in_block num_keys_in_block in
  let elts_per_thread :=
    zij_elts_per_thread K num_queries_in_block num_keys_in_block in
  let thread_i := Z.quot thread_id threads_per_row in
  let thread_start_j :=
    int32 (Z.rem thread_id threads_per_row * elts_per_thread) in
  if (thread_i <? num_queries_in_block) &&
     (thread_start_j <? num_keys_in_block) then
    let curand_state :=
      skipahead
        (uint64
           (int32 (int32 (int32 (query_start + thread_i) * num_keys p) +
                   int32 (key_start + thread_start_j))))
        curand_state_init in
    snd (fold_left (zij_quad thread_i)
           (for_range thread_start_j
              (Z.min (int32 (thread_start_j + elts_per_thread))
                 num_keys_in_block) 4)
           (curand_state, zij))
  else zij.

(** The content of the shared tile [zij] after the block has generated the
    mask, [zij_before] being its content before. *)
Definition generate_zij (curand_state_init : curandStatePhilox4_32_10_t)
  (zij_before : Tile) : Tile :=
  if kApplyDropout K
  then fold_left (zij_thread curand_state_init) (thread_ids K) zij_before
  else zij_before.

End ProcessBlockIJ.

(** Modelled from the spec: the output epilogue of cutlass is not among the
    sources; an epilogue whose output operator does no scaling "just stores"
    the accumulator through its output iterator, which is built from a
    destination, the coordinates of its first element and an extent, and
    leaves untouched what lies outside the extent. *)
Definition epilogue_store (accum : Tile) (dest : Tile)
  (row0 col0 rows cols : Z) : Tile :=
  fun i j =>
    if (0 <=? i - row0) && (i - row0 <? rows) &&
       (0 <=? j - col0) && (j - col0 <? cols)
    then accum (i - row0) (j - col0) else dest i j.

Section ProcessBlockIJ_gradients.

Variable K : KernelConfig.
Variable skipBoundsChecks : bool.
Variable p : Params.
Variable T : Tensors.
Variable query_start key_start : Z.

(** The shared tiles [attn_shared_storage] and [zij] and the array [di], as
    the first part of [processBlockIJ] and [loadDi] left them. *)
Variable attn zij : Tile.
Variable di : Z -> R.


(** *** GradV matmul: [grad_v[j_start:j_end] += attn_T @ do_i] *)

(** Operand A: [Pij.T], multiplied by [Zij.T] as it is loaded when dropout
    is compiled in ([kScaleOperandA = kApplyDropout]). *)
Definition MatmulGradV_operand_A : Tile :=
  fun m k => if kApplyDropout K then (attn m k * zij m k)%R else attn m k.

(** Operand B: [dOi], columns [col] and after. *)
Definition MatmulGradV_operand_B (col : Z) : Tile :=
  PredicatedTileIterator (grad_output T) query_start col
    (num_queries_in_block K skipBoundsChecks p query_start)
    (head_dim_value p - col).

Definition MatmulGradV (col : Z) (gradV : Tile) : Tile :=
  mma (ThreadK K)
    (gemm_k_iterations (ThreadK K)
       (num_queries_in_block K skipBoundsChecks p query_start))
    MatmulGradV_operand_A (MatmulGradV_operand_B col) gradV.

(** *** MatmulDOIVJ: [doi_t_vj = do_i @ v_j.transpose(-2, -1)] *)

(** Operand A is [dOi], held in shared memory since the GradV matmul;
    operand B is [Vj] transposed. *)
Definition MatmulDOIVJ_mma : Tile :=
  mma (ThreadK K) (gemm_k_iterations (ThreadK K) (head_dim_value p))
    (PredicatedTileIterator (grad_output T) query_start 0
       (num_queries_in_block K skipBoundsChecks p query_start)
       (head_dim_value p))
    (PredicatedTileIteratorColumnMajor (value T) key_start 0
       (head_dim_value p) (num_keys_in_block K skipBoundsChecks p key_start))
    clear.

(** [dPij = dPij_dropped * Zij]. *)
Definition MatmulDOIVJ_dropout : Tile :=
  if kApplyDropout K then
    fun accum_m accum_n =>
      let global_query_idx := int32 (query_start + accum_m) in
      let global_key_idx := int32 (key_start + accum_n) in
      if skipBoundsChecks ||
         ((global_query_idx <? num_queries p) &&
          (global_key_idx <? num_keys p))
      then (MatmulDOIVJ_mma accum_m accum_n * zij accum_n accum_m)%R
      else MatmulDOIVJ_mma accum_m accum_n
  else MatmulDOIVJ_mma.

Definition fragment_attn : Tile :=
  fun accum_m accum_n =>
    if skipBoundsChecks ||
       ((accum_m <? num_queries_in_block K skipBoundsChecks p query_start) &&
        (accum_n <? num_keys_in_block K skipBoundsChecks p key_start))
    then attn accum_n accum_m else 0%R.

Definition fragment_di : Tile := fun accum_m accum_n => di accum_m.

(** [dSij = (dPij - Di) * Pij]: the accumulator before the product by
    [scale]. *)
Definition dSij : Tile :=
  fun accum_m accum_n =>
    ((MatmulDOIVJ_dropout accum_m accum_n - fragment_di accum_m accum_n) *
     fragment_attn accum_m accum_n)%R.

(** The bias gradient after the block, [grad_bias] being the tensor
    [grad_bias_ptr] of the slice before it. *)
Definition store_grad_bias (grad_bias : Tile) : Tile :=
  if negb (grad_bias_ptr p =? 0) then
    epilogue_store dSij grad_bias query_start key_start
      (num_queries_in_block K skipBoundsChecks p query_start)
      (num_keys_in_block K skipBoundsChecks p key_start)
  else grad_bias.

(** [accum = accum * scale]: the tile stored in [tmp_shared_storage], and
    transposed in [tmpT_shared_storage]. *)
Definition tmp : Tile :=
  fun accum_m accum_n => (dSij accum_m accum_n * scale p)%R.

Definition tmpT : Tile := fun accum_n accum_m => tmp accum_m accum_n.

(** *** GradQ matmul: [grad_q[i_start:i_end] += tmp @ k_j] *)

Definition MatmulGradQ_operand_B (col : Z) : Tile :=
  PredicatedTileIterator (key T) key_start col
    (num_keys_in_block K skipBoundsChecks p key_start) (head_dim p - col).

Definition MatmulGradQ (col : Z) (accum : Tile) : Tile :=
  mma (ThreadK K)
    (gemm_k_iterations (ThreadK K)
       (num_keys_in_block K skipBoundsChecks p key_start))
    tmp (MatmulGradQ_operand_B col) accum.

(** *** GradK matmul: [grad_k[i_start:i_end] += tmp.transpose(-2, -1) @ q_i] *)

Definition MatmulGradK_operand_B (col : Z) : Tile :=
  PredicatedTileIterator (query T) query_start col
    (num_queries_in_block K skipBoundsChecks p query_start) (head_dim p - col).

Definition MatmulGradK (col : Z) (gradK : Tile) : Tile :=
  mma (ThreadK K)
    (gemm_k_iterations (ThreadK K)
       (num_queries_in_block K skipBoundsChecks p query_start))
    tmpT (MatmulGradK_operand_B col) gradK.

End ProcessBlockIJ_gradients.

(** The tiles that one call of [processBlockIJ] computes: the probability
    tile and the dropout mask left in shared memory, the bias gradient after
    the call, and, for a block of output columns starting at [col], what the
    three gradient matmuls add to a cleared accumulator. *)
Record BlockResult : Type := {
  block_attn_T : Tile;
  block_zij : Tile;
  block_grad_bias : Tile;
  block_gradV : Z -> Tile;
  block_gradQ : Z -> Tile;
  block_gradK : Z -> Tile
}.

Definition processBlockIJ (K : KernelConfig) (stream : Z -> Z -> Z -> R)
  (skipBoundsChecks : bool) (p : Params) (T : Tensors)
  (query_start key_start : Z)
  (curand_state_init : curandStatePhilox4_32_10_t)
  (di_before : Z -> R) (zij_before grad_bias : Tile) : BlockResult :=
  let di := loadDi K p T query_start di_before in
  let attn := attn_T K skipBoundsChecks p T query_start key_start in
  let zij :=
    generate_zij K stream skipBoundsChecks p query_start key_start
      curand_state_init zij_before in
  {| block_attn_T := attn;
     block_zij := zij;
     block_grad_bias :=
       store_grad_bias K skipBoundsChecks p T query_start key_start
         attn zij di grad_bias;
     block_gradV := fun col =>
       MatmulGradV K skipBoundsChecks p T query_start attn zij col clear;
     block_gradQ := fun col =>
       MatmulGradQ K skipBoundsChecks p T query_start key_start
         attn zij di col clear;
     block_gradK := fun col =>
       MatmulGradK K skipBoundsChecks p T query_start key_start
         attn zij di col clear |}.

(** ** [computeDelta] *)

Section ComputeDelta.

Variable K : KernelConfig.
Variable kElementsPerAccess : Z.
Variable p : Params.
Variable T : Tensors.
Variable query_start : Z.

Definition kNumThreadsPerLine : Z := Z.quot (kNumThreads K) (kBlockSizeI K).

Definition kMaxIters : Z :=
  Z.quot (kMaxK K) (kElementsPerAccess * kNumThreadsPerLine).

Definition kPipelineStages : Z := 2.

(** The registers of one thread of [computeDelta]: [pred], the two
    pointers (as the column they point to in the row of the thread), the
    two pipeline stages of each fragment, and [delta_value]. *)
Record DeltaRegs : Type := {
  pred : bool;
  grad_output_col : Z;
  output_col : Z;
  frag_grad_output : Z -> Z -> R;
  frag_output : Z -> Z -> R;
  delta_value : R
}.

(** [GlobalLoad(frag, ptr, is_valid)] after [frag.clear()]. *)
Definition GlobalLoad (t : Tile) (row col : Z) (is_valid : bool) : Z -> R :=
  fun i => if is_valid then t row (col + i) else 0%R.

Definition loadAndIncrement (row : Z) (s : DeltaRegs)
  (ld_pos : Z) (is_valid : bool) : DeltaRegs :=
  {| pred := pred s;
     grad_output_col :=
       grad_output_col s + kElementsPerAccess * kNumThreadsPerLine;
     output_col := output_col s + kElementsPerAccess * kNumThreadsPerLine;
     frag_grad_output := fun pos =>
       if pos =? ld_pos
       then GlobalLoad (grad_output T) row (grad_output_col s) is_valid
       else frag_grad_output s pos;
     frag_output := fun pos =>
       if pos =? ld_pos
       then GlobalLoad (output T) row (output_col s) is_valid
       else frag_output s pos;
     delta_value := delta_value s |}.

Definition set_pred (s : DeltaRegs) (b : bool) : DeltaRegs :=
  {| pred := b;
     grad_output_col := grad_output_col s;
     output_col := output_col s;
     frag_grad_output := frag_grad_output s;
     frag_output := frag_output s;
     delta_value := delta_value s |}.

Definition add_delta_value (s : DeltaRegs) (x : R) : DeltaRegs :=
  {| pred := pred s;
     grad_output_col := grad_output_col s;
     output_col := output_col s;
     frag_grad_output := frag_grad_output s;
     frag_output := frag_output s;
     delta_value := (delta_value s + x)%R |}.

(** The body of the first loop (the loads of the first
    [kPipelineStages - 1] stages). *)
Definition prologueIteration (row laneFirstCol : Z)
  (s : DeltaRegs) (iter : Z) : DeltaRegs :=
  let ld_pos := Z.rem iter kPipelineStages in
  let s := set_pred s
    (pred s &&
     (laneFirstCol + iter * kElementsPerAccess * kNumThreadsPerLine
      <? head_dim_value p)) in
  loadAndIncrement row s ld_pos (pred s).

Definition columnIteration (row laneFirstCol : Z)
  (s : DeltaRegs) (iter : Z) : DeltaRegs :=
  let ld_pos := Z.rem (iter + kPipelineStages - 1) kPipelineStages in
  let s := set_pred s
    (pred s &&
     (laneFirstCol +
      (iter + kPipelineStages - 1) * kElementsPerAccess * kNumThreadsPerLine
      <? head_dim_value p)) in
  let s := loadAndIncrement row s ld_pos (pred s) in
  fold_left
    (fun s i =>
       add_delta_value s
         (frag_output s (Z.rem iter kPipelineStages) i *
          frag_grad_output s (Z.rem iter kPipelineStages) i)%R)
    (for_range 0 kElementsPerAccess 1) s.

(** [delta_value] of the thread [(warp_id, lane_id)] before the reduction
    between workers. *)
Definition computeDelta_partial (warp_id lane_id : Z) : R :=
  let thread_id := lane_id + warp_id * kWarpSize in
  let laneFirstCol :=
    kElementsPerAccess * Z.rem lane_id kNumThreadsPerLine in
  let laneRow := Z.quot thread_id kNumThreadsPerLine in
  let rowPred := int32 (query_start + laneRow) <? num_queries p in
  let s :=
    {| pred := rowPred;
       grad_output_col := laneFirstCol;
       output_col := laneFirstCol;
       frag_grad_output := fun _ _ => 0%R;
       frag_output := fun _ _ => 0%R;
       delta_value := 0%R |} in
  let s :=
    fold_left (prologueIteration (int32 (query_start + laneRow)) laneFirstCol)
      (for_range 0 (kPipelineStages - 1) 1) s in
  let s :=
    if kMaxK K <=? 256 then
      fold_left (columnIteration (int32 (query_start + laneRow)) laneFirstCol)
        (for_range 0 kMaxIters 1) s
    else
      let num_iters :=
        ceil_div int32 (head_dim_value p)
          (kElementsPerAccess * kNumThreadsPerLine) *
        (kElementsPerAccess * kNumThreadsPerLine) in
      fold_left (columnIteration (int32 (query_start + laneRow)) laneFirstCol)
        (for_range 0 num_iters 1) s in
  delta_value s.

(** The reduction between workers:
    [for (i = 1; i < kNumThreadsPerLine; i *= 2)
       delta_value = delta_value + __shfl_xor_sync(0xffffffff, delta_value, i)],
    on the values that the lanes of one warp hold; [__shfl_xor_sync] gives
    a lane the value of the lane whose number differs by [xor i]. *)
Fixpoint shfl_reduce (fuel : nat) (i : Z) (delta_value : Z -> R) : Z -> R :=
  match fuel with
  | O => delta_value
  | S fuel' =>
      if i <? kNumThreadsPerLine then
        shfl_reduce fuel' (i * 2)
          (fun lane_id =>
             (delta_value lane_id + delta_value (Z.lxor lane_id i))%R)
      else delta_value
  end.

Definition computeDelta_value (warp_id lane_id : Z) : R :=
  shfl_reduce (Z.to_nat kNumThreadsPerLine) 1
    (computeDelta_partial warp_id) lane_id.

(** The store of the thread [thread_id] to [p.delta_ptr]. *)
Definition computeDelta_thread (delta_buf : Z -> R) (thread_id : Z) : Z -> R :=
  let lane_id := Z.rem thread_id kWarpSize in
  let warp_id := Z.quot thread_id kWarpSize in
  let laneRow := Z.quot thread_id kNumThreadsPerLine in
  let rowPred := int32 (query_start + laneRow) <? num_queries p in
  if rowPred then
    fun r =>
      if r =? int32 (query_start + laneRow)
      then computeDelta_value warp_id lane_id else delta_buf r
  else delta_buf.

(** [p.delta_ptr] after the block has run [computeDelta]. *)
Definition computeDelta (delta_buf : Z -> R) : Z -> R :=
  fold_left computeDelta_thread (thread_ids K) delta_buf.

End ComputeDelta.

(** The first phase of [kernel]: "Computes (dO*out).sum(-1) and writes it
    to [p.delta_ptr]". *)
Definition kernel_computeDelta (K : KernelConfig) (p : Params) (T : Tensors)
  (delta_buf : Z -> R) : Z -> R :=
  if kKernelComputesDelta K then
    let kOptimalElements := Z.quot 128 (sizeof_bits (scalar_t K)) in
    if Z.rem (head_dim_value p) kOptimalElements =? 0 then
      fold_left
        (fun d query_start =>
           computeDelta K kOptimalElements p T query_start d)
        (for_range 0 (num_queries p) (kBlockSizeI K)) delta_buf
    else
      fold_left (fun d query_start => computeDelta K 1 p T query_start d)
        (for_range 0 (num_queries p) (kBlockSizeI K)) delta_buf
  else delta_buf.

(** ** Concrete configurations and problems

    Used to instantiate the properties below. *)

(** A half-precision kernel for Sm80 compiled for head dimensions up to 64,
    with and without dropout. *)
Definition Sm80_f16_k64 : KernelConfig :=
  {| ArchTag_ := 80; scalar_t__ := Float16; kIsAligned_ := true;
     kApplyDropout := false; kMaxK_ := 64; kMinimumAlignment := 4;
     ThreadK := 32 |}.

Definition Sm80_f16_k64_dropout : KernelConfig :=
  {| ArchTag_ := 80; scalar_t__ := Float16; kIsAligned_ := true;
     kApplyDropout := true; kMaxK_ := 64; kMinimumAlignment := 4;
     ThreadK := 32 |}.

(** A half-precision kernel for Sm50 with the default [kMaxK_], that is
    [std::numeric_limits<int>::max()]. *)
Definition Sm50_f16_default : KernelConfig :=
  {| ArchTag_ := 50; scalar_t__ := Float16; kIsAligned_ := true;
     kApplyDropout := false; kMaxK_ := INT32_MAX; kMinimumAlignment := 1;
     ThreadK := 8 |}.

(** A problem descriptor given by its dimensions, its causal flag, its
    softmax scale and its dropout probability; the pointers are aligned,
    there is no bias and no bias gradient. *)
Definition make_params (num_batches num_heads num_queries num_keys
  head_dim head_dim_value : Z) (causal : bool) (scale dropout_prob : R) :
  Params :=
  {| query_ptr := 4096; key_ptr := 8192; value_ptr := 12288; bias_ptr := 0;
     output_ptr := 16384; grad_output_ptr := 20480; grad_bias_ptr := 0;
     scale := scale; head_dim := head_dim; head_dim_value := head_dim_value;
     num_queries := num_queries; num_keys := num_keys;
     num_heads := num_heads; causal := causal;
     rng_seed := 42; rng_offset := 0;
     dropout_batch_head_rng_offset := 0; dropout_prob := dropout_prob;
     q_strideH := head_dim; k_strideH := head_dim;
     v_strideH := head_dim_value; lse_strideM := 8 * num_queries;
     num_batches := num_batches |}.

(** The same descriptor with a bias and a bias gradient tensor. *)
Definition with_bias (p : Params) : Params :=
  {| query_ptr := query_ptr p; key_ptr := key_ptr p;
     value_ptr := value_ptr p; bias_ptr := 24576;
     output_ptr := output_ptr p; grad_output_ptr := grad_output_ptr p;
     grad_bias_ptr := 28672; scale := scale p;
     head_dim := head_dim p; head_dim_value := head_dim_value p;
     num_queries := num_queries p; num_keys := num_keys p;
     num_heads := num_heads p; causal := causal p;
     rng_seed := rng_seed p; rng_offset := rng_offset p;
     dropout_batch_head_rng_offset := dropout_batch_head_rng_offset p;
     dropout_prob := dropout_prob p;
     q_strideH := q_strideH p; k_strideH := k_strideH p;
     v_strideH := v_strideH p; lse_strideM := lse_strideM p;
     num_batches := num_batches p |}.

(** Tensors whose entries are all equal, per tensor. *)
Definition constant_tensors (q k v b lse o dO d : R) : Tensors :=
  {| query := fun _ _ => q; key := fun _ _ => k; value := fun _ _ => v;
     bias := fun _ _ => b; logsumexp := fun _ => lse;
     output := fun _ _ => o; grad_output := fun _ _ => dO;
     delta := fun _ => d |}.

(** ** The reference softmax

    The quantities that the spec compares the recomputed probabilities
    with, written from its words: the raw score of a (query, key) pair is
    the scaled dot product of the query and key rows plus the bias, if
    there is one, and the reference softmax normalises the exponentials of
    the raw scores of a query row over all keys. *)
Definition reference_raw_score (p : Params) (T : Tensors) (i j : Z) : R :=
  (scale p * sum_upto (head_dim p) (fun k => query T i k * key T j k) +
   (if bias_ptr p =? 0 then 0 else bias T i j))%R.

Definition reference_softmax (p : Params) (T : Tensors) (i j : Z) : R :=
  (exp (reference_raw_score p T i j) /
   sum_upto (num_keys p) (fun j' => exp (reference_raw_score p T i j')))%R.

(** A problem with one query, one key and head dimensions 1, with a bias
    and a bias gradient, and softmax scale 2.  The query and the key are 0
    and the log-normalizer is 0, so the probability is [exp 0 = 1]; the
    value and the output gradient are 1, the row delta is 0. *)
Definition bias_example_params : Params :=
  with_bias (make_params 1 1 1 1 1 1 false 2 0).

Definition bias_example_tensors : Tensors :=
  constant_tensors 0 0 1 0 0 0 1 0.

Definition bias_example_result : BlockResult :=
  processBlockIJ Sm80_f16_k64 (fun _ _ _ => 1%R) false
    bias_example_params bias_example_tensors 0 0
    (rng_state_init bias_example_params) (fun _ => 0%R) clear clear.

(** ** What [computeDelta] is expected to compute

    The contribution of the pipeline stage [iter] of a thread to its
    [delta_value]: the products of the elements that the stage loads, which
    are the elements of the row from the column [col] on when the predicate
    [valid] of the stage holds. *)
Definition delta_stage (kElementsPerAccess : Z) (T : Tensors)
  (row col : Z) (valid : bool) : R :=
  sum_upto kElementsPerAccess
    (fun i => GlobalLoad (output T) row col valid i *
              GlobalLoad (grad_output T) row col valid i)%R.

(** The row delta of the spec: the sum over the value head dimension of
    output element x output-gradient element. *)
Definition reference_delta (p : Params) (T : Tensors) (row : Z) : R :=
  sum_upto (head_dim_value p)
    (fun c => output T row c * grad_output T row c)%R.

(** The predicate of the pipeline stage [j] of a thread of [computeDelta]
    whose row predicate is [rowPred] and whose first column is
    [laneFirstCol]. *)
Definition stage_pred (K : KernelConfig) (E : Z) (p : Params)
  (laneFirstCol : Z) (rowPred : bool) (j : Z) : bool :=
  rowPred && (laneFirstCol + j * E * kNumThreadsPerLine K <? head_dim_value p).

(** The registers of the thread when the stage [j] has been loaded and the
    stages before it have been accumulated. *)
Definition pipeline_inv (K : KernelConfig) (E : Z) (p : Params) (T : Tensors)
  (row laneFirstCol : Z) (rowPred : bool) (j : Z) (s : DeltaRegs) : Prop :=
  pred s = stage_pred K E p laneFirstCol rowPred j /\
  grad_output_col s = laneFirstCol + (j + 1) * E * kNumThreadsPerLine K /\
  output_col s = laneFirstCol + (j + 1) * E * kNumThreadsPerLine K /\
  (forall i, frag_output s (Z.rem j 2) i =
             GlobalLoad (output T) row
               (laneFirstCol + j * E * kNumThreadsPerLine K)
               (stage_pred K E p laneFirstCol rowPred j) i) /\
  (forall i, frag_grad_output s (Z.rem j 2) i =
             GlobalLoad (grad_output T) row
               (laneFirstCol + j * E * kNumThreadsPerLine K)
               (stage_pred K E p laneFirstCol rowPred j) i) /\
  delta_value s =
  sum_upto j (fun it =>
    delta_stage E T row (laneFirstCol + it * E * kNumThreadsPerLine K)
      (stage_pred K E p laneFirstCol rowPred it)).

(** ** What the dropout mask is expected to be

    The entry of the mask for the draw found at [position] of the stream of
    the generator [s]: [1 / (1 - p)] if the draw exceeds the dropout
    probability, 0 otherwise. *)
Definition mask_of_draw (stream : Z -> Z -> Z -> R) (p : Params)
  (s : curandStatePhilox4_32_10_t) (position : Z) : R :=
  (dropout_scale p *
   (if Rgt_dec (stream (philox_seed s) (philox_subsequence s) position)
         (dropout_prob p)
    then 1 else 0))%R.

(** The kernel with the same template arguments, without dropout. *)
Definition without_dropout (K : KernelConfig) : KernelConfig :=
  {| ArchTag_ := ArchTag_ K; scalar_t__ := scalar_t__ K;
     kIsAligned_ := kIsAligned_ K; kApplyDropout := false;
     kMaxK_ := kMaxK_ K; kMinimumAlignment := kMinimumAlignment K;
     ThreadK := ThreadK K |}.

(** A problem with 16 heads and 16384 queries and keys, with dropout: the
    attention matrix of one batch has [2 ^ 32] entries. *)
Definition long_sequence_params : Params :=
  make_params 2 16 16384 16384 64 64 false 1 (1 / 2).

(** The position in the random stream that the interface promises for the
    entry [(query_row, key_column)] of the block [(batch_id, head_id)],
    relative to the offset supplied by the host. *)
Definition reference_stream_position (p : Params)
  (batch_id head_id query_row key_column : Z) : Z :=
  batch_id * (num_heads p * num_queries p * num_keys p) +
  head_id * (num_queries p * num_keys p) +
  query_row * num_keys p + key_column.

(** ** What the scheduler is expected to guarantee

    A call of [processBlockIJ] starts inside the problem, and takes the
    path without bounds checks only for a tile that lies entirely inside
    the problem. *)
Definition call_in_bounds (K : KernelConfig) (p : Params) (c : BlockCall) :
  Prop :=
  0 <= call_query_start c < num_queries p /\
  0 <= call_key_start c < num_keys p /\
  (call_skipBoundsChecks c = true ->
   call_query_start c + kBlockSizeI K <= num_queries p /\
   call_key_start c + kBlockSizeJ K <= num_keys p).

(** Two sets of tensors that agree on the declared shapes of the problem:
    [Mq] rows of [K] columns for the query, [Mk] rows for the key and the
    value ([Kv] columns), [Mq] x [Mk] for the bias, [Mq] entries for the
    log-normalizer and the row delta, [Mq] x [Kv] for the output
    gradient. *)
Definition tensors_agree (p : Params) (T T' : Tensors) : Prop :=
  (forall i k, 0 <= i < num_queries p -> 0 <= k < head_dim p ->
               query T i k = query T' i k) /\
  (forall j k, 0 <= j < num_keys p -> 0 <= k < head_dim p ->
               key T j k = key T' j k) /\
  (forall j c, 0 <= j < num_keys p -> 0 <= c < head_dim_value p ->
               value T j c = value T' j c) /\
  (forall i j, 0 <= i < num_queries p -> 0 <= j < num_keys p ->
               bias T i j = bias T' i j) /\
  (forall i, 0 <= i < num_queries p -> logsumexp T i = logsumexp T' i) /\
  (forall i c, 0 <= i < num_queries p -> 0 <= c < head_dim_value p ->
               grad_output T i c = grad_output T' i c) /\
  (forall i, 0 <= i < num_queries p -> delta T i = delta T' i).

(** ** The accumulation flags of [processBlockIJ] and the prefetch

    [isFirstQuery] and [isLastQuery] decide when the dK and dV accumulators
    of a key tile are cleared and when they are written out; [isFirst] and
    [isLast] of the GradQ matmul do the same for the dQ accumulator of a
    query tile. *)
Definition isFirstQuery (p : Params) (query_start key_start : Z) : bool :=
  (query_start =? 0) || (causal p && (query_start <=? key_start)).

Definition isLastQuery (K : KernelConfig) (p : Params)
  (query_start key_start : Z) : bool :=
  let next_key := snd (incrIteration K p query_start key_start) in
  negb (next_key =? key_start).

Definition MatmulGradQ_isFirst (key_start : Z) : bool := key_start =? 0.

Definition MatmulGradQ_isLast (K : KernelConfig) (p : Params)
  (query_start key_start : Z) : bool :=
  let next_query := fst (incrIteration K p (num_queries p) key_start) in
  let next_key := snd (incrIteration K p (num_queries p) key_start) in
  (causal p && (next_query >? query_start)) || (next_key >=? num_keys p).

(** [prologueQkNextIteration] returns at once when the tile it is asked to
    prefetch starts outside the problem; [true] when it issues the loads. *)
Definition prologueQkNextIteration_loads (p : Params)
  (query_start key_start : Z) : bool :=
  negb ((query_start >=? num_queries p) || (key_start >=? num_keys p)).

(** ** What the scheduler is expected to enumerate

    One double loop over the key tiles and, for each, over the query tiles
    from [getQueryStart] on; a tile is full when it lies entirely inside
    the problem. *)
Definition tile_is_full (K : KernelConfig) (p : Params)
  (query_start key_start : Z) : bool :=
  (query_start + kBlockSizeI K <=? num_queries p) &&
  (key_start + kBlockSizeJ K <=? num_keys p).

Definition key_tile_calls (K : KernelConfig) (p : Params) (key_start : Z) :
  list BlockCall :=
  map (fun q => Build_BlockCall (tile_is_full K p q key_start) q key_start)
    (for_range (getQueryStart K p key_start) (num_queries p) (kBlockSizeI K)).

Definition all_tile_calls (K : KernelConfig) (p : Params) : list BlockCall :=
  flat_map (key_tile_calls K p) (for_range 0 (num_keys p) (kBlockSizeJ K)).

(** The pair (query, key) lies in the tile of the call [c]. *)
Definition in_tile (K : KernelConfig) (c : BlockCall) (i j : Z) : Prop :=
  call_query_start c <= i < call_query_start c + kBlockSizeI K /\
  call_key_start c <= j < call_key_start c + kBlockSizeJ K.

(** The calls of the scheduler, by their coordinates. *)
Definition scheduled_tile (K : KernelConfig) (p : Params) (c : BlockCall) :
  Prop :=
  (kBlockSizeJ K | call_key_start c) /\
  0 <= call_key_start c < num_keys p /\
  (kBlockSizeI K | call_query_start c) /\
  getQueryStart K p (call_key_start c) <= call_query_start c
    < num_queries p /\
  call_skipBoundsChecks c =
    tile_is_full K p (call_query_start c) (call_key_start c).

(** The order in which the scheduler visits the tiles: by key tile, then
    by query tile. *)
Definition call_lt (c c' : BlockCall) : Prop :=
  call_key_start c < call_key_start c' \/
  (call_key_start c = call_key_start c' /\
   call_query_start c < call_query_start c').

Definition scheduler_example_params : Params :=
  make_params 1 1 200 300 64 64 true 1 0.

(** ** [GmemTile]

    "Helper functions to efficient store/load RF to gmem": every thread of
    a block keeps its accumulator fragment, as it is, in a tile of global
    memory, 128 bits at a time.  [kNumThreads] and [kElements] stand for
    the template argument [kNumThreads] and for [FragmentType::kElements];
    the global memory of [float] that [ptr] points into is a function from
    the index of an element to its value, and so is a fragment.
    [global_load] and [global_store] of cutlass, called with a true
    predicate, read and write the [AccessType::kElements] consecutive
    elements at their address. *)
Module GmemTile.

Definition AccessType_kElements : Z := 4.

Definition kStride (kNumThreads : Z) : Z :=
  int32 (kNumThreads * AccessType_kElements).

Definition kNumIters (kElements : Z) : Z :=
  Z.quot kElements AccessType_kElements.

Definition kElementsStored (kNumThreads kElements : Z) : Z :=
  int32 (kNumThreads * kElements).

Definition load (kNumThreads kElements : Z) (mem : Z -> R) (ptr : Z)
  (fragment : Z -> R) (thread_id : Z) : Z -> R :=
  fold_left
    (fun fragment i =>
       let gmem_ptr :=
         ptr + thread_id * AccessType_kElements
         + int32 (i * kStride kNumThreads) in
       let sub_fragment := fun j => mem (gmem_ptr + j) in
       fold_left
         (fun fragment j =>
            fun e =>
              if e =? i * AccessType_kElements + j then sub_fragment j
              else fragment e)
         (for_range 0 AccessType_kElements 1) fragment)
    (for_range 0 (kNumIters kElements) 1) fragment.

Definition store (kNumThreads kElements : Z) (mem : Z -> R) (ptr : Z)
  (fragment : Z -> R) (thread_id : Z) : Z -> R :=
  fold_left
    (fun mem i =>
       let gmem_ptr :=
         ptr + thread_id * AccessType_kElements
         + int32 (i * kStride kNumThreads) in
       let sub_fragment :=
         fold_left
           (fun sub_fragment j =>
              fun j' =>
                if j' =? j then fragment (i * AccessType_kElements + j)
                else sub_fragment j')
           (for_range 0 AccessType_kElements 1) (fun _ => 0%R) in
       fun a =>
         if (gmem_ptr <=? a) && (a <? gmem_ptr + AccessType_kElements)
         then sub_fragment (a - gmem_ptr) else mem a)
    (for_range 0 (kNumIters kElements) 1) mem.

(** The memory after each thread of the block has stored its fragment,
    [fragments thread_id]. *)
Definition store_block (kNumThreads kElements : Z) (mem : Z -> R) (ptr : Z)
  (fragments : Z -> Z -> R) : Z -> R :=
  fold_left
    (fun mem thread_id =>
       store kNumThreads kElements mem ptr (fragments thread_id) thread_id)
    (map Z.of_nat (seq 0 (Z.to_nat kNumThreads))) mem.

End GmemTile.

(** The fragments of a block of 128 threads with 32 accumulators each:
    the thread [t] holds the values [32 * t + e]. *)
Definition example_fragments : Z -> Z -> R :=
  fun thread_id e => IZR (32 * thread_id + e).

(** ** Launch configuration *)

Definition int8 (z : Z) : Z := wrap_signed 8 z.
Definition int16 (z : Z) : Z := wrap_signed 16 z.

Definition getWarpsPerSm (scalar_t : scalar_type)
  (Arch_kMinComputeCapability : Z) : Z :=
  let is_half := negb (is_same scalar_t Float32) in
  if Arch_kMinComputeCapability >=? 80 then (if is_half then 12 else 8)
  else 8.

Definition kMinBlocksPerSm (K : KernelConfig) : Z :=
  Z.quot (getWarpsPerSm (scalar_t K) (ArchTag_ K)) (kNumWarpsPerBlock K).

Record dim3 : Type := { dim_x : Z; dim_y : Z; dim_z : Z }.

Definition getBlocksGrid (p : Params) : dim3 :=
  {| dim_x := 1; dim_y := num_heads p; dim_z := num_batches p |}.

Definition getThreadsGrid (K : KernelConfig) : dim3 :=
  {| dim_x := kWarpSize; dim_y := kNumWarpsPerBlock K; dim_z := 1 |}.

(** [get_lane_id], [get_warp_id] and [get_thread_id] of a thread
    [threadIdx] in a block of dimensions [blockDim]; they return an
    [int8_t], an [int8_t] and an [int16_t]. *)
Definition get_lane_id (threadIdx : dim3) : Z := int8 (dim_x threadIdx).
Definition get_warp_id (threadIdx : dim3) : Z := int8 (dim_y threadIdx).
Definition get_thread_id (blockDim threadIdx : dim3) : Z :=
  int16 (dim_x threadIdx + dim_y threadIdx * dim_x blockDim).

(** [num_threads] of [processBlockIJ]:
    [blockDim.x * blockDim.y * blockDim.z], an [int]. *)
Definition num_threads (blockDim : dim3) : Z :=
  int32 (int32 (dim_x blockDim * dim_y blockDim) * dim_z blockDim).

(** ** The workspace pointers and the tiles of the accumulators *)

(** The pointers [workspace] (which is also [workspace_gk]),
    [workspace_gv] and [workspace_gq] of the descriptor, as indices of
    elements of [output_accum_t]. *)
Record WorkspacePtrs : Type := {
  workspace_gk : Z;
  workspace_gv : Z;
  workspace_gq : Z
}.

(** The end of [advance_to_block]: the pointers of the block
    [(batch_id, head_id)], or [None] when [workspace] is set to
    [nullptr]. *)
Definition advance_to_block_workspace (K : KernelConfig) (p : Params)
  (workspace batch_id head_id : Z) : option WorkspacePtrs :=
  if kNeedsAccumGradQ K || kNeedsAccumGradK K || kNeedsAccumGradV K then
    let workspace :=
      workspace +
      int64 (int64 (int64 (batch_id * num_heads p) + head_id) *
             workspace_strideBH K p) in
    let workspace_gv := workspace + workspace_elements_gk K p in
    let workspace_gq := workspace_gv + workspace_elements_gv K p in
    Some {| workspace_gk := workspace;
            workspace_gv := workspace_gv;
            workspace_gq := workspace_gq |}
  else None.

(** Modelled from the spec: [Mma::FragmentC::kElements] of the GradQ matmul
    is defined by cutlass, which is not among the sources.  The spec calls
    the gradient accumulators "fixed-size tiles": the fragment of a thread
    is taken to be its share of the [kBlockSizeI x kBlockSizeJ]
    accumulators of the threadblock tile, divided evenly between the
    threads of the block (a warp tile of 32 x 32 over 32 lanes). *)
Definition MatmulGradQ_FragmentC_kElements (K : KernelConfig) : Z :=
  Z.quot (kBlockSizeI K * kBlockSizeJ K) (kNumThreads K).

(** [AccumTileGmem::kElementsStored]: the three gradient matmuls all use
    [MatmulGradQ::AccumTileGmem]. *)
Definition AccumTileGmem_kElementsStored (K : KernelConfig) : Z :=
  GmemTile.kElementsStored (kNumThreads K) (MatmulGradQ_FragmentC_kElements K).

(** The column loops of the gradient matmuls: [col] advances by
    [ThreadblockShape::kN]. *)
Definition MatmulGradV_cols (K : KernelConfig) (p : Params) : list Z :=
  for_range 0 (if kOutputInRF K then 1 else head_dim_value p) (kBlockSizeI K).

Definition MatmulGradQ_cols (K : KernelConfig) (p : Params) : list Z :=
  for_range 0 (head_dim p) (kBlockSizeJ K).

Definition MatmulGradK_cols (K : KernelConfig) (p : Params) : list Z :=
  for_range 0 (if kOutputInRF K then 1 else head_dim p) (kBlockSizeI K).

(** [gmem_tile.ptr] in the three matmuls. *)
Definition MatmulGradV_gmem_tile (K : KernelConfig) (w : WorkspacePtrs)
  (col : Z) : Z :=
  let storage_id := Z.quot col (kBlockSizeI K) in
  workspace_gv w + int32 (storage_id * AccumTileGmem_kElementsStored K).

Definition MatmulGradQ_gmem_tile (K : KernelConfig) (p : Params)
  (w : WorkspacePtrs) (query_start col : Z) : Z :=
  let col_id := Z.quot col (kBlockSizeJ K) in
  let storage_id :=
    int32 (int64 (col_id +
                  int64 (Z.quot query_start (kBlockSizeI K) *
                         ceil_div int32 (head_dim p) (kBlockSizeJ K)))) in
  workspace_gq w + int32 (storage_id * AccumTileGmem_kElementsStored K).

Definition MatmulGradK_gmem_tile (K : KernelConfig) (w : WorkspacePtrs)
  (col : Z) : Z :=
  let storage_id := Z.quot col (kBlockSizeI K) in
  workspace_gk w + int32 (storage_id * AccumTileGmem_kElementsStored K).

(** Whether a call of [processBlockIJ] loads the accumulator fragment from
    its tile before the matmul, and whether it stores it there after. *)
Definition MatmulGradV_loads (K : KernelConfig) (p : Params)
  (query_start key_start : Z) : bool :=
  negb (kOutputInRF K) &&
  negb (isFirstQuery p query_start key_start || negb (kNeedsAccumGradV K)).

Definition MatmulGradV_stores (K : KernelConfig) (p : Params)
  (query_start key_start : Z) : bool :=
  negb (kOutputInRF K) &&
  (kNeedsAccumGradV K && negb (isLastQuery K p query_start key_start)).

Definition MatmulGradK_loads (K : KernelConfig) (p : Params)
  (query_start key_start : Z) : bool :=
  negb (kOutputInRF K) &&
  negb (isFirstQuery p query_start key_start || negb (kNeedsAccumGradK K)).

Definition MatmulGradK_stores (K : KernelConfig) (p : Params)
  (query_start key_start : Z) : bool :=
  negb (kOutputInRF K) &&
  (kNeedsAccumGradK K && negb (isLastQuery K p query_start key_start)).

Definition MatmulGradQ_loads (K : KernelConfig) (key_start : Z) : bool :=
  negb (MatmulGradQ_isFirst key_start || negb (kNeedsAccumGradQ K)).

Definition MatmulGradQ_stores (K : KernelConfig) (p : Params)
  (query_start key_start : Z) : bool :=
  kNeedsAccumGradQ K && negb (MatmulGradQ_isLast K p query_start key_start).

(** The problems whose workspace element counts, products of two
    [int32_t], do not overflow. *)
Definition workspace_in_range (p : Params) : Prop :=
  0 <= num_queries p /\ 0 <= num_keys p /\
  0 <= head_dim p /\ 0 <= head_dim_value p /\
  (num_keys p + 128) * (head_dim p + 128) < 2 ^ 31 /\
  (num_keys p + 128) * (head_dim_value p + 128) < 2 ^ 31 /\
  (num_queries p + 128) * (head_dim p + 128) < 2 ^ 31.

(** A problem of 2 batches and 3 heads, 200 queries and 300 keys, with
    head dimensions 64, for the kernel that spills dK and dV. *)
Definition workspace_example_params : Params :=
  make_params 2 3 200 300 64 64 false 1 0.

(** The cell [(m, n)] of the mask of the block at
    [(query_start, key_start)] is inside the extent of the block, and the
    pair it stands for is inside the problem. *)
Definition mask_cell_in_problem (K : KernelConfig) (skipBoundsChecks : bool)
  (p : Params) (query_start key_start m n : Z) : Prop :=
  1 <= num_queries_in_block K skipBoundsChecks p query_start
    <= kBlockSizeI K /\
  1 <= num_keys_in_block K skipBoundsChecks p key_start <= kBlockSizeJ K /\
  0 <= m < num_keys_in_block K skipBoundsChecks p key_start /\
  0 <= n < num_queries_in_block K skipBoundsChecks p query_start /\
  0 <= query_start /\ 0 <= key_start /\
  query_start + n < num_queries p /\ key_start + m < num_keys p.

(** A problem of 2 batches and 3 heads with 200 queries and 300 keys, with
    dropout probability 1/2. *)
Definition dropout_example_params : Params :=
  make_params 2 3 200 300 64 64 false 1 (1 / 2).

(** The descriptor with another value head dimension. *)
Definition set_head_dim_value (p : Params) (v : Z) : Params :=
  {| query_ptr := query_ptr p; key_ptr := key_ptr p;
     value_ptr := value_ptr p; bias_ptr := bias_ptr p;
     output_ptr := output_ptr p; grad_output_ptr := grad_output_ptr p;
     grad_bias_ptr := grad_bias_ptr p; scale := scale p;
     head_dim := head_dim p; head_dim_value := v;
     num_queries := num_queries p; num_keys := num_keys p;
     num_heads := num_heads p; causal := causal p;
     rng_seed := rng_seed p; rng_offset := rng_offset p;
     dropout_batch_head_rng_offset := dropout_batch_head_rng_offset p;
     dropout_prob := dropout_prob p;
     q_strideH := q_strideH p; k_strideH := k_strideH p;
     v_strideH := v_strideH p; lse_strideM := lse_strideM p;
     num_batches := num_batches p |}.

(** A problem whose value head dimension, 200, exceeds the bound 128 of
    the kernel. *)
Definition wide_value_params : Params :=
  make_params 1 1 4 4 64 200 false 1 0.

(** ** The accumulators of [kernel]: registers, workspace and outputs *)

(** The accumulator fragments of the threads of a block: the element [e]
    of the fragment of the thread [t]. *)
Definition Fragments : Type := Z -> Z -> R.

Definition clear_fragments : Fragments := fun _ _ => 0%R.

(** Which accumulator of the threadblock tile a thread holds, and in which
    element of its fragment, is decided by the warp-level matrix multiply
    of cutlass, which is not among the sources.  A layout gives the
    coordinates [(m, n)] of the element [e] of the thread [t], and for the
    coordinates [(m, n)] the thread and the element that hold them. *)
Record FragmentLayout : Type := {
  fragment_coord : Z -> Z -> Z * Z;
  fragment_owner : Z -> Z -> Z * Z
}.

Definition tile_of_fragments (L : FragmentLayout) (frags : Fragments) :
  Tile :=
  fun m n => frags (fst (fragment_owner L m n)) (snd (fragment_owner L m n)).

Definition fragments_of_tile (L : FragmentLayout) (tile : Tile) :
  Fragments :=
  fun t e => tile (fst (fragment_coord L t e)) (snd (fragment_coord L t e)).

(** Every accumulator of the [kM x kN] tile is held by a thread of the
    block, in an element of its fragment. *)
Definition layout_covers (kNumThreads kElements kM kN : Z)
  (L : FragmentLayout) : Prop :=
  forall m n, 0 <= m < kM -> 0 <= n < kN ->
    0 <= fst (fragment_owner L m n) < kNumThreads /\
    0 <= snd (fragment_owner L m n) < kElements /\
    fragment_coord L (fst (fragment_owner L m n))
      (snd (fragment_owner L m n)) = (m, n).

(** The layouts of [MatmulGradV::Mma::FragmentC],
    [MatmulGradK::Mma::FragmentC] and [MatmulGradQ::Mma::FragmentC]. *)
Record MmaLayouts : Type := {
  layout_gradV : FragmentLayout;
  layout_gradK : FragmentLayout;
  layout_gradQ : FragmentLayout
}.

(** The accumulators of the three matmuls cover their threadblock tiles:
    [kBlockSizeJ x kBlockSizeI] for GradV and GradK,
    [kBlockSizeI x kBlockSizeJ] for GradQ. *)
Definition layouts_cover (K : KernelConfig) (L : MmaLayouts) : Prop :=
  layout_covers (kNumThreads K) (MatmulGradQ_FragmentC_kElements K)
    (kBlockSizeJ K) (kBlockSizeI K) (layout_gradV L) /\
  layout_covers (kNumThreads K) (MatmulGradQ_FragmentC_kElements K)
    (kBlockSizeJ K) (kBlockSizeI K) (layout_gradK L) /\
  layout_covers (kNumThreads K) (MatmulGradQ_FragmentC_kElements K)
    (kBlockSizeI K) (kBlockSizeJ K) (layout_gradQ L).

(** A layout: the accumulators of the tile, row after row, are dealt to
    the threads [kElements] at a time. *)
Definition row_major_layout (kElements kN : Z) : FragmentLayout :=
  {| fragment_coord := fun t e =>
       ((t * kElements + e) / kN, (t * kElements + e) mod kN);
     fragment_owner := fun m n =>
       ((m * kN + n) / kElements, (m * kN + n) mod kElements) |}.

Definition row_major_layouts (K : KernelConfig) : MmaLayouts :=
  {| layout_gradV :=
       row_major_layout (MatmulGradQ_FragmentC_kElements K) (kBlockSizeI K);
     layout_gradK :=
       row_major_layout (MatmulGradQ_FragmentC_kElements K) (kBlockSizeI K);
     layout_gradQ :=
       row_major_layout (MatmulGradQ_FragmentC_kElements K)
         (kBlockSizeJ K) |}.

(** [mma(gemm_k_iterations, frags, iterator_B, frags)] on the fragments of
    the block, [matmul] being what it does to the threadblock tile. *)
Definition mma_fragments (L : FragmentLayout) (matmul : Tile -> Tile)
  (frags : Fragments) : Fragments :=
  fragments_of_tile L (matmul (tile_of_fragments L frags)).

(** What [kernel] reads and writes besides its inputs: the shared array
    [di] and the shared tile [zij], the fragments of [output_frags], the
    global memory of [output_accum_t] that [p.workspace] points into, and
    the tensors that [grad_value_ptr], [grad_key_ptr], [grad_query_ptr] and
    [grad_bias_ptr] point to. *)
Record KernelState : Type := {
  smem_di : Z -> R;
  smem_zij : Tile;
  output_frags_gradV : Fragments;
  output_frags_gradK : Fragments;
  gmem_workspace : Z -> R;
  gmem_grad_value : Tile;
  gmem_grad_key : Tile;
  gmem_grad_query : Tile;
  gmem_grad_bias : Tile
}.

Definition set_smem (s : KernelState) (di : Z -> R) (zij : Tile) :
  KernelState :=
  {| smem_di := di; smem_zij := zij;
     output_frags_gradV := output_frags_gradV s;
     output_frags_gradK := output_frags_gradK s;
     gmem_workspace := gmem_workspace s;
     gmem_grad_value := gmem_grad_value s;
     gmem_grad_key := gmem_grad_key s;
     gmem_grad_query := gmem_grad_query s;
     gmem_grad_bias := gmem_grad_bias s |}.

Definition set_output_frags (s : KernelState) (gradV gradK : Fragments) :
  KernelState :=
  {| smem_di := smem_di s; smem_zij := smem_zij s;
     output_frags_gradV := gradV; output_frags_gradK := gradK;
     gmem_workspace := gmem_workspace s;
     gmem_grad_value := gmem_grad_value s;
     gmem_grad_key := gmem_grad_key s;
     gmem_grad_query := gmem_grad_query s;
     gmem_grad_bias := gmem_grad_bias s |}.

Definition set_gmem_workspace (s : KernelState) (workspace : Z -> R) :
  KernelState :=
  {| smem_di := smem_di s; smem_zij := smem_zij s;
     output_frags_gradV := output_frags_gradV s;
     output_frags_gradK := output_frags_gradK s;
     gmem_workspace := workspace;
     gmem_grad_value := gmem_grad_value s;
     gmem_grad_key := gmem_grad_key s;
     gmem_grad_query := gmem_grad_query s;
     gmem_grad_bias := gmem_grad_bias s |}.

Definition set_gmem_grad_value (s : KernelState) (grad_value : Tile) :
  KernelState :=
  {| smem_di := smem_di s; smem_zij := smem_zij s;
     output_frags_gradV := output_frags_gradV s;
     output_frags_gradK := output_frags_gradK s;
     gmem_workspace := gmem_workspace s;
     gmem_grad_value := grad_value;
     gmem_grad_key := gmem_grad_key s;
     gmem_grad_query := gmem_grad_query s;
     gmem_grad_bias := gmem_grad_bias s |}.

Definition set_gmem_grad_key (s : KernelState) (grad_key : Tile) :
  KernelState :=
  {| smem_di := smem_di s; smem_zij := smem_zij s;
     output_frags_gradV := output_frags_gradV s;
     output_frags_gradK := output_frags_gradK s;
     gmem_workspace := gmem_workspace s;
     gmem_grad_value := gmem_grad_value s;
     gmem_grad_key := grad_key;
     gmem_grad_query := gmem_grad_query s;
     gmem_grad_bias := gmem_grad_bias s |}.

Definition set_gmem_grad_query (s : KernelState) (grad_query : Tile) :
  KernelState :=
  {| smem_di := smem_di s; smem_zij := smem_zij s;
     output_frags_gradV := output_frags_gradV s;
     output_frags_gradK := output_frags_gradK s;
     gmem_workspace := gmem_workspace s;
     gmem_grad_value := gmem_grad_value s;
     gmem_grad_key := gmem_grad_key s;
     gmem_grad_query := grad_query;
     gmem_grad_bias := gmem_grad_bias s |}.

Definition set_gmem_grad_bias (s : KernelState) (grad_bias : Tile) :
  KernelState :=
  {| smem_di := smem_di s; smem_zij := smem_zij s;
     output_frags_gradV := output_frags_gradV s;
     output_frags_gradK := output_frags_gradK s;
     gmem_workspace := gmem_workspace s;
     gmem_grad_value := gmem_grad_value s;
     gmem_grad_key := gmem_grad_key s;
     gmem_grad_query := gmem_grad_query s;
     gmem_grad_bias := grad_bias |}.

(** [gmem_tile.load(fragment, thread_id)] and
    [gmem_tile.store(fragment, thread_id)] by the threads of the block,
    [ptr] being [gmem_tile.ptr]. *)
Definition gmem_tile_load (K : KernelConfig) (workspace : Z -> R) (ptr : Z)
  (frags : Fragments) : Fragments :=
  fun thread_id =>
    GmemTile.load (kNumThreads K) (MatmulGradQ_FragmentC_kElements K)
      workspace ptr (frags thread_id) thread_id.

Definition gmem_tile_store (K : KernelConfig) (workspace : Z -> R) (ptr : Z)
  (frags : Fragments) : Z -> R :=
  GmemTile.store_block (kNumThreads K) (MatmulGradQ_FragmentC_kElements K)
    workspace ptr frags.

(** [accumulateInGmem<MatmulT>(epilogue_smem, accum, output_it, first)],
    [kM x kN] being the threadblock tile of [MatmulT], [accum] the
    accumulators of the block by their coordinates in the tile, and
    [output_it] an iterator on [dest] built at [(row0, col0)] with the
    extent [(rows, cols)].

    Modelled from the spec: the epilogue and its output operator are
    cutlass code that is not among the sources.  The spec says that it,
    "given an accumulator tile and a destination location, writes it either
    as a fresh overwrite (when [first] is true) or as an in-place add
    (read-modify-write) otherwise"; the source selects the two with
    [ScaleType::Nothing] and [ScaleType::NoBetaScaling], both scales being
    1.  The iterator is predicated by its extent, and the epilogue walks
    the threadblock tile only. *)
Definition accumulateInGmem (kM kN : Z) (accum dest : Tile)
  (row0 col0 rows cols : Z) (first : bool) : Tile :=
  fun i j =>
    let r := i - row0 in
    let c := j - col0 in
    if (0 <=? r) && (r <? Z.min rows kM) &&
       (0 <=? c) && (c <? Z.min cols kN)
    then if first then accum r c else (accum r c + dest i j)%R
    else dest i j.

Section ProcessBlockIJ_outputs.

Variable K : KernelConfig.
Variable L : MmaLayouts.
Variable skipBoundsChecks : bool.
Variable p : Params.
Variable w : WorkspacePtrs.
Variable T : Tensors.
Variable query_start key_start : Z.

(** The shared tiles and the array [di] that the first part of
    [processBlockIJ] leaves. *)
Variable attn zij : Tile.
Variable di : Z -> R.

(** One turn of the loop on [col] of the GradV matmul. *)
Definition GradV_column (s : KernelState) (col : Z) : KernelState :=
  let gmem_tile := MatmulGradV_gmem_tile K w col in
  let gradV :=
    if negb (kOutputInRF K) then
      if isFirstQuery p query_start key_start || negb (kNeedsAccumGradV K)
      then clear_fragments
      else gmem_tile_load K (gmem_workspace s) gmem_tile
             (output_frags_gradV s)
    else output_frags_gradV s in
  let gradV :=
    mma_fragments (layout_gradV L)
      (MatmulGradV K skipBoundsChecks p T query_start attn zij col) gradV in
  let s := set_output_frags s gradV (output_frags_gradK s) in
  if negb (kOutputInRF K) then
    if kNeedsAccumGradV K && negb (isLastQuery K p query_start key_start)
    then
      set_gmem_workspace s
        (gmem_tile_store K (gmem_workspace s) gmem_tile gradV)
    else
      set_gmem_grad_value s
        (accumulateInGmem (kBlockSizeJ K) (kBlockSizeI K)
           (tile_of_fragments (layout_gradV L) gradV) (gmem_grad_value s)
           key_start col
           (num_keys_in_block K skipBoundsChecks p key_start)
           (head_dim_value p - col)
           (isFirstQuery p query_start key_start || kNeedsAccumGradV K))
  else s.

(** One turn of the loop on [col] of the GradQ matmul; [accum] is a
    fragment of its own, declared without a value and then cleared or
    loaded: the cleared fragment stands for what it holds before the
    load. *)
Definition GradQ_column (s : KernelState) (col : Z) : KernelState :=
  let isFirst := MatmulGradQ_isFirst key_start in
  let gmem_tile := MatmulGradQ_gmem_tile K p w query_start col in
  let accum :=
    if isFirst || negb (kNeedsAccumGradQ K) then clear_fragments
    else gmem_tile_load K (gmem_workspace s) gmem_tile clear_fragments in
  let accum :=
    mma_fragments (layout_gradQ L)
      (MatmulGradQ K skipBoundsChecks p T query_start key_start
         attn zij di col) accum in
  let isLast := MatmulGradQ_isLast K p query_start key_start in
  if kNeedsAccumGradQ K && negb isLast then
    set_gmem_workspace s
      (gmem_tile_store K (gmem_workspace s) gmem_tile accum)
  else
    set_gmem_grad_query s
      (accumulateInGmem (kBlockSizeI K) (kBlockSizeJ K)
         (tile_of_fragments (layout_gradQ L) accum) (gmem_grad_query s)
         query_start col
         (num_queries_in_block K skipBoundsChecks p query_start)
         (head_dim p - col)
         (isFirst || kNeedsAccumGradQ K)).

(** One turn of the loop on [col] of the GradK matmul. *)
Definition GradK_column (s : KernelState) (col : Z) : KernelState :=
  let gmem_tile := MatmulGradK_gmem_tile K w col in
  let gradK :=
    if negb (kOutputInRF K) then
      if isFirstQuery p query_start key_start || negb (kNeedsAccumGradK K)
      then clear_fragments
      else gmem_tile_load K (gmem_workspace s) gmem_tile
             (output_frags_gradK s)
    else output_frags_gradK s in
  let gradK :=
    mma_fragments (layout_gradK L)
      (MatmulGradK K skipBoundsChecks p T query_start key_start
         attn zij di col) gradK in
  let s := set_output_frags s (output_frags_gradV s) gradK in
  if negb (kOutputInRF K) then
    if kNeedsAccumGradK K && negb (isLastQuery K p query_start key_start)
    then
      set_gmem_workspace s
        (gmem_tile_store K (gmem_workspace s) gmem_tile gradK)
    else
      set_gmem_grad_key s
        (accumulateInGmem (kBlockSizeJ K) (kBlockSizeI K)
           (tile_of_fragments (layout_gradK L) gradK) (gmem_grad_key s)
           key_start col
           (num_keys_in_block K skipBoundsChecks p key_start)
           (head_dim p - col)
           (isFirstQuery p query_start key_start || kNeedsAccumGradK K))
  else s.

End ProcessBlockIJ_outputs.

(** [processBlockIJ] as [kernel] runs it: on the state that the steps
    before it left. *)
Definition processBlockIJ_run (K : KernelConfig) (L : MmaLayouts)
  (stream : Z -> Z -> Z -> R) (p : Params) (w : WorkspacePtrs) (T : Tensors)
  (s : KernelState) (c : BlockCall) : KernelState :=
  let skipBoundsChecks := call_skipBoundsChecks c in
  let query_start := call_query_start c in
  let key_start := call_key_start c in
  let di := loadDi K p T query_start (smem_di s) in
  let attn := attn_T K skipBoundsChecks p T query_start key_start in
  let zij :=
    generate_zij K stream skipBoundsChecks p query_start key_start
      (rng_state_init p) (smem_zij s) in
  let s := set_smem s di zij in
  let s :=
    fold_left
      (GradV_column K L skipBoundsChecks p w T query_start key_start
         attn zij)
      (MatmulGradV_cols K p) s in
  let s :=
    set_gmem_grad_bias s
      (store_grad_bias K skipBoundsChecks p T query_start key_start
         attn zij di (gmem_grad_bias s)) in
  let s :=
    fold_left
      (GradQ_column K L skipBoundsChecks p w T query_start key_start
         attn zij di)
      (MatmulGradQ_cols K p) s in
  fold_left
    (GradK_column K L skipBoundsChecks p w T query_start key_start
       attn zij di)
    (MatmulGradK_cols K p) s.

(** [writeFragsToGmem<skipBoundsChecks>]. *)
Definition writeFragsToGmem (K : KernelConfig) (L : MmaLayouts)
  (skipBoundsChecks : bool) (p : Params) (key_start : Z)
  (s : KernelState) : KernelState :=
  let num_keys_in_block :=
    num_keys_in_block K skipBoundsChecks p key_start in
  let s :=
    set_gmem_grad_value s
      (accumulateInGmem (kBlockSizeJ K) (kBlockSizeI K)
         (tile_of_fragments (layout_gradV L) (output_frags_gradV s))
         (gmem_grad_value s) key_start 0
         num_keys_in_block (head_dim_value p) true) in
  set_gmem_grad_key s
    (accumulateInGmem (kBlockSizeJ K) (kBlockSizeI K)
       (tile_of_fragments (layout_gradK L) (output_frags_gradK s))
       (gmem_grad_key s) key_start 0
       num_keys_in_block (head_dim p) true).

(** What [kernel] does after the row deltas, step by step:
    [output_frags.clear()], a call of [processBlockIJ], a call of
    [writeFragsToGmem]. *)
Inductive KernelStep : Type :=
| output_frags_clear
| call_processBlockIJ (c : BlockCall)
| call_writeFragsToGmem (skipBoundsChecks : bool) (key_start : Z).

(** The body of a turn of the loop of [kernel] on [key_start], [calls]
    being the calls of [processBlockIJ] that the inner loop makes. *)
Definition kernel_key_steps (K : KernelConfig) (skipBoundsChecks : bool)
  (key_start : Z) (calls : list BlockCall) : list KernelStep :=
  output_frags_clear :: map call_processBlockIJ calls ++
  (if kOutputInRF K then [call_writeFragsToGmem skipBoundsChecks key_start]
   else []).

(** The steps of [kernel], in order. *)
Definition kernel_steps (K : KernelConfig) (p : Params) : list KernelStep :=
  let key_end :=
    int32 (int64 (Z.quot (num_keys p) (kBlockSizeJ K) * kBlockSizeJ K)) in
  flat_map
    (fun key_start =>
       kernel_key_steps K true key_start (kernel_key_iteration K p key_start))
    (for_range 0 key_end (kBlockSizeJ K)) ++
  (* last (partial) key *)
  let key_start := for_range_exit 0 key_end (kBlockSizeJ K) in
  if negb (key_start =? num_keys p) then
    kernel_key_steps K false key_start (kernel_last_key K p key_start)
  else [].

Definition kernel_step (K : KernelConfig) (L : MmaLayouts)
  (stream : Z -> Z -> Z -> R) (p : Params) (w : WorkspacePtrs) (T : Tensors)
  (s : KernelState) (step : KernelStep) : KernelState :=
  match step with
  | output_frags_clear => set_output_frags s clear_fragments clear_fragments
  | call_processBlockIJ c => processBlockIJ_run K L stream p w T s c
  | call_writeFragsToGmem skipBoundsChecks key_start =>
      writeFragsToGmem K L skipBoundsChecks p key_start s
  end.

(** The state that [kernel] leaves, [T] holding the row deltas that it
    computed first and [s] being the state at that point. *)
Definition kernel_gradients (K : KernelConfig) (L : MmaLayouts)
  (stream : Z -> Z -> Z -> R) (p : Params) (w : WorkspacePtrs) (T : Tensors)
  (s : KernelState) : KernelState :=
  fold_left (kernel_step K L stream p w T) (kernel_steps K p) s.

(** The sum of [f c] over the calls of [l], in the order of the calls. *)
Definition sum_calls (f : BlockCall -> R) (l : list BlockCall) : R :=
  fold_left (fun acc c => (acc + f c)%R) l 0%R.

(** The place of the element [e] of the fragment of the thread [t] in a
    tile of the workspace, from [gmem_tile.ptr]. *)
Definition AccumTileGmem_offset (K : KernelConfig) (t e : Z) : Z :=
  t * 4 + e / 4 * (4 * kNumThreads K) + e mod 4.

(** The place in the workspace of the accumulator [(m, n)] of the tile at
    [ptr]. *)
Definition accumulator_address (K : KernelConfig) (L : FragmentLayout)
  (ptr m n : Z) : Z :=
  ptr + AccumTileGmem_offset K (fst (fragment_owner L m n))
          (snd (fragment_owner L m n)).

(** The shape that the turns of the three loops on [col] share: the
    fragments are cleared or loaded from the tile at [ptr], the matmul
    adds to them, and they are stored in the tile or written to [dest].
    The state is the fragments, the workspace and the destination. *)
Definition accum_column (K : KernelConfig) (L : FragmentLayout) (kM kN : Z)
  (in_rf is_first needs_accum is_last : bool) (matmul : Tile -> Tile)
  (ptr row0 col0 rows cols : Z)
  (st : Fragments * (Z -> R) * Tile) : Fragments * (Z -> R) * Tile :=
  let frags :=
    if negb in_rf then
      if is_first || negb needs_accum then clear_fragments
      else gmem_tile_load K (snd (fst st)) ptr (fst (fst st))
    else fst (fst st) in
  let frags := mma_fragments L matmul frags in
  if negb in_rf then
    if needs_accum && negb is_last then
      (frags, gmem_tile_store K (snd (fst st)) ptr frags, snd st)
    else
      (frags, snd (fst st),
       accumulateInGmem kM kN (tile_of_fragments L frags) (snd st)
         row0 col0 rows cols (is_first || needs_accum))
  else (frags, snd (fst st), snd st).

(** The calls of [processBlockIJ] among the steps. *)
Definition step_calls (l : list KernelStep) : list BlockCall :=
  flat_map
    (fun step =>
       match step with call_processBlockIJ c => [c] | _ => [] end) l.

(** The steps of [kernel] as one loop over the key tiles. *)
Definition all_tile_steps (K : KernelConfig) (p : Params) :
  list KernelStep :=
  flat_map
    (fun key_start =>
       kernel_key_steps K (key_start + kBlockSizeJ K <=? num_keys p)
         key_start (key_tile_calls K p key_start))
    (for_range 0 (num_keys p) (kBlockSizeJ K)).

(** A step is a call of [processBlockIJ] that satisfies [f]. *)
Definition is_call (f : BlockCall -> bool) (step : KernelStep) : bool :=
  match step with call_processBlockIJ c => f c | _ => false end.

(** The start of the tile of [b] rows, or columns, that holds the index
    [x]. *)
Definition tile_start (b x : Z) : Z := x / b * b.

(** What the call [c] of [processBlockIJ] computes when it finds
    [di_before] and [zij_before] in shared memory and [grad_bias] in the
    bias gradient. *)
Definition call_result (K : KernelConfig) (stream : Z -> Z -> Z -> R)
  (p : Params) (T : Tensors) (di_before : Z -> R)
  (zij_before grad_bias : Tile) (c : BlockCall) : BlockResult :=
  processBlockIJ K stream (call_skipBoundsChecks c) p T
    (call_query_start c) (call_key_start c) (rng_state_init p)
    di_before zij_before grad_bias.

(** A state in which the shared memory, the registers, the workspace and
    the gradients all hold [v]. *)
Definition constant_state (v : R) : KernelState :=
  {| smem_di := fun _ => v; smem_zij := fun _ _ => v;
     output_frags_gradV := fun _ _ => v;
     output_frags_gradK := fun _ _ => v;
     gmem_workspace := fun _ => v;
     gmem_grad_value := fun _ _ => v; gmem_grad_key := fun _ _ => v;
     gmem_grad_query := fun _ _ => v; gmem_grad_bias := fun _ _ => v |}.

(** The pointers of the block (0, 0) of [workspace_example_params] for
    the kernel that keeps the three accumulators in the workspace, the
    workspace being at 0. *)
Definition workspace_example_ptrs : WorkspacePtrs :=
  {| workspace_gk := 0; workspace_gv := 20480; workspace_gq := 40960 |}.

(** A causal problem of 200 queries and 300 keys with a bias gradient:
    no query attends to the keys of the last key tile of 64. *)
Definition causal_example_params : Params :=
  with_bias (make_params 1 1 200 300 64 64 true 1 0).

(** ** The gradients in closed form

    The matrices of the backward pass, by the indices of the query and of
    the key in the problem.  The source names their tiles [Pij], [Zij],
    [dPij] and [dSij]: "dVj += (Pij.T * Zij) @ dOi",
    "dPij = dPij_dropped * Zij", "dSij = (dPij - Di) * Pij". *)

(** The probability of the pair: zero under the causal mask, and the
    exponential of the raw score minus the log-normalizer of the query
    otherwise. *)
Definition P_entry (p : Params) (T : Tensors) (i j : Z) : R :=
  if causal p && (j >? i) then 0%R
  else exp (reference_raw_score p T i j - logsumexp T i).

(** The dropout mask of the pair, from the draw at its position in the
    random stream; 1 when dropout is not compiled in. *)
Definition Z_entry (K : KernelConfig) (stream : Z -> Z -> Z -> R)
  (p : Params) (i j : Z) : R :=
  if kApplyDropout K then
    mask_of_draw stream p (rng_state_init p)
      (philox_position (rng_state_init p) + (i * num_keys p + j))
  else 1%R.

(** The gradient of the probability of the pair. *)
Definition dP_entry (K : KernelConfig) (stream : Z -> Z -> Z -> R)
  (p : Params) (T : Tensors) (i j : Z) : R :=
  (sum_upto (head_dim_value p) (fun c => grad_output T i c * value T j c) *
   Z_entry K stream p i j)%R.

(** The gradient of the score of the pair. *)
Definition dS_entry (K : KernelConfig) (stream : Z -> Z -> Z -> R)
  (p : Params) (T : Tensors) (i j : Z) : R :=
  (P_entry p T i j * (dP_entry K stream p T i j - delta T i))%R.

(** The problems that the closed forms are stated for: the dimensions are
    in the range of the workspace, the matmuls advance by a step of at
    most 128, and, with dropout, the entries of the attention matrix of a
    head are counted on 31 bits. *)
Definition closed_form_in_range (K : KernelConfig) (p : Params) : Prop :=
  workspace_in_range p /\ 0 < ThreadK K <= 128 /\
  (kApplyDropout K = true -> num_queries p * num_keys p < 2 ^ 31).

(** * Properties *)

(** ** Machine integers and tile sizes *)

Lemma int32_id z : in_int32 z -> int32 z = z.
Proof.
  unfold in_int32, int32, wrap_signed. intros H.
  change (2 ^ (32 - 1)) with (2 ^ 31). change (2 ^ 32) with (2 * 2 ^ 31).
  rewrite Z.mod_small; lia.
Qed.

Lemma int64_id z : in_int64 z -> int64 z = z.
Proof.
  unfold in_int64, int64, wrap_signed. intros H.
  change (2 ^ (64 - 1)) with (2 ^ 63). change (2 ^ 64) with (2 * 2 ^ 63).
  rewrite Z.mod_small; lia.
Qed.

Lemma uint64_id z : 0 <= z < 2 ^ 64 -> uint64 z = z.
Proof. intros H. unfold uint64. apply Z.mod_small. exact H. Qed.

Lemma in_int32_int64 z : in_int32 z -> in_int64 z.
Proof. unfold in_int32, in_int64. lia. Qed.

Lemma int64_int32_id z : in_int32 z -> int32 (int64 z) = z.
Proof.
  intros H. rewrite int64_id by (apply in_int32_int64; exact H).
  apply int32_id. exact H.
Qed.

Lemma kBlockSizeI_cases K : kBlockSizeI K = 64 \/ kBlockSizeI K = 128.
Proof. unfold kBlockSizeI. destruct (_ && _); auto. Qed.

Lemma kBlockSizeJ_cases K : kBlockSizeJ K = 64 \/ kBlockSizeJ K = 128.
Proof. unfold kBlockSizeJ. destruct (_ && _); auto. Qed.

Lemma rem_zero_divide a b : Z.rem a b = 0 <-> (b | a).
Proof.
  destruct (Z.eq_dec b 0) as [-> | Hb].
  - rewrite Z.rem_0_r_ext by reflexivity. split.
    + intros ->. exists 0. reflexivity.
    + intros [c Hc]. lia.
  - apply Z.rem_divide. exact Hb.
Qed.

(** ** The block scheduler *)

Lemma quot_mul_bounds a b :
  0 <= a -> 0 < b -> 0 <= Z.quot a b * b <= a /\ a < Z.quot a b * b + b.
Proof.
  intros Ha Hb. rewrite Z.quot_div_nonneg by lia.
  pose proof (Z.div_mod a b ltac:(lia)) as E.
  pose proof (Z.mod_pos_bound a b Hb) as B.
  pose proof (Z.div_pos a b Ha Hb) as P. nia.
Qed.

Lemma getQueryStart_causal K p key_start :
  causal p = true -> 0 <= key_start < 2 ^ 31 ->
  getQueryStart K p key_start = Z.quot key_start (kBlockSizeI K) * kBlockSizeI K.
Proof.
  intros Hc Hk. unfold getQueryStart. rewrite Hc.
  apply int64_int32_id.
  assert (0 < kBlockSizeI K) by (destruct (kBlockSizeI_cases K); lia).
  pose proof (quot_mul_bounds key_start (kBlockSizeI K) ltac:(lia) H).
  unfold in_int32. lia.
Qed.

(** The counter of a [for] loop with a positive step, as long as it cannot
    overflow: it takes the values [start], [start + step], ... below
    [stop], and the loop is left at the first of them that is not below
    [stop]. *)
Lemma for_loop_In fuel : forall i stop step x,
  0 < step -> - 2 ^ 31 <= i -> stop + step <= 2 ^ 31 ->
  (Z.to_nat (stop - i) <= fuel)%nat ->
  In x (for_loop fuel i stop step) <-> (i <= x < stop /\ (step | x - i)).
Proof.
  induction fuel as [|fuel IH]; intros i stop step x Hs Hi Hstop Hf; simpl.
  - split; [intros [] | intros [H _]; lia].
  - destruct (Z.ltb_spec i stop) as [Hlt | Hge].
    + rewrite int32_id by (unfold in_int32; lia).
      simpl. rewrite IH by lia. split.
      * intros [<- | [Hx [c Hc]]].
        -- split; [lia | exists 0; lia].
        -- split; [lia | exists (c + 1); lia].
      * intros [Hx [c Hc]].
        destruct (Z.eq_dec x i) as [-> | Hne]; [left; reflexivity | right].
        assert (1 <= c) by nia.
        split; [nia | exists (c - 1); lia].
    + split; [intros [] | intros [H _]; lia].
Qed.

Lemma for_range_In start stop step x :
  0 < step -> - 2 ^ 31 <= start -> stop + step <= 2 ^ 31 ->
  In x (for_range start stop step) <->
  (start <= x < stop /\ (step | x - start)).
Proof.
  intros. unfold for_range. apply for_loop_In; auto with zarith.
Qed.

Lemma for_exit_spec fuel : forall i stop step,
  0 < step -> - 2 ^ 31 <= i -> stop + step <= 2 ^ 31 ->
  (Z.to_nat (stop - i) <= fuel)%nat ->
  let e := for_exit fuel i stop step in
  (stop <= i -> e = i) /\
  (i < stop -> stop <= e < stop + step /\ (step | e - i)).
Proof.
  induction fuel as [|fuel IH]; intros i stop step Hs Hi Hstop Hf; simpl.
  - split; [reflexivity | lia].
  - destruct (Z.ltb_spec i stop) as [Hlt | Hge].
    + rewrite int32_id by (unfold in_int32; lia).
      split; [lia | intros _].
      destruct (IH (i + step) stop step Hs ltac:(lia) Hstop ltac:(lia))
        as [Hdone Hmore].
      destruct (Z.le_gt_cases stop (i + step)) as [Hle | Hgt].
      * rewrite (Hdone Hle). split; [lia | exists 1; lia].
      * destruct (Hmore Hgt) as [Hb [c Hc]].
        split; [exact Hb | exists (c + 1); lia].
    + split; [reflexivity | lia].
Qed.

Lemma for_range_exit_spec start stop step :
  0 < step -> - 2 ^ 31 <= start -> stop + step <= 2 ^ 31 ->
  let e := for_range_exit start stop step in
  (stop <= start -> e = start) /\
  (start < stop -> stop <= e < stop + step /\ (step | e - start)).
Proof.
  intros. unfold e, for_range_exit. apply for_exit_spec; auto with zarith.
Qed.

(** C8. For every key-tile start, the first query tile of the scheduler
    ([getQueryStart]) is 0 without the causal flag; with it, it is the
    largest multiple of [kBlockSizeI] that does not exceed the key-tile
    start, and in every query tile that is skipped (a tile that starts at a
    multiple of [kBlockSizeI] before it) the causal mask of [processBlockIJ]
    sets every entry to [-infinity]. *)
Theorem getQueryStart_first_query_tile K p key_start :
  0 <= key_start < 2 ^ 31 ->
  (causal p = false -> getQueryStart K p key_start = 0) /\
  (causal p = true ->
   (kBlockSizeI K | getQueryStart K p key_start) /\
   getQueryStart K p key_start <= key_start /\
   (forall q, (kBlockSizeI K | q) -> q <= key_start ->
              q <= getQueryStart K p key_start) /\
   (forall skipBoundsChecks T query_start accum_m accum_n,
      (kBlockSizeI K | query_start) ->
      0 <= query_start < getQueryStart K p key_start ->
      0 <= accum_n < kBlockSizeI K -> 0 <= accum_m < kBlockSizeJ K ->
      MatmulQK_mask K skipBoundsChecks p T query_start key_start
        accum_m accum_n = NegInfinity)).
Proof.
  intros Hk. split.
  - intros Hc. unfold getQueryStart. rewrite Hc. reflexivity.
  - intros Hc. rewrite (getQueryStart_causal K p key_start Hc Hk).
    assert (HI : 0 < kBlockSizeI K) by (destruct (kBlockSizeI_cases K); lia).
    pose proof (quot_mul_bounds key_start (kBlockSizeI K) ltac:(lia) HI) as B.
    split; [exists (Z.quot key_start (kBlockSizeI K)); reflexivity |].
    split; [lia |].
    split.
    + intros q [c Hq] Hle. subst q.
      assert (c <= Z.quot key_start (kBlockSizeI K)) by nia. nia.
    + intros skip T query_start accum_m accum_n [c Hq] Hqs Hn Hm.
      assert (c + 1 <= Z.quot key_start (kBlockSizeI K)) by nia.
      unfold MatmulQK_mask. rewrite Hc. simpl.
      rewrite (int32_id (accum_n + query_start)) by (unfold in_int32; nia).
      rewrite int32_id by (unfold in_int32; nia).
      destruct (Z.gtb_spec accum_m (accum_n + query_start - key_start));
        [reflexivity | nia].
Qed.

(** The instance of C8 for a kernel compiled for Sm80, a causal problem and
    the key tile that starts at 300: the first query tile starts at 256. *)
Lemma getQueryStart_first_query_tile_witness :
  0 <= 300 < 2 ^ 31 /\
  getQueryStart Sm80_f16_k64
    (make_params 1 1 1000 1000 64 64 true 1 0) 300 <= 300.
Proof.
  split; [lia |].
  refine (proj1 (proj2 (proj2 (getQueryStart_first_query_tile _ _ 300 _) _))).
  - lia.
  - reflexivity.
Defined.

(** ** Launch preconditions *)

Lemma XFORMERS_CHECK_Supported cond msg rest :
  XFORMERS_CHECK cond msg rest = Supported <->
  cond = true /\ rest = Supported.
Proof.
  unfold XFORMERS_CHECK. destruct cond; split.
  - intros H. split; [reflexivity | exact H].
  - intros [_ H]. exact H.
  - discriminate.
  - intros [H _]. discriminate.
Qed.

Lemma CHECK_ALIGNED_PTR_Supported ptr alignment name rest :
  CHECK_ALIGNED_PTR ptr alignment name rest = Supported <->
  (alignment | uint64 ptr) /\ rest = Supported.
Proof.
  unfold CHECK_ALIGNED_PTR. rewrite XFORMERS_CHECK_Supported.
  rewrite Z.eqb_eq, rem_zero_divide. reflexivity.
Qed.

Lemma XFORMERS_CHECK_descriptive cond c msg rest :
  descriptive rest ->
  descriptive (XFORMERS_CHECK cond (String c msg) rest).
Proof.
  unfold XFORMERS_CHECK. destruct cond; [auto | simpl; discriminate].
Qed.

(** C9. [check_supported] succeeds exactly when the five base pointers are
    aligned on the minimum alignment, the log-normalizer stride is a
    multiple of 8 and the head strides of query, key and value are multiples
    of the minimum alignment; otherwise its only outcome is a precondition
    error with a non-empty message (the check is a function of the
    descriptor alone, so nothing is launched or written). *)
Theorem check_supported_iff K p :
  (check_supported K p = Supported <-> launch_preconditions K p) /\
  (~ launch_preconditions K p ->
   exists msg, check_supported K p = PreconditionError msg /\
               msg <> EmptyString).
Proof.
  assert (Hiff : check_supported K p = Supported <-> launch_preconditions K p).
  { unfold check_supported, launch_preconditions.
    rewrite !CHECK_ALIGNED_PTR_Supported, !XFORMERS_CHECK_Supported.
    rewrite !Z.eqb_eq, !rem_zero_divide. tauto. }
  split; [exact Hiff |].
  intros Hn.
  assert (Hd : descriptive (check_supported K p)).
  { unfold check_supported, CHECK_ALIGNED_PTR.
    repeat (apply XFORMERS_CHECK_descriptive). exact I. }
  destruct (check_supported K p) as [| msg] eqn:E.
  - exfalso. apply Hn, Hiff. reflexivity.
  - exists msg. split; [reflexivity | exact Hd].
Qed.

(** ** Workspace layout *)

Lemma kOutputInRF_no_accum K :
  kOutputInRF K = true ->
  kNeedsAccumGradK K = false /\ kNeedsAccumGradV K = false.
Proof.
  intros H. unfold kNeedsAccumGradK, kNeedsAccumGradV. rewrite H. auto.
Qed.

Lemma align_up_0 wr m : wr m = m -> wr (m - 1) = m - 1 -> wr 0 = 0 ->
  0 < m -> align_up wr 0 m = 0.
Proof.
  intros Hm Hm1 H0 Hpos. unfold align_up, ceil_div. simpl.
  rewrite Hm, Hm1. rewrite Z.quot_small by lia. simpl. exact H0.
Qed.

Lemma workspace_strideBH_0 K p :
  workspace_elements_gk K p = 0 -> workspace_elements_gv K p = 0 ->
  workspace_elements_gq K p = 0 -> workspace_strideBH K p = 0.
Proof.
  intros Hk Hv Hq. unfold workspace_strideBH. rewrite Hk, Hv, Hq.
  reflexivity.
Qed.

(** C4, as amended.  The dQ spill area is empty when the key length is at
    most one key tile; the workspace size is 0 when the kernel keeps dK and
    dV in registers ([kOutputInRF]: the bound [kMaxK] that the kernel is
    compiled for fits one tile of [kBlockSizeI]) and the key length is at
    most one key tile; when the 32-bit product of batch and head counts and
    the 64-bit total do not overflow, the size is batch count x head count x
    slab element count x element size; and the slab element count does not
    depend on the batch and head counts, so that the size is linear in
    their product. *)
Theorem workspace_size_layout K p :
  (num_keys p <= kBlockSizeJ K -> workspace_elements_gq K p = 0) /\
  (kOutputInRF K = true -> num_keys p <= kBlockSizeJ K ->
   workspace_size K p = 0) /\
  (0 <= num_batches p * num_heads p < 2 ^ 31 ->
   0 <= num_batches p * num_heads p * workspace_strideBH K p * sizeof_float
     < 2 ^ 63 ->
   workspace_size K p =
   num_batches p * num_heads p * workspace_strideBH K p * sizeof_float) /\
  (forall p',
     num_queries p' = num_queries p -> num_keys p' = num_keys p ->
     head_dim p' = head_dim p -> head_dim_value p' = head_dim_value p ->
     workspace_strideBH K p' = workspace_strideBH K p).
Proof.
  assert (Hgq : num_keys p <= kBlockSizeJ K -> workspace_elements_gq K p = 0).
  { intros H. unfold workspace_elements_gq.
    destruct (negb (kNeedsAccumGradQ K)); [reflexivity |].
    destruct (Z.leb_spec (num_keys p) (kBlockSizeJ K)); [reflexivity | lia]. }
  split; [exact Hgq |]. split; [| split].
  - intros HRF Hkeys. destruct (kOutputInRF_no_accum K HRF) as [HK HV].
    unfold workspace_size. rewrite workspace_strideBH_0.
    + rewrite Z.mul_0_r. reflexivity.
    + unfold workspace_elements_gk. rewrite HK. reflexivity.
    + unfold workspace_elements_gv. rewrite HV. reflexivity.
    + apply Hgq, Hkeys.
  - intros HBH Htot. unfold workspace_size, sizeof_float in *.
    rewrite (int32_id (num_batches p * num_heads p)) by (unfold in_int32; lia).
    rewrite (int64_id (num_batches p * num_heads p * workspace_strideBH K p))
      by (unfold in_int64; lia).
    rewrite (uint64_id (num_batches p * num_heads p * workspace_strideBH K p))
      by lia.
    rewrite uint64_id by lia.
    apply int64_id. unfold in_int64. lia.
  - intros p' Hq Hk Hd Hdv.
    unfold workspace_strideBH, workspace_elements_gk, workspace_elements_gv,
      workspace_elements_gq.
    rewrite Hq, Hk, Hd, Hdv. reflexivity.
Qed.

(** C4 as stated fails: the kernel for Sm50 with the default [kMaxK_] has
    64 x 64 tiles and spills dK and dV whatever the head dimensions of the
    problem are.  With head dimensions 32 and 16 keys (all within one tile)
    its workspace is 32768 bytes. *)
Lemma workspace_size_small_head_dim_nonzero :
  head_dim (make_params 1 1 16 16 32 32 false 1 0)
    <= kBlockSizeI Sm50_f16_default /\
  head_dim_value (make_params 1 1 16 16 32 32 false 1 0)
    <= kBlockSizeI Sm50_f16_default /\
  head_dim (make_params 1 1 16 16 32 32 false 1 0)
    <= kBlockSizeJ Sm50_f16_default /\
  num_keys (make_params 1 1 16 16 32 32 false 1 0)
    <= kBlockSizeJ Sm50_f16_default /\
  workspace_size Sm50_f16_default (make_params 1 1 16 16 32 32 false 1 0)
    = 32768 /\
  workspace_size Sm50_f16_default (make_params 1 1 16 16 32 32 false 1 0)
    <> 0.
Proof.
  repeat split; try (vm_compute; congruence).
Qed.

(** ** Sums and the matrix-multiply engine *)

Lemma sum_n_ext n f g :
  (forall k, 0 <= k < Z.of_nat n -> f k = g k) -> sum_n n f = sum_n n g.
Proof.
  induction n as [|n IH]; intros H; simpl; [reflexivity |].
  rewrite IH by (intros k Hk; apply H; lia).
  rewrite H by lia. reflexivity.
Qed.

Lemma sum_n_zero n f :
  (forall k, 0 <= k < Z.of_nat n -> f k = 0%R) -> sum_n n f = 0%R.
Proof.
  induction n as [|n IH]; intros H; simpl; [reflexivity |].
  rewrite IH by (intros k Hk; apply H; lia).
  rewrite H by lia. lra.
Qed.

Lemma sum_n_trunc n N f :
  (n <= N)%nat ->
  (forall k, Z.of_nat n <= k < Z.of_nat N -> f k = 0%R) ->
  sum_n N f = sum_n n f.
Proof.
  intros Hle. induction Hle as [|N Hle IH]; intros H; [reflexivity |].
  simpl. rewrite IH by (intros k Hk; apply H; lia).
  rewrite H by lia. lra.
Qed.

Lemma sum_upto_ext n f g :
  (forall k, 0 <= k < n -> f k = g k) -> sum_upto n f = sum_upto n g.
Proof.
  intros H. unfold sum_upto. apply sum_n_ext. intros k Hk. apply H. lia.
Qed.

Lemma sum_upto_zero n f :
  (forall k, 0 <= k < n -> f k = 0%R) -> sum_upto n f = 0%R.
Proof.
  intros H. unfold sum_upto. apply sum_n_zero. intros k Hk. apply H. lia.
Qed.

Lemma sum_upto_trunc n N f :
  n <= N -> (forall k, n <= k < N -> 0 <= k -> f k = 0%R) ->
  sum_upto N f = sum_upto n f.
Proof.
  intros Hle H. unfold sum_upto. apply sum_n_trunc; [lia |].
  intros k Hk. apply H; lia.
Qed.

Lemma sum_upto_nonpos n f : n <= 0 -> sum_upto n f = 0%R.
Proof.
  intros H. unfold sum_upto.
  replace (Z.to_nat n) with 0%nat by lia. reflexivity.
Qed.

Lemma sum_upto_succ n f :
  0 <= n -> sum_upto (n + 1) f = (sum_upto n f + f n)%R.
Proof.
  intros H. unfold sum_upto.
  replace (Z.to_nat (n + 1)) with (S (Z.to_nat n)) by lia.
  simpl. rewrite Z2Nat.id by exact H. reflexivity.
Qed.

Lemma gemm_k_iterations_covers kK k :
  0 < kK -> 0 <= k -> k + kK < 2 ^ 31 ->
  k <= gemm_k_iterations kK k * kK.
Proof.
  intros HK Hk Hr. unfold gemm_k_iterations.
  rewrite (int32_id (k + kK)) by (unfold in_int32; lia).
  rewrite int32_id by (unfold in_int32; lia).
  pose proof (quot_mul_bounds (k + kK - 1) kK ltac:(lia) HK). lia.
Qed.

(** A matmul whose products vanish from the column [k] of [A] on adds the
    sum of the first [k] products, whatever the number of steps that
    [gemm_k_iterations] rounds [k] up to. *)
Lemma mma_extent kK k A B accum m n :
  0 < kK -> 0 <= k -> k + kK < 2 ^ 31 ->
  (forall j, k <= j -> (A m j * B j n = 0)%R) ->
  mma kK (gemm_k_iterations kK k) A B accum m n =
  (accum m n + sum_upto k (fun j => A m j * B j n))%R.
Proof.
  intros HK Hk Hr Hz. unfold mma. f_equal.
  apply sum_upto_trunc.
  - apply gemm_k_iterations_covers; assumption.
  - intros j Hj _. apply Hz. lia.
Qed.

Lemma PredicatedTileIterator_in t row0 col0 rows cols r c :
  0 <= r < rows -> 0 <= c < cols ->
  PredicatedTileIterator t row0 col0 rows cols r c = t (row0 + r) (col0 + c).
Proof.
  intros Hr Hc. unfold PredicatedTileIterator.
  destruct (Z.leb_spec 0 r); [| lia]. destruct (Z.ltb_spec r rows); [| lia].
  destruct (Z.leb_spec 0 c); [| lia]. destruct (Z.ltb_spec c cols); [| lia].
  reflexivity.
Qed.

Lemma PredicatedTileIterator_out t row0 col0 rows cols r c :
  r < 0 \/ rows <= r \/ c < 0 \/ cols <= c ->
  PredicatedTileIterator t row0 col0 rows cols r c = 0%R.
Proof.
  intros H. unfold PredicatedTileIterator.
  destruct (Z.leb_spec 0 r); simpl; [| reflexivity].
  destruct (Z.ltb_spec r rows); simpl; [| reflexivity].
  destruct (Z.leb_spec 0 c); simpl; [| reflexivity].
  destruct (Z.ltb_spec c cols); simpl; [| reflexivity].
  lia.
Qed.

(** ** The probability tile *)

(** The accumulator of the QK matmul inside the extent of the block. *)
Lemma MatmulQK_mma_in K skipBoundsChecks p T query_start key_start m n :
  0 < ThreadK K -> 0 <= head_dim p -> head_dim p + ThreadK K < 2 ^ 31 ->
  0 <= m < num_keys_in_block K skipBoundsChecks p key_start ->
  0 <= n < num_queries_in_block K skipBoundsChecks p query_start ->
  MatmulQK_mma K skipBoundsChecks p T query_start key_start m n =
  sum_upto (head_dim p)
    (fun k => key T (key_start + m)%Z k * query T (query_start + n)%Z k)%R.
Proof.
  intros HK Hd Hr Hm Hn. unfold MatmulQK_mma.
  rewrite mma_extent; try assumption.
  - unfold clear. rewrite Rplus_0_l. apply sum_upto_ext. intros k Hk.
    unfold PredicatedTileIteratorColumnMajor.
    rewrite !PredicatedTileIterator_in by lia.
    rewrite !Z.add_0_l. reflexivity.
  - intros j Hj. rewrite PredicatedTileIterator_out by lia. lra.
Qed.

(** Outside that extent the accumulator is zero. *)
Lemma MatmulQK_mma_out K skipBoundsChecks p T query_start key_start m n :
  m < 0 \/ num_keys_in_block K skipBoundsChecks p key_start <= m \/
  n < 0 \/ num_queries_in_block K skipBoundsChecks p query_start <= n ->
  MatmulQK_mma K skipBoundsChecks p T query_start key_start m n = 0%R.
Proof.
  intros H. unfold MatmulQK_mma, mma, clear. rewrite Rplus_0_l.
  apply sum_upto_zero. intros k Hk.
  destruct H as [H | [H | [H | H]]].
  - rewrite PredicatedTileIterator_out by lia. lra.
  - rewrite PredicatedTileIterator_out by lia. lra.
  - unfold PredicatedTileIteratorColumnMajor.
    rewrite (PredicatedTileIterator_out (query T)) by lia. lra.
  - unfold PredicatedTileIteratorColumnMajor.
    rewrite (PredicatedTileIterator_out (query T)) by lia. lra.
Qed.

Lemma sum_n_pos n f :
  (0 < n)%nat -> (forall k, 0 <= k -> (0 < f k)%R) -> (0 < sum_n n f)%R.
Proof.
  intros Hn Hf. induction n as [|n IH]; [lia |]. simpl.
  destruct n as [|n].
  - simpl. pose proof (Hf 0 ltac:(lia)). simpl in *. lra.
  - pose proof (IH ltac:(lia)). pose proof (Hf (Z.of_nat (S n)) ltac:(lia)).
    lra.
Qed.

Lemma sum_upto_pos n f :
  0 < n -> (forall k, 0 <= k -> (0 < f k)%R) -> (0 < sum_upto n f)%R.
Proof. intros Hn Hf. apply sum_n_pos; [lia | exact Hf]. Qed.

Lemma exp_minus_ln x d : (0 < d)%R -> exp (x - ln d) = (exp x / d)%R.
Proof.
  intros Hd. unfold Rminus, Rdiv.
  rewrite exp_plus, exp_Ropp, exp_ln by exact Hd. reflexivity.
Qed.

(** The score tile before the mask, inside the extent of the block, is the
    raw score of the pair. *)
Lemma MatmulQK_bias_in K skipBoundsChecks p T query_start key_start m n :
  0 < ThreadK K -> 0 <= head_dim p -> head_dim p + ThreadK K < 2 ^ 31 ->
  0 <= m < num_keys_in_block K skipBoundsChecks p key_start ->
  0 <= n < num_queries_in_block K skipBoundsChecks p query_start ->
  MatmulQK_bias K skipBoundsChecks p T query_start key_start m n =
  reference_raw_score p T (query_start + n) (key_start + m).
Proof.
  intros HK Hd Hr Hm Hn.
  unfold MatmulQK_bias, MatmulQK_scaled, reference_raw_score.
  assert (E : MatmulQK_mma K skipBoundsChecks p T query_start key_start m n =
              sum_upto (head_dim p)
                (fun k => query T (query_start + n)%Z k *
                          key T (key_start + m)%Z k)%R).
  { rewrite MatmulQK_mma_in by assumption.
    apply sum_upto_ext. intros k _. apply Rmult_comm. }
  destruct (bias_ptr p =? 0); simpl.
  - rewrite E. lra.
  - destruct (Z.ltb_spec n
                (num_queries_in_block K skipBoundsChecks p query_start));
      [| lia].
    destruct (Z.ltb_spec m (num_keys_in_block K skipBoundsChecks p key_start));
      [| lia].
    rewrite orb_true_r. rewrite E. unfold bias_tensor_ref.
    rewrite PredicatedTileIterator_in by lia. reflexivity.
Qed.



(** ** The causal mask *)

Lemma MatmulQK_mask_causal K skipBoundsChecks p T query_start key_start m n :
  causal p = true ->
  0 <= query_start -> 0 <= key_start < 2 ^ 31 ->
  0 <= n -> query_start + n < 2 ^ 31 -> 0 <= m ->
  key_start + m > query_start + n ->
  MatmulQK_mask K skipBoundsChecks p T query_start key_start m n = NegInfinity.
Proof.
  intros Hc Hq Hk Hn Hqn Hm Hgt. unfold MatmulQK_mask. rewrite Hc. simpl.
  rewrite (int32_id (n + query_start)) by (unfold in_int32; lia).
  rewrite int32_id by (unfold in_int32; lia).
  destruct (Z.gtb_spec m (n + query_start - key_start)); [reflexivity | lia].
Qed.

(** C2. With the causal flag, an entry of the score tile whose global key
    index exceeds its global query index is set to [-infinity] before the
    exponential; its probability is exactly 0, and so are the terms of that
    (query, key) pair in the three gradient matmuls: the product of the
    probability (and dropout mask) by the output gradient in dV, the score
    gradient [dSij] and its scaled copy [tmp], and the products of [tmp] by
    the key row in dQ and by the query row in dK. *)
Theorem causal_mask_zero_contribution
  K skipBoundsChecks p T query_start key_start m n :
  causal p = true ->
  0 <= query_start -> 0 <= key_start < 2 ^ 31 ->
  0 <= n -> query_start + n < 2 ^ 31 -> 0 <= m ->
  key_start + m > query_start + n ->
  let attn := attn_T K skipBoundsChecks p T query_start key_start in
  MatmulQK_mask K skipBoundsChecks p T query_start key_start m n
    = NegInfinity /\
  attn m n = 0%R /\
  (forall zij col c,
     (MatmulGradV_operand_A K attn zij m n *
      MatmulGradV_operand_B K skipBoundsChecks p T query_start col n c
      = 0)%R) /\
  (forall zij di,
     dSij K skipBoundsChecks p T query_start key_start attn zij di n m
       = 0%R /\
     tmp K skipBoundsChecks p T query_start key_start attn zij di n m
       = 0%R /\
     (forall col c,
        (tmp K skipBoundsChecks p T query_start key_start attn zij di n m *
         MatmulGradQ_operand_B K skipBoundsChecks p T key_start col m c
         = 0)%R /\
        (tmpT K skipBoundsChecks p T query_start key_start attn zij di m n *
         MatmulGradK_operand_B K skipBoundsChecks p T query_start col n c
         = 0)%R)).
Proof.
  intros Hc Hq Hk Hn Hqn Hm Hgt attn.
  pose proof (MatmulQK_mask_causal K skipBoundsChecks p T query_start
                key_start m n Hc Hq Hk Hn Hqn Hm Hgt) as Hmask.
  assert (Hattn : attn m n = 0%R).
  { unfold attn, attn_T, accumApplyLSEToSmem. rewrite Hmask. reflexivity. }
  assert (HdS : forall zij di,
             dSij K skipBoundsChecks p T query_start key_start attn zij di n m
             = 0%R).
  { intros zij di. unfold dSij, fragment_attn.
    destruct (skipBoundsChecks || _); [rewrite Hattn |]; lra. }
  assert (Htmp : forall zij di,
             tmp K skipBoundsChecks p T query_start key_start attn zij di n m
             = 0%R).
  { intros zij di. unfold tmp. rewrite HdS. lra. }
  split; [exact Hmask |]. split; [exact Hattn |]. split.
  - intros zij col c. unfold MatmulGradV_operand_A.
    destruct (kApplyDropout K); rewrite Hattn; lra.
  - intros zij di. split; [apply HdS |]. split; [apply Htmp |].
    intros col c. unfold tmpT. rewrite Htmp. split; lra.
Qed.

(** The instance of C2 for the pair (query 0, key 3) of the causal 4 x 4
    problem. *)
Lemma causal_mask_zero_contribution_witness :
  attn_T Sm80_f16_k64 false (make_params 1 1 4 4 8 8 true 1 0)
    (constant_tensors 1 1 1 0 8 1 1 0) 0 0 3 0 = 0%R.
Proof.
  refine (proj1 (proj2 (causal_mask_zero_contribution Sm80_f16_k64 false
                   (make_params 1 1 4 4 8 8 true 1 0)
                   (constant_tensors 1 1 1 0 8 1 1 0) 0 0 3 0 _ _ _ _ _ _ _))).
  - reflexivity.
  - discriminate.
  - split; [discriminate | reflexivity].
  - discriminate.
  - reflexivity.
  - discriminate.
  - reflexivity.
Defined.

(** ** Threads of a block and [loadDi] *)

Lemma kNumThreads_eq K :
  kNumThreads K = kBlockSizeI K * Z.quot (kBlockSizeJ K) 32.
Proof.
  unfold kNumThreads, kNumWarpsPerBlock, kWarpSize.
  destruct (kBlockSizeI_cases K) as [-> | ->];
    destruct (kBlockSizeJ_cases K) as [-> | ->]; reflexivity.
Qed.

Lemma kNumThreadsPerLine_eq K :
  kNumThreadsPerLine K = Z.quot (kBlockSizeJ K) 32.
Proof.
  unfold kNumThreadsPerLine. rewrite kNumThreads_eq.
  destruct (kBlockSizeI_cases K) as [-> | ->];
    destruct (kBlockSizeJ_cases K) as [-> | ->]; reflexivity.
Qed.

Lemma kNumThreadsPerLine_cases K :
  kNumThreadsPerLine K = 2 \/ kNumThreadsPerLine K = 4.
Proof.
  rewrite kNumThreadsPerLine_eq.
  destruct (kBlockSizeJ_cases K) as [-> | ->]; [left | right]; reflexivity.
Qed.

Lemma kNumThreads_PerLine K :
  kNumThreads K = kBlockSizeI K * kNumThreadsPerLine K.
Proof. rewrite kNumThreadsPerLine_eq. apply kNumThreads_eq. Qed.

Lemma thread_ids_In K t : In t (thread_ids K) <-> 0 <= t < kNumThreads K.
Proof.
  unfold thread_ids. rewrite in_map_iff. split.
  - intros [k [<- Hk]]. apply in_seq in Hk. lia.
  - intros H. exists (Z.to_nat t). split; [lia |]. apply in_seq. lia.
Qed.

Lemma loadDi_fold K p T query_start l : forall di i,
  fold_left (loadDi_thread K p T query_start) l di i =
  if (i <? kBlockSizeI K) && existsb (Z.eqb i) l
  then (if int32 (query_start + i) <? num_queries p
        then delta T (int32 (query_start + i)) else 0%R)
  else di i.
Proof.
  induction l as [|t l IH]; intros di i; simpl.
  - rewrite andb_false_r. reflexivity.
  - rewrite IH. unfold loadDi_thread.
    destruct (Z.ltb_spec i (kBlockSizeI K)) as [Hi | Hi]; simpl.
    + destruct (existsb (Z.eqb i) l); simpl.
      * rewrite orb_true_r. reflexivity.
      * rewrite orb_false_r.
        destruct (Z.eqb_spec i t) as [-> | Hne].
        -- destruct (Z.ltb_spec t (kBlockSizeI K)); [| lia].
           rewrite Z.eqb_refl. reflexivity.
        -- destruct (t <? kBlockSizeI K); [| reflexivity].
           destruct (Z.eqb_spec i t); [contradiction | reflexivity].
    + destruct (t <? kBlockSizeI K) eqn:Et; [| reflexivity].
      destruct (Z.eqb_spec i t) as [-> | Hne]; [| reflexivity].
      apply Z.ltb_lt in Et. lia.
Qed.

Lemma existsb_thread_ids K i :
  0 <= i < kNumThreads K -> existsb (Z.eqb i) (thread_ids K) = true.
Proof.
  intros H. apply existsb_exists. exists i. split.
  - apply thread_ids_In. exact H.
  - apply Z.eqb_refl.
Qed.

(** After [loadDi], the entry of [di] for a row of the tile is the row delta
    if the row is a query of the problem, and zero otherwise. *)
Lemma loadDi_spec K p T query_start di t :
  0 <= t < kBlockSizeI K ->
  loadDi K p T query_start di t =
  if int32 (query_start + t) <? num_queries p
  then delta T (int32 (query_start + t)) else 0%R.
Proof.
  intros Ht. unfold loadDi. rewrite loadDi_fold.
  destruct (Z.ltb_spec t (kBlockSizeI K)); [| lia].
  rewrite existsb_thread_ids; [reflexivity |].
  rewrite kNumThreads_PerLine.
  destruct (kNumThreadsPerLine_cases K) as [-> | ->]; lia.
Qed.

(** ** The score gradient and the bias gradient *)

Lemma MatmulDOIVJ_mma_in K skipBoundsChecks p T query_start key_start m n :
  0 < ThreadK K -> 0 <= head_dim_value p ->
  head_dim_value p + ThreadK K < 2 ^ 31 ->
  0 <= m < num_queries_in_block K skipBoundsChecks p query_start ->
  0 <= n < num_keys_in_block K skipBoundsChecks p key_start ->
  MatmulDOIVJ_mma K skipBoundsChecks p T query_start key_start m n =
  sum_upto (head_dim_value p)
    (fun c => grad_output T (query_start + m)%Z c *
              value T (key_start + n)%Z c)%R.
Proof.
  intros HK Hd Hr Hm Hn. unfold MatmulDOIVJ_mma.
  rewrite mma_extent; try assumption.
  - unfold clear. rewrite Rplus_0_l. apply sum_upto_ext. intros k Hk.
    unfold PredicatedTileIteratorColumnMajor.
    rewrite !PredicatedTileIterator_in by lia.
    rewrite !Z.add_0_l. reflexivity.
  - intros j Hj. rewrite PredicatedTileIterator_out by lia. lra.
Qed.

Lemma epilogue_store_in accum dest row0 col0 rows cols r c :
  0 <= r < rows -> 0 <= c < cols ->
  epilogue_store accum dest row0 col0 rows cols (row0 + r) (col0 + c) =
  accum r c.
Proof.
  intros Hr Hc. unfold epilogue_store.
  replace (row0 + r - row0) with r by lia.
  replace (col0 + c - col0) with c by lia.
  destruct (Z.leb_spec 0 r); [| lia]. destruct (Z.ltb_spec r rows); [| lia].
  destruct (Z.leb_spec 0 c); [| lia]. destruct (Z.ltb_spec c cols); [| lia].
  reflexivity.
Qed.

(** Inside the extent of the block, the bias gradient receives [dSij] as
    it is before the product by [scale]. *)
Lemma store_grad_bias_in
  K skipBoundsChecks p T query_start key_start attn zij di grad_bias m n :
  grad_bias_ptr p <> 0 ->
  0 <= m < num_queries_in_block K skipBoundsChecks p query_start ->
  0 <= n < num_keys_in_block K skipBoundsChecks p key_start ->
  store_grad_bias K skipBoundsChecks p T query_start key_start
    attn zij di grad_bias (query_start + m) (key_start + n) =
  dSij K skipBoundsChecks p T query_start key_start attn zij di m n.
Proof.
  intros Hptr Hm Hn. unfold store_grad_bias.
  destruct (Z.eqb_spec (grad_bias_ptr p) 0); [contradiction |]. simpl.
  apply epilogue_store_in; assumption.
Qed.

Lemma dSij_in
  K skipBoundsChecks p T query_start key_start attn zij di m n :
  0 <= m < num_queries_in_block K skipBoundsChecks p query_start ->
  0 <= n < num_keys_in_block K skipBoundsChecks p key_start ->
  dSij K skipBoundsChecks p T query_start key_start attn zij di m n =
  (attn n m *
   (MatmulDOIVJ_dropout K skipBoundsChecks p T query_start key_start zij m n
    - di m))%R.
Proof.
  intros Hm Hn. unfold dSij, fragment_attn, fragment_di.
  destruct (Z.ltb_spec m
              (num_queries_in_block K skipBoundsChecks p query_start));
    [| lia].
  destruct (Z.ltb_spec n (num_keys_in_block K skipBoundsChecks p key_start));
    [| lia].
  rewrite orb_true_r. lra.
Qed.




(** ** Rearranging sums *)

Lemma sum_n_plus n f g :
  sum_n n (fun k => f k + g k)%R = (sum_n n f + sum_n n g)%R.
Proof. induction n as [|n IH]; simpl; [lra | rewrite IH; lra]. Qed.

Lemma sum_n_swap a b (h : Z -> Z -> R) :
  sum_n a (fun x => sum_n b (fun y => h x y)) =
  sum_n b (fun y => sum_n a (fun x => h x y)).
Proof.
  induction a as [|a IH]; simpl.
  - symmetry. apply sum_n_zero. reflexivity.
  - rewrite IH. rewrite <- sum_n_plus. reflexivity.
Qed.

Lemma sum_n_add m k (h : Z -> R) :
  sum_n (m + k) h = (sum_n m h + sum_n k (fun y => h (Z.of_nat m + y)%Z))%R.
Proof.
  induction k as [|k IH].
  - rewrite Nat.add_0_r. simpl. lra.
  - replace (m + S k)%nat with (S (m + k)) by lia. simpl. rewrite IH.
    replace (Z.of_nat (m + k)) with (Z.of_nat m + Z.of_nat k) by lia. lra.
Qed.

(** A sum over [a] blocks of [b] consecutive indices. *)
Lemma sum_n_block a b (h : Z -> R) :
  sum_n a (fun x => sum_n b (fun y => h (x * Z.of_nat b + y))) =
  sum_n (a * b) h.
Proof.
  induction a as [|a IH]; simpl; [reflexivity |].
  rewrite IH. replace (b + a * b)%nat with (a * b + b)%nat by lia.
  rewrite sum_n_add. f_equal. apply sum_n_ext. intros y _.
  f_equal. lia.
Qed.

Lemma sum_upto_swap a b (h : Z -> Z -> R) :
  sum_upto a (fun x => sum_upto b (fun y => h x y)) =
  sum_upto b (fun y => sum_upto a (fun x => h x y)).
Proof. unfold sum_upto. apply sum_n_swap. Qed.

Lemma sum_upto_block a b (h : Z -> R) :
  0 <= a -> 0 <= b ->
  sum_upto a (fun x => sum_upto b (fun y => h (x * b + y))) =
  sum_upto (a * b) h.
Proof.
  intros Ha Hb. unfold sum_upto.
  replace (Z.to_nat (a * b)) with (Z.to_nat a * Z.to_nat b)%nat by nia.
  rewrite <- sum_n_block. apply sum_n_ext. intros x _.
  apply sum_n_ext. intros y _. rewrite Z2Nat.id by exact Hb. reflexivity.
Qed.

(** A loop [for (i = 0; i < n; ++i)] visits [0], ..., [n - 1]. *)
Lemma for_loop_unit fuel : forall i n,
  0 <= i -> n < 2 ^ 31 -> (Z.to_nat (n - i) <= fuel)%nat ->
  for_loop fuel i n 1 =
  map (fun k => i + Z.of_nat k) (seq 0 (Z.to_nat (n - i))).
Proof.
  induction fuel as [|fuel IH]; intros i n Hi Hn Hf; simpl.
  - replace (Z.to_nat (n - i)) with 0%nat by lia. reflexivity.
  - destruct (Z.ltb_spec i n) as [Hlt | Hge].
    + rewrite int32_id by (unfold in_int32; lia).
      rewrite IH by lia.
      replace (Z.to_nat (n - i)) with (S (Z.to_nat (n - (i + 1)))) by lia.
      simpl. rewrite Z.add_0_r. f_equal.
      rewrite <- seq_shift, map_map. apply map_ext. intros k. lia.
    + replace (Z.to_nat (n - i)) with 0%nat by lia. reflexivity.
Qed.

Lemma for_range_unit n :
  n < 2 ^ 31 ->
  for_range 0 n 1 = map Z.of_nat (seq 0 (Z.to_nat n)).
Proof.
  intros Hn. unfold for_range. rewrite for_loop_unit by lia.
  rewrite Z.sub_0_r. apply map_ext. intros k. lia.
Qed.

(** ** [computeDelta]: the software pipeline of one thread *)

Lemma fold_add_delta_value (F : DeltaRegs -> Z -> R) n s :
  (forall s x i, F (add_delta_value s x) i = F s i) ->
  fold_left (fun s i => add_delta_value s (F s i))
    (map Z.of_nat (seq 0 n)) s =
  add_delta_value s (sum_n n (F s)).
Proof.
  intros HF. induction n as [|n IH].
  - simpl. unfold add_delta_value. destruct s; simpl. f_equal. lra.
  - rewrite seq_S, map_app, fold_left_app, IH. simpl.
    rewrite HF. unfold add_delta_value. simpl. f_equal. lra.
Qed.

Section ComputeDeltaPipeline.

Variable K : KernelConfig.
Variable E : Z.
Variable p : Params.
Variable T : Tensors.
Variable row laneFirstCol : Z.
Variable rowPred : bool.

Hypothesis E_range : 0 < E < 2 ^ 31.

Lemma stage_pred_succ j :
  0 <= j ->
  stage_pred K E p laneFirstCol rowPred j &&
  (laneFirstCol + (j + kPipelineStages - 1) * E * kNumThreadsPerLine K
   <? head_dim_value p) = stage_pred K E p laneFirstCol rowPred (j + 1).
Proof.
  intros Hj. unfold stage_pred, kPipelineStages.
  replace (j + 2 - 1) with (j + 1) by lia.
  assert (0 < kNumThreadsPerLine K)
    by (destruct (kNumThreadsPerLine_cases K); lia).
  destruct rowPred; simpl; [| reflexivity].
  destruct (Z.ltb_spec (laneFirstCol + (j + 1) * E * kNumThreadsPerLine K)
              (head_dim_value p)).
  - rewrite andb_true_r. apply Z.ltb_lt. nia.
  - apply andb_false_r.
Qed.

Lemma rem_2_succ j : 0 <= j -> Z.rem (j + 1) 2 <> Z.rem j 2.
Proof.
  intros Hj. rewrite !Z.rem_mod_nonneg by lia.
  pose proof (Z.mod_pos_bound j 2 ltac:(lia)).
  pose proof (Z.mod_pos_bound (j + 1) 2 ltac:(lia)).
  pose proof (Z.div_mod j 2 ltac:(lia)).
  pose proof (Z.div_mod (j + 1) 2 ltac:(lia)).
  lia.
Qed.

Lemma columnIteration_inv j s :
  0 <= j -> pipeline_inv K E p T row laneFirstCol rowPred j s ->
  pipeline_inv K E p T row laneFirstCol rowPred (j + 1)
    (columnIteration K E p T row laneFirstCol s j).
Proof.
  intros Hj (Hp & Hg & Ho & Hfo & Hfg & Hd).
  unfold columnIteration.
  rewrite for_range_unit by lia.
  rewrite fold_add_delta_value by reflexivity.
  unfold pipeline_inv, add_delta_value, loadAndIncrement, set_pred. simpl.
  rewrite Hp, stage_pred_succ by exact Hj.
  replace (Z.rem (j + kPipelineStages - 1) kPipelineStages)
    with (Z.rem (j + 1) 2)
    by (unfold kPipelineStages; f_equal; lia).
  rewrite Z.eqb_refl.
  pose proof (rem_2_succ j Hj) as Hne.
  destruct (Z.eqb_spec (Z.rem j kPipelineStages) (Z.rem (j + 1) 2)) as [Heq | _];
    [unfold kPipelineStages in Heq; congruence |].
  split; [reflexivity |].
  split; [rewrite Hg; lia |]. split; [rewrite Ho; lia |].
  split; [intros i; rewrite Ho; f_equal; lia |].
  split; [intros i; rewrite Hg; f_equal; lia |].
  rewrite sum_upto_succ by exact Hj. rewrite Hd. f_equal.
  unfold delta_stage, sum_upto. apply sum_n_ext. intros i _.
  unfold kPipelineStages. rewrite Hfo, Hfg. reflexivity.
Qed.

Lemma columnIteration_fold n : forall s,
  pipeline_inv K E p T row laneFirstCol rowPred 0 s ->
  pipeline_inv K E p T row laneFirstCol rowPred (Z.of_nat n)
    (fold_left (columnIteration K E p T row laneFirstCol)
       (map Z.of_nat (seq 0 n)) s).
Proof.
  induction n as [|n IH]; intros s Hs; [exact Hs |].
  rewrite seq_S, map_app, fold_left_app. simpl.
  replace (Z.pos (Pos.of_succ_nat n)) with (Z.of_nat n + 1) by lia.
  apply columnIteration_inv; [lia |]. apply IH. exact Hs.
Qed.

End ComputeDeltaPipeline.

Lemma kMaxK_le_128 K : kMaxK K <= 128.
Proof. unfold kMaxK. lia. Qed.

Lemma kMaxIters_lt K E : 0 < E -> kMaxIters K E < 2 ^ 31.
Proof.
  intros HE. unfold kMaxIters.
  assert (HT : 0 < kNumThreadsPerLine K)
    by (destruct (kNumThreadsPerLine_cases K); lia).
  assert (HET : 0 < E * kNumThreadsPerLine K) by (apply Z.mul_pos_pos; lia).
  pose proof (kMaxK_le_128 K).
  destruct (Z.le_gt_cases 0 (kMaxK K)).
  - rewrite Z.quot_div_nonneg by lia.
    assert (kMaxK K / (E * kNumThreadsPerLine K) <= kMaxK K).
    { apply Z.div_le_upper_bound; [lia | nia]. }
    lia.
  - pose proof (Z.quot_opp_l (- kMaxK K) (E * kNumThreadsPerLine K)
                  ltac:(lia)) as Ho.
    rewrite Z.opp_involutive in Ho. rewrite Ho.
    pose proof (Z.quot_pos (- kMaxK K) (E * kNumThreadsPerLine K)
                  ltac:(lia) ltac:(lia)).
    lia.
Qed.

(** The value that a thread of [computeDelta] holds before the reduction
    between workers: the sum of its [kMaxIters] pipeline stages. *)
Lemma computeDelta_partial_spec K E p T query_start warp_id lane_id :
  0 < E < 2 ^ 31 ->
  computeDelta_partial K E p T query_start warp_id lane_id =
  let laneRow :=
    Z.quot (lane_id + warp_id * kWarpSize) (kNumThreadsPerLine K) in
  let laneFirstCol := E * Z.rem lane_id (kNumThreadsPerLine K) in
  sum_upto (kMaxIters K E) (fun it =>
    delta_stage E T (int32 (query_start + laneRow))
      (laneFirstCol + it * E * kNumThreadsPerLine K)
      (stage_pred K E p laneFirstCol
         (int32 (query_start + laneRow) <? num_queries p) it)).
Proof.
  intros HE. unfold computeDelta_partial.
  destruct (Z.leb_spec (kMaxK K) 256) as [_ | Hbig];
    [| pose proof (kMaxK_le_128 K); lia].
  rewrite (for_range_unit (kMaxIters K E)) by (apply kMaxIters_lt; lia).
  change (for_range 0 (kPipelineStages - 1) 1) with [0]. cbv zeta.
  set (laneRow := Z.quot (lane_id + warp_id * kWarpSize)
                    (kNumThreadsPerLine K)).
  set (lfc := E * Z.rem lane_id (kNumThreadsPerLine K)).
  set (rowPred := int32 (query_start + laneRow) <? num_queries p).
  match goal with
  | |- delta_value (fold_left _ _ ?s0) = _ =>
      assert (Hinv : pipeline_inv K E p T (int32 (query_start + laneRow))
                       lfc rowPred 0 s0)
  end.
  { unfold pipeline_inv, prologueIteration, loadAndIncrement, set_pred,
      stage_pred. simpl.
    rewrite !Z.add_0_r.
    split; [reflexivity |].
    split; [destruct E; reflexivity |]. split; [destruct E; reflexivity |].
    split; [reflexivity |]. split; reflexivity. }
  pose proof (columnIteration_fold K E p T (int32 (query_start + laneRow))
                lfc rowPred HE (Z.to_nat (kMaxIters K E)) _ Hinv)
    as (_ & _ & _ & _ & _ & Hd).
  rewrite Hd. unfold sum_upto. rewrite Nat2Z.id. reflexivity.
Qed.

(** ** [computeDelta]: the threads of one row *)

(** The stage of a thread whose first column is a multiple of the access
    width, when that width divides the value head dimension: the products
    of the row over the columns of the access that are below the head
    dimension. *)
Lemma delta_stage_aligned E p T row a :
  0 < E -> 0 <= a -> (E | head_dim_value p) ->
  delta_stage E T row (a * E) (a * E <? head_dim_value p) =
  sum_upto E (fun i =>
    if a * E + i <? head_dim_value p
    then (output T row (a * E + i)%Z * grad_output T row (a * E + i)%Z)%R
    else 0%R).
Proof.
  intros HE Ha [h Hh]. unfold delta_stage. apply sum_upto_ext.
  intros i Hi. unfold GlobalLoad.
  destruct (Z.ltb_spec (a * E) (head_dim_value p)) as [Hlt | Hge];
    destruct (Z.ltb_spec (a * E + i) (head_dim_value p)) as [Hlt' | Hge'];
    try reflexivity; try lra.
  - exfalso. assert (a < h) by nia. nia.
  - exfalso. lia.
Qed.

(** The stages of the [t] threads of a row, summed over the threads and
    over [n] iterations, cover the first [n * t * E] columns of the row. *)
Lemma delta_row_sum E p T row t n :
  0 < E -> 0 < t -> 0 <= n ->
  (E | head_dim_value p) -> 0 <= head_dim_value p <= n * (E * t) ->
  sum_upto t (fun c =>
    sum_upto n (fun it =>
      delta_stage E T row (E * c + it * E * t)
        (E * c + it * E * t <? head_dim_value p))) =
  reference_delta p T row.
Proof.
  intros HE Ht Hn Hdiv Hd.
  set (g := fun col =>
              if col <? head_dim_value p
              then (output T row col * grad_output T row col)%R else 0%R).
  transitivity
    (sum_upto t (fun c => sum_upto n (fun it =>
       sum_upto E (fun i => g (it * (t * E) + (c * E + i)))))).
  { apply sum_upto_ext. intros c Hc. apply sum_upto_ext. intros it Hit.
    replace (E * c + it * E * t) with ((c + it * t) * E) by ring.
    rewrite delta_stage_aligned by (try assumption; nia).
    apply sum_upto_ext. intros i Hi. unfold g.
    replace (it * (t * E) + (c * E + i)) with ((c + it * t) * E + i) by ring.
    reflexivity. }
  rewrite sum_upto_swap.
  transitivity (sum_upto n (fun it =>
                  sum_upto (t * E) (fun y => g (it * (t * E) + y)))).
  { apply sum_upto_ext. intros it Hit.
    apply (sum_upto_block t E (fun y => g (it * (t * E) + y))); lia. }
  rewrite (sum_upto_block n (t * E) g) by nia.
  rewrite (sum_upto_trunc (head_dim_value p)).
  - unfold reference_delta. apply sum_upto_ext. intros c Hc. unfold g.
    destruct (Z.ltb_spec c (head_dim_value p)); [reflexivity | lia].
  - lia.
  - intros k Hk _. unfold g.
    destruct (Z.ltb_spec k (head_dim_value p)); [lia | reflexivity].
Qed.

(** ** [computeDelta]: the reduction between workers *)

Lemma sum_upto_2 f : sum_upto 2 f = (f 0%Z + f 1%Z)%R.
Proof. unfold sum_upto. simpl. lra. Qed.

Lemma sum_upto_4 f : sum_upto 4 f = (f 0%Z + f 1%Z + f 2%Z + f 3%Z)%R.
Proof. unfold sum_upto. simpl. lra. Qed.

(** After the butterfly, a lane holds the sum of the values of the aligned
    group of [kNumThreadsPerLine] lanes that it belongs to. *)
Lemma shfl_reduce_group K (v : Z -> R) lane_id :
  0 <= lane_id < 32 ->
  shfl_reduce K (Z.to_nat (kNumThreadsPerLine K)) 1 v lane_id =
  sum_upto (kNumThreadsPerLine K)
    (fun c => v (kNumThreadsPerLine K *
                 Z.quot lane_id (kNumThreadsPerLine K) + c)).
Proof.
  intros Hl.
  assert (Hk : lane_id = Z.of_nat (Z.to_nat lane_id)) by lia.
  assert (Hlt : (Z.to_nat lane_id < 32)%nat) by lia.
  revert Hk Hlt. generalize (Z.to_nat lane_id). intros k -> Hlt. clear Hl.
  destruct (kNumThreadsPerLine_cases K) as [E | E].
  - unfold shfl_reduce. rewrite E. simpl. rewrite sum_upto_2.
    do 32 (destruct k as [|k]; [simpl; lra |]). lia.
  - unfold shfl_reduce. rewrite E. simpl. rewrite sum_upto_4.
    do 32 (destruct k as [|k]; [simpl; lra |]). lia.
Qed.

(** The value that a thread stores for its row, once the workers of the row
    have been reduced, is the row delta. *)
Lemma computeDelta_value_spec K E p T query_start warp_id lane_id :
  0 < E < 2 ^ 31 -> (E | head_dim_value p) ->
  0 <= head_dim_value p <= kMaxIters K E * (E * kNumThreadsPerLine K) ->
  0 <= lane_id < 32 -> 0 <= warp_id ->
  int32 (query_start +
         Z.quot (lane_id + warp_id * kWarpSize) (kNumThreadsPerLine K))
    < num_queries p ->
  computeDelta_value K E p T query_start warp_id lane_id =
  reference_delta p T
    (int32 (query_start +
            Z.quot (lane_id + warp_id * kWarpSize) (kNumThreadsPerLine K))).
Proof.
  intros HE Hdiv Hd Hl Hw Hrow.
  assert (HT : 0 < kNumThreadsPerLine K)
    by (destruct (kNumThreadsPerLine_cases K); lia).
  assert (HN : 0 <= kMaxIters K E) by nia.
  unfold computeDelta_value. rewrite shfl_reduce_group by exact Hl.
  rewrite <- (delta_row_sum E p T _ (kNumThreadsPerLine K) (kMaxIters K E))
    by (try assumption; lia).
  apply sum_upto_ext. intros c Hc.
  rewrite computeDelta_partial_spec by exact HE. cbv zeta.
  assert (Hq : Z.quot (kNumThreadsPerLine K *
                       Z.quot lane_id (kNumThreadsPerLine K) + c +
                       warp_id * kWarpSize) (kNumThreadsPerLine K) =
               Z.quot (lane_id + warp_id * kWarpSize) (kNumThreadsPerLine K)).
  { unfold kWarpSize.
    destruct (kNumThreadsPerLine_cases K) as [Ek | Ek]; rewrite Ek in *;
      Z.to_euclidean_division_equations; lia. }
  assert (Hr : Z.rem (kNumThreadsPerLine K *
                      Z.quot lane_id (kNumThreadsPerLine K) + c)
                 (kNumThreadsPerLine K) = c).
  { destruct (kNumThreadsPerLine_cases K) as [Ek | Ek]; rewrite Ek in *;
      Z.to_euclidean_division_equations; lia. }
  rewrite Hq, Hr. apply sum_upto_ext. intros it Hit.
  unfold stage_pred.
  destruct (Z.ltb_spec
              (int32 (query_start +
                      Z.quot (lane_id + warp_id * kWarpSize)
                        (kNumThreadsPerLine K)))
              (num_queries p)); [| lia].
  reflexivity.
Qed.

(** ** [computeDelta]: the stores of a block and of the kernel *)

(** A fold of stores in which every store to [r] writes [v]. *)
Lemma fold_store_value (A : Type) (step : (Z -> R) -> A -> Z -> R)
  (writes : A -> bool) (r : Z) (v : R) (l : list A) : forall buf,
  (forall buf a, In a l -> writes a = true -> step buf a r = v) ->
  (forall buf a, In a l -> writes a = false -> step buf a r = buf r) ->
  fold_left step l buf r = if existsb writes l then v else buf r.
Proof.
  induction l as [|a l IH]; intros buf Hw Hn; simpl; [reflexivity |].
  rewrite IH.
  - destruct (existsb writes l); [rewrite orb_true_r; reflexivity |].
    rewrite orb_false_r. destruct (writes a) eqn:Ea.
    + apply Hw; [left; reflexivity | exact Ea].
    + apply Hn; [left; reflexivity | exact Ea].
  - intros buf' a' Hin. apply Hw. right. exact Hin.
  - intros buf' a' Hin. apply Hn. right. exact Hin.
Qed.

Lemma thread_lane_warp t :
  0 <= t -> Z.rem t kWarpSize + Z.quot t kWarpSize * kWarpSize = t.
Proof. intros Ht. unfold kWarpSize. Z.to_euclidean_division_equations. lia. Qed.

(** One call of [computeDelta] stores the row delta of every query row of
    its tile and leaves the rest of the buffer alone. *)
Lemma computeDelta_block K E p T query_start buf r :
  0 < E < 2 ^ 31 -> (E | head_dim_value p) ->
  0 <= head_dim_value p <= kMaxIters K E * (E * kNumThreadsPerLine K) ->
  0 <= query_start -> query_start + kBlockSizeI K <= 2 ^ 31 ->
  computeDelta K E p T query_start buf r =
  if (query_start <=? r) && (r <? query_start + kBlockSizeI K) &&
     (r <? num_queries p)
  then reference_delta p T r else buf r.
Proof.
  intros HE Hdiv Hd Hq Hr.
  assert (HT : 0 < kNumThreadsPerLine K)
    by (destruct (kNumThreadsPerLine_cases K); lia).
  assert (HI : 0 < kBlockSizeI K) by (destruct (kBlockSizeI_cases K); lia).
  assert (Hrow : forall t, 0 <= t < kNumThreads K ->
            0 <= Z.quot t (kNumThreadsPerLine K) < kBlockSizeI K /\
            int32 (query_start + Z.quot t (kNumThreadsPerLine K)) =
            query_start + Z.quot t (kNumThreadsPerLine K)).
  { intros t Ht. rewrite kNumThreads_PerLine in Ht.
    assert (0 <= Z.quot t (kNumThreadsPerLine K) < kBlockSizeI K).
    { rewrite Z.quot_div_nonneg by lia. split.
      - apply Z.div_pos; lia.
      - apply Z.div_lt_upper_bound; lia. }
    split; [assumption |]. apply int32_id. unfold in_int32. lia. }
  unfold computeDelta.
  rewrite (fold_store_value Z (computeDelta_thread K E p T query_start)
             (fun t =>
                (int32 (query_start + Z.quot t (kNumThreadsPerLine K))
                 <? num_queries p) &&
                (r =? int32 (query_start + Z.quot t (kNumThreadsPerLine K))))
             r (reference_delta p T r)).
  - destruct (existsb _ (thread_ids K)) eqn:Ex.
    + apply existsb_exists in Ex. destruct Ex as [t [Hin Hw]].
      apply thread_ids_In in Hin. destruct (Hrow t Hin) as [Hb Hid].
      rewrite Hid in Hw. apply andb_prop in Hw. destruct Hw as [Hw1 Hw2].
      apply Z.ltb_lt in Hw1. apply Z.eqb_eq in Hw2.
      destruct (Z.leb_spec query_start r); [| lia].
      destruct (Z.ltb_spec r (query_start + kBlockSizeI K)); [| lia].
      destruct (Z.ltb_spec r (num_queries p)); [| lia]. reflexivity.
    + destruct (Z.leb_spec query_start r); [| reflexivity].
      destruct (Z.ltb_spec r (query_start + kBlockSizeI K)); [| reflexivity].
      destruct (Z.ltb_spec r (num_queries p)); [| reflexivity]. simpl.
      exfalso. rewrite <- not_true_iff_false in Ex. apply Ex.
      apply existsb_exists. exists ((r - query_start) * kNumThreadsPerLine K).
      assert (Hin : 0 <= (r - query_start) * kNumThreadsPerLine K
                    < kNumThreads K)
        by (rewrite kNumThreads_PerLine; nia).
      split; [apply thread_ids_In; exact Hin |].
      rewrite Z.quot_mul by lia.
      rewrite int32_id by (unfold in_int32; lia).
      replace (query_start + (r - query_start)) with r by lia.
      rewrite Z.eqb_refl. destruct (Z.ltb_spec r (num_queries p)); [| lia].
      reflexivity.
  - intros buf' t Hin Hw. apply thread_ids_In in Hin.
    apply andb_prop in Hw. destruct Hw as [Hw1 Hw2].
    apply Z.eqb_eq in Hw2. unfold computeDelta_thread. rewrite Hw1.
    rewrite <- Hw2, Z.eqb_refl.
    rewrite computeDelta_value_spec; try assumption.
    + rewrite thread_lane_warp by lia. rewrite <- Hw2. reflexivity.
    + unfold kWarpSize. Z.to_euclidean_division_equations. lia.
    + unfold kWarpSize. Z.to_euclidean_division_equations. lia.
    + rewrite thread_lane_warp by lia. apply Z.ltb_lt. exact Hw1.
  - intros buf' t Hin Hw. unfold computeDelta_thread.
    destruct (int32 (query_start + Z.quot t (kNumThreadsPerLine K))
              <? num_queries p); [| reflexivity].
    simpl in Hw. rewrite Hw. reflexivity.
Qed.

Lemma sizeof_bits_scalar_t K : sizeof_bits (scalar_t K) = 16.
Proof. unfold scalar_t. destruct (scalar_t__ K); reflexivity. Qed.

(** The calls of [computeDelta] made by [kernel], for an access width that
    suits the head dimension. *)
Lemma computeDelta_tiles K E p T buf r :
  0 < E < 2 ^ 31 -> (E | head_dim_value p) ->
  0 <= head_dim_value p <= kMaxIters K E * (E * kNumThreadsPerLine K) ->
  num_queries p + kBlockSizeI K <= 2 ^ 31 ->
  0 <= r < num_queries p ->
  fold_left (fun d query_start => computeDelta K E p T query_start d)
    (for_range 0 (num_queries p) (kBlockSizeI K)) buf r =
  reference_delta p T r.
Proof.
  intros HE Hdiv Hd Hn Hr.
  assert (HI : 0 < kBlockSizeI K) by (destruct (kBlockSizeI_cases K); lia).
  assert (Hin : forall q, In q (for_range 0 (num_queries p) (kBlockSizeI K)) <->
                  0 <= q < num_queries p /\ (kBlockSizeI K | q - 0))
    by (intros q; apply for_range_In; lia).
  rewrite (fold_store_value Z
             (fun d query_start => computeDelta K E p T query_start d)
             (fun q => (q <=? r) && (r <? q + kBlockSizeI K))
             r (reference_delta p T r)).
  - destruct (existsb _ _) eqn:Ex; [reflexivity |].
    exfalso. rewrite <- not_true_iff_false in Ex. apply Ex.
    apply existsb_exists. exists (Z.quot r (kBlockSizeI K) * kBlockSizeI K).
    pose proof (quot_mul_bounds r (kBlockSizeI K) ltac:(lia) HI) as B.
    split.
    + apply Hin. split; [lia |]. exists (Z.quot r (kBlockSizeI K)). lia.
    + apply andb_true_intro. split; [apply Z.leb_le | apply Z.ltb_lt]; lia.
  - intros buf' q Hq Hw. apply Hin in Hq.
    rewrite computeDelta_block by (try assumption; lia).
    apply andb_prop in Hw. destruct Hw as [Hw1 Hw2]. rewrite Hw1, Hw2.
    destruct (Z.ltb_spec r (num_queries p)); [reflexivity | lia].
  - intros buf' q Hq Hw. apply Hin in Hq.
    rewrite computeDelta_block by (try assumption; lia).
    rewrite Hw. reflexivity.
Qed.

Lemma kMaxIters_exact K E :
  (E = 1 \/ E = 8) -> (32 | kMaxK K) -> 0 <= kMaxK K ->
  kMaxIters K E * (E * kNumThreadsPerLine K) = kMaxK K.
Proof.
  intros HE [c Hc] Hpos. unfold kMaxIters. rewrite Hc.
  destruct HE as [-> | ->];
    destruct (kNumThreadsPerLine_cases K) as [-> | ->];
    Z.to_euclidean_division_equations; lia.
Qed.



(** ** The dropout mask: one thread *)

(** The counter of a loop with a positive step, as a list. *)
Lemma for_loop_step fuel : forall i stop step,
  0 < step -> - 2 ^ 31 <= i -> stop + step <= 2 ^ 31 ->
  (Z.to_nat (stop - i) <= fuel)%nat ->
  for_loop fuel i stop step =
  map (fun k => i + step * Z.of_nat k)
    (seq 0 (Z.to_nat ((stop - i + step - 1) / step))).
Proof.
  induction fuel as [|fuel IH]; intros i stop step Hs Hi Hstop Hf; simpl.
  - replace (Z.to_nat ((stop - i + step - 1) / step)) with 0%nat;
      [reflexivity |].
    assert ((stop - i + step - 1) / step <= 0); [| lia].
    apply Z.lt_succ_r. apply Z.div_lt_upper_bound; lia.
  - destruct (Z.ltb_spec i stop) as [Hlt | Hge].
    + rewrite int32_id by (unfold in_int32; lia).
      rewrite IH by lia.
      replace ((stop - i + step - 1) / step)
        with ((stop - (i + step) + step - 1) / step + 1).
      2:{ replace (stop - i + step - 1)
            with (stop - (i + step) + step - 1 + 1 * step) by lia.
          rewrite Z.div_add by lia. reflexivity. }
      assert (0 <= (stop - (i + step) + step - 1) / step)
        by (apply Z.div_pos; lia).
      rewrite Z2Nat.inj_add by lia. rewrite Nat.add_comm. simpl.
      f_equal; [lia |].
      rewrite <- seq_shift, map_map. apply map_ext. intros k. lia.
    + replace (Z.to_nat ((stop - i + step - 1) / step)) with 0%nat;
        [reflexivity |].
      assert ((stop - i + step - 1) / step <= 0); [| lia].
      apply Z.lt_succ_r. apply Z.div_lt_upper_bound; lia.
Qed.

Lemma for_range_step start stop step :
  0 < step -> - 2 ^ 31 <= start -> stop + step <= 2 ^ 31 ->
  for_range start stop step =
  map (fun k => start + step * Z.of_nat k)
    (seq 0 (Z.to_nat ((stop - start + step - 1) / step))).
Proof.
  intros. unfold for_range. apply for_loop_step; auto with zarith.
Qed.

(** One turn of the loop on [zij_start_col_idx] writes the four draws that
    follow the position of the generator to the columns
    [zij_start_col_idx], ..., [zij_start_col_idx + 3] of the row
    [thread_i] of the mask. *)
Lemma zij_quad_spec stream p thread_i st zij c0 :
  fst (zij_quad stream p thread_i (st, zij) c0) = skipahead 4 st /\
  forall m n,
    snd (zij_quad stream p thread_i (st, zij) c0) m n =
    if (n =? thread_i) && (c0 <=? m) && (m <? c0 + 4)
    then mask_of_draw stream p st (philox_position st + (m - c0))
    else zij m n.
Proof.
  split; [reflexivity |]. intros m n.
  unfold zij_quad, curand_uniform4, mask_of_draw, tile_set. simpl.
  destruct (Z.eqb_spec n thread_i) as [-> | Hn]; simpl.
  2:{ rewrite !andb_false_r. reflexivity. }
  rewrite !andb_true_r.
  destruct (Z.eqb_spec m (c0 + 3)) as [-> | H3].
  { destruct (Z.leb_spec c0 (c0 + 3)); [| lia].
    destruct (Z.ltb_spec (c0 + 3) (c0 + 4)); [| lia]. simpl.
    replace (c0 + 3 - c0) with 3 by lia. reflexivity. }
  destruct (Z.eqb_spec m (c0 + 2)) as [-> | H2].
  { destruct (Z.leb_spec c0 (c0 + 2)); [| lia].
    destruct (Z.ltb_spec (c0 + 2) (c0 + 4)); [| lia]. simpl.
    replace (c0 + 2 - c0) with 2 by lia. reflexivity. }
  destruct (Z.eqb_spec m (c0 + 1)) as [-> | H1].
  { destruct (Z.leb_spec c0 (c0 + 1)); [| lia].
    destruct (Z.ltb_spec (c0 + 1) (c0 + 4)); [| lia]. simpl.
    replace (c0 + 1 - c0) with 1 by lia. reflexivity. }
  destruct (Z.eqb_spec m (c0 + 0)) as [-> | H0].
  { destruct (Z.leb_spec c0 (c0 + 0)); [| lia].
    destruct (Z.ltb_spec (c0 + 0) (c0 + 4)); [| lia]. simpl.
    replace (c0 + 0 - c0) with 0 by lia. reflexivity. }
  destruct (Z.leb_spec c0 m); simpl; [| reflexivity].
  destruct (Z.ltb_spec m (c0 + 4)); [lia | reflexivity].
Qed.

Lemma mask_of_draw_state stream p s s' position :
  philox_seed s' = philox_seed s ->
  philox_subsequence s' = philox_subsequence s ->
  mask_of_draw stream p s' position = mask_of_draw stream p s position.
Proof. intros H1 H2. unfold mask_of_draw. rewrite H1, H2. reflexivity. Qed.

(** [k] turns of the loop write [4 k] consecutive draws to the row
    [thread_i], from the column [c0] on. *)
Lemma zij_quads_fold stream p thread_i c0 k : forall st zij,
  let r := fold_left (zij_quad stream p thread_i)
             (map (fun q => c0 + 4 * Z.of_nat q) (seq 0 k)) (st, zij) in
  philox_seed (fst r) = philox_seed st /\
  philox_subsequence (fst r) = philox_subsequence st /\
  philox_position (fst r) = philox_position st + 4 * Z.of_nat k /\
  forall m n,
    snd r m n =
    if (n =? thread_i) && (c0 <=? m) && (m <? c0 + 4 * Z.of_nat k)
    then mask_of_draw stream p st (philox_position st + (m - c0))
    else zij m n.
Proof.
  induction k as [|k IH]; intros st zij; cbv zeta.
  - simpl. repeat split; try lia. intros m n.
    destruct (n =? thread_i); simpl; [| reflexivity].
    destruct (Z.leb_spec c0 m); simpl; [| reflexivity].
    destruct (Z.ltb_spec m (c0 + 0)); [lia | reflexivity].
  - rewrite seq_S, map_app, fold_left_app.
    cbn [map fold_left Nat.add].
    destruct (IH st zij) as (Hs & Hq & Hp & Hz).
    destruct (fold_left _ _ (st, zij)) as [st' zij'] eqn:E.
    cbn [fst snd] in Hs, Hq, Hp, Hz.
    destruct (zij_quad_spec stream p thread_i st' zij'
                (c0 + 4 * Z.of_nat k)) as [Hf Hc].
    rewrite Hf. rewrite Nat2Z.inj_succ. unfold Z.succ.
    unfold skipahead at 1 2 3. cbn [philox_seed philox_subsequence
                                    philox_position].
    split; [exact Hs |]. split; [exact Hq |]. split; [lia |].
    intros m n. rewrite Hc, Hz.
    rewrite (mask_of_draw_state stream p st st') by assumption.
    rewrite Hp.
    destruct (Z.eqb_spec n thread_i); cbn [andb]; [| reflexivity].
    destruct (Z.leb_spec c0 m); cbn [andb].
    + destruct (Z.leb_spec (c0 + 4 * Z.of_nat k) m); cbn [andb].
      * destruct (Z.ltb_spec m (c0 + 4 * Z.of_nat k + 4));
          destruct (Z.ltb_spec m (c0 + 4 * Z.of_nat k));
          destruct (Z.ltb_spec m (c0 + 4 * (Z.of_nat k + 1)));
          try lia; try reflexivity.
        f_equal. lia.
      * destruct (Z.ltb_spec m (c0 + 4 * Z.of_nat k));
          destruct (Z.ltb_spec m (c0 + 4 * (Z.of_nat k + 1)));
          try lia; reflexivity.
    + destruct (Z.leb_spec (c0 + 4 * Z.of_nat k) m); [lia |]. reflexivity.
Qed.

Lemma zij_geometry K nq nk :
  1 <= nq <= kBlockSizeI K -> 1 <= nk <= kBlockSizeJ K ->
  1 <= zij_threads_per_row K nq nk <= nk /\
  nq * zij_threads_per_row K nq nk <= kNumThreads K /\
  4 <= zij_elts_per_thread K nq nk <= 128 /\
  (4 | zij_elts_per_thread K nq nk) /\
  nk <= zij_threads_per_row K nq nk * zij_elts_per_thread K nq nk.
Proof.
  intros Hq Hk.
  assert (HJ : kBlockSizeJ K <= 128)
    by (destruct (kBlockSizeJ_cases K); lia).
  assert (HNT : kBlockSizeI K <= kNumThreads K).
  { rewrite kNumThreads_PerLine.
    destruct (kNumThreadsPerLine_cases K) as [-> | ->];
      destruct (kBlockSizeI_cases K); lia. }
  pose proof (quot_mul_bounds (kNumThreads K) nq ltac:(lia) ltac:(lia)) as Bq.
  assert (H1 : 1 <= Z.quot (kNumThreads K) nq) by nia.
  unfold zij_elts_per_thread, zij_threads_per_row.
  set (tpr := Z.min (Z.quot (kNumThreads K) nq) nk).
  assert (Htpr : 1 <= tpr <= nk) by (unfold tpr; lia).
  assert (Hrow : nq * tpr <= kNumThreads K) by (unfold tpr; nia).
  unfold cutlass_round_nearest, cutlass_ceil_div.
  rewrite (int32_id (nk + tpr)) by (unfold in_int32; lia).
  rewrite (int32_id (nk + tpr - 1)) by (unfold in_int32; lia).
  pose proof (quot_mul_bounds (nk + tpr - 1) tpr ltac:(lia) ltac:(lia)) as Bc.
  set (cd := Z.quot (nk + tpr - 1) tpr) in *.
  assert (Hcd : 1 <= cd <= nk) by nia.
  rewrite (int32_id (cd + 4)) by (unfold in_int32; lia).
  rewrite (int32_id (cd + 4 - 1)) by (unfold in_int32; lia).
  assert (Hr : cd <= Z.quot (cd + 4 - 1) 4 * 4 <= cd + 3)
    by (Z.to_euclidean_division_equations; lia).
  rewrite int32_id by (unfold in_int32; lia).
  split; [exact Htpr |]. split; [exact Hrow |].
  split; [Z.to_euclidean_division_equations; lia |].
  split; [exists (Z.quot (cd + 4 - 1) 4); reflexivity |].
  nia.
Qed.

(** What one thread writes to the mask: the draws of the stream of the
    block, from the position of the first entry of the thread on, to the
    entries of its row from [thread_start_j] to the end of the last group of
    four that starts before the end of its share and of the block. *)
Lemma zij_thread_spec K stream skipBoundsChecks p query_start key_start
  st zij t m n :
  1 <= num_queries_in_block K skipBoundsChecks p query_start
    <= kBlockSizeI K ->
  1 <= num_keys_in_block K skipBoundsChecks p key_start <= kBlockSizeJ K ->
  0 <= t < kNumThreads K ->
  let nq := num_queries_in_block K skipBoundsChecks p query_start in
  let nk := num_keys_in_block K skipBoundsChecks p key_start in
  let tpr := zij_threads_per_row K nq nk in
  let ept := zij_elts_per_thread K nq nk in
  let thread_i := Z.quot t tpr in
  let thread_start_j := Z.rem t tpr * ept in
  let stop := Z.min (thread_start_j + ept) nk in
  zij_thread K stream skipBoundsChecks p query_start key_start st zij t m n =
  if (thread_i <? nq) && (thread_start_j <? nk) && (n =? thread_i) &&
     (thread_start_j <=? m) &&
     (m <? thread_start_j + 4 * ((stop - thread_start_j + 3) / 4))
  then mask_of_draw stream p st
         (philox_position st +
          uint64 (int32 (int32 (int32 (query_start + thread_i) * num_keys p) +
                         int32 (key_start + thread_start_j))) +
          (m - thread_start_j))
  else zij m n.
Proof.
  intros Hq Hk Ht nq nk tpr ept thread_i thread_start_j stop.
  destruct (zij_geometry K nq nk Hq Hk) as (Htpr & Hrow & Hept & Hdiv & Hcov).
  fold tpr ept in Htpr, Hrow, Hept, Hdiv, Hcov.
  assert (HJ : kBlockSizeJ K <= 128)
    by (destruct (kBlockSizeJ_cases K); lia).
  assert (Hrem : 0 <= Z.rem t tpr < tpr).
  { rewrite Z.rem_mod_nonneg by lia. apply Z.mod_pos_bound. lia. }
  assert (Htsj : 0 <= thread_start_j <= 128 * 128)
    by (unfold thread_start_j; nia).
  unfold zij_thread. cbv zeta.
  fold nq nk. fold tpr ept thread_i.
  rewrite !(int32_id (Z.rem t tpr * ept)) by (unfold in_int32; lia).
  fold thread_start_j.
  destruct (thread_i <? nq); cbn [andb]; [| reflexivity].
  destruct (Z.ltb_spec thread_start_j nk); cbn [andb]; [| reflexivity].
  rewrite (int32_id (thread_start_j + ept)) by (unfold in_int32; lia).
  fold stop.
  rewrite for_range_step by (unfold stop; lia).
  replace (stop - thread_start_j + 4 - 1) with (stop - thread_start_j + 3)
    by lia.
  match goal with
  | |- snd (fold_left _ (map _ (seq 0 ?k)) (?s0, _)) m n = _ =>
      destruct (zij_quads_fold stream p thread_i thread_start_j k s0 zij)
        as (_ & _ & _ & Hz)
  end.
  rewrite Hz. clear Hz.
  rewrite Z2Nat.id by (apply Z.div_pos; unfold stop; lia).
  destruct ((n =? thread_i) && (thread_start_j <=? m) &&
            (m <? thread_start_j + 4 * ((stop - thread_start_j + 3) / 4)));
    [| reflexivity].
  rewrite (mask_of_draw_state stream p st) by reflexivity.
  reflexivity.
Qed.

(** ** The dropout mask: the block *)

(** A fold of stores, observed through [obs], in which every store that
    [obs] sees writes [v]. *)
Lemma fold_store_obs (A B : Type) (obs : B -> R) (step : B -> A -> B)
  (writes : A -> bool) (v : R) (l : list A) : forall buf,
  (forall buf a, In a l -> writes a = true -> obs (step buf a) = v) ->
  (forall buf a, In a l -> writes a = false -> obs (step buf a) = obs buf) ->
  obs (fold_left step l buf) = if existsb writes l then v else obs buf.
Proof.
  induction l as [|a l IH]; intros buf Hw Hn; simpl; [reflexivity |].
  rewrite IH.
  - destruct (existsb writes l); [rewrite orb_true_r; reflexivity |].
    rewrite orb_false_r. destruct (writes a) eqn:Ea.
    + apply Hw; [left; reflexivity | exact Ea].
    + apply Hn; [left; reflexivity | exact Ea].
  - intros buf' a' Hin. apply Hw. right. exact Hin.
  - intros buf' a' Hin. apply Hn. right. exact Hin.
Qed.

Lemma quot_rem_decomp a b c :
  0 <= a -> 0 <= c < b ->
  Z.quot (a * b + c) b = a /\ Z.rem (a * b + c) b = c.
Proof.
  intros Ha Hc.
  rewrite Z.quot_div_nonneg, Z.rem_mod_nonneg by nia.
  split.
  - rewrite Z.add_comm, Z.div_add by lia. rewrite Z.div_small by lia. lia.
  - rewrite Z.add_comm, Z.mod_add by lia. apply Z.mod_small. lia.
Qed.

(** With dropout, every entry of the mask inside the extent of the block is
    generated by one thread, from the draw that follows the first draw of
    that thread by the distance of the entry to the first entry of the
    thread. *)
Lemma generate_zij_cell K stream skipBoundsChecks p query_start key_start
  st zij_before m n :
  kApplyDropout K = true ->
  1 <= num_queries_in_block K skipBoundsChecks p query_start
    <= kBlockSizeI K ->
  1 <= num_keys_in_block K skipBoundsChecks p key_start <= kBlockSizeJ K ->
  0 <= m < num_keys_in_block K skipBoundsChecks p key_start ->
  0 <= n < num_queries_in_block K skipBoundsChecks p query_start ->
  let ept :=
    zij_elts_per_thread K
      (num_queries_in_block K skipBoundsChecks p query_start)
      (num_keys_in_block K skipBoundsChecks p key_start) in
  let thread_start_j := Z.quot m ept * ept in
  generate_zij K stream skipBoundsChecks p query_start key_start
    st zij_before m n =
  mask_of_draw stream p st
    (philox_position st +
     uint64 (int32 (int32 (int32 (query_start + n) * num_keys p) +
                    int32 (key_start + thread_start_j))) +
     (m - thread_start_j)).
Proof.
  intros Hdrop Hq Hk Hm Hn.
  set (nq := num_queries_in_block K skipBoundsChecks p query_start) in *.
  set (nk := num_keys_in_block K skipBoundsChecks p key_start) in *.
  destruct (zij_geometry K nq nk Hq Hk) as (Htpr & Hrow & Hept & Hdiv & Hcov).
  set (tpr := zij_threads_per_row K nq nk) in *.
  set (ept := zij_elts_per_thread K nq nk) in *.
  cbv zeta.
  unfold generate_zij. rewrite Hdrop.
  set (writes := fun t =>
         (Z.quot t tpr <? nq) && (Z.rem t tpr * ept <? nk) &&
         (n =? Z.quot t tpr) && (Z.rem t tpr * ept <=? m) &&
         (m <? Z.rem t tpr * ept +
               4 * ((Z.min (Z.rem t tpr * ept + ept) nk -
                     Z.rem t tpr * ept + 3) / 4))).
  assert (Hc : 0 <= Z.quot m ept < tpr).
  { rewrite Z.quot_div_nonneg by lia. split.
    - apply Z.div_pos; lia.
    - apply Z.div_lt_upper_bound; lia. }
  pose proof (quot_mul_bounds m ept ltac:(lia) ltac:(lia)) as Bm.
  rewrite (fold_store_obs Z Tile (fun z => z m n)
             (zij_thread K stream skipBoundsChecks p query_start key_start st)
             writes
             (mask_of_draw stream p st
                (philox_position st +
                 uint64
                   (int32 (int32 (int32 (query_start + n) * num_keys p) +
                           int32 (key_start + Z.quot m ept * ept))) +
                 (m - Z.quot m ept * ept)))).
  - destruct (existsb writes (thread_ids K)) eqn:Ex; [reflexivity |].
    exfalso. rewrite <- not_true_iff_false in Ex. apply Ex. clear Ex.
    apply existsb_exists.
    exists (n * tpr + Z.quot m ept).
    split; [apply thread_ids_In; nia |].
    unfold writes.
    destruct (quot_rem_decomp n tpr (Z.quot m ept) ltac:(lia) Hc) as [-> ->].
    set (tsj := Z.quot m ept * ept) in *.
    assert (Hstop : m < Z.min (tsj + ept) nk) by lia.
    assert (Hquad : Z.min (tsj + ept) nk - tsj
                    <= 4 * ((Z.min (tsj + ept) nk - tsj + 3) / 4))
      by (Z.to_euclidean_division_equations; lia).
    destruct (Z.ltb_spec n nq); [| lia].
    destruct (Z.ltb_spec tsj nk); [| lia].
    rewrite Z.eqb_refl.
    destruct (Z.leb_spec tsj m); [| lia].
    destruct (Z.ltb_spec m
                (tsj + 4 * ((Z.min (tsj + ept) nk - tsj + 3) / 4)));
      [reflexivity | lia].
  - intros zij t Hin Hw. apply thread_ids_In in Hin.
    rewrite zij_thread_spec by assumption. cbv zeta.
    fold nq nk tpr ept. fold (writes t). rewrite Hw.
    unfold writes in Hw.
    repeat (apply andb_prop in Hw; destruct Hw as [Hw ?]).
    match goal with H : (n =? _) = true |- _ => apply Z.eqb_eq in H;
      rewrite <- H end.
    match goal with H : (_ <=? m) = true |- _ => apply Z.leb_le in H end.
    match goal with H : (m <? _) = true |- _ => apply Z.ltb_lt in H end.
    assert (Hrem : 0 <= Z.rem t tpr < tpr).
    { rewrite Z.rem_mod_nonneg by lia. apply Z.mod_pos_bound. lia. }
    destruct Hdiv as [e4 He4].
    assert (Hlim : 4 * ((Z.min (Z.rem t tpr * ept + ept) nk -
                         Z.rem t tpr * ept + 3) / 4) <= ept).
    { rewrite He4. Z.to_euclidean_division_equations. lia. }
    assert (Hsame : Z.rem t tpr = Z.quot m ept).
    { rewrite (Z.quot_div_nonneg m ept) by lia.
      apply (Z.div_unique m ept (Z.rem t tpr) (m - Z.rem t tpr * ept)); lia. }
    rewrite Hsame. reflexivity.
  - intros zij t Hin Hw. apply thread_ids_In in Hin.
    rewrite zij_thread_spec by assumption. cbv zeta.
    fold nq nk tpr ept. fold (writes t). rewrite Hw. reflexivity.
Qed.

(** As long as that position fits 32 bits, it is (global query row) x (key
    length) + (global key column) in the stream of the block. *)
Lemma generate_zij_in K stream skipBoundsChecks p query_start key_start
  st zij_before m n :
  kApplyDropout K = true ->
  1 <= num_queries_in_block K skipBoundsChecks p query_start
    <= kBlockSizeI K ->
  1 <= num_keys_in_block K skipBoundsChecks p key_start <= kBlockSizeJ K ->
  0 <= m < num_keys_in_block K skipBoundsChecks p key_start ->
  0 <= n < num_queries_in_block K skipBoundsChecks p query_start ->
  0 <= query_start -> 0 <= key_start -> 1 <= num_keys p ->
  (query_start + n) * num_keys p + (key_start + m) < 2 ^ 31 ->
  generate_zij K stream skipBoundsChecks p query_start key_start
    st zij_before m n =
  mask_of_draw stream p st
    (philox_position st +
     ((query_start + n) * num_keys p + (key_start + m))).
Proof.
  intros Hdrop Hq Hk Hm Hn Hqs Hks Hkeys Hpos.
  rewrite generate_zij_cell by assumption. cbv zeta.
  destruct (zij_geometry K _ _ Hq Hk) as (_ & _ & Hept & _ & _).
  set (ept := zij_elts_per_thread K _ _) in *.
  pose proof (quot_mul_bounds m ept ltac:(lia) ltac:(lia)) as Bm.
  rewrite (int32_id (query_start + n)) by (unfold in_int32; nia).
  rewrite (int32_id ((query_start + n) * num_keys p))
    by (unfold in_int32; nia).
  rewrite (int32_id (key_start + Z.quot m ept * ept))
    by (unfold in_int32; nia).
  rewrite int32_id by (unfold in_int32; nia).
  rewrite uint64_id by nia.
  f_equal. lia.
Qed.

(** ** The random stream of a block *)

(** As long as the products of the dimensions fit 32 bits, the offset of a
    block is (batch, head) x (query length x key length). *)
Lemma advance_to_block_rng_offset_in_range p batch_id head_id :
  0 <= batch_id -> 0 <= head_id < num_heads p ->
  0 <= num_queries p -> 0 <= num_keys p ->
  num_heads p * num_queries p * num_keys p < 2 ^ 31 ->
  batch_id * (num_heads p * num_queries p * num_keys p) +
    head_id * (num_queries p * num_keys p) < 2 ^ 63 ->
  dropout_batch_head_rng_offset (advance_to_block p batch_id head_id) =
  batch_id * (num_heads p * num_queries p * num_keys p) +
  head_id * (num_queries p * num_keys p).
Proof.
  intros Hb Hh Hq Hk H32 H64.
  unfold advance_to_block, set_dropout_batch_head_rng_offset. simpl.
  assert (0 <= num_queries p * num_keys p) by nia.
  assert (num_queries p * num_keys p
          <= num_heads p * (num_queries p * num_keys p)) by nia.
  assert (0 <= num_heads p * num_queries p) by nia.
  assert (head_id * (num_queries p * num_keys p)
          <= num_heads p * (num_queries p * num_keys p)) by nia.
  assert (0 <= head_id * (num_queries p * num_keys p)) by nia.
  assert (0 <= batch_id * (num_heads p * num_queries p * num_keys p)) by nia.
  destruct (Z.eq_dec (num_keys p) 0) as [E0 | E0].
  - rewrite E0 in *. rewrite !Z.mul_0_r. vm_compute. reflexivity.
  - assert (num_heads p * num_queries p
            <= num_heads p * num_queries p * num_keys p) by nia.
    rewrite (int32_id (num_heads p * num_queries p))
      by (unfold in_int32; lia).
    rewrite (int32_id (num_heads p * num_queries p * num_keys p))
      by (unfold in_int32; lia).
    rewrite (int32_id (num_queries p * num_keys p))
      by (unfold in_int32; lia).
    rewrite (int32_id (head_id * (num_queries p * num_keys p)))
      by (unfold in_int32; lia).
    rewrite (int64_id (batch_id * _)) by (unfold in_int64; lia).
    rewrite int64_id by (unfold in_int64; lia).
    apply uint64_id. lia.
Qed.

(** Within those bounds, an entry of the mask of a block is the function
    [mask_of_draw] of the seed and of the position that the interface
    promises, counted from the offset of the host. *)
Lemma generate_zij_reference_position K stream skipBoundsChecks p
  batch_id head_id query_start key_start zij_before m n :
  kApplyDropout K = true ->
  1 <= num_queries_in_block K skipBoundsChecks p query_start
    <= kBlockSizeI K ->
  1 <= num_keys_in_block K skipBoundsChecks p key_start <= kBlockSizeJ K ->
  0 <= m < num_keys_in_block K skipBoundsChecks p key_start ->
  0 <= n < num_queries_in_block K skipBoundsChecks p query_start ->
  0 <= query_start -> 0 <= key_start -> 1 <= num_keys p ->
  query_start + n < num_queries p -> key_start + m < num_keys p ->
  0 <= batch_id -> 0 <= head_id < num_heads p ->
  num_heads p * num_queries p * num_keys p < 2 ^ 31 ->
  0 <= rng_offset p ->
  rng_offset p +
    batch_id * (num_heads p * num_queries p * num_keys p) +
    head_id * (num_queries p * num_keys p) < 2 ^ 63 ->
  generate_zij K stream skipBoundsChecks (advance_to_block p batch_id head_id)
    query_start key_start
    (rng_state_init (advance_to_block p batch_id head_id)) zij_before m n =
  (dropout_scale p *
   (if Rgt_dec
         (stream (rng_seed p) 0%Z
            (rng_offset p +
             reference_stream_position p batch_id head_id
               (query_start + n) (key_start + m))%Z)
         (dropout_prob p)
    then 1 else 0))%R.
Proof.
  intros Hdrop Hq Hk Hm Hn Hqs Hks Hkeys Hrow Hcol Hb Hh H32 Ho H64.
  assert (Hqq : 0 <= num_queries p) by lia.
  assert (0 <= num_queries p * num_keys p) by nia.
  assert ((query_start + n) * num_keys p + (key_start + m)
          < num_queries p * num_keys p) by nia.
  assert (num_queries p * num_keys p
          <= num_heads p * (num_queries p * num_keys p)) by nia.
  assert (0 <= batch_id * (num_heads p * num_queries p * num_keys p)) by nia.
  assert (0 <= head_id * (num_queries p * num_keys p)) by nia.
  pose proof (advance_to_block_rng_offset_in_range p batch_id head_id
                Hb Hh Hqq ltac:(lia) H32 ltac:(lia)) as Hoff.
  rewrite generate_zij_in; try assumption.
  - unfold mask_of_draw, rng_state_init, curand_init.
    cbn [philox_seed philox_subsequence philox_position].
    rewrite Hoff.
    change (rng_seed (advance_to_block p batch_id head_id))
      with (rng_seed p).
    change (rng_offset (advance_to_block p batch_id head_id))
      with (rng_offset p).
    change (num_keys (advance_to_block p batch_id head_id))
      with (num_keys p).
    change (dropout_prob (advance_to_block p batch_id head_id))
      with (dropout_prob p).
    change (dropout_scale (advance_to_block p batch_id head_id))
      with (dropout_scale p).
    rewrite uint64_id by lia.
    unfold reference_stream_position.
    replace (rng_offset p +
             (batch_id * (num_heads p * num_queries p * num_keys p) +
              head_id * (num_queries p * num_keys p)) +
             ((query_start + n) * num_keys p + (key_start + m)))
      with (rng_offset p +
            (batch_id * (num_heads p * num_queries p * num_keys p) +
             head_id * (num_queries p * num_keys p) +
             (query_start + n) * num_keys p + (key_start + m))) by lia.
    reflexivity.
  - change (num_keys (advance_to_block p batch_id head_id))
      with (num_keys p). nia.
Qed.

(** C5.  The code does not keep to the stream position of the claim when
    heads x query length x key length does not fit a signed 32-bit integer:
    [advance_to_block] computes that product, and head x (query length x
    key length), in [int32_t] before widening.  With 16 heads and 16384
    queries and keys the product is [2 ^ 32] and wraps to 0: the block
    (batch 1, head 0) gets the offset 0 instead of [2 ^ 32], its generator
    starts where that of (batch 0, head 0) starts, and the two blocks
    generate the same mask. *)
Theorem dropout_rng_offset_wraps :
  reference_stream_position long_sequence_params 1 0 0 0 = 2 ^ 32 /\
  dropout_batch_head_rng_offset (advance_to_block long_sequence_params 1 0)
    = 0 /\
  rng_state_init (advance_to_block long_sequence_params 1 0) =
  rng_state_init (advance_to_block long_sequence_params 0 0) /\
  forall stream skipBoundsChecks query_start key_start zij_before,
    generate_zij Sm80_f16_k64_dropout stream skipBoundsChecks
      (advance_to_block long_sequence_params 1 0) query_start key_start
      (rng_state_init (advance_to_block long_sequence_params 1 0))
      zij_before =
    generate_zij Sm80_f16_k64_dropout stream skipBoundsChecks
      (advance_to_block long_sequence_params 0 0) query_start key_start
      (rng_state_init (advance_to_block long_sequence_params 0 0))
      zij_before.
Proof.
  assert (E : advance_to_block long_sequence_params 1 0 =
              advance_to_block long_sequence_params 0 0).
  { unfold advance_to_block. f_equal. }
  split; [reflexivity |]. split; [reflexivity |].
  split; [rewrite E; reflexivity |].
  intros. rewrite E. reflexivity.
Qed.

(** ** Dropout with probability 0 *)

Lemma mask_of_draw_values stream p s position :
  mask_of_draw stream p s position = 0%R \/
  mask_of_draw stream p s position = (1 / (1 - dropout_prob p))%R.
Proof.
  unfold mask_of_draw, dropout_scale.
  destruct (Rgt_dec _ _); [right | left]; lra.
Qed.

Lemma mask_of_draw_keep_all stream p s position :
  dropout_prob p = 0%R ->
  (forall seed subsequence pos, (0 < stream seed subsequence pos)%R) ->
  mask_of_draw stream p s position = 1%R.
Proof.
  intros Hp Hpos. unfold mask_of_draw, dropout_scale. rewrite Hp.
  destruct (Rgt_dec _ _) as [_ | Hn].
  - unfold Rdiv. rewrite Rminus_0_r, Rinv_1. lra.
  - exfalso. apply Hn. apply Hpos.
Qed.

(** A matmul whose operand B is predicated off from the row [k] on only
    reads the first [k] columns of its operand A. *)
Lemma mma_operand_A_ext kK iters A A' B accum m n k :
  (forall j, 0 <= j < k -> A m j = A' m j) ->
  (forall j, k <= j -> B j n = 0%R) ->
  mma kK iters A B accum m n = mma kK iters A' B accum m n.
Proof.
  intros HA HB. unfold mma. f_equal. apply sum_upto_ext. intros j Hj.
  destruct (Z.lt_ge_cases j k).
  - rewrite HA by lia. reflexivity.
  - rewrite HB by lia. lra.
Qed.

Section DropoutOff.

Variable K : KernelConfig.
Variable stream : Z -> Z -> Z -> R.
Variable skipBoundsChecks : bool.
Variable p : Params.
Variable T : Tensors.
Variable query_start key_start : Z.
Variable st : curandStatePhilox4_32_10_t.
Variable zij_before : Tile.
Variable di : Z -> R.

Hypothesis dropout_compiled : kApplyDropout K = true.
Hypothesis nq_range :
  1 <= num_queries_in_block K skipBoundsChecks p query_start <= kBlockSizeI K.
Hypothesis nk_range :
  1 <= num_keys_in_block K skipBoundsChecks p key_start <= kBlockSizeJ K.
Hypothesis no_dropout : dropout_prob p = 0%R.
Hypothesis draws_positive :
  forall seed subsequence pos, (0 < stream seed subsequence pos)%R.

Lemma generate_zij_ones m n :
  0 <= m < num_keys_in_block K skipBoundsChecks p key_start ->
  0 <= n < num_queries_in_block K skipBoundsChecks p query_start ->
  generate_zij K stream skipBoundsChecks p query_start key_start
    st zij_before m n = 1%R.
Proof.
  intros Hm Hn. rewrite generate_zij_cell by assumption.
  apply mask_of_draw_keep_all; assumption.
Qed.

Lemma dSij_dropout_off attn m n :
  0 <= m < num_queries_in_block K skipBoundsChecks p query_start ->
  0 <= n < num_keys_in_block K skipBoundsChecks p key_start ->
  dSij K skipBoundsChecks p T query_start key_start attn
    (generate_zij K stream skipBoundsChecks p query_start key_start
       st zij_before) di m n =
  dSij (without_dropout K) skipBoundsChecks p T query_start key_start attn
    zij_before di m n.
Proof.
  intros Hm Hn. unfold dSij. f_equal. f_equal.
  unfold MatmulDOIVJ_dropout. rewrite dropout_compiled.
  cbn [kApplyDropout without_dropout].
  change (MatmulDOIVJ_mma (without_dropout K))
    with (MatmulDOIVJ_mma K).
  destruct (skipBoundsChecks || _); [| reflexivity].
  rewrite generate_zij_ones by assumption. lra.
Qed.

End DropoutOff.

(** C6. Every entry of the dropout mask generated inside the extent of a
    block (a block of at least one query and one key, which is what the
    scheduler calls [processBlockIJ] on) is 0 or 1 / (1 - p); when p = 0,
    the draws of cuRAND being positive, every such entry is 1, and the block
    computes what the kernel compiled without dropout computes: the same
    contributions to dV, dQ and dK on the rows of the block and the same
    bias gradient. *)
Theorem dropout_mask_values
  K stream skipBoundsChecks p T query_start key_start
  di_before zij_before grad_bias :
  kApplyDropout K = true ->
  1 <= num_queries_in_block K skipBoundsChecks p query_start
    <= kBlockSizeI K ->
  1 <= num_keys_in_block K skipBoundsChecks p key_start <= kBlockSizeJ K ->
  (forall m n,
     0 <= m < num_keys_in_block K skipBoundsChecks p key_start ->
     0 <= n < num_queries_in_block K skipBoundsChecks p query_start ->
     generate_zij K stream skipBoundsChecks p query_start key_start
       (rng_state_init p) zij_before m n = 0%R \/
     generate_zij K stream skipBoundsChecks p query_start key_start
       (rng_state_init p) zij_before m n = (1 / (1 - dropout_prob p))%R) /\
  (dropout_prob p = 0%R ->
   (forall seed subsequence pos, (0 < stream seed subsequence pos)%R) ->
   (forall m n,
      0 <= m < num_keys_in_block K skipBoundsChecks p key_start ->
      0 <= n < num_queries_in_block K skipBoundsChecks p query_start ->
      generate_zij K stream skipBoundsChecks p query_start key_start
        (rng_state_init p) zij_before m n = 1%R) /\
   (forall col m c,
      0 <= m < num_keys_in_block K skipBoundsChecks p key_start ->
      block_gradV
        (processBlockIJ K stream skipBoundsChecks p T query_start key_start
           (rng_state_init p) di_before zij_before grad_bias) col m c =
      block_gradV
        (processBlockIJ (without_dropout K) stream skipBoundsChecks p T
           query_start key_start (rng_state_init p) di_before zij_before
           grad_bias) col m c) /\
   (forall col n c,
      0 <= n < num_queries_in_block K skipBoundsChecks p query_start ->
      block_gradQ
        (processBlockIJ K stream skipBoundsChecks p T query_start key_start
           (rng_state_init p) di_before zij_before grad_bias) col n c =
      block_gradQ
        (processBlockIJ (without_dropout K) stream skipBoundsChecks p T
           query_start key_start (rng_state_init p) di_before zij_before
           grad_bias) col n c) /\
   (forall col m c,
      0 <= m < num_keys_in_block K skipBoundsChecks p key_start ->
      block_gradK
        (processBlockIJ K stream skipBoundsChecks p T query_start key_start
           (rng_state_init p) di_before zij_before grad_bias) col m c =
      block_gradK
        (processBlockIJ (without_dropout K) stream skipBoundsChecks p T
           query_start key_start (rng_state_init p) di_before zij_before
           grad_bias) col m c) /\
   (forall i j,
      block_grad_bias
        (processBlockIJ K stream skipBoundsChecks p T query_start key_start
           (rng_state_init p) di_before zij_before grad_bias) i j =
      block_grad_bias
        (processBlockIJ (without_dropout K) stream skipBoundsChecks p T
           query_start key_start (rng_state_init p) di_before zij_before
           grad_bias) i j)).
Proof.
  intros Hdrop Hq Hk. split.
  - intros m n Hm Hn. rewrite generate_zij_cell by assumption.
    apply mask_of_draw_values.
  - intros Hp Hpos.
    pose proof (generate_zij_ones K stream skipBoundsChecks p query_start
                  key_start (rng_state_init p) zij_before
                  Hdrop Hq Hk Hp Hpos) as Hones.
    pose proof (fun attn di =>
                  dSij_dropout_off K stream skipBoundsChecks p T query_start
                    key_start (rng_state_init p) zij_before di
                    Hdrop Hq Hk Hp Hpos attn) as HdS.
    split; [exact Hones |].
    unfold processBlockIJ.
    cbn [block_gradV block_gradQ block_gradK block_grad_bias].
    unfold generate_zij at 2 4 6 8. cbn [kApplyDropout without_dropout].
    change (attn_T (without_dropout K)) with (attn_T K).
    change (loadDi (without_dropout K)) with (loadDi K).
    set (attn := attn_T K skipBoundsChecks p T query_start key_start).
    set (di := loadDi K p T query_start di_before).
    set (zij := generate_zij K stream skipBoundsChecks p query_start
                  key_start (rng_state_init p) zij_before) in *.
    split; [| split; [| split]].
    + intros col m c Hm. unfold MatmulGradV.
      change (ThreadK (without_dropout K)) with (ThreadK K).
      change (num_queries_in_block (without_dropout K))
        with (num_queries_in_block K).
      change (MatmulGradV_operand_B (without_dropout K))
        with (MatmulGradV_operand_B K).
      apply (mma_operand_A_ext _ _ _ _ _ _ _ _
               (num_queries_in_block K skipBoundsChecks p query_start)).
      * intros j Hj. unfold MatmulGradV_operand_A. rewrite Hdrop.
        cbn [kApplyDropout without_dropout].
        unfold zij. rewrite Hones by assumption. lra.
      * intros j Hj. unfold MatmulGradV_operand_B.
        apply PredicatedTileIterator_out. lia.
    + intros col n c Hn. unfold MatmulGradQ, mma.
      change (ThreadK (without_dropout K)) with (ThreadK K).
      change (num_keys_in_block (without_dropout K))
        with (num_keys_in_block K).
      change (MatmulGradQ_operand_B (without_dropout K))
        with (MatmulGradQ_operand_B K).
      f_equal. apply sum_upto_ext. intros j Hj.
      destruct (Z.lt_ge_cases j
                  (num_keys_in_block K skipBoundsChecks p key_start)).
      * unfold tmp, zij. rewrite HdS by lia. reflexivity.
      * unfold MatmulGradQ_operand_B.
        rewrite PredicatedTileIterator_out by lia. lra.
    + intros col m c Hm. unfold MatmulGradK, mma, tmpT.
      change (ThreadK (without_dropout K)) with (ThreadK K).
      change (num_queries_in_block (without_dropout K))
        with (num_queries_in_block K).
      change (MatmulGradK_operand_B (without_dropout K))
        with (MatmulGradK_operand_B K).
      f_equal. apply sum_upto_ext. intros j Hj.
      destruct (Z.lt_ge_cases j
                  (num_queries_in_block K skipBoundsChecks p query_start)).
      * unfold tmp, zij. rewrite HdS by lia. reflexivity.
      * unfold MatmulGradK_operand_B.
        rewrite PredicatedTileIterator_out by lia. lra.
    + intros i j. unfold store_grad_bias.
      destruct (negb (grad_bias_ptr p =? 0)); [| reflexivity].
      change (num_queries_in_block (without_dropout K))
        with (num_queries_in_block K).
      change (num_keys_in_block (without_dropout K))
        with (num_keys_in_block K).
      unfold epilogue_store.
      destruct (Z.leb_spec 0 (i - query_start)); cbn [andb]; [| reflexivity].
      destruct (Z.ltb_spec (i - query_start)
                  (num_queries_in_block K skipBoundsChecks p query_start));
        cbn [andb]; [| reflexivity].
      destruct (Z.leb_spec 0 (j - key_start)); cbn [andb]; [| reflexivity].
      destruct (Z.ltb_spec (j - key_start)
                  (num_keys_in_block K skipBoundsChecks p key_start));
        cbn [andb]; [| reflexivity].
      unfold zij. apply HdS; lia.
Qed.

(** The instance of C6 for the first entry of the mask of the 4 x 4 problem
    with dropout probability 0. *)
Lemma dropout_mask_values_witness :
  generate_zij Sm80_f16_k64_dropout (fun _ _ _ => 1%R) false
    (make_params 1 1 4 4 8 8 false 1 0) 0 0
    (rng_state_init (make_params 1 1 4 4 8 8 false 1 0)) clear 0 0 = 0%R \/
  generate_zij Sm80_f16_k64_dropout (fun _ _ _ => 1%R) false
    (make_params 1 1 4 4 8 8 false 1 0) 0 0
    (rng_state_init (make_params 1 1 4 4 8 8 false 1 0)) clear 0 0 =
  (1 / (1 - dropout_prob (make_params 1 1 4 4 8 8 false 1 0)))%R.
Proof.
  refine (proj1 (dropout_mask_values Sm80_f16_k64_dropout (fun _ _ _ => 1%R)
                   false (make_params 1 1 4 4 8 8 false 1 0)
                   (constant_tensors 1 1 1 0 8 1 1 0) 0 0
                   (fun _ => 0%R) clear clear _ _ _) 0 0 _ _).
  - reflexivity.
  - split; discriminate.
  - split; discriminate.
  - split; [discriminate | reflexivity].
  - split; [discriminate | reflexivity].
Defined.

(** ** The calls of the scheduler *)

Lemma for_loop_empty fuel i stop step :
  stop <= i -> for_loop fuel i stop step = [].
Proof.
  intros H. destruct fuel; simpl; [reflexivity |].
  destruct (Z.ltb_spec i stop); [lia | reflexivity].
Qed.

Lemma for_exit_empty fuel i stop step :
  stop <= i -> for_exit fuel i stop step = i.
Proof.
  intros H. destruct fuel; simpl; [reflexivity |].
  destruct (Z.ltb_spec i stop); [lia | reflexivity].
Qed.

(** A loop whose bounds differ by a multiple of the step is left at its
    upper bound. *)
Lemma for_range_exit_exact start stop step :
  0 < step -> - 2 ^ 31 <= start -> stop + step <= 2 ^ 31 ->
  start <= stop -> (step | stop - start) ->
  for_range_exit start stop step = stop.
Proof.
  intros Hs Hstart Hstop Hle [c Hc].
  destruct (for_range_exit_spec start stop step Hs Hstart Hstop) as [H1 H2].
  destruct (Z.eq_dec start stop) as [<- | Hne]; [apply H1; lia |].
  destruct (H2 ltac:(lia)) as [Hb [d Hd]].
  assert (d = c) by nia. subst d. lia.
Qed.

Lemma getQueryStart_bounds K p key_start :
  0 <= key_start < 2 ^ 31 ->
  0 <= getQueryStart K p key_start <= key_start /\
  (kBlockSizeI K | getQueryStart K p key_start).
Proof.
  intros Hk. destruct (causal p) eqn:Hc.
  - rewrite getQueryStart_causal by assumption.
    assert (HI : 0 < kBlockSizeI K) by (destruct (kBlockSizeI_cases K); lia).
    pose proof (quot_mul_bounds key_start (kBlockSizeI K) ltac:(lia) HI).
    split; [lia |]. exists (Z.quot key_start (kBlockSizeI K)). reflexivity.
  - unfold getQueryStart. rewrite Hc. split; [lia |]. exists 0. reflexivity.
Qed.

Lemma kernel_key_iteration_spec K p key_start c :
  0 <= num_queries p -> num_queries p + 128 <= 2 ^ 31 ->
  0 <= key_start -> key_start + kBlockSizeJ K <= num_keys p ->
  num_keys p + 128 <= 2 ^ 31 ->
  In c (kernel_key_iteration K p key_start) -> call_in_bounds K p c.
Proof.
  intros Hq Hq' Hk Hk' Hkeys Hin.
  assert (HJ : 0 < kBlockSizeJ K) by (destruct (kBlockSizeJ_cases K); lia).
  destruct (getQueryStart_bounds K p key_start ltac:(lia)) as [Hqs [a Ha]].
  unfold kernel_key_iteration in Hin.
  set (qs0 := getQueryStart K p key_start) in *.
  rewrite (int32_id (num_queries p - qs0)) in Hin by (unfold in_int32; lia).
  assert (Hend : exists e,
            int32 (int64 (qs0 + int64 (Z.quot (num_queries p - qs0)
                                         (kBlockSizeI K) * kBlockSizeI K)))
            = e /\ (kBlockSizeI K | e - qs0) /\
            ((qs0 <= num_queries p /\ qs0 <= e <= num_queries p /\
              num_queries p < e + kBlockSizeI K) \/
             (num_queries p < qs0 /\ e <= qs0 /\ num_queries p <= e))).
  { exists (qs0 + Z.quot (num_queries p - qs0) (kBlockSizeI K)
                  * kBlockSizeI K).
    assert (B : (0 <= num_queries p - qs0 ->
                 0 <= Z.quot (num_queries p - qs0) (kBlockSizeI K)
                      * kBlockSizeI K <= num_queries p - qs0 /\
                 num_queries p - qs0 <
                   Z.quot (num_queries p - qs0) (kBlockSizeI K)
                   * kBlockSizeI K + kBlockSizeI K) /\
                (num_queries p - qs0 < 0 ->
                 num_queries p - qs0 <=
                 Z.quot (num_queries p - qs0) (kBlockSizeI K)
                 * kBlockSizeI K <= 0)).
    { destruct (kBlockSizeI_cases K) as [-> | ->];
        Z.to_euclidean_division_equations; lia. }
    split.
    - rewrite (int64_id (Z.quot _ _ * _)) by (unfold in_int64; lia).
      apply int64_int32_id. unfold in_int32. lia.
    - split.
      + exists (Z.quot (num_queries p - qs0) (kBlockSizeI K)). lia.
      + destruct (Z.le_gt_cases qs0 (num_queries p)); [left | right]; lia. }
  destruct Hend as (e & He & [b Hb] & Hcase). rewrite He in Hin.
  assert (HI : 0 < kBlockSizeI K <= 128)
    by (destruct (kBlockSizeI_cases K); lia).
  apply in_app_or in Hin. destruct Hin as [Hin | Hin].
  - apply in_map_iff in Hin. destruct Hin as (q & <- & Hq0).
    apply for_range_In in Hq0; [| lia | lia | lia].
    destruct Hq0 as [Hq0 [d Hd]].
    unfold call_in_bounds. cbn [call_query_start call_key_start
                                 call_skipBoundsChecks].
    assert (d + 1 <= b) by nia.
    assert (q + kBlockSizeI K <= e) by nia.
    split; [lia |]. split; [lia |]. intros _. lia.
  - assert (Hexit : for_range_exit qs0 e (kBlockSizeI K) = Z.max qs0 e).
    { destruct (Z.le_gt_cases qs0 e).
      - rewrite for_range_exit_exact; try lia. exists b. exact Hb.
      - destruct (for_range_exit_spec qs0 e (kBlockSizeI K)
                    ltac:(lia) ltac:(lia) ltac:(lia)) as [H1 _].
        rewrite H1 by lia. lia. }
    rewrite Hexit in Hin.
    destruct (Z.ltb_spec (Z.max qs0 e) (num_queries p)); [| destruct Hin].
    destruct Hin as [<- | []].
    unfold call_in_bounds. cbn [call_query_start call_key_start
                                 call_skipBoundsChecks].
    split; [lia |]. split; [lia |]. discriminate.
Qed.

(** Every call of [processBlockIJ] made by [kernel] starts inside the
    problem, and a call without bounds checks is a full tile: a partial
    tile is processed with bounds checks. *)
Lemma kernel_calls_spec K p c :
  0 <= num_queries p -> num_queries p + 128 <= 2 ^ 31 ->
  0 <= num_keys p -> num_keys p + 128 <= 2 ^ 31 ->
  In c (kernel_calls K p) -> call_in_bounds K p c.
Proof.
  intros Hq Hq' Hk Hk' Hin.
  assert (HJ : 0 < kBlockSizeJ K <= 128)
    by (destruct (kBlockSizeJ_cases K); lia).
  assert (HI : 0 < kBlockSizeI K <= 128)
    by (destruct (kBlockSizeI_cases K); lia).
  pose proof (quot_mul_bounds (num_keys p) (kBlockSizeJ K) Hk ltac:(lia))
    as Bk.
  unfold kernel_calls in Hin.
  rewrite int64_int32_id in Hin by (unfold in_int32; lia).
  set (ke := Z.quot (num_keys p) (kBlockSizeJ K) * kBlockSizeJ K) in *.
  apply in_app_or in Hin. destruct Hin as [Hin | Hin].
  - apply in_flat_map in Hin. destruct Hin as (ks & Hks & Hc).
    apply for_range_In in Hks; [| lia | lia | lia].
    destruct Hks as [Hks [d Hd]].
    assert (d + 1 <= Z.quot (num_keys p) (kBlockSizeJ K))
      by (unfold ke in *; nia).
    apply (kernel_key_iteration_spec K p ks c); try assumption; try lia.
    unfold ke in *. nia.
  - rewrite for_range_exit_exact in Hin; try lia.
    2:{ exists (Z.quot (num_keys p) (kBlockSizeJ K)). unfold ke. lia. }
    unfold kernel_last_key in Hin.
    destruct (Z.eqb_spec ke (num_keys p)) as [E | Hne]; [destruct Hin |].
    cbn [negb] in Hin.
    apply in_map_iff in Hin. destruct Hin as (q & <- & Hq0).
    destruct (getQueryStart_bounds K p ke ltac:(lia)) as [Hqs _].
    apply for_range_In in Hq0; [| lia | lia | lia].
    unfold call_in_bounds. cbn [call_query_start call_key_start
                                 call_skipBoundsChecks].
    split; [lia |]. split; [lia |]. discriminate.
Qed.

(** ** Partial tiles *)

(** The extent of a call that starts inside the problem is the tile size
    clamped to what remains of the problem. *)
Lemma block_extent_queries K skipBoundsChecks p query_start :
  0 <= query_start < num_queries p -> num_queries p < 2 ^ 31 ->
  (skipBoundsChecks = true -> query_start + kBlockSizeI K <= num_queries p) ->
  num_queries_in_block K skipBoundsChecks p query_start =
  Z.min (kBlockSizeI K) (num_queries p - query_start).
Proof.
  intros Hq Hr Hfull. unfold num_queries_in_block.
  assert (HI : 0 < kBlockSizeI K <= 128)
    by (destruct (kBlockSizeI_cases K); lia).
  destruct skipBoundsChecks.
  - specialize (Hfull eq_refl). lia.
  - rewrite !int32_id by (unfold in_int32; lia). reflexivity.
Qed.

Lemma block_extent_keys K skipBoundsChecks p key_start :
  0 <= key_start < num_keys p -> num_keys p < 2 ^ 31 ->
  (skipBoundsChecks = true -> key_start + kBlockSizeJ K <= num_keys p) ->
  num_keys_in_block K skipBoundsChecks p key_start =
  Z.min (kBlockSizeJ K) (num_keys p - key_start).
Proof.
  intros Hq Hr Hfull. unfold num_keys_in_block.
  assert (HJ : 0 < kBlockSizeJ K <= 128)
    by (destruct (kBlockSizeJ_cases K); lia).
  destruct skipBoundsChecks.
  - specialize (Hfull eq_refl). lia.
  - rewrite !int32_id by (unfold in_int32; lia). reflexivity.
Qed.

Lemma reference_raw_score_agree p T T' i j :
  tensors_agree p T T' ->
  0 <= i < num_queries p -> 0 <= j < num_keys p ->
  reference_raw_score p T i j = reference_raw_score p T' i j.
Proof.
  intros (HQ & HK & _ & HB & _) Hi Hj. unfold reference_raw_score.
  rewrite (sum_upto_ext (head_dim p)
             (fun k => query T i k * key T j k)%R
             (fun k => query T' i k * key T' j k)%R).
  - destruct (bias_ptr p =? 0); [reflexivity |].
    rewrite HB by assumption. reflexivity.
  - intros k Hk. rewrite HQ, HK by assumption. reflexivity.
Qed.

Section PartialTiles.

Variable K : KernelConfig.
Variable skipBoundsChecks : bool.
Variable p : Params.
Variable T T' : Tensors.
Variable query_start key_start : Z.

Hypothesis ThreadK_pos : 0 < ThreadK K.
Hypothesis head_dim_range : 0 <= head_dim p /\ head_dim p + ThreadK K < 2 ^ 31.
Hypothesis head_dim_value_range :
  0 <= head_dim_value p /\ head_dim_value p + ThreadK K < 2 ^ 31.
Hypothesis query_start_range : 0 <= query_start.
Hypothesis key_start_range : 0 <= key_start.
Hypothesis queries_in_problem :
  query_start + num_queries_in_block K skipBoundsChecks p query_start
  <= num_queries p.
Hypothesis keys_in_problem :
  key_start + num_keys_in_block K skipBoundsChecks p key_start
  <= num_keys p.
Hypothesis num_queries_range : num_queries p + 128 <= 2 ^ 31.
Hypothesis agree : tensors_agree p T T'.

Lemma attn_T_agree m n :
  0 <= m < num_keys_in_block K skipBoundsChecks p key_start ->
  0 <= n < num_queries_in_block K skipBoundsChecks p query_start ->
  attn_T K skipBoundsChecks p T query_start key_start m n =
  attn_T K skipBoundsChecks p T' query_start key_start m n.
Proof.
  intros Hm Hn. unfold attn_T, accumApplyLSEToSmem, MatmulQK_mask.
  destruct (causal p && _); [reflexivity |].
  rewrite !MatmulQK_bias_in by (try assumption; lia).
  rewrite (reference_raw_score_agree p T T') by (try assumption; lia).
  destruct agree as (_ & _ & _ & _ & HL & _).
  rewrite HL by lia. reflexivity.
Qed.

Lemma loadDi_agree di t :
  0 <= t < num_queries_in_block K skipBoundsChecks p query_start ->
  num_queries_in_block K skipBoundsChecks p query_start <= kBlockSizeI K ->
  loadDi K p T query_start di t = loadDi K p T' query_start di t.
Proof.
  intros Ht HI. rewrite !loadDi_spec by lia.
  rewrite int32_id by (unfold in_int32; lia).
  destruct (Z.ltb_spec (query_start + t) (num_queries p)); [| reflexivity].
  destruct agree as (_ & _ & _ & _ & _ & _ & HD). apply HD. lia.
Qed.

Lemma MatmulDOIVJ_mma_agree m n :
  0 <= m < num_queries_in_block K skipBoundsChecks p query_start ->
  0 <= n < num_keys_in_block K skipBoundsChecks p key_start ->
  MatmulDOIVJ_mma K skipBoundsChecks p T query_start key_start m n =
  MatmulDOIVJ_mma K skipBoundsChecks p T' query_start key_start m n.
Proof.
  intros Hm Hn. rewrite !MatmulDOIVJ_mma_in by (try assumption; lia).
  apply sum_upto_ext. intros c Hc.
  destruct agree as (_ & _ & HV & _ & _ & HG & _).
  rewrite HV, HG by lia. reflexivity.
Qed.

Lemma dSij_agree attn attn' zij di di' m n :
  0 <= m < num_queries_in_block K skipBoundsChecks p query_start ->
  0 <= n < num_keys_in_block K skipBoundsChecks p key_start ->
  attn n m = attn' n m -> di m = di' m ->
  dSij K skipBoundsChecks p T query_start key_start attn zij di m n =
  dSij K skipBoundsChecks p T' query_start key_start attn' zij di' m n.
Proof.
  intros Hm Hn Ha Hd.
  unfold dSij, fragment_di, fragment_attn, MatmulDOIVJ_dropout.
  rewrite Ha, Hd.
  destruct (kApplyDropout K);
    rewrite MatmulDOIVJ_mma_agree by assumption; reflexivity.
Qed.

End PartialTiles.

(** What a block contributes to the gradients on the rows of its extent
    does not depend on what the tensors hold outside the declared shapes of
    the problem. *)
Lemma processBlockIJ_agree K stream skipBoundsChecks p T T'
  query_start key_start st di_before zij_before grad_bias :
  0 < ThreadK K ->
  0 <= head_dim p /\ head_dim p + ThreadK K < 2 ^ 31 ->
  0 <= head_dim_value p /\ head_dim_value p + ThreadK K < 2 ^ 31 ->
  0 <= query_start -> 0 <= key_start ->
  num_queries_in_block K skipBoundsChecks p query_start <= kBlockSizeI K ->
  query_start + num_queries_in_block K skipBoundsChecks p query_start
    <= num_queries p ->
  key_start + num_keys_in_block K skipBoundsChecks p key_start
    <= num_keys p ->
  num_queries p + 128 <= 2 ^ 31 ->
  tensors_agree p T T' ->
  (forall col m c,
     0 <= col ->
     0 <= m < num_keys_in_block K skipBoundsChecks p key_start ->
     block_gradV
       (processBlockIJ K stream skipBoundsChecks p T query_start key_start
          st di_before zij_before grad_bias) col m c =
     block_gradV
       (processBlockIJ K stream skipBoundsChecks p T' query_start key_start
          st di_before zij_before grad_bias) col m c) /\
  (forall col n c,
     0 <= col ->
     0 <= n < num_queries_in_block K skipBoundsChecks p query_start ->
     block_gradQ
       (processBlockIJ K stream skipBoundsChecks p T query_start key_start
          st di_before zij_before grad_bias) col n c =
     block_gradQ
       (processBlockIJ K stream skipBoundsChecks p T' query_start key_start
          st di_before zij_before grad_bias) col n c) /\
  (forall col m c,
     0 <= col ->
     0 <= m < num_keys_in_block K skipBoundsChecks p key_start ->
     block_gradK
       (processBlockIJ K stream skipBoundsChecks p T query_start key_start
          st di_before zij_before grad_bias) col m c =
     block_gradK
       (processBlockIJ K stream skipBoundsChecks p T' query_start key_start
          st di_before zij_before grad_bias) col m c) /\
  (forall i j,
     block_grad_bias
       (processBlockIJ K stream skipBoundsChecks p T query_start key_start
          st di_before zij_before grad_bias) i j =
     block_grad_bias
       (processBlockIJ K stream skipBoundsChecks p T' query_start key_start
          st di_before zij_before grad_bias) i j).
Proof.
  intros HK Hd Hdv Hqs Hks HI Hq Hk Hr Hagree.
  pose proof (attn_T_agree K skipBoundsChecks p T T' query_start key_start
                HK Hd Hqs Hks Hq Hk Hagree) as Hattn.
  pose proof (fun di t H => loadDi_agree K skipBoundsChecks p T T' query_start
                Hqs Hq Hr Hagree di t H HI) as Hdi.
  assert (HdS : forall m n,
            0 <= m < num_queries_in_block K skipBoundsChecks p query_start ->
            0 <= n < num_keys_in_block K skipBoundsChecks p key_start ->
            dSij K skipBoundsChecks p T query_start key_start
              (attn_T K skipBoundsChecks p T query_start key_start)
              (generate_zij K stream skipBoundsChecks p query_start key_start
                 st zij_before)
              (loadDi K p T query_start di_before) m n =
            dSij K skipBoundsChecks p T' query_start key_start
              (attn_T K skipBoundsChecks p T' query_start key_start)
              (generate_zij K stream skipBoundsChecks p query_start key_start
                 st zij_before)
              (loadDi K p T' query_start di_before) m n).
  { intros m n Hm Hn.
    apply (dSij_agree K skipBoundsChecks p T T' query_start key_start
             HK Hdv Hqs Hks Hq Hk Hagree); try assumption.
    - apply Hattn; assumption.
    - apply Hdi. assumption. }
  destruct Hagree as (HQ & HKe & HV & HB & HL & HG & HD).
  unfold processBlockIJ.
  cbn [block_gradV block_gradQ block_gradK block_grad_bias].
  split; [| split; [| split]].
  - intros col m c Hcol Hm. unfold MatmulGradV, mma. f_equal.
    apply sum_upto_ext. intros j Hj.
    unfold MatmulGradV_operand_A, MatmulGradV_operand_B,
      PredicatedTileIterator.
    destruct (Z.leb_spec 0 j); [| lia]. cbn [andb].
    destruct (Z.ltb_spec j
                (num_queries_in_block K skipBoundsChecks p query_start));
      cbn [andb]; [| lra].
    destruct (Z.leb_spec 0 c); cbn [andb]; [| lra].
    destruct (Z.ltb_spec c (head_dim_value p - col)); [| lra].
    rewrite Hattn by lia. rewrite HG by lia. reflexivity.
  - intros col n c Hcol Hn. unfold MatmulGradQ, mma. f_equal.
    apply sum_upto_ext. intros j Hj.
    unfold MatmulGradQ_operand_B, PredicatedTileIterator.
    destruct (Z.leb_spec 0 j); [| lia]. cbn [andb].
    destruct (Z.ltb_spec j (num_keys_in_block K skipBoundsChecks p key_start));
      cbn [andb]; [| lra].
    destruct (Z.leb_spec 0 c); cbn [andb]; [| lra].
    destruct (Z.ltb_spec c (head_dim p - col)); [| lra].
    unfold tmp. rewrite HdS by lia. rewrite HKe by lia. reflexivity.
  - intros col m c Hcol Hm. unfold MatmulGradK, mma. f_equal.
    apply sum_upto_ext. intros j Hj.
    unfold MatmulGradK_operand_B, PredicatedTileIterator.
    destruct (Z.leb_spec 0 j); [| lia]. cbn [andb].
    destruct (Z.ltb_spec j
                (num_queries_in_block K skipBoundsChecks p query_start));
      cbn [andb]; [| lra].
    destruct (Z.leb_spec 0 c); cbn [andb]; [| lra].
    destruct (Z.ltb_spec c (head_dim p - col)); [| lra].
    unfold tmpT, tmp. rewrite HdS by lia. rewrite HQ by lia. reflexivity.
  - intros i j. unfold store_grad_bias.
    destruct (negb (grad_bias_ptr p =? 0)); [| reflexivity].
    unfold epilogue_store.
    destruct (Z.leb_spec 0 (i - query_start)); cbn [andb]; [| reflexivity].
    destruct (Z.ltb_spec (i - query_start)
                (num_queries_in_block K skipBoundsChecks p query_start));
      cbn [andb]; [| reflexivity].
    destruct (Z.leb_spec 0 (j - key_start)); cbn [andb]; [| reflexivity].
    destruct (Z.ltb_spec (j - key_start)
                (num_keys_in_block K skipBoundsChecks p key_start));
      cbn [andb]; [| reflexivity].
    apply HdS; lia.
Qed.



(** * The scheduler and the accumulators *)

(** ** The loops of [kernel] as one double loop *)

Lemma for_range_nil start stop step :
  stop <= start -> for_range start stop step = [].
Proof. intros H. unfold for_range. apply for_loop_empty. exact H. Qed.

(** A loop is the loop over its full steps followed by the last, partial
    step, if there is one. *)
Lemma for_range_split start stop step :
  0 < step -> 0 <= start <= stop -> stop + step <= 2 ^ 31 ->
  let e := start + Z.quot (stop - start) step * step in
  for_range start stop step =
  for_range start e step ++ (if e <? stop then [e] else []).
Proof.
  intros Hs Hst Hstop e.
  pose proof (quot_mul_bounds (stop - start) step ltac:(lia) Hs) as B.
  rewrite (for_range_step start stop) by lia.
  rewrite (for_range_step start e) by (unfold e; lia).
  set (q := Z.quot (stop - start) step) in *.
  assert (Hq : 0 <= q) by (unfold q; apply Z.quot_pos; lia).
  assert (He : (e - start + step - 1) / step = q).
  { unfold e. replace (start + q * step - start + step - 1)
      with (q * step + (step - 1)) by ring.
    rewrite Z.div_add_l by lia. rewrite Z.div_small by lia. lia. }
  rewrite He.
  destruct (Z.ltb_spec e stop) as [Hlt | Hge].
  - assert (Hn : (stop - start + step - 1) / step = q + 1).
    { symmetry. apply (Z.div_unique _ _ (q + 1) (stop - start - 1 - q * step));
        unfold e in *; lia. }
    rewrite Hn. rewrite Z2Nat.inj_add by lia.
    rewrite Nat.add_1_r, seq_S, map_app. cbn [map Nat.add].
    rewrite Z2Nat.id by lia. unfold e. do 2 f_equal. ring.
  - assert (Hn : (stop - start + step - 1) / step = q).
    { symmetry. apply (Z.div_unique _ _ q (step - 1));
        unfold e in *; lia. }
    rewrite Hn, app_nil_r. reflexivity.
Qed.

Lemma flat_map_ext_In (A B : Type) (f g : A -> list B) (l : list A) :
  (forall a, In a l -> f a = g a) -> flat_map f l = flat_map g l.
Proof.
  induction l as [| a l IH]; intros H; [reflexivity |].
  cbn [flat_map]. rewrite (H a) by (left; reflexivity).
  rewrite IH; [reflexivity |]. intros b Hb. apply H. right. exact Hb.
Qed.

Lemma kernel_key_iteration_tiles K p key_start :
  0 <= num_queries p -> num_queries p + 128 <= 2 ^ 31 ->
  0 <= key_start -> key_start + kBlockSizeJ K <= num_keys p ->
  num_keys p + 128 <= 2 ^ 31 ->
  kernel_key_iteration K p key_start = key_tile_calls K p key_start.
Proof.
  intros Hq Hq' Hk Hk' Hkeys.
  assert (HJ : 0 < kBlockSizeJ K) by (destruct (kBlockSizeJ_cases K); lia).
  assert (HI : 0 < kBlockSizeI K <= 128)
    by (destruct (kBlockSizeI_cases K); lia).
  destruct (getQueryStart_bounds K p key_start ltac:(lia)) as [Hqs [a Ha]].
  unfold kernel_key_iteration, key_tile_calls.
  set (qs0 := getQueryStart K p key_start) in *.
  rewrite (int32_id (num_queries p - qs0)) by (unfold in_int32; lia).
  set (d := Z.quot (num_queries p - qs0) (kBlockSizeI K) * kBlockSizeI K).
  assert (B : (0 <= num_queries p - qs0 ->
               0 <= d <= num_queries p - qs0 /\
               num_queries p - qs0 < d + kBlockSizeI K) /\
              (num_queries p - qs0 < 0 -> num_queries p - qs0 <= d <= 0)).
  { unfold d. destruct (kBlockSizeI_cases K) as [-> | ->];
      Z.to_euclidean_division_equations; lia. }
  rewrite (int64_id d) by (unfold in_int64; lia).
  rewrite (int64_int32_id (qs0 + d)) by (unfold in_int32; lia).
  destruct (Z.le_gt_cases qs0 (num_queries p)) as [Hle | Hgt].
  - destruct B as [B _]. specialize (B ltac:(lia)).
    rewrite (for_range_split qs0 (num_queries p)) by lia.
    fold d. rewrite map_app.
    rewrite for_range_exit_exact; try lia.
    2:{ exists (Z.quot (num_queries p - qs0) (kBlockSizeI K)).
        unfold d. ring. }
    f_equal.
    + apply map_ext_in. intros q Hin.
      apply for_range_In in Hin; [| lia | lia | lia].
      destruct Hin as [Hin [c Hc]].
      assert (c + 1 <= Z.quot (num_queries p - qs0) (kBlockSizeI K))
        by (unfold d in *; nia).
      assert (q + kBlockSizeI K <= qs0 + d) by (unfold d in *; nia).
      unfold tile_is_full.
      destruct (Z.leb_spec (q + kBlockSizeI K) (num_queries p)); [| lia].
      destruct (Z.leb_spec (key_start + kBlockSizeJ K) (num_keys p)); [| lia].
      reflexivity.
    + destruct (Z.ltb_spec (qs0 + d) (num_queries p)); [| reflexivity].
      cbn [map]. unfold tile_is_full.
      destruct (Z.leb_spec (qs0 + d + kBlockSizeI K) (num_queries p));
        [lia | reflexivity].
  - destruct B as [_ B]. specialize (B ltac:(lia)).
    rewrite (for_range_nil qs0 (num_queries p)) by lia.
    rewrite (for_range_nil qs0 (qs0 + d)) by lia. cbn [map app].
    destruct (for_range_exit_spec qs0 (qs0 + d) (kBlockSizeI K)
                ltac:(lia) ltac:(lia) ltac:(lia)) as [H1 _].
    rewrite H1 by lia.
    destruct (Z.ltb_spec qs0 (num_queries p)); [lia | reflexivity].
Qed.

Lemma kernel_last_key_tiles K p key_start :
  0 <= key_start < num_keys p -> num_keys p < key_start + kBlockSizeJ K ->
  kernel_last_key K p key_start = key_tile_calls K p key_start.
Proof.
  intros Hk Hk'. unfold kernel_last_key, key_tile_calls.
  destruct (Z.eqb_spec key_start (num_keys p)); [lia |]. cbn [negb].
  apply map_ext. intros q. unfold tile_is_full.
  destruct (Z.leb_spec (key_start + kBlockSizeJ K) (num_keys p)); [lia |].
  rewrite andb_false_r. reflexivity.
Qed.

(** The two phases of the loops of [kernel] (the full key tiles, then the
    partial one; for each, the full query tiles, then the partial one) make
    the calls of one double loop over all tiles, in the same order, and take
    the path without bounds checks exactly on the full tiles. *)
Lemma kernel_calls_all_tiles K p :
  0 <= num_queries p -> num_queries p + 128 <= 2 ^ 31 ->
  0 <= num_keys p -> num_keys p + 128 <= 2 ^ 31 ->
  kernel_calls K p = all_tile_calls K p.
Proof.
  intros Hq Hq' Hk Hk'.
  assert (HJ : 0 < kBlockSizeJ K <= 128)
    by (destruct (kBlockSizeJ_cases K); lia).
  pose proof (quot_mul_bounds (num_keys p) (kBlockSizeJ K) Hk ltac:(lia))
    as Bk.
  unfold kernel_calls, all_tile_calls.
  rewrite int64_int32_id by (unfold in_int32; lia).
  rewrite (for_range_split 0 (num_keys p)) by lia.
  rewrite Z.sub_0_r, Z.add_0_l.
  set (ke := Z.quot (num_keys p) (kBlockSizeJ K) * kBlockSizeJ K) in *.
  rewrite flat_map_app. f_equal.
  - apply flat_map_ext_In. intros ks Hks.
    apply for_range_In in Hks; [| lia | lia | lia].
    destruct Hks as [Hks [d Hd]].
    assert (d + 1 <= Z.quot (num_keys p) (kBlockSizeJ K))
      by (unfold ke in *; nia).
    apply kernel_key_iteration_tiles; try lia. unfold ke in *. nia.
  - rewrite for_range_exit_exact; try lia.
    2:{ exists (Z.quot (num_keys p) (kBlockSizeJ K)). unfold ke. lia. }
    destruct (Z.ltb_spec ke (num_keys p)).
    + cbn [flat_map]. rewrite app_nil_r.
      apply kernel_last_key_tiles; lia.
    + unfold kernel_last_key.
      destruct (Z.eqb_spec ke (num_keys p)); [reflexivity | lia].
Qed.

Lemma key_tile_calls_In K p key_start c :
  0 <= num_queries p -> num_queries p + 128 <= 2 ^ 31 ->
  0 <= key_start < 2 ^ 31 ->
  In c (key_tile_calls K p key_start) <->
  call_key_start c = key_start /\
  (kBlockSizeI K | call_query_start c) /\
  getQueryStart K p key_start <= call_query_start c < num_queries p /\
  call_skipBoundsChecks c = tile_is_full K p (call_query_start c) key_start.
Proof.
  intros Hq Hq' Hk.
  assert (HI : 0 < kBlockSizeI K <= 128)
    by (destruct (kBlockSizeI_cases K); lia).
  destruct (getQueryStart_bounds K p key_start Hk) as [Hqs Hdiv].
  unfold key_tile_calls. rewrite in_map_iff. split.
  - intros (q & <- & Hin).
    apply for_range_In in Hin; [| lia | lia | lia].
    destruct Hin as [Hin Hd].
    cbn [call_query_start call_key_start call_skipBoundsChecks].
    repeat split; try lia.
    replace q with (q - getQueryStart K p key_start
                    + getQueryStart K p key_start) by ring.
    apply Z.divide_add_r; assumption.
  - intros (Hkey & Hd & Hin & Hskip). exists (call_query_start c). split.
    + destruct c as [s q k].
      cbn [call_query_start call_key_start call_skipBoundsChecks] in *.
      subst. reflexivity.
    + apply for_range_In; [lia | lia | lia |]. split; [lia |].
      apply Z.divide_sub_r; assumption.
Qed.

Lemma all_tile_calls_In K p c :
  0 <= num_queries p -> num_queries p + 128 <= 2 ^ 31 ->
  0 <= num_keys p -> num_keys p + 128 <= 2 ^ 31 ->
  In c (all_tile_calls K p) <-> scheduled_tile K p c.
Proof.
  intros Hq Hq' Hk Hk'.
  assert (HJ : 0 < kBlockSizeJ K <= 128)
    by (destruct (kBlockSizeJ_cases K); lia).
  unfold all_tile_calls, scheduled_tile. rewrite in_flat_map. split.
  - intros (ks & Hks & Hc).
    apply for_range_In in Hks; [| lia | lia | lia].
    destruct Hks as [Hks Hd]. rewrite Z.sub_0_r in Hd.
    apply key_tile_calls_In in Hc; [| lia | lia | lia].
    destruct Hc as (-> & Hdiv & Hin & Hskip). tauto.
  - intros (Hd & Hks & Hdiv & Hin & Hskip). exists (call_key_start c). split.
    + apply for_range_In; [lia | lia | lia |]. rewrite Z.sub_0_r. tauto.
    + apply key_tile_calls_In; [lia | lia | lia |]. tauto.
Qed.

Lemma kernel_calls_In K p c :
  0 <= num_queries p -> num_queries p + 128 <= 2 ^ 31 ->
  0 <= num_keys p -> num_keys p + 128 <= 2 ^ 31 ->
  In c (kernel_calls K p) <-> scheduled_tile K p c.
Proof.
  intros. rewrite kernel_calls_all_tiles by assumption.
  apply all_tile_calls_In; assumption.
Qed.

Lemma map_seq_sorted (f : nat -> Z) :
  (forall a b, (a < b)%nat -> f a < f b) ->
  forall n s, StronglySorted Z.lt (map f (seq s n)).
Proof.
  intros Hf. induction n as [| n IH]; intros s; cbn [seq map].
  - constructor.
  - constructor; [apply IH |].
    apply Forall_forall. intros x Hx.
    apply in_map_iff in Hx. destruct Hx as (b & <- & Hb).
    apply in_seq in Hb. apply Hf. lia.
Qed.

Lemma for_range_sorted start stop step :
  0 < step -> - 2 ^ 31 <= start -> stop + step <= 2 ^ 31 ->
  StronglySorted Z.lt (for_range start stop step).
Proof.
  intros. rewrite for_range_step by assumption.
  apply map_seq_sorted. intros a b Hab. nia.
Qed.

Lemma StronglySorted_map (A B : Type) (RA : A -> A -> Prop)
  (RB : B -> B -> Prop) (f : A -> B) (l : list A) :
  (forall a b, RA a b -> RB (f a) (f b)) ->
  StronglySorted RA l -> StronglySorted RB (map f l).
Proof.
  intros Hf Hl. induction Hl as [| a l Hl IH Ha]; cbn [map].
  - constructor.
  - constructor; [exact IH |].
    apply Forall_forall. intros x Hx.
    apply in_map_iff in Hx. destruct Hx as (b & <- & Hb).
    apply Hf. rewrite Forall_forall in Ha. apply Ha, Hb.
Qed.

Lemma StronglySorted_app (A : Type) (R : A -> A -> Prop) (l1 l2 : list A) :
  StronglySorted R l1 -> StronglySorted R l2 ->
  (forall x y, In x l1 -> In y l2 -> R x y) ->
  StronglySorted R (l1 ++ l2).
Proof.
  intros H1 H2 H. induction H1 as [| a l1 H1 IH Ha]; cbn [app].
  - exact H2.
  - constructor.
    + apply IH. intros x y Hx Hy. apply H; [right; exact Hx | exact Hy].
    + apply Forall_forall. intros x Hx. apply in_app_or in Hx.
      destruct Hx as [Hx | Hx].
      * rewrite Forall_forall in Ha. apply Ha, Hx.
      * apply H; [left; reflexivity | exact Hx].
Qed.

Lemma StronglySorted_app_inv (A : Type) (R : A -> A -> Prop)
  (l1 l2 : list A) :
  StronglySorted R (l1 ++ l2) ->
  StronglySorted R l1 /\ StronglySorted R l2 /\
  (forall x y, In x l1 -> In y l2 -> R x y).
Proof.
  induction l1 as [| a l1 IH]; cbn [app]; intros H.
  - split; [constructor |]. split; [exact H |]. intros x y [].
  - apply StronglySorted_inv in H. destruct H as [H Ha].
    destruct (IH H) as (S1 & S2 & H12).
    rewrite Forall_forall in Ha.
    split; [| split; [exact S2 |]].
    + constructor; [exact S1 |]. apply Forall_forall. intros x Hx.
      apply Ha. apply in_or_app. left. exact Hx.
    + intros x y [<- | Hx] Hy.
      * apply Ha. apply in_or_app. right. exact Hy.
      * apply H12; assumption.
Qed.

Lemma StronglySorted_flat_map (A B : Type) (RA : A -> A -> Prop)
  (RB : B -> B -> Prop) (f : A -> list B) (l : list A) :
  (forall a, In a l -> StronglySorted RB (f a)) ->
  (forall a b x y, In a l -> In b l -> RA a b ->
                   In x (f a) -> In y (f b) -> RB x y) ->
  StronglySorted RA l -> StronglySorted RB (flat_map f l).
Proof.
  intros Hf Hab Hl. induction Hl as [| a l Hl IH Ha]; cbn [flat_map].
  - constructor.
  - apply StronglySorted_app.
    + apply Hf. left. reflexivity.
    + apply IH.
      * intros b Hb. apply Hf. right. exact Hb.
      * intros b b' x y Hb Hb'. apply Hab; right; assumption.
    + intros x y Hx Hy. apply in_flat_map in Hy.
      destruct Hy as (b & Hb & Hy). rewrite Forall_forall in Ha.
      apply (Hab a b); auto; [left; reflexivity | right; exact Hb].
Qed.

Lemma all_tile_calls_sorted K p :
  0 <= num_queries p -> num_queries p + 128 <= 2 ^ 31 ->
  0 <= num_keys p -> num_keys p + 128 <= 2 ^ 31 ->
  StronglySorted call_lt (all_tile_calls K p).
Proof.
  intros Hq Hq' Hk Hk'.
  assert (HJ : 0 < kBlockSizeJ K <= 128)
    by (destruct (kBlockSizeJ_cases K); lia).
  assert (HI : 0 < kBlockSizeI K <= 128)
    by (destruct (kBlockSizeI_cases K); lia).
  unfold all_tile_calls.
  apply (StronglySorted_flat_map _ _ Z.lt).
  - intros ks Hks. apply for_range_In in Hks; [| lia | lia | lia].
    destruct (getQueryStart_bounds K p ks ltac:(lia)) as [Hqs _].
    unfold key_tile_calls. apply (StronglySorted_map _ _ Z.lt).
    + intros a b Hab. right. cbn. split; [reflexivity | exact Hab].
    + apply for_range_sorted; lia.
  - intros a b x y Ha Hb Hab Hx Hy.
    apply for_range_In in Ha; [| lia | lia | lia].
    apply for_range_In in Hb; [| lia | lia | lia].
    apply key_tile_calls_In in Hx; [| lia | lia | lia].
    apply key_tile_calls_In in Hy; [| lia | lia | lia].
    left. destruct Hx as [-> _]. destruct Hy as [-> _]. exact Hab.
  - apply for_range_sorted; lia.
Qed.

Lemma call_lt_irrefl c : ~ call_lt c c.
Proof. unfold call_lt. lia. Qed.

Lemma StronglySorted_NoDup (A : Type) (R : A -> A -> Prop) (l : list A) :
  (forall a, ~ R a a) -> StronglySorted R l -> NoDup l.
Proof.
  intros Hirr Hl. induction Hl as [| a l Hl IH Ha].
  - constructor.
  - constructor; [| exact IH]. intros Hin.
    rewrite Forall_forall in Ha. apply (Hirr a), Ha, Hin.
Qed.

Lemma multiple_in_tile b x i :
  0 < b -> 0 <= i -> (b | x) -> x <= i < x + b -> x = Z.quot i b * b.
Proof.
  intros Hb Hi [c ->] Hx.
  pose proof (quot_mul_bounds i b Hi Hb) as B.
  assert (c = Z.quot i b) by nia. subst c. reflexivity.
Qed.

Lemma getQueryStart_le_tile K p key_start i :
  0 <= key_start < 2 ^ 31 -> 0 <= i ->
  (causal p = true -> key_start <= i) ->
  getQueryStart K p key_start <= Z.quot i (kBlockSizeI K) * kBlockSizeI K.
Proof.
  intros Hk Hi Hc.
  assert (HI : 0 < kBlockSizeI K) by (destruct (kBlockSizeI_cases K); lia).
  pose proof (quot_mul_bounds i (kBlockSizeI K) Hi HI) as Bi.
  destruct (causal p) eqn:E.
  - rewrite getQueryStart_causal by assumption.
    pose proof (quot_mul_bounds key_start (kBlockSizeI K) ltac:(lia) HI) as B.
    specialize (Hc eq_refl).
    assert (Z.quot key_start (kBlockSizeI K) <= Z.quot i (kBlockSizeI K))
      by nia.
    nia.
  - unfold getQueryStart. rewrite E. lia.
Qed.

(** X2. Every (query, key) pair of the problem that the causal mask keeps
    (every pair, without the causal flag) lies in the tile of exactly one
    call of [processBlockIJ]: the scheduler skips no pair that contributes
    to the gradients and visits none twice. *)
Theorem kernel_calls_cover_unmasked_pairs K p i j :
  num_queries p + 128 <= 2 ^ 31 -> num_keys p + 128 <= 2 ^ 31 ->
  0 <= i < num_queries p -> 0 <= j < num_keys p ->
  (causal p = true -> j <= i) ->
  exists c,
    In c (kernel_calls K p) /\ in_tile K c i j /\
    forall c', In c' (kernel_calls K p) -> in_tile K c' i j -> c' = c.
Proof.
  intros Hq' Hk' Hi Hj Hc.
  assert (HJ : 0 < kBlockSizeJ K <= 128)
    by (destruct (kBlockSizeJ_cases K); lia).
  assert (HI : 0 < kBlockSizeI K <= 128)
    by (destruct (kBlockSizeI_cases K); lia).
  pose proof (quot_mul_bounds i (kBlockSizeI K) ltac:(lia) ltac:(lia)) as Bi.
  pose proof (quot_mul_bounds j (kBlockSizeJ K) ltac:(lia) ltac:(lia)) as Bj.
  set (qi := Z.quot i (kBlockSizeI K) * kBlockSizeI K) in *.
  set (kj := Z.quot j (kBlockSizeJ K) * kBlockSizeJ K) in *.
  exists (Build_BlockCall (tile_is_full K p qi kj) qi kj).
  split; [| split].
  - apply kernel_calls_In; try lia. unfold scheduled_tile.
    cbn [call_query_start call_key_start call_skipBoundsChecks].
    split; [exists (Z.quot j (kBlockSizeJ K)); reflexivity |].
    split; [lia |].
    split; [exists (Z.quot i (kBlockSizeI K)); reflexivity |].
    split; [| reflexivity]. split; [| lia].
    apply getQueryStart_le_tile; try lia. intros E. specialize (Hc E). lia.
  - unfold in_tile.
    cbn [call_query_start call_key_start call_skipBoundsChecks]. lia.
  - intros c' Hin [Hti Htj].
    apply kernel_calls_In in Hin; try lia.
    destruct Hin as (Hdk & Hk & Hdq & Hqs & Hskip).
    destruct c' as [s q k].
    cbn [call_query_start call_key_start call_skipBoundsChecks] in *.
    assert (q = qi) by (apply multiple_in_tile; lia || assumption).
    assert (k = kj) by (apply multiple_in_tile; lia || assumption).
    subst q k s. reflexivity.
Qed.

Lemma incrIteration_spec K p query_start key_start :
  0 <= query_start -> query_start + kBlockSizeI K < 2 ^ 31 ->
  0 <= key_start -> key_start + kBlockSizeJ K < 2 ^ 31 ->
  incrIteration K p query_start key_start =
  if query_start + kBlockSizeI K >=? num_queries p
  then (getQueryStart K p (key_start + kBlockSizeJ K),
        key_start + kBlockSizeJ K)
  else (query_start + kBlockSizeI K, key_start).
Proof.
  intros Hq Hq' Hk Hk'.
  assert (HJ : 0 < kBlockSizeJ K <= 128)
    by (destruct (kBlockSizeJ_cases K); lia).
  assert (HI : 0 < kBlockSizeI K <= 128)
    by (destruct (kBlockSizeI_cases K); lia).
  unfold incrIteration. cbv zeta.
  rewrite (int64_int32_id (query_start + kBlockSizeI K))
    by (unfold in_int32; lia).
  rewrite (int64_int32_id (key_start + kBlockSizeJ K))
    by (unfold in_int32; lia).
  reflexivity.
Qed.

Lemma scheduled_first_query K p c :
  num_queries p + 128 <= 2 ^ 31 -> num_keys p + 128 <= 2 ^ 31 ->
  scheduled_tile K p c ->
  scheduled_tile K p
    (Build_BlockCall
       (tile_is_full K p (getQueryStart K p (call_key_start c))
          (call_key_start c))
       (getQueryStart K p (call_key_start c)) (call_key_start c)).
Proof.
  intros Hq' Hk' (Hdk & Hk & Hdq & Hqs & Hskip).
  destruct (getQueryStart_bounds K p (call_key_start c) ltac:(lia))
    as [Hb Hd].
  unfold scheduled_tile.
  cbn [call_query_start call_key_start call_skipBoundsChecks].
  repeat split; try assumption; lia.
Qed.

(** X3. For a call made by [kernel], [isFirstQuery] holds exactly when no
    call for the same key tile has a smaller query tile, and [isLastQuery]
    exactly when none has a larger one: the dK and dV accumulators of a key
    tile are cleared at its first visit and written out at its last. *)
Theorem key_tile_accumulator_flags K p c :
  0 <= num_queries p -> num_queries p + 128 <= 2 ^ 31 ->
  0 <= num_keys p -> num_keys p + 128 <= 2 ^ 31 ->
  In c (kernel_calls K p) ->
  (isFirstQuery p (call_query_start c) (call_key_start c) = true <->
   forall c', In c' (kernel_calls K p) ->
              call_key_start c' = call_key_start c ->
              call_query_start c <= call_query_start c') /\
  (isLastQuery K p (call_query_start c) (call_key_start c) = true <->
   forall c', In c' (kernel_calls K p) ->
              call_key_start c' = call_key_start c ->
              call_query_start c' <= call_query_start c).
Proof.
  intros Hq Hq' Hk Hk' Hin.
  assert (HJ : 0 < kBlockSizeJ K <= 128)
    by (destruct (kBlockSizeJ_cases K); lia).
  assert (HI : 0 < kBlockSizeI K <= 128)
    by (destruct (kBlockSizeI_cases K); lia).
  apply kernel_calls_In in Hin; try assumption.
  pose proof (scheduled_first_query K p c Hq' Hk' Hin) as Hfirst.
  destruct Hin as (Hdk & Hks & Hdq & Hqs & Hskip).
  destruct (getQueryStart_bounds K p (call_key_start c) ltac:(lia))
    as [Hb Hd].
  split.
  - unfold isFirstQuery. split.
    + intros Hf c' Hin' Hkey.
      apply kernel_calls_In in Hin'; try assumption.
      destruct Hin' as (_ & _ & _ & Hqs' & _). rewrite Hkey in Hqs'.
      apply orb_true_iff in Hf. destruct Hf as [Hf | Hf]; [lia |].
      apply andb_true_iff in Hf. destruct Hf as [Hc Hle].
      apply Z.leb_le in Hle.
      rewrite getQueryStart_causal in Hqs' by (assumption || lia).
      pose proof (quot_mul_bounds (call_key_start c) (kBlockSizeI K)
                    ltac:(lia) ltac:(lia)) as B.
      destruct Hdq as [x Hx]. rewrite Hx in *.
      assert (x <= Z.quot (call_key_start c) (kBlockSizeI K)) by nia.
      nia.
    + intros Hall.
      apply kernel_calls_In in Hfirst; try assumption.
      specialize (Hall _ Hfirst eq_refl).
      cbn [call_query_start] in Hall.
      assert (E : call_query_start c = getQueryStart K p (call_key_start c))
        by lia.
      destruct (causal p) eqn:Hc.
      * rewrite E.
        destruct (Z.leb_spec (getQueryStart K p (call_key_start c))
                    (call_key_start c)); [| lia].
        apply orb_true_r.
      * unfold getQueryStart in E. rewrite Hc in E. rewrite E. reflexivity.
  - unfold isLastQuery. cbv zeta.
    rewrite incrIteration_spec by lia.
    destruct (Z.geb_spec (call_query_start c + kBlockSizeI K) (num_queries p))
      as [Hge | Hlt]; cbn [snd].
    + destruct (Z.eqb_spec (call_key_start c + kBlockSizeJ K)
                  (call_key_start c)); [lia |].
      split; [intros _ | reflexivity].
      intros c' Hin' Hkey.
      apply kernel_calls_In in Hin'; try assumption.
      destruct Hin' as (_ & _ & [y Hy] & Hqs' & _).
      destruct Hdq as [x Hx]. rewrite Hx, Hy in *.
      assert (y <= x) by nia. nia.
    + rewrite Z.eqb_refl. split; [discriminate |]. intros Hall. exfalso.
      assert (Hnext : scheduled_tile K p
                (Build_BlockCall
                   (tile_is_full K p (call_query_start c + kBlockSizeI K)
                      (call_key_start c))
                   (call_query_start c + kBlockSizeI K) (call_key_start c))).
      { unfold scheduled_tile.
        cbn [call_query_start call_key_start call_skipBoundsChecks].
        repeat split; try assumption; try lia.
        apply Z.divide_add_r; [assumption | apply Z.divide_refl]. }
      apply kernel_calls_In in Hnext; try assumption.
      specialize (Hall _ Hnext eq_refl). cbn [call_query_start] in Hall. lia.
Qed.

Lemma getQueryStart_mono K p a b :
  0 <= a <= b -> b < 2 ^ 31 ->
  getQueryStart K p a <= getQueryStart K p b.
Proof.
  intros Hab Hb. destruct (causal p) eqn:E.
  - rewrite (getQueryStart_causal K p b) by (assumption || lia).
    apply getQueryStart_le_tile; lia.
  - unfold getQueryStart. rewrite E. lia.
Qed.

(** X4. For a call made by [kernel], [isFirst] of the GradQ matmul holds
    exactly when no call for the same query tile has a smaller key tile,
    and [isLast] exactly when none has a larger one, with the causal flag as
    without: the dQ accumulator of a query tile is cleared at its first
    visit and written to [grad_query] at its last. *)
Theorem query_tile_accumulator_flags K p c :
  0 <= num_queries p -> num_queries p + 128 < 2 ^ 31 ->
  0 <= num_keys p -> num_keys p + 128 <= 2 ^ 31 ->
  In c (kernel_calls K p) ->
  (MatmulGradQ_isFirst (call_key_start c) = true <->
   forall c', In c' (kernel_calls K p) ->
              call_query_start c' = call_query_start c ->
              call_key_start c <= call_key_start c') /\
  (MatmulGradQ_isLast K p (call_query_start c) (call_key_start c) = true <->
   forall c', In c' (kernel_calls K p) ->
              call_query_start c' = call_query_start c ->
              call_key_start c' <= call_key_start c).
Proof.
  intros Hq Hq' Hk Hk' Hin.
  assert (HJ : 0 < kBlockSizeJ K <= 128)
    by (destruct (kBlockSizeJ_cases K); lia).
  assert (HI : 0 < kBlockSizeI K <= 128)
    by (destruct (kBlockSizeI_cases K); lia).
  apply kernel_calls_In in Hin; try assumption; try lia.
  destruct Hin as (Hdk & Hks & Hdq & Hqs & Hskip).
  destruct (getQueryStart_bounds K p (call_key_start c) ltac:(lia))
    as [Hb Hd].
  split.
  - unfold MatmulGradQ_isFirst. rewrite Z.eqb_eq. split.
    + intros E c' Hin' _.
      apply kernel_calls_In in Hin'; try assumption; try lia.
      destruct Hin' as (_ & Hks' & _). lia.
    + intros Hall.
      assert (H0 : scheduled_tile K p
                (Build_BlockCall (tile_is_full K p (call_query_start c) 0)
                   (call_query_start c) 0)).
      { unfold scheduled_tile.
        cbn [call_query_start call_key_start call_skipBoundsChecks].
        destruct (getQueryStart_bounds K p 0 ltac:(lia)) as [H0 _].
        repeat split; try assumption; try lia. apply Z.divide_0_r. }
      apply kernel_calls_In in H0; try assumption; try lia.
      specialize (Hall _ H0 eq_refl). cbn [call_key_start] in Hall. lia.
  - unfold MatmulGradQ_isLast. cbv zeta.
    rewrite incrIteration_spec by lia.
    destruct (Z.geb_spec (num_queries p + kBlockSizeI K) (num_queries p));
      [| lia].
    cbn [fst snd].
    set (k' := call_key_start c + kBlockSizeJ K).
    split.
    + intros Hl c' Hin' Hqe.
      apply kernel_calls_In in Hin'; try assumption; try lia.
      destruct Hin' as ([y Hy] & Hks' & _ & Hqs' & _).
      destruct (Z.le_gt_cases (call_key_start c') (call_key_start c))
        as [Hle | Hgt]; [exact Hle | exfalso].
      destruct Hdk as [x Hx].
      assert (x + 1 <= y) by nia.
      assert (k' <= call_key_start c') by (unfold k'; nia).
      apply orb_true_iff in Hl. destruct Hl as [Hl | Hl].
      * apply andb_true_iff in Hl. destruct Hl as [_ Hl].
        apply Z.gtb_lt in Hl.
        pose proof (getQueryStart_mono K p k' (call_key_start c')
                      ltac:(unfold k' in *; lia) ltac:(lia)).
        lia.
      * apply Z.geb_le in Hl. lia.
    + intros Hall. apply not_false_is_true. intros Hf.
      apply orb_false_iff in Hf. destruct Hf as [Hf1 Hf2].
      assert (Hk'' : k' < num_keys p).
      { destruct (Z.geb_spec k' (num_keys p)); [discriminate | lia]. }
      assert (Hg : getQueryStart K p k' <= call_query_start c).
      { destruct (causal p) eqn:Hc.
        - cbn [andb] in Hf1.
          destruct (Z.gtb_spec (getQueryStart K p k') (call_query_start c));
            [discriminate | lia].
        - unfold getQueryStart. rewrite Hc. lia. }
      assert (Hn : scheduled_tile K p
                (Build_BlockCall (tile_is_full K p (call_query_start c) k')
                   (call_query_start c) k')).
      { unfold scheduled_tile.
        cbn [call_query_start call_key_start call_skipBoundsChecks].
        repeat split; try assumption; try (unfold k'; lia).
        unfold k'. apply Z.divide_add_r; [assumption | apply Z.divide_refl]. }
      apply kernel_calls_In in Hn; try assumption; try lia.
      specialize (Hall _ Hn eq_refl). cbn [call_key_start] in Hall.
      unfold k' in Hall. lia.
Qed.

Lemma sorted_between (l1 l2 : list BlockCall) c c' x :
  StronglySorted call_lt (l1 ++ c :: c' :: l2) ->
  In x (l1 ++ c :: c' :: l2) -> call_lt c x -> x = c' \/ call_lt c' x.
Proof.
  intros Hs Hin Hlt.
  apply StronglySorted_app_inv in Hs. destruct Hs as (_ & Hs & H1).
  apply StronglySorted_inv in Hs. destruct Hs as [Hs _].
  apply StronglySorted_inv in Hs. destruct Hs as [_ Hc'].
  rewrite Forall_forall in Hc'.
  apply in_app_or in Hin. destruct Hin as [Hin | [<- | [<- | Hin]]].
  - specialize (H1 x c Hin ltac:(left; reflexivity)).
    unfold call_lt in *. lia.
  - unfold call_lt in *. lia.
  - left. reflexivity.
  - right. apply Hc', Hin.
Qed.

Lemma sorted_last (l1 : list BlockCall) c x :
  StronglySorted call_lt (l1 ++ [c]) ->
  In x (l1 ++ [c]) -> ~ call_lt c x.
Proof.
  intros Hs Hin Hlt.
  apply StronglySorted_app_inv in Hs. destruct Hs as (_ & _ & H1).
  apply in_app_or in Hin. destruct Hin as [Hin | [<- | []]].
  - specialize (H1 x c Hin ltac:(left; reflexivity)).
    unfold call_lt in *. lia.
  - unfold call_lt in *. lia.
Qed.

(** The tile that [incrIteration] names after a scheduled tile is the least
    scheduled tile after it, when it starts inside the problem; otherwise
    no scheduled tile comes after. *)
Lemma incrIteration_scheduled K p c :
  0 <= num_queries p -> num_queries p + 128 <= 2 ^ 31 ->
  0 <= num_keys p -> num_keys p + 128 <= 2 ^ 31 ->
  scheduled_tile K p c ->
  let n := incrIteration K p (call_query_start c) (call_key_start c) in
  (prologueQkNextIteration_loads p (fst n) (snd n) = true ->
   scheduled_tile K p
     (Build_BlockCall (tile_is_full K p (fst n) (snd n)) (fst n) (snd n)) /\
   call_lt c
     (Build_BlockCall (tile_is_full K p (fst n) (snd n)) (fst n) (snd n))) /\
  (forall c', scheduled_tile K p c' -> call_lt c c' ->
     prologueQkNextIteration_loads p (fst n) (snd n) = true /\
     ~ call_lt c'
       (Build_BlockCall (tile_is_full K p (fst n) (snd n)) (fst n) (snd n))).
Proof.
  intros Hq Hq' Hk Hk' (Hdk & Hks & Hdq & Hqs & Hskip) n.
  assert (HJ : 0 < kBlockSizeJ K <= 128)
    by (destruct (kBlockSizeJ_cases K); lia).
  assert (HI : 0 < kBlockSizeI K <= 128)
    by (destruct (kBlockSizeI_cases K); lia).
  destruct (getQueryStart_bounds K p (call_key_start c) ltac:(lia))
    as [Hb Hd].
  destruct (getQueryStart_bounds K p (call_key_start c + kBlockSizeJ K)
              ltac:(lia)) as [Hb' Hd'].
  unfold n. rewrite incrIteration_spec by lia.
  unfold prologueQkNextIteration_loads, call_lt, scheduled_tile.
  destruct (Z.geb_spec (call_query_start c + kBlockSizeI K) (num_queries p))
    as [Hge | Hlt]; cbn [fst snd call_query_start call_key_start
                           call_skipBoundsChecks].
  - split.
    + intros Hl. apply negb_true_iff, orb_false_iff in Hl.
      destruct Hl as [Hl1 Hl2].
      destruct (Z.geb_spec (getQueryStart K p
                              (call_key_start c + kBlockSizeJ K))
                  (num_queries p)); [discriminate |].
      destruct (Z.geb_spec (call_key_start c + kBlockSizeJ K) (num_keys p));
        [discriminate |].
      split; [| lia].
      repeat split; try assumption; try lia.
      apply Z.divide_add_r; [assumption | apply Z.divide_refl].
    + intros c' ([y Hy] & Hks' & [v Hv] & Hqs' & _) Hlt.
      destruct Hdk as [x Hx]. destruct Hdq as [u Hu].
      assert (Hkey : call_key_start c + kBlockSizeJ K <= call_key_start c').
      { destruct Hlt as [Hlt | [E Hlt]].
        - assert (x + 1 <= y) by nia. nia.
        - exfalso. assert (u + 1 <= v) by nia. nia. }
      pose proof (getQueryStart_mono K p
                    (call_key_start c + kBlockSizeJ K) (call_key_start c')
                    ltac:(lia) ltac:(lia)) as Hm.
      split.
      * apply negb_true_iff, orb_false_iff. split.
        -- destruct (Z.geb_spec (getQueryStart K p
                                   (call_key_start c + kBlockSizeJ K))
                       (num_queries p)); [lia | reflexivity].
        -- destruct (Z.geb_spec (call_key_start c + kBlockSizeJ K)
                       (num_keys p)); [lia | reflexivity].
      * intros [Hl | [E Hl]]; [lia |]. rewrite E in Hqs'. lia.
  - split.
    + intros _. split; [| lia].
      repeat split; try assumption; try lia.
      apply Z.divide_add_r; [assumption | apply Z.divide_refl].
    + intros c' ([y Hy] & Hks' & [v Hv] & Hqs' & _) Hlt'.
      destruct Hdk as [x Hx]. destruct Hdq as [u Hu].
      split.
      * apply negb_true_iff, orb_false_iff. split.
        -- destruct (Z.geb_spec (call_query_start c + kBlockSizeI K)
                       (num_queries p)); [lia | reflexivity].
        -- destruct (Z.geb_spec (call_key_start c) (num_keys p));
             [lia | reflexivity].
      * intros [Hl | [E Hl]]; [lia |].
        destruct Hlt' as [Hlt' | [E' Hlt']]; [lia |].
        assert (u + 1 <= v) by nia. nia.
Qed.

(** X5. The first call of [kernel] is the tile (0, 0) that the kernel
    prefetches before its loops; for two consecutive calls,
    [incrIteration] at the first gives the coordinates of the second, which
    [prologueQkNextIteration] prefetches; at the last call it gives a tile
    outside the problem, for which [prologueQkNextIteration] returns
    without loading. *)
Theorem incrIteration_names_next_call K p :
  0 <= num_queries p -> num_queries p + 128 <= 2 ^ 31 ->
  0 <= num_keys p -> num_keys p + 128 <= 2 ^ 31 ->
  (forall c l, kernel_calls K p = c :: l ->
     call_query_start c = 0 /\ call_key_start c = 0) /\
  (forall l1 c c' l2, kernel_calls K p = l1 ++ c :: c' :: l2 ->
     incrIteration K p (call_query_start c) (call_key_start c) =
       (call_query_start c', call_key_start c') /\
     prologueQkNextIteration_loads p
       (call_query_start c') (call_key_start c') = true) /\
  (forall l1 c, kernel_calls K p = l1 ++ [c] ->
     prologueQkNextIteration_loads p
       (fst (incrIteration K p (call_query_start c) (call_key_start c)))
       (snd (incrIteration K p (call_query_start c) (call_key_start c)))
     = false).
Proof.
  intros Hq Hq' Hk Hk'.
  assert (HJ : 0 < kBlockSizeJ K <= 128)
    by (destruct (kBlockSizeJ_cases K); lia).
  assert (HI : 0 < kBlockSizeI K <= 128)
    by (destruct (kBlockSizeI_cases K); lia).
  pose proof (all_tile_calls_sorted K p Hq Hq' Hk Hk') as Hs.
  rewrite <- kernel_calls_all_tiles in Hs by assumption.
  assert (Hin : forall c, In c (kernel_calls K p) <-> scheduled_tile K p c)
    by (intros c; apply kernel_calls_In; assumption).
  split; [| split].
  - intros c l E.
    assert (Hc : scheduled_tile K p c)
      by (apply Hin; rewrite E; left; reflexivity).
    pose proof Hc as (Hdk & Hks & Hdq & Hqs & _).
    assert (H0 : In (Build_BlockCall (tile_is_full K p 0 0) 0 0)
                   (kernel_calls K p)).
    { apply Hin. unfold scheduled_tile.
      cbn [call_query_start call_key_start call_skipBoundsChecks].
      destruct (getQueryStart_bounds K p 0 ltac:(lia)) as [H0 _].
      destruct (getQueryStart_bounds K p (call_key_start c) ltac:(lia))
        as [H1 _].
      repeat split; try lia; apply Z.divide_0_r. }
    rewrite E in Hs, H0. apply StronglySorted_inv in Hs.
    destruct Hs as [_ Hall]. rewrite Forall_forall in Hall.
    destruct (getQueryStart_bounds K p (call_key_start c) ltac:(lia))
      as [H1 _].
    destruct H0 as [H0 | H0]; [rewrite H0; split; reflexivity |].
    specialize (Hall _ H0). unfold call_lt in Hall.
    cbn [call_query_start call_key_start] in Hall. lia.
  - intros l1 c c' l2 E. rewrite E in Hs.
    assert (Hc : scheduled_tile K p c).
    { apply Hin. rewrite E. apply in_or_app. right. left. reflexivity. }
    assert (Hc' : scheduled_tile K p c').
    { apply Hin. rewrite E. apply in_or_app. right. right. left.
      reflexivity. }
    assert (Hlt : call_lt c c').
    { pose proof Hs as Hs'. apply StronglySorted_app_inv in Hs'.
      destruct Hs' as (_ & Hs' & _). apply StronglySorted_inv in Hs'.
      destruct Hs' as [_ Hall]. rewrite Forall_forall in Hall.
      apply Hall. left. reflexivity. }
    destruct (incrIteration_scheduled K p c Hq Hq' Hk Hk' Hc) as [Hn1 Hn2].
    destruct (Hn2 c' Hc' Hlt) as [Hloads Hnlt].
    destruct (Hn1 Hloads) as [Hsched Hcn].
    apply Hin in Hsched. rewrite E in Hsched.
    destruct (sorted_between l1 l2 c c' _ Hs Hsched Hcn) as [Heq | Hgt];
      [| contradiction].
    rewrite <- Heq. cbn [call_query_start call_key_start].
    split; [| exact Hloads].
    destruct (incrIteration K p (call_query_start c) (call_key_start c));
      reflexivity.
  - intros l1 c E. rewrite E in Hs.
    assert (Hc : scheduled_tile K p c).
    { apply Hin. rewrite E. apply in_or_app. right. left. reflexivity. }
    destruct (incrIteration_scheduled K p c Hq Hq' Hk Hk' Hc) as [Hn1 _].
    apply not_true_is_false. intros Hloads.
    destruct (Hn1 Hloads) as [Hsched Hcn].
    apply Hin in Hsched. rewrite E in Hsched.
    exact (sorted_last l1 c _ Hs Hsched Hcn).
Qed.

(** X1. The calls of [processBlockIJ] made by the loops of [kernel] are
    exactly the tiles whose key start is a multiple of [kBlockSizeJ] inside
    the problem and whose query start is a multiple of [kBlockSizeI] from
    [getQueryStart] on, with [skipBoundsChecks] set exactly on the tiles
    that lie entirely inside the problem; they are made in increasing order
    of key tile, then query tile, and none is made twice. *)
Theorem kernel_calls_enumerate_tiles K p :
  0 <= num_queries p -> num_queries p + 128 <= 2 ^ 31 ->
  0 <= num_keys p -> num_keys p + 128 <= 2 ^ 31 ->
  (forall c, In c (kernel_calls K p) <-> scheduled_tile K p c) /\
  StronglySorted call_lt (kernel_calls K p) /\
  NoDup (kernel_calls K p).
Proof.
  intros Hq Hq' Hk Hk'.
  pose proof (all_tile_calls_sorted K p Hq Hq' Hk Hk') as Hs.
  rewrite <- kernel_calls_all_tiles in Hs by assumption.
  split; [intros c; apply kernel_calls_In; assumption |].
  split; [exact Hs |].
  exact (StronglySorted_NoDup _ _ _ call_lt_irrefl Hs).
Qed.

(** The instance of X1 for 200 queries and 300 keys, with the causal
    flag, on the kernel for Sm80 with 64 x 64 tiles. *)
Lemma kernel_calls_enumerate_tiles_witness :
  NoDup (kernel_calls Sm80_f16_k64 scheduler_example_params).
Proof.
  refine (proj2 (proj2
    (kernel_calls_enumerate_tiles Sm80_f16_k64 scheduler_example_params
       _ _ _ _))); cbn; lia.
Defined.

(** The instance of X2 for the query 100 and the key 50 of that problem. *)
Lemma kernel_calls_cover_unmasked_pairs_witness :
  exists c,
    In c (kernel_calls Sm80_f16_k64 scheduler_example_params) /\
    in_tile Sm80_f16_k64 c 100 50 /\
    forall c', In c' (kernel_calls Sm80_f16_k64 scheduler_example_params) ->
               in_tile Sm80_f16_k64 c' 100 50 -> c' = c.
Proof.
  refine (kernel_calls_cover_unmasked_pairs Sm80_f16_k64
            scheduler_example_params 100 50 _ _ _ _ _); cbn; lia.
Defined.

(** The instance of X3 for the call on the tile (192, 64), the last of
    its key tile. *)
Lemma key_tile_accumulator_flags_witness :
  isLastQuery Sm80_f16_k64 scheduler_example_params 192 64 = true <->
  forall c', In c' (kernel_calls Sm80_f16_k64 scheduler_example_params) ->
             call_key_start c' = 64 -> call_query_start c' <= 192.
Proof.
  refine (proj2 (key_tile_accumulator_flags Sm80_f16_k64
                   scheduler_example_params (Build_BlockCall false 192 64)
                   _ _ _ _ _)); try (cbn; lia).
  vm_compute. tauto.
Defined.

(** The instance of X4 for the call on the tile (64, 64): with the causal
    flag, the key tile 128 starts at the query tile 128, so that this is the
    last visit of the query tile 64. *)
Lemma query_tile_accumulator_flags_witness :
  MatmulGradQ_isLast Sm80_f16_k64 scheduler_example_params 64 64 = true <->
  forall c', In c' (kernel_calls Sm80_f16_k64 scheduler_example_params) ->
             call_query_start c' = 64 -> call_key_start c' <= 64.
Proof.
  refine (proj2 (query_tile_accumulator_flags Sm80_f16_k64
                   scheduler_example_params (Build_BlockCall true 64 64)
                   _ _ _ _ _)); try (cbn; lia).
  vm_compute. tauto.
Defined.

(** The instance of X5 for the calls on the tiles (192, 0) and (64, 64),
    the fourth and fifth of the ten calls of that problem. *)
Lemma incrIteration_names_next_call_witness :
  incrIteration Sm80_f16_k64 scheduler_example_params 192 0 = (64, 64) /\
  prologueQkNextIteration_loads scheduler_example_params 64 64 = true.
Proof.
  refine (proj1 (proj2 (incrIteration_names_next_call Sm80_f16_k64
                          scheduler_example_params _ _ _ _))
            [Build_BlockCall true 0 0; Build_BlockCall true 64 0;
             Build_BlockCall true 128 0]
            (Build_BlockCall false 192 0) (Build_BlockCall true 64 64)
            [Build_BlockCall true 128 64; Build_BlockCall false 192 64;
             Build_BlockCall true 128 128; Build_BlockCall false 192 128;
             Build_BlockCall false 192 192] _); try (cbn; lia).
  vm_compute. reflexivity.
Defined.

(** ** [GmemTile]: the tile of a block in global memory *)

Lemma kStride_eq NT : 0 < NT -> NT * 4 < 2 ^ 31 -> GmemTile.kStride NT = 4 * NT.
Proof.
  intros H1 H2. unfold GmemTile.kStride, GmemTile.AccessType_kElements.
  rewrite int32_id by (unfold in_int32; lia). ring.
Qed.

Lemma kNumIters_bounds E :
  0 <= E -> 0 <= GmemTile.kNumIters E /\ GmemTile.kNumIters E = E / 4 /\
            4 * GmemTile.kNumIters E <= E.
Proof.
  intros H. unfold GmemTile.kNumIters, GmemTile.AccessType_kElements.
  Z.to_euclidean_division_equations. lia.
Qed.

(** The address that the thread [t] uses for the element [4 * i + j] of
    its fragment, relative to [ptr], determines [i], [t] and [j]. *)
Lemma tile_address_decomp NT i t j :
  0 < NT -> 0 <= i -> 0 <= t < NT -> 0 <= j < 4 ->
  let d := t * 4 + i * (4 * NT) + j in
  d / (4 * NT) = i /\ (d mod (4 * NT)) / 4 = t /\ d mod 4 = j.
Proof.
  intros HNT Hi Ht Hj d.
  assert (H1 : d / (4 * NT) = i).
  { symmetry. apply (Z.div_unique _ _ i (t * 4 + j)); unfold d; lia. }
  assert (H2 : d mod (4 * NT) = t * 4 + j).
  { symmetry. apply (Z.mod_unique _ _ i (t * 4 + j)); unfold d; lia. }
  split; [exact H1 |]. split.
  - rewrite H2. symmetry. apply (Z.div_unique _ _ t j); lia.
  - symmetry. apply (Z.mod_unique _ _ (t + i * NT) j); unfold d; lia.
Qed.

Lemma store_sub_fragment (fragment : Z -> R) i j :
  0 <= j < 4 ->
  fold_left
    (fun sub_fragment j0 =>
       fun j' =>
         if j' =? j0 then fragment (i * 4 + j0) else sub_fragment j')
    (for_range 0 4 1) (fun _ => 0%R) j =
  fragment (i * 4 + j).
Proof.
  intros Hj. change (for_range 0 4 1) with [0; 1; 2; 3]. cbn [fold_left].
  assert (j = 0 \/ j = 1 \/ j = 2 \/ j = 3) as [-> | [-> | [-> | ->]]] by lia;
    reflexivity.
Qed.

Lemma GmemTile_store_spec NT E mem ptr frag t a :
  0 < NT -> 0 <= E -> NT * 4 < 2 ^ 31 -> NT * E < 2 ^ 31 -> 0 <= t < NT ->
  GmemTile.store NT E mem ptr frag t a =
  if (0 <=? a - ptr) && (a - ptr <? (E / 4) * (4 * NT)) &&
     (((a - ptr) mod (4 * NT)) / 4 =? t)
  then frag (4 * ((a - ptr) / (4 * NT)) + (a - ptr) mod 4) else mem a.
Proof.
  intros HNT HE HS HNE Ht.
  destruct (kNumIters_bounds E HE) as (Hn0 & Hn & Hn4).
  assert (HE' : E <= NT * E) by nia.
  unfold GmemTile.store.
  rewrite (for_range_unit (GmemTile.kNumIters E)) by lia.
  rewrite kStride_eq by assumption.
  set (step := fun (mem0 : Z -> R) (i : Z) => _).
  set (writes := fun i : Z =>
         (ptr + t * 4 + i * (4 * NT) <=? a) &&
         (a <? ptr + t * 4 + i * (4 * NT) + 4)).
  rewrite (fold_store_obs Z (Z -> R) (fun m => m a) step writes
             (frag (4 * ((a - ptr) / (4 * NT)) + (a - ptr) mod 4))).
  - match goal with
    | |- (if ?b then _ else _) = (if ?c then _ else _) =>
        assert (Hbc : b = c); [| rewrite Hbc; reflexivity]
    end.
    apply eq_true_iff_eq. rewrite existsb_exists.
    rewrite !andb_true_iff, Z.leb_le, Z.ltb_lt, Z.eqb_eq. split.
    + intros (i & Hin & Hw). apply in_map_iff in Hin.
      destruct Hin as (k & <- & Hk). apply in_seq in Hk.
      unfold writes in Hw. apply andb_true_iff in Hw.
      rewrite Z.leb_le, Z.ltb_lt in Hw.
      set (i := Z.of_nat k) in *.
      assert (Hi : 0 <= i < GmemTile.kNumIters E) by lia.
      destruct (tile_address_decomp NT i t (a - ptr - t * 4 - i * (4 * NT))
                  HNT ltac:(lia) Ht ltac:(lia)) as (D1 & D2 & D3).
      replace (t * 4 + i * (4 * NT) + (a - ptr - t * 4 - i * (4 * NT)))
        with (a - ptr) in * by ring.
      repeat split; try lia. rewrite <- Hn. nia.
    + intros [[H0 H1] H2].
      set (d := a - ptr) in *.
      exists (d / (4 * NT)).
      pose proof (Z.div_mod d (4 * NT) ltac:(lia)) as Hd.
      pose proof (Z.mod_pos_bound d (4 * NT) ltac:(lia)) as Hm.
      pose proof (Z.div_mod (d mod (4 * NT)) 4 ltac:(lia)) as Hd4.
      pose proof (Z.mod_pos_bound (d mod (4 * NT)) 4 ltac:(lia)) as Hm4.
      assert (Hq : 0 <= d / (4 * NT) < E / 4).
      { split; [apply Z.div_pos; lia |].
        apply Z.div_lt_upper_bound; lia. }
      split.
      * apply in_map_iff. exists (Z.to_nat (d / (4 * NT))).
        split; [lia |]. apply in_seq. lia.
      * unfold writes. apply andb_true_iff.
        rewrite Z.leb_le, Z.ltb_lt. lia.
  - intros buf i Hin Hw. apply in_map_iff in Hin.
    destruct Hin as (k & <- & Hk). apply in_seq in Hk.
    set (i := Z.of_nat k) in *.
    assert (Hi : 0 <= i < GmemTile.kNumIters E) by lia.
    unfold step. cbv zeta.
    rewrite int32_id by (unfold in_int32; nia).
    unfold GmemTile.AccessType_kElements.
    unfold writes in Hw. rewrite Hw.
    apply andb_true_iff in Hw. rewrite Z.leb_le, Z.ltb_lt in Hw.
    rewrite store_sub_fragment by lia.
    destruct (tile_address_decomp NT i t (a - ptr - t * 4 - i * (4 * NT))
                HNT ltac:(lia) Ht ltac:(lia)) as (D1 & D2 & D3).
    replace (t * 4 + i * (4 * NT) + (a - ptr - t * 4 - i * (4 * NT)))
      with (a - ptr) in * by ring.
    rewrite D1, D3. f_equal. ring.
  - intros buf i Hin Hw. apply in_map_iff in Hin.
    destruct Hin as (k & <- & Hk). apply in_seq in Hk.
    set (i := Z.of_nat k) in *.
    assert (Hi : 0 <= i < GmemTile.kNumIters E) by lia.
    unfold step. cbv zeta.
    rewrite int32_id by (unfold in_int32; nia).
    unfold GmemTile.AccessType_kElements.
    unfold writes in Hw. rewrite Hw. reflexivity.
Qed.

Lemma GmemTile_store_block_spec NT E mem ptr frags a :
  0 < NT -> 0 <= E -> NT * 4 < 2 ^ 31 -> NT * E < 2 ^ 31 ->
  GmemTile.store_block NT E mem ptr frags a =
  if (0 <=? a - ptr) && (a - ptr <? (E / 4) * (4 * NT))
  then frags (((a - ptr) mod (4 * NT)) / 4)
         (4 * ((a - ptr) / (4 * NT)) + (a - ptr) mod 4)
  else mem a.
Proof.
  intros HNT HE HS HNE. unfold GmemTile.store_block.
  set (d := a - ptr).
  set (writes := fun t : Z =>
         (0 <=? d) && (d <? (E / 4) * (4 * NT)) &&
         ((d mod (4 * NT)) / 4 =? t)).
  rewrite (fold_store_obs Z (Z -> R) (fun m => m a)
             (fun m t => GmemTile.store NT E m ptr (frags t) t) writes
             (frags ((d mod (4 * NT)) / 4)
                (4 * (d / (4 * NT)) + d mod 4))).
  - match goal with
    | |- (if ?b then _ else _) = (if ?c then _ else _) =>
        assert (Hbc : b = c); [| rewrite Hbc; reflexivity]
    end.
    apply eq_true_iff_eq. rewrite existsb_exists.
    rewrite !andb_true_iff, Z.leb_le, Z.ltb_lt. split.
    + intros (t & _ & Hw). unfold writes in Hw.
      rewrite !andb_true_iff, Z.leb_le, Z.ltb_lt in Hw. tauto.
    + intros [H0 H1]. exists ((d mod (4 * NT)) / 4).
      pose proof (Z.mod_pos_bound d (4 * NT) ltac:(lia)) as Hm.
      assert (Ht : 0 <= (d mod (4 * NT)) / 4 < NT).
      { split; [apply Z.div_pos; lia |].
        apply Z.div_lt_upper_bound; lia. }
      split.
      * apply in_map_iff. exists (Z.to_nat ((d mod (4 * NT)) / 4)).
        split; [lia |]. apply in_seq. lia.
      * unfold writes. rewrite !andb_true_iff, Z.leb_le, Z.ltb_lt, Z.eqb_eq.
        tauto.
  - intros buf t Hin Hw. apply in_map_iff in Hin.
    destruct Hin as (k & <- & Hk). apply in_seq in Hk.
    rewrite GmemTile_store_spec by lia. fold d.
    unfold writes in Hw. rewrite Hw.
    rewrite !andb_true_iff, Z.eqb_eq in Hw. destruct Hw as [_ ->].
    reflexivity.
  - intros buf t Hin Hw. apply in_map_iff in Hin.
    destruct Hin as (k & <- & Hk). apply in_seq in Hk.
    rewrite GmemTile_store_spec by lia. fold d.
    unfold writes in Hw. rewrite Hw. reflexivity.
Qed.

Lemma load_sub_fragment (sub : Z -> R) (fragment : Z -> R) i e :
  fold_left
    (fun fragment j =>
       fun e => if e =? i * 4 + j then sub j else fragment e)
    (for_range 0 4 1) fragment e =
  if (i * 4 <=? e) && (e <? i * 4 + 4) then sub (e - i * 4) else fragment e.
Proof.
  change (for_range 0 4 1) with [0; 1; 2; 3]. cbn [fold_left].
  destruct (Z.eqb_spec e (i * 4 + 3)) as [-> | N3].
  { replace (i * 4 + 3 - i * 4) with 3 by ring.
    destruct (Z.leb_spec (i * 4) (i * 4 + 3)); [| lia].
    destruct (Z.ltb_spec (i * 4 + 3) (i * 4 + 4)); [| lia]. reflexivity. }
  destruct (Z.eqb_spec e (i * 4 + 2)) as [-> | N2].
  { replace (i * 4 + 2 - i * 4) with 2 by ring.
    destruct (Z.leb_spec (i * 4) (i * 4 + 2)); [| lia].
    destruct (Z.ltb_spec (i * 4 + 2) (i * 4 + 4)); [| lia]. reflexivity. }
  destruct (Z.eqb_spec e (i * 4 + 1)) as [-> | N1].
  { replace (i * 4 + 1 - i * 4) with 1 by ring.
    destruct (Z.leb_spec (i * 4) (i * 4 + 1)); [| lia].
    destruct (Z.ltb_spec (i * 4 + 1) (i * 4 + 4)); [| lia]. reflexivity. }
  destruct (Z.eqb_spec e (i * 4 + 0)) as [-> | N0].
  { replace (i * 4 + 0 - i * 4) with 0 by ring.
    destruct (Z.leb_spec (i * 4) (i * 4 + 0)); [| lia].
    destruct (Z.ltb_spec (i * 4 + 0) (i * 4 + 4)); [| lia]. reflexivity. }
  destruct (Z.leb_spec (i * 4) e); [| reflexivity].
  destruct (Z.ltb_spec e (i * 4 + 4)); [lia | reflexivity].
Qed.

Lemma GmemTile_load_spec NT E mem ptr frag0 t e :
  0 < NT -> 0 <= E -> NT * 4 < 2 ^ 31 -> NT * E < 2 ^ 31 ->
  GmemTile.load NT E mem ptr frag0 t e =
  if (0 <=? e) && (e <? 4 * (E / 4))
  then mem (ptr + t * 4 + (e / 4) * (4 * NT) + e mod 4) else frag0 e.
Proof.
  intros HNT HE HS HNE.
  destruct (kNumIters_bounds E HE) as (Hn0 & Hn & Hn4).
  assert (HE' : E <= NT * E) by nia.
  unfold GmemTile.load.
  rewrite (for_range_unit (GmemTile.kNumIters E)) by lia.
  rewrite kStride_eq by assumption.
  unfold GmemTile.AccessType_kElements.
  set (step := fun (fragment : Z -> R) (i : Z) => _).
  set (writes := fun i : Z => (i * 4 <=? e) && (e <? i * 4 + 4)).
  rewrite (fold_store_obs Z (Z -> R) (fun f => f e) step writes
             (mem (ptr + t * 4 + (e / 4) * (4 * NT) + e mod 4))).
  - match goal with
    | |- (if ?b then _ else _) = (if ?c then _ else _) =>
        assert (Hbc : b = c); [| rewrite Hbc; reflexivity]
    end.
    apply eq_true_iff_eq. rewrite existsb_exists.
    rewrite !andb_true_iff, Z.leb_le, Z.ltb_lt. split.
    + intros (i & Hin & Hw). apply in_map_iff in Hin.
      destruct Hin as (k & <- & Hk). apply in_seq in Hk.
      unfold writes in Hw. rewrite andb_true_iff, Z.leb_le, Z.ltb_lt in Hw.
      lia.
    + intros [H0 H1]. exists (e / 4).
      pose proof (Z.div_mod e 4 ltac:(lia)) as Hd.
      pose proof (Z.mod_pos_bound e 4 ltac:(lia)) as Hm.
      split.
      * apply in_map_iff. exists (Z.to_nat (e / 4)).
        split; [lia |]. apply in_seq. lia.
      * unfold writes. rewrite andb_true_iff, Z.leb_le, Z.ltb_lt. lia.
  - intros buf i Hin Hw. apply in_map_iff in Hin.
    destruct Hin as (k & <- & Hk). apply in_seq in Hk.
    set (i := Z.of_nat k) in *.
    unfold step. cbv zeta.
    rewrite int32_id by (unfold in_int32; nia).
    rewrite load_sub_fragment. unfold writes in Hw. rewrite Hw.
    rewrite andb_true_iff, Z.leb_le, Z.ltb_lt in Hw.
    assert (e / 4 = i) by (symmetry; apply (Z.div_unique _ _ i (e - i * 4)); lia).
    assert (e mod 4 = e - i * 4)
      by (symmetry; apply (Z.mod_unique _ _ i (e - i * 4)); lia).
    f_equal. lia.
  - intros buf i Hin Hw. apply in_map_iff in Hin.
    destruct Hin as (k & <- & Hk). apply in_seq in Hk.
    set (i := Z.of_nat k) in *.
    unfold step. cbv zeta.
    rewrite load_sub_fragment. unfold writes in Hw. rewrite Hw. reflexivity.
Qed.

(** X6. When every thread of a block has stored its fragment in a tile
    with [GmemTile::store], [GmemTile::load] gives each thread its own
    fragment back, element by element: the stores of the other threads do
    not touch it, and the elements of the fragment outside
    [FragmentType::kElements] are left as they were. *)
Theorem GmemTile_load_store_block NT E mem ptr frags frag0 t e :
  0 < NT -> NT * 4 < 2 ^ 31 -> 0 <= E -> (4 | E) -> NT * E < 2 ^ 31 ->
  0 <= t < NT ->
  GmemTile.load NT E (GmemTile.store_block NT E mem ptr frags) ptr frag0 t e =
  if (0 <=? e) && (e <? E) then frags t e else frag0 e.
Proof.
  intros HNT HS HE [c Hc] HNE Ht.
  assert (H4 : 4 * (E / 4) = E).
  { subst E. rewrite Z.div_mul by lia. ring. }
  rewrite GmemTile_load_spec by assumption. rewrite H4.
  destruct ((0 <=? e) && (e <? E)) eqn:He; [| reflexivity].
  rewrite andb_true_iff, Z.leb_le, Z.ltb_lt in He.
  rewrite GmemTile_store_block_spec by assumption.
  pose proof (Z.div_mod e 4 ltac:(lia)) as Hd.
  pose proof (Z.mod_pos_bound e 4 ltac:(lia)) as Hm.
  assert (Hq : 0 <= e / 4 < E / 4).
  { split; [apply Z.div_pos; lia |]. apply Z.div_lt_upper_bound; lia. }
  replace (ptr + t * 4 + e / 4 * (4 * NT) + e mod 4 - ptr)
    with (t * 4 + e / 4 * (4 * NT) + e mod 4) by ring.
  destruct (tile_address_decomp NT (e / 4) t (e mod 4)
              HNT ltac:(lia) Ht ltac:(lia)) as (D1 & D2 & D3).
  rewrite D1, D2, D3.
  destruct (Z.leb_spec 0 (t * 4 + e / 4 * (4 * NT) + e mod 4)); [| nia].
  destruct (Z.ltb_spec (t * 4 + e / 4 * (4 * NT) + e mod 4)
              (E / 4 * (4 * NT))); [| nia].
  cbn [andb]. f_equal. lia.
Qed.

(** X7. The stores of a block to a tile change global memory only at the
    [kElementsStored] elements from [ptr] on, and they write every one of
    them: each holds the element [e] of the fragment of the thread [t] whose
    address it is.  The tiles of two storage ids, [kElementsStored] apart,
    do not overlap. *)
Theorem GmemTile_store_block_footprint NT E mem ptr frags a :
  0 < NT -> NT * 4 < 2 ^ 31 -> 0 <= E -> (4 | E) -> NT * E < 2 ^ 31 ->
  (a < ptr \/ ptr + GmemTile.kElementsStored NT E <= a ->
   GmemTile.store_block NT E mem ptr frags a = mem a) /\
  (ptr <= a < ptr + GmemTile.kElementsStored NT E ->
   exists t e,
     0 <= t < NT /\ 0 <= e < E /\
     a = ptr + t * 4 + (e / 4) * GmemTile.kStride NT + e mod 4 /\
     GmemTile.store_block NT E mem ptr frags a = frags t e).
Proof.
  intros HNT HS HE [c Hc] HNE.
  assert (H4 : E / 4 * (4 * NT) = NT * E).
  { subst E. rewrite Z.div_mul by lia. ring. }
  unfold GmemTile.kElementsStored.
  rewrite int32_id by (unfold in_int32; lia).
  rewrite kStride_eq by assumption.
  rewrite GmemTile_store_block_spec by assumption. rewrite H4.
  split.
  - intros Ha.
    destruct (Z.leb_spec 0 (a - ptr)); [| reflexivity].
    destruct (Z.ltb_spec (a - ptr) (NT * E)); [lia | reflexivity].
  - intros Ha.
    destruct (Z.leb_spec 0 (a - ptr)); [| lia].
    destruct (Z.ltb_spec (a - ptr) (NT * E)); [| lia]. cbn [andb].
    set (d := a - ptr) in *.
    pose proof (Z.div_mod d (4 * NT) ltac:(lia)) as Hd.
    pose proof (Z.mod_pos_bound d (4 * NT) ltac:(lia)) as Hm.
    pose proof (Z.div_mod (d mod (4 * NT)) 4 ltac:(lia)) as Hd4.
    pose proof (Z.mod_pos_bound (d mod (4 * NT)) 4 ltac:(lia)) as Hm4.
    assert (Hd1 : d mod 4 = (d mod (4 * NT)) mod 4).
    { pose proof (Z.div_mod d 4 ltac:(lia)) as Hd0.
      pose proof (Z.mod_pos_bound d 4 ltac:(lia)) as Hm0.
      apply (Z.mod_unique _ _ (d / 4 - NT * (d / (4 * NT)))); lia. }
    assert (Hq : 0 <= d / (4 * NT) < E / 4).
    { split; [apply Z.div_pos; lia |].
      apply Z.div_lt_upper_bound; lia. }
    assert (Ht : 0 <= (d mod (4 * NT)) / 4 < NT).
    { split; [apply Z.div_pos; lia |].
      apply Z.div_lt_upper_bound; lia. }
    exists ((d mod (4 * NT)) / 4), (4 * (d / (4 * NT)) + d mod 4).
    assert (He4 : (4 * (d / (4 * NT)) + d mod 4) / 4 = d / (4 * NT)).
    { symmetry. apply (Z.div_unique _ _ _ (d mod 4)); lia. }
    assert (Hem : (4 * (d / (4 * NT)) + d mod 4) mod 4 = d mod 4).
    { symmetry. apply (Z.mod_unique _ _ (d / (4 * NT)) (d mod 4)); lia. }
    rewrite He4, Hem.
    split; [exact Ht |]. split; [subst E; rewrite Z.div_mul in Hq by lia; lia |].
    split; [| reflexivity]. unfold d in *. lia.
Qed.

(** The instance of X6 for the thread 5 and the element 7 of a block of
    128 threads, with 32 accumulators per thread. *)
Lemma GmemTile_load_store_block_witness :
  GmemTile.load 128 32
    (GmemTile.store_block 128 32 (fun _ => 0%R) 1000 example_fragments)
    1000 (fun _ => 0%R) 5 7 = example_fragments 5 7.
Proof.
  refine (GmemTile_load_store_block 128 32 (fun _ => 0%R) 1000
            example_fragments (fun _ => 0%R) 5 7 _ _ _ _ _ _); try lia.
  exists 8. reflexivity.
Defined.

(** The instance of X7 for the first element after a tile of 128 x 32
    elements at 1000. *)
Lemma GmemTile_store_block_footprint_witness :
  GmemTile.store_block 128 32 (fun _ => 0%R) 1000 example_fragments 5096
  = 0%R.
Proof.
  refine (proj1 (GmemTile_store_block_footprint 128 32 (fun _ => 0%R) 1000
                   example_fragments 5096 _ _ _ _ _) _); try lia.
  - exists 8. reflexivity.
  - right. vm_compute. discriminate.
Defined.

(** ** Compile-time configuration and launch *)

Lemma scalar_t_half K : scalar_t K = Float16 \/ scalar_t K = BFloat16.
Proof.
  unfold scalar_t. destruct (scalar_t__ K); cbn; auto.
Qed.

Lemma kIsHalf_true K : kIsHalf K = true.
Proof. unfold kIsHalf. rewrite sizeof_bits_scalar_t. reflexivity. Qed.

Lemma kSupports64x128_eq K : kSupports64x128 K = (ArchTag_ K >=? 70).
Proof.
  unfold kSupports64x128. rewrite sizeof_bits_scalar_t.
  change (16 <=? 16) with true. rewrite andb_true_r.
  destruct (Z.geb_spec (ArchTag_ K) 80), (Z.geb_spec (ArchTag_ K) 70);
    try reflexivity; lia.
Qed.

Lemma kMaxK_gt_64 K : (kMaxK K >? 64) = (kMaxK_ K >? 64).
Proof.
  unfold kMaxK.
  destruct (Z.gtb_spec (Z.min (kMaxK_ K) 128) 64),
    (Z.gtb_spec (kMaxK_ K) 64); try reflexivity; lia.
Qed.

(** The tile sizes and [kOutputInRF], by architecture and head-dimension
    bound. *)
Lemma tile_shape_cases K :
  (kMaxK_ K <= 64 /\ kBlockSizeI K = 64 /\ kBlockSizeJ K = 64 /\
   kOutputInRF K = true) \/
  (64 < kMaxK_ K /\ ArchTag_ K < 70 /\ kBlockSizeI K = 64 /\
   kBlockSizeJ K = 64 /\ kOutputInRF K = false) \/
  (64 < kMaxK_ K /\ 70 <= ArchTag_ K < 80 /\ kBlockSizeI K = 128 /\
   kBlockSizeJ K = 64 /\ kOutputInRF K = true) \/
  (64 < kMaxK_ K /\ 80 <= ArchTag_ K /\ kBlockSizeI K = 128 /\
   kBlockSizeJ K = 128 /\ kOutputInRF K = true).
Proof.
  unfold kBlockSizeJ, kPreloadMmas, kOutputInRF, kBlockSizeI.
  rewrite kIsHalf_true, kSupports64x128_eq, kMaxK_gt_64. cbn [andb].
  pose proof (kMaxK_le_128 K) as H128.
  unfold kMaxK in *.
  destruct (Z.gtb_spec (kMaxK_ K) 64) as [Hgt | Hle].
  - right.
    destruct (Z.geb_spec (ArchTag_ K) 70) as [H70 | H70]; cbn [andb].
    + destruct (Z.leb_spec (Z.min (kMaxK_ K) 128) 128); [| lia].
      destruct (Z.geb_spec (ArchTag_ K) 80) as [H80 | H80]; cbn [andb].
      * right. right. repeat split; lia.
      * right. left. repeat split; lia.
    + destruct (Z.leb_spec (Z.min (kMaxK_ K) 128) 64); [lia |].
      rewrite andb_false_r. cbn [andb].
      left. repeat split; lia.
  - left. rewrite andb_false_r. cbn [andb].
    destruct (Z.leb_spec (Z.min (kMaxK_ K) 128) 64); [| lia].
    rewrite andb_true_r.
    destruct (Z.geb_spec (ArchTag_ K) 80); cbn; repeat split; lia.
Qed.

(** X8. Whatever [scalar_t__] is, the kernel computes on a 16-bit element
    type (a 32-bit one is replaced by [cutlass::half_t]); so [kIsHalf] and
    [kReuseDOi] hold, the dQ accumulator is always kept in the workspace
    between key tiles, dK and dV are exactly when they are not kept in
    registers, and the kernel always computes the row delta itself: the
    exception made for compute capability 70 never applies. *)
Theorem every_kernel_is_half_precision K :
  sizeof_bits (scalar_t K) = 16 /\
  kIsHalf K = true /\
  kReuseDOi K = true /\
  kNeedsAccumGradQ K = true /\
  kNeedsAccumGradK K = negb (kOutputInRF K) /\
  kNeedsAccumGradV K = negb (kOutputInRF K) /\
  kKernelComputesDelta K = true.
Proof.
  assert (Hne : is_same output_accum_t (output_t K) = false).
  { unfold output_accum_t, output_t.
    destruct (scalar_t_half K) as [-> | ->]; reflexivity. }
  split; [apply sizeof_bits_scalar_t |].
  split; [apply kIsHalf_true |].
  split.
  { unfold kReuseDOi. rewrite kIsHalf_true.
    pose proof (kMaxK_le_128 K).
    destruct (Z.leb_spec (kMaxK K) 128); [reflexivity | lia]. }
  split; [unfold kNeedsAccumGradQ; rewrite Hne; reflexivity |].
  split; [unfold kNeedsAccumGradK; rewrite Hne; apply andb_true_r |].
  split; [unfold kNeedsAccumGradV; rewrite Hne; apply andb_true_r |].
  unfold kKernelComputesDelta. rewrite kIsHalf_true. cbn [andb].
  destruct (tile_shape_cases K)
    as [(_ & _ & _ & ->) | [(_ & H & _ & _ & ->) |
        [(_ & _ & _ & _ & ->) | (_ & _ & _ & _ & ->)]]];
    try reflexivity.
  destruct (Z.eqb_spec (ArchTag_ K) 70); [lia | reflexivity].
Qed.

(** X9. The tiles are 64 x 64, 128 x 64 or 128 x 128: the query tile has
    128 rows from compute capability 70 on and the key tile from 80 on,
    when the bound on the head dimensions exceeds 64; dK and dV leave the
    registers only before 70 with such a bound.  The static assertions of
    [computeDelta] hold for every instantiation, a block has at most 512
    threads, and the minimum number of blocks per multiprocessor given in
    the launch bounds is 0 exactly for the 128 x 128 tiles. *)
Theorem tile_shapes_and_launch_bounds K :
  (kBlockSizeI K = 128 <-> 70 <= ArchTag_ K /\ 64 < kMaxK_ K) /\
  (kBlockSizeJ K = 128 <-> 80 <= ArchTag_ K /\ 64 < kMaxK_ K) /\
  (kOutputInRF K = false <-> ArchTag_ K < 70 /\ 64 < kMaxK_ K) /\
  kBlockSizeJ K <= kBlockSizeI K /\
  kNumThreads K = kBlockSizeI K * kBlockSizeJ K / 32 /\
  kBlockSizeI K <= kNumThreads K <= 512 /\
  (kNumThreadsPerLine K = 1 \/ kNumThreadsPerLine K = 2 \/
   kNumThreadsPerLine K = 4) /\
  (kMinBlocksPerSm K = 0 <-> kBlockSizeJ K = 128).
Proof.
  assert (Hw : getWarpsPerSm (scalar_t K) (ArchTag_ K) =
               if ArchTag_ K >=? 80 then 12 else 8).
  { unfold getWarpsPerSm.
    destruct (scalar_t_half K) as [-> | ->]; reflexivity. }
  unfold kMinBlocksPerSm, kNumThreadsPerLine, kNumThreads, kNumWarpsPerBlock,
    kWarpSize.
  rewrite Hw.
  destruct (tile_shape_cases K)
    as [(Hk & HI & HJ & HRF) | [(Hk & HA & HI & HJ & HRF) |
        [(Hk & HA & HI & HJ & HRF) | (Hk & HA & HI & HJ & HRF)]]];
    rewrite HI, HJ, HRF;
    destruct (Z.geb_spec (ArchTag_ K) 80);
    repeat split; intros; try discriminate; try lia;
    try (vm_compute; congruence); try (right; left; reflexivity);
    try (right; right; reflexivity); try (vm_compute in *; congruence).
Qed.

Lemma int8_id z : - 2 ^ 7 <= z < 2 ^ 7 -> int8 z = z.
Proof.
  intros H. unfold int8, wrap_signed.
  change (2 ^ (8 - 1)) with 128. change (2 ^ 8) with 256.
  change (2 ^ 7) with 128 in H.
  rewrite Z.mod_small by lia. lia.
Qed.

Lemma int16_id z : - 2 ^ 15 <= z < 2 ^ 15 -> int16 z = z.
Proof.
  intros H. unfold int16, wrap_signed.
  change (2 ^ (16 - 1)) with 32768. change (2 ^ 16) with 65536.
  change (2 ^ 15) with 32768 in H.
  rewrite Z.mod_small by lia. lia.
Qed.

Lemma kNumWarpsPerBlock_cases K :
  kNumWarpsPerBlock K = 4 \/ kNumWarpsPerBlock K = 8 \/
  kNumWarpsPerBlock K = 16.
Proof.
  unfold kNumWarpsPerBlock.
  destruct (tile_shape_cases K)
    as [(_ & -> & -> & _) | [(_ & _ & -> & -> & _) |
        [(_ & _ & -> & -> & _) | (_ & _ & -> & -> & _)]]];
    vm_compute; auto.
Qed.

(** X10. In a block launched with [getThreadsGrid], the lane, warp and
    thread ids fit the 8-bit and 16-bit integers that [get_lane_id],
    [get_warp_id] and [get_thread_id] return; the thread id is
    [lane + 32 * warp], from which the lane and the warp are recovered, and
    the thread ids are exactly the numbers below [kNumThreads], the number
    of threads that [processBlockIJ] computes from [blockDim]. *)
Theorem thread_ids_of_a_block K :
  num_threads (getThreadsGrid K) = kNumThreads K /\
  (forall threadIdx,
     0 <= dim_x threadIdx < dim_x (getThreadsGrid K) ->
     0 <= dim_y threadIdx < dim_y (getThreadsGrid K) ->
     get_lane_id threadIdx = dim_x threadIdx /\
     get_warp_id threadIdx = dim_y threadIdx /\
     get_thread_id (getThreadsGrid K) threadIdx =
       dim_x threadIdx + kWarpSize * dim_y threadIdx /\
     0 <= get_thread_id (getThreadsGrid K) threadIdx < kNumThreads K /\
     Z.rem (get_thread_id (getThreadsGrid K) threadIdx) kWarpSize =
       get_lane_id threadIdx /\
     Z.quot (get_thread_id (getThreadsGrid K) threadIdx) kWarpSize =
       get_warp_id threadIdx) /\
  (forall thread_id,
     0 <= thread_id < kNumThreads K ->
     exists threadIdx,
       0 <= dim_x threadIdx < dim_x (getThreadsGrid K) /\
       0 <= dim_y threadIdx < dim_y (getThreadsGrid K) /\
       get_thread_id (getThreadsGrid K) threadIdx = thread_id).
Proof.
  pose proof (kNumWarpsPerBlock_cases K) as Hw.
  unfold getThreadsGrid, num_threads, kNumThreads, kWarpSize in *.
  cbn [dim_x dim_y dim_z].
  split; [| split].
  - rewrite Z.mul_1_r.
    rewrite (int32_id (32 * kNumWarpsPerBlock K))
      by (unfold in_int32; lia).
    apply int32_id. unfold in_int32. lia.
  - intros [x y z] Hx Hy. cbn [dim_x dim_y dim_z] in *.
    unfold get_lane_id, get_warp_id, get_thread_id. cbn [dim_x dim_y dim_z].
    rewrite (int8_id x), (int8_id y), (int16_id (x + y * 32)) by lia.
    repeat split; try lia; Z.to_euclidean_division_equations; lia.
  - intros t Ht.
    exists {| dim_x := Z.rem t 32; dim_y := Z.quot t 32; dim_z := 0 |}.
    unfold get_thread_id. cbn [dim_x dim_y dim_z].
    assert (B : 0 <= Z.rem t 32 < 32 /\ 0 <= Z.quot t 32 /\
                Z.rem t 32 + Z.quot t 32 * 32 = t /\
                Z.quot t 32 < kNumWarpsPerBlock K).
    { Z.to_euclidean_division_equations. lia. }
    rewrite int16_id by lia. lia.
Qed.

(** ** The workspace: slabs, areas and tiles *)

Lemma ceil_div_int32 n m :
  0 <= n -> 0 < m -> n + m < 2 ^ 31 ->
  ceil_div int32 n m = (n + m - 1) / m /\
  n <= ceil_div int32 n m * m < n + m /\ 0 <= ceil_div int32 n m.
Proof.
  intros Hn Hm Hnm. unfold ceil_div.
  rewrite (int32_id (n + m)) by (unfold in_int32; lia).
  rewrite int32_id by (unfold in_int32; lia).
  rewrite Z.quot_div_nonneg by lia.
  pose proof (Z.div_mod (n + m - 1) m ltac:(lia)) as Hd.
  pose proof (Z.mod_pos_bound (n + m - 1) m ltac:(lia)) as Hr.
  split; [reflexivity |]. split; [nia |]. apply Z.div_pos; lia.
Qed.

Lemma align_up_int32 n m :
  0 <= n -> 0 < m -> n + m < 2 ^ 31 ->
  align_up int32 n m = (n + m - 1) / m * m /\
  n <= align_up int32 n m < n + m /\ (m | align_up int32 n m).
Proof.
  intros Hn Hm Hnm. unfold align_up.
  destruct (ceil_div_int32 n m Hn Hm Hnm) as (E & B & P).
  rewrite int32_id by (unfold in_int32; lia).
  rewrite E in *. split; [reflexivity |]. split; [lia |].
  exists ((n + m - 1) / m). reflexivity.
Qed.

Lemma align_up_int64 n m :
  0 <= n -> 0 < m -> n + m < 2 ^ 63 ->
  n <= align_up int64 n m < n + m /\ (m | align_up int64 n m).
Proof.
  intros Hn Hm Hnm. unfold align_up, ceil_div.
  rewrite (int64_id (n + m)) by (unfold in_int64; lia).
  rewrite (int64_id (n + m - 1)) by (unfold in_int64; lia).
  rewrite Z.quot_div_nonneg by lia.
  pose proof (Z.div_mod (n + m - 1) m ltac:(lia)) as Hd.
  pose proof (Z.mod_pos_bound (n + m - 1) m ltac:(lia)) as Hr.
  rewrite int64_id by (unfold in_int64; nia).
  split; [nia |]. exists ((n + m - 1) / m). reflexivity.
Qed.

Lemma workspace_elements_spec K p :
  workspace_in_range p ->
  workspace_elements_gk K p =
    (if kNeedsAccumGradK K
     then (num_keys p + kBlockSizeJ K - 1) / kBlockSizeJ K * kBlockSizeJ K *
          ((head_dim p + kBlockSizeI K - 1) / kBlockSizeI K * kBlockSizeI K)
     else 0) /\
  workspace_elements_gv K p =
    (if kNeedsAccumGradV K
     then (num_keys p + kBlockSizeJ K - 1) / kBlockSizeJ K * kBlockSizeJ K *
          ((head_dim_value p + kBlockSizeI K - 1) / kBlockSizeI K
           * kBlockSizeI K)
     else 0) /\
  workspace_elements_gq K p =
    (if kNeedsAccumGradQ K && negb (num_keys p <=? kBlockSizeJ K)
     then (num_queries p + kBlockSizeI K - 1) / kBlockSizeI K * kBlockSizeI K *
          ((head_dim p + kBlockSizeJ K - 1) / kBlockSizeJ K * kBlockSizeJ K)
     else 0) /\
  0 <= workspace_elements_gk K p < 2 ^ 31 /\
  0 <= workspace_elements_gv K p < 2 ^ 31 /\
  0 <= workspace_elements_gq K p < 2 ^ 31.
Proof.
  intros (Hq & Hk & Hd & Hdv & Hkd & Hkv & Hqd).
  assert (HJ : 0 < kBlockSizeJ K <= 128)
    by (destruct (kBlockSizeJ_cases K); lia).
  assert (HI : 0 < kBlockSizeI K <= 128)
    by (destruct (kBlockSizeI_cases K); lia).
  assert (Hk31 : num_keys p + 128 < 2 ^ 31) by nia.
  assert (Hq31 : num_queries p + 128 < 2 ^ 31) by nia.
  assert (Hd31 : head_dim p + 128 < 2 ^ 31) by nia.
  assert (Hv31 : head_dim_value p + 128 < 2 ^ 31) by nia.
  unfold workspace_elements_gk, workspace_elements_gv, workspace_elements_gq.
  rewrite (int32_id (kBlockSizeJ K)), (int32_id (kBlockSizeI K))
    by (unfold in_int32; lia).
  destruct (align_up_int32 (num_keys p) (kBlockSizeJ K) Hk ltac:(lia)
              ltac:(lia)) as (EkJ & BkJ & _).
  destruct (align_up_int32 (head_dim p) (kBlockSizeI K) Hd ltac:(lia)
              ltac:(lia)) as (EdI & BdI & _).
  destruct (align_up_int32 (head_dim_value p) (kBlockSizeI K) Hdv ltac:(lia)
              ltac:(lia)) as (EvI & BvI & _).
  destruct (align_up_int32 (num_queries p) (kBlockSizeI K) Hq ltac:(lia)
              ltac:(lia)) as (EqI & BqI & _).
  destruct (align_up_int32 (head_dim p) (kBlockSizeJ K) Hd ltac:(lia)
              ltac:(lia)) as (EdJ & BdJ & _).
  rewrite <- EkJ, <- EdI, <- EvI, <- EqI, <- EdJ.
  set (aK := align_up int32 (num_keys p) (kBlockSizeJ K)) in *.
  set (aD := align_up int32 (head_dim p) (kBlockSizeI K)) in *.
  set (aV := align_up int32 (head_dim_value p) (kBlockSizeI K)) in *.
  set (aQ := align_up int32 (num_queries p) (kBlockSizeI K)) in *.
  set (aE := align_up int32 (head_dim p) (kBlockSizeJ K)) in *.
  assert (P1 : 0 <= aK * aD < 2 ^ 31).
  { split; [apply Z.mul_nonneg_nonneg; lia |].
    apply Z.lt_trans with ((num_keys p + 128) * (head_dim p + 128));
      [apply Z.mul_lt_mono_nonneg; lia | exact Hkd]. }
  assert (P2 : 0 <= aK * aV < 2 ^ 31).
  { split; [apply Z.mul_nonneg_nonneg; lia |].
    apply Z.lt_trans with ((num_keys p + 128) * (head_dim_value p + 128));
      [apply Z.mul_lt_mono_nonneg; lia | exact Hkv]. }
  assert (P3 : 0 <= aQ * aE < 2 ^ 31).
  { split; [apply Z.mul_nonneg_nonneg; lia |].
    apply Z.lt_trans with ((num_queries p + 128) * (head_dim p + 128));
      [apply Z.mul_lt_mono_nonneg; lia | exact Hqd]. }
  rewrite (int32_id (aK * aD)), (int32_id (aK * aV)), (int32_id (aQ * aE))
    by (unfold in_int32; lia).
  destruct (kNeedsAccumGradK K), (kNeedsAccumGradV K), (kNeedsAccumGradQ K);
    cbn [negb andb];
    destruct (Z.leb_spec (num_keys p) (kBlockSizeJ K)); cbn [negb];
    repeat split; try reflexivity; lia.
Qed.

Lemma kNeedsAccumGradQ_true K : kNeedsAccumGradQ K = true.
Proof.
  unfold kNeedsAccumGradQ, output_accum_t, output_t.
  destruct (scalar_t_half K) as [-> | ->]; reflexivity.
Qed.

Lemma workspace_strideBH_spec K p :
  workspace_in_range p ->
  workspace_elements_gk K p + workspace_elements_gv K p
    + workspace_elements_gq K p <= workspace_strideBH K p /\
  workspace_strideBH K p <
    workspace_elements_gk K p + workspace_elements_gv K p
    + workspace_elements_gq K p + 4 /\
  (4 | workspace_strideBH K p).
Proof.
  intros Hr.
  destruct (workspace_elements_spec K p Hr) as (_ & _ & _ & Bk & Bv & Bq).
  unfold workspace_strideBH. change (int64 4) with 4.
  rewrite (int64_id (workspace_elements_gk K p + workspace_elements_gv K p))
    by (unfold in_int64; lia).
  rewrite (int64_id (_ + workspace_elements_gq K p))
    by (unfold in_int64; lia).
  destruct (align_up_int64
              (workspace_elements_gk K p + workspace_elements_gv K p
               + workspace_elements_gq K p) 4 ltac:(lia) ltac:(lia)
              ltac:(lia)) as [B D].
  split; [lia |]. split; [lia | exact D].
Qed.

(** X11. [advance_to_block] gives every block [(batch_id, head_id)] its
    own slab of the workspace: the areas of dK, dV and dQ follow one
    another inside [workspace_strideBH] elements, a multiple of 4 ("aligned
    on 128 bits"), the slab ends within the [workspace_size] bytes of the
    buffer, and the slabs of two different blocks do not overlap. *)
Theorem workspace_slabs_disjoint K p workspace batch_id head_id :
  workspace_in_range p ->
  0 <= batch_id < num_batches p -> 0 <= head_id < num_heads p ->
  num_batches p * num_heads p < 2 ^ 31 ->
  num_batches p * num_heads p * workspace_strideBH K p * sizeof_float
    < 2 ^ 63 ->
  exists w,
    advance_to_block_workspace K p workspace batch_id head_id = Some w /\
    workspace_gk w =
      workspace + (batch_id * num_heads p + head_id) * workspace_strideBH K p /\
    workspace_gv w = workspace_gk w + workspace_elements_gk K p /\
    workspace_gq w = workspace_gv w + workspace_elements_gv K p /\
    workspace_gq w + workspace_elements_gq K p
      <= workspace_gk w + workspace_strideBH K p /\
    (4 | workspace_strideBH K p) /\
    workspace <= workspace_gk w /\
    sizeof_float * (workspace_gk w + workspace_strideBH K p - workspace)
      <= workspace_size K p /\
    forall batch_id' head_id' w',
      0 <= batch_id' < num_batches p -> 0 <= head_id' < num_heads p ->
      (batch_id', head_id') <> (batch_id, head_id) ->
      advance_to_block_workspace K p workspace batch_id' head_id' = Some w' ->
      workspace_gk w' + workspace_strideBH K p <= workspace_gk w \/
      workspace_gk w + workspace_strideBH K p <= workspace_gk w'.
Proof.
  intros Hr Hb Hh HBH Htot.
  destruct (workspace_elements_spec K p Hr) as (_ & _ & _ & Bk & Bv & Bq).
  destruct (workspace_strideBH_spec K p Hr) as (S1 & S2 & S3).
  set (s := workspace_strideBH K p) in *.
  unfold sizeof_float in *.
  assert (Hs : 0 <= s) by lia.
  assert (Hoff : forall b h, 0 <= b < num_batches p -> 0 <= h < num_heads p ->
            0 <= b * num_heads p + h /\
            b * num_heads p + h + 1 <= num_batches p * num_heads p).
  { intros b h Hb' Hh'. split; nia. }
  assert (Hadv : forall b h,
            0 <= b < num_batches p -> 0 <= h < num_heads p ->
            advance_to_block_workspace K p workspace b h =
            Some {| workspace_gk := workspace + (b * num_heads p + h) * s;
                    workspace_gv := workspace + (b * num_heads p + h) * s
                                    + workspace_elements_gk K p;
                    workspace_gq := workspace + (b * num_heads p + h) * s
                                    + workspace_elements_gk K p
                                    + workspace_elements_gv K p |}).
  { intros b h Hb' Hh'. destruct (Hoff b h Hb' Hh') as [O1 O2].
    unfold advance_to_block_workspace. rewrite kNeedsAccumGradQ_true.
    cbn [orb]. fold s.
    assert (0 <= b * num_heads p) by nia.
    assert ((b * num_heads p + h) * s <= num_batches p * num_heads p * s)
      by nia.
    assert (0 <= (b * num_heads p + h) * s) by nia.
    rewrite (int64_id (b * num_heads p)) by (unfold in_int64; lia).
    rewrite (int64_id (b * num_heads p + h)) by (unfold in_int64; lia).
    rewrite int64_id by (unfold in_int64; lia).
    reflexivity. }
  eexists. split; [apply Hadv; assumption |].
  cbn [workspace_gk workspace_gv workspace_gq].
  destruct (Hoff batch_id head_id Hb Hh) as [O1 O2].
  assert (Hle : (batch_id * num_heads p + head_id + 1) * s
                <= num_batches p * num_heads p * s) by nia.
  assert (Hsize : workspace_size K p = num_batches p * num_heads p * s * 4).
  { unfold workspace_size, sizeof_float. fold s.
    assert (0 <= num_batches p * num_heads p) by nia.
    assert (0 <= num_batches p * num_heads p * s) by nia.
    rewrite (int32_id (num_batches p * num_heads p))
      by (unfold in_int32; lia).
    rewrite (int64_id (num_batches p * num_heads p * s))
      by (unfold in_int64; lia).
    rewrite (uint64_id (num_batches p * num_heads p * s)) by lia.
    rewrite uint64_id by lia.
    apply int64_id. unfold in_int64. lia. }
  assert (Hpos : 0 <= (batch_id * num_heads p + head_id) * s) by nia.
  split; [reflexivity |]. split; [reflexivity |]. split; [reflexivity |].
  split; [lia |]. split; [exact S3 |]. split; [lia |].
  split; [rewrite Hsize; lia |].
  intros b' h' w' Hb' Hh' Hne Hw'.
  {
    rewrite (Hadv b' h' Hb' Hh') in Hw'. injection Hw' as <-.
    cbn [workspace_gk].
    destruct (Hoff b' h' Hb' Hh') as [O1' O2'].
    assert (Hd : b' * num_heads p + h' <> batch_id * num_heads p + head_id).
    { intros E. apply Hne.
      assert (b' = batch_id) by nia. subst b'.
      assert (h' = head_id) by lia. subst h'. reflexivity. }
    destruct (Z.lt_ge_cases (b' * num_heads p + h')
                (batch_id * num_heads p + head_id)); [left | right]; nia. }
Qed.

Lemma AccumTileGmem_kElementsStored_eq K :
  AccumTileGmem_kElementsStored K = kBlockSizeI K * kBlockSizeJ K.
Proof.
  unfold AccumTileGmem_kElementsStored, MatmulGradQ_FragmentC_kElements,
    GmemTile.kElementsStored, kNumThreads, kNumWarpsPerBlock, kWarpSize.
  destruct (tile_shape_cases K)
    as [(_ & -> & -> & _) | [(_ & _ & -> & -> & _) |
        [(_ & _ & -> & -> & _) | (_ & _ & -> & -> & _)]]];
    reflexivity.
Qed.

Lemma workspace_in_range_dims p :
  workspace_in_range p ->
  num_queries p + 128 < 2 ^ 31 /\ num_keys p + 128 < 2 ^ 31 /\
  head_dim p + 128 < 2 ^ 31 /\ head_dim_value p + 128 < 2 ^ 31.
Proof.
  intros (Hq & Hk & Hd & Hdv & Hkd & Hkv & Hqd). repeat split; nia.
Qed.

(** A column of the loop of a matmul and the row of tiles it belongs to:
    the index of the tile is below the number of tiles. *)
Lemma tile_index_bound n b x :
  0 < b -> 0 <= n -> 0 <= x < n -> (b | x) ->
  0 <= Z.quot x b /\ Z.quot x b + 1 <= (n + b - 1) / b /\
  Z.quot x b * b = x.
Proof.
  intros Hb Hn Hx [c ->].
  rewrite Z.quot_mul by lia.
  pose proof (Z.div_mod (n + b - 1) b ltac:(lia)) as Hd.
  pose proof (Z.mod_pos_bound (n + b - 1) b ltac:(lia)) as Hr.
  split; [nia |]. split; [nia | reflexivity].
Qed.

Lemma MatmulGradQ_gmem_tile_in_area K p w c col :
  workspace_in_range p ->
  In c (kernel_calls K p) -> In col (MatmulGradQ_cols K p) ->
  MatmulGradQ_loads K (call_key_start c) ||
  MatmulGradQ_stores K p (call_query_start c) (call_key_start c) = true ->
  let n_cols := (head_dim p + kBlockSizeJ K - 1) / kBlockSizeJ K in
  let storage_id :=
    Z.quot col (kBlockSizeJ K) +
    Z.quot (call_query_start c) (kBlockSizeI K) * n_cols in
  MatmulGradQ_gmem_tile K p w (call_query_start c) col =
    workspace_gq w + storage_id * AccumTileGmem_kElementsStored K /\
  0 <= Z.quot col (kBlockSizeJ K) < n_cols /\
  0 <= Z.quot (call_query_start c) (kBlockSizeI K) /\
  0 <= storage_id /\
  (storage_id + 1) * AccumTileGmem_kElementsStored K
    <= workspace_elements_gq K p.
Proof.
  intros Hr Hin Hcol Hacc n_cols storage_id.
  destruct (workspace_in_range_dims p Hr) as (Q31 & K31 & D31 & V31).
  pose proof Hr as (Hq & Hk & Hd & Hdv & _).
  assert (HJ : 0 < kBlockSizeJ K <= 128)
    by (destruct (kBlockSizeJ_cases K); lia).
  assert (HI : 0 < kBlockSizeI K <= 128)
    by (destruct (kBlockSizeI_cases K); lia).
  apply kernel_calls_In in Hin; try lia.
  destruct Hin as (Hdk & Hks & Hdq & Hqs & _).
  destruct (getQueryStart_bounds K p (call_key_start c) ltac:(lia))
    as [Hb _].
  (* the workspace of dQ is not empty *)
  assert (Hkeys : kBlockSizeJ K < num_keys p).
  { destruct (Z.le_gt_cases (num_keys p) (kBlockSizeJ K)) as [Hle | Hgt];
      [exfalso | lia].
    assert (E0 : call_key_start c = 0).
    { destruct Hdk as [x Hx]. assert (x = 0) by nia. lia. }
    unfold MatmulGradQ_loads, MatmulGradQ_stores, MatmulGradQ_isFirst,
      MatmulGradQ_isLast in Hacc.
    rewrite kNeedsAccumGradQ_true, E0 in Hacc. cbn in Hacc.
    rewrite incrIteration_spec in Hacc by lia.
    destruct (Z.geb_spec (num_queries p + kBlockSizeI K) (num_queries p));
      [| lia].
    cbn [fst snd] in Hacc.
    destruct (Z.geb_spec (0 + kBlockSizeJ K) (num_keys p)); [| lia].
    rewrite orb_true_r in Hacc. discriminate. }
  destruct (workspace_elements_spec K p Hr) as (_ & _ & Egq & _ & _ & Bq).
  rewrite kNeedsAccumGradQ_true in Egq.
  destruct (Z.leb_spec (num_keys p) (kBlockSizeJ K)); [lia |].
  cbn [andb negb] in Egq.
  apply for_range_In in Hcol; [| lia | lia | lia].
  destruct Hcol as [Hcol Hcd]. rewrite Z.sub_0_r in Hcd.
  destruct (tile_index_bound (head_dim p) (kBlockSizeJ K) col
              ltac:(lia) Hd Hcol Hcd) as (X0 & X1 & X2).
  destruct (tile_index_bound (num_queries p) (kBlockSizeI K)
              (call_query_start c) ltac:(lia) Hq ltac:(lia) Hdq)
    as (Y0 & Y1 & Y2).
  fold n_cols in X1, Egq.
  set (x := Z.quot col (kBlockSizeJ K)) in *.
  set (y := Z.quot (call_query_start c) (kBlockSizeI K)) in *.
  set (n_rows := (num_queries p + kBlockSizeI K - 1) / kBlockSizeI K) in *.
  assert (Hsid : 0 <= storage_id /\ storage_id + 1 <= n_cols * n_rows).
  { unfold storage_id. split; [nia |].
    assert (x + 1 + y * n_cols <= n_cols * (y + 1)) by nia.
    assert (n_cols * (y + 1) <= n_cols * n_rows)
      by (apply Z.mul_le_mono_nonneg_l; lia).
    lia. }
  rewrite AccumTileGmem_kElementsStored_eq.
  set (IJ := kBlockSizeI K * kBlockSizeJ K).
  assert (HIJ : 0 < IJ) by (unfold IJ; nia).
  assert (Hend : (storage_id + 1) * IJ <= workspace_elements_gq K p).
  { rewrite Egq.
    replace (n_rows * kBlockSizeI K * (n_cols * kBlockSizeJ K))
      with (n_cols * n_rows * IJ) by (unfold IJ; ring).
    apply Z.mul_le_mono_nonneg_r; lia. }
  assert (Hsid31 : storage_id * IJ < 2 ^ 31) by nia.
  assert (storage_id < 2 ^ 31) by nia.
  split.
  - unfold MatmulGradQ_gmem_tile. cbv zeta.
    rewrite AccumTileGmem_kElementsStored_eq.
    destruct (ceil_div_int32 (head_dim p) (kBlockSizeJ K) Hd ltac:(lia)
                ltac:(lia)) as (-> & _ & _).
    fold n_cols x y IJ.
    assert (0 <= y * n_cols) by nia.
    assert (y * n_cols <= storage_id) by (unfold storage_id; lia).
    rewrite (int64_id (y * n_cols)) by (unfold in_int64; lia).
    fold storage_id.
    rewrite int64_int32_id by (unfold in_int32; lia).
    rewrite int32_id by (unfold in_int32; nia).
    reflexivity.
  - repeat split; lia.
Qed.

Lemma kNeedsAccumGradKV_eq K :
  kNeedsAccumGradK K = negb (kOutputInRF K) /\
  kNeedsAccumGradV K = negb (kOutputInRF K).
Proof.
  unfold kNeedsAccumGradK, kNeedsAccumGradV, output_accum_t, output_t.
  destruct (scalar_t_half K) as [-> | ->]; cbn [is_same negb];
    rewrite andb_true_r; auto.
Qed.

(** The tile of a column block of dV or dK: [hd] is the head dimension
    that the matmul loops on, [area] the element count of its area. *)
Lemma key_gmem_tile_in_area K p c col hd area :
  workspace_in_range p -> 0 <= hd -> hd + 128 < 2 ^ 31 ->
  In c (kernel_calls K p) ->
  In col (for_range 0 hd (kBlockSizeI K)) ->
  area = (num_keys p + kBlockSizeJ K - 1) / kBlockSizeJ K * kBlockSizeJ K *
         ((hd + kBlockSizeI K - 1) / kBlockSizeI K * kBlockSizeI K) ->
  area < 2 ^ 31 ->
  int32 (Z.quot col (kBlockSizeI K) * AccumTileGmem_kElementsStored K) =
    Z.quot col (kBlockSizeI K) * AccumTileGmem_kElementsStored K /\
  0 <= Z.quot col (kBlockSizeI K) /\
  (Z.quot col (kBlockSizeI K) + 1) * AccumTileGmem_kElementsStored K <= area.
Proof.
  intros Hr Hd D31 Hin Hcol Harea Ha31.
  destruct (workspace_in_range_dims p Hr) as (Q31 & K31 & _ & _).
  pose proof Hr as (Hq & Hk & _).
  assert (HJ : 0 < kBlockSizeJ K <= 128)
    by (destruct (kBlockSizeJ_cases K); lia).
  assert (HI : 0 < kBlockSizeI K <= 128)
    by (destruct (kBlockSizeI_cases K); lia).
  apply kernel_calls_In in Hin; try lia.
  destruct Hin as (_ & Hks & _).
  apply for_range_In in Hcol; [| lia | lia | lia].
  destruct Hcol as [Hcol Hcd]. rewrite Z.sub_0_r in Hcd.
  destruct (tile_index_bound hd (kBlockSizeI K) col
              ltac:(lia) Hd Hcol Hcd) as (X0 & X1 & X2).
  set (x := Z.quot col (kBlockSizeI K)) in *.
  set (n_cols := (hd + kBlockSizeI K - 1) / kBlockSizeI K) in *.
  set (n_keys := (num_keys p + kBlockSizeJ K - 1) / kBlockSizeJ K) in *.
  assert (Hnk : 1 <= n_keys).
  { unfold n_keys.
    pose proof (Z.div_mod (num_keys p + kBlockSizeJ K - 1) (kBlockSizeJ K)
                  ltac:(lia)) as Hdm.
    pose proof (Z.mod_pos_bound (num_keys p + kBlockSizeJ K - 1)
                  (kBlockSizeJ K) ltac:(lia)) as Hrm.
    nia. }
  rewrite AccumTileGmem_kElementsStored_eq.
  set (IJ := kBlockSizeI K * kBlockSizeJ K).
  assert (HIJ : 0 < IJ) by (unfold IJ; nia).
  assert (Hend : (x + 1) * IJ <= area).
  { rewrite Harea.
    replace (n_keys * kBlockSizeJ K * (n_cols * kBlockSizeI K))
      with (n_keys * n_cols * IJ) by (unfold IJ; ring).
    apply Z.mul_le_mono_nonneg_r; [lia |].
    assert (1 * n_cols <= n_keys * n_cols)
      by (apply Z.mul_le_mono_nonneg_r; lia).
    lia. }
  split; [apply int32_id; unfold in_int32; nia |].
  split; [lia | exact Hend].
Qed.

Lemma MatmulGradV_gmem_tile_in_area K p w c col :
  workspace_in_range p ->
  In c (kernel_calls K p) -> In col (MatmulGradV_cols K p) ->
  MatmulGradV_loads K p (call_query_start c) (call_key_start c) ||
  MatmulGradV_stores K p (call_query_start c) (call_key_start c) = true ->
  MatmulGradV_gmem_tile K w col =
    workspace_gv w
    + Z.quot col (kBlockSizeI K) * AccumTileGmem_kElementsStored K /\
  0 <= Z.quot col (kBlockSizeI K) /\
  (Z.quot col (kBlockSizeI K) + 1) * AccumTileGmem_kElementsStored K
    <= workspace_elements_gv K p.
Proof.
  intros Hr Hin Hcol Hacc.
  destruct (workspace_in_range_dims p Hr) as (_ & _ & _ & V31).
  pose proof Hr as (_ & _ & _ & Hdv & _).
  assert (HRF : kOutputInRF K = false).
  { unfold MatmulGradV_loads, MatmulGradV_stores in Hacc.
    destruct (kOutputInRF K); [discriminate | reflexivity]. }
  destruct (workspace_elements_spec K p Hr) as (_ & Egv & _ & _ & Bv & _).
  destruct (kNeedsAccumGradKV_eq K) as [_ EV].
  rewrite EV, HRF in Egv. cbn [negb] in Egv.
  unfold MatmulGradV_cols in Hcol. rewrite HRF in Hcol.
  destruct (key_gmem_tile_in_area K p c col (head_dim_value p)
              (workspace_elements_gv K p) Hr Hdv V31 Hin Hcol Egv
              ltac:(lia)) as (E & B0 & B1).
  unfold MatmulGradV_gmem_tile. cbv zeta. rewrite E. auto.
Qed.

Lemma MatmulGradK_gmem_tile_in_area K p w c col :
  workspace_in_range p ->
  In c (kernel_calls K p) -> In col (MatmulGradK_cols K p) ->
  MatmulGradK_loads K p (call_query_start c) (call_key_start c) ||
  MatmulGradK_stores K p (call_query_start c) (call_key_start c) = true ->
  MatmulGradK_gmem_tile K w col =
    workspace_gk w
    + Z.quot col (kBlockSizeI K) * AccumTileGmem_kElementsStored K /\
  0 <= Z.quot col (kBlockSizeI K) /\
  (Z.quot col (kBlockSizeI K) + 1) * AccumTileGmem_kElementsStored K
    <= workspace_elements_gk K p.
Proof.
  intros Hr Hin Hcol Hacc.
  destruct (workspace_in_range_dims p Hr) as (_ & _ & D31 & _).
  pose proof Hr as (_ & _ & Hd & _).
  assert (HRF : kOutputInRF K = false).
  { unfold MatmulGradK_loads, MatmulGradK_stores in Hacc.
    destruct (kOutputInRF K); [discriminate | reflexivity]. }
  destruct (workspace_elements_spec K p Hr) as (Egk & _ & _ & Bk & _ & _).
  destruct (kNeedsAccumGradKV_eq K) as [EK _].
  rewrite EK, HRF in Egk. cbn [negb] in Egk.
  unfold MatmulGradK_cols in Hcol. rewrite HRF in Hcol.
  destruct (key_gmem_tile_in_area K p c col (head_dim p)
              (workspace_elements_gk K p) Hr Hd D31 Hin Hcol Egk
              ltac:(lia)) as (E & B0 & B1).
  unfold MatmulGradK_gmem_tile. cbv zeta. rewrite E. auto.
Qed.

(** X12. Whenever a call of [processBlockIJ] made by [kernel] loads or
    stores an accumulator fragment through a [GmemTile], the
    [kElementsStored] elements of the tile lie inside the area of the
    workspace reserved for that gradient ([workspace_elements_gv], [_gk],
    [_gq]); the tiles that dQ uses for two different (query tile, column
    block) pairs do not overlap.  In particular no tile is touched when
    the area of dQ is empty. *)
Theorem accumulator_tiles_in_workspace K p w c col :
  workspace_in_range p -> In c (kernel_calls K p) ->
  (In col (MatmulGradV_cols K p) ->
   MatmulGradV_loads K p (call_query_start c) (call_key_start c) ||
   MatmulGradV_stores K p (call_query_start c) (call_key_start c) = true ->
   workspace_gv w <= MatmulGradV_gmem_tile K w col /\
   MatmulGradV_gmem_tile K w col + AccumTileGmem_kElementsStored K
     <= workspace_gv w + workspace_elements_gv K p) /\
  (In col (MatmulGradK_cols K p) ->
   MatmulGradK_loads K p (call_query_start c) (call_key_start c) ||
   MatmulGradK_stores K p (call_query_start c) (call_key_start c) = true ->
   workspace_gk w <= MatmulGradK_gmem_tile K w col /\
   MatmulGradK_gmem_tile K w col + AccumTileGmem_kElementsStored K
     <= workspace_gk w + workspace_elements_gk K p) /\
  (In col (MatmulGradQ_cols K p) ->
   MatmulGradQ_loads K (call_key_start c) ||
   MatmulGradQ_stores K p (call_query_start c) (call_key_start c) = true ->
   workspace_gq w <= MatmulGradQ_gmem_tile K p w (call_query_start c) col /\
   MatmulGradQ_gmem_tile K p w (call_query_start c) col
     + AccumTileGmem_kElementsStored K
     <= workspace_gq w + workspace_elements_gq K p /\
   forall c' col',
     In c' (kernel_calls K p) -> In col' (MatmulGradQ_cols K p) ->
     MatmulGradQ_loads K (call_key_start c') ||
     MatmulGradQ_stores K p (call_query_start c') (call_key_start c') = true ->
     (call_query_start c', col') <> (call_query_start c, col) ->
     MatmulGradQ_gmem_tile K p w (call_query_start c') col'
       + AccumTileGmem_kElementsStored K
       <= MatmulGradQ_gmem_tile K p w (call_query_start c) col \/
     MatmulGradQ_gmem_tile K p w (call_query_start c) col
       + AccumTileGmem_kElementsStored K
       <= MatmulGradQ_gmem_tile K p w (call_query_start c') col').
Proof.
  intros Hr Hin.
  assert (HES : 0 < AccumTileGmem_kElementsStored K).
  { rewrite AccumTileGmem_kElementsStored_eq.
    destruct (kBlockSizeI_cases K) as [-> | ->];
      destruct (kBlockSizeJ_cases K) as [-> | ->]; lia. }
  split; [| split].
  - intros Hcol Hacc.
    destruct (MatmulGradV_gmem_tile_in_area K p w c col Hr Hin Hcol Hacc)
      as (-> & B0 & B1). nia.
  - intros Hcol Hacc.
    destruct (MatmulGradK_gmem_tile_in_area K p w c col Hr Hin Hcol Hacc)
      as (-> & B0 & B1). nia.
  - intros Hcol Hacc.
    destruct (MatmulGradQ_gmem_tile_in_area K p w c col Hr Hin Hcol Hacc)
      as (E & Bx & By & B0 & B1).
    rewrite E. split; [nia |]. split; [nia |].
    intros c' col' Hin' Hcol' Hacc' Hne.
    destruct (MatmulGradQ_gmem_tile_in_area K p w c' col' Hr Hin' Hcol' Hacc')
      as (E' & Bx' & By' & B0' & B1').
    rewrite E'.
    set (n_cols := (head_dim p + kBlockSizeJ K - 1) / kBlockSizeJ K) in *.
    set (x := Z.quot col (kBlockSizeJ K)) in *.
    set (y := Z.quot (call_query_start c) (kBlockSizeI K)) in *.
    set (x' := Z.quot col' (kBlockSizeJ K)) in *.
    set (y' := Z.quot (call_query_start c') (kBlockSizeI K)) in *.
    assert (Hd : x' + y' * n_cols <> x + y * n_cols).
    { intros Heq. apply Hne.
      destruct (workspace_in_range_dims p Hr) as (Q31 & K31 & D31 & _).
      pose proof Hr as (Hq & Hk & Hd & _).
      assert (HJ : 0 < kBlockSizeJ K <= 128)
        by (destruct (kBlockSizeJ_cases K); lia).
      assert (HI : 0 < kBlockSizeI K <= 128)
        by (destruct (kBlockSizeI_cases K); lia).
      assert (y' = y) by nia. assert (x' = x) by nia.
      apply kernel_calls_In in Hin, Hin'; try lia.
      destruct Hin as (_ & _ & [u Hu] & _).
      destruct Hin' as (_ & _ & [u' Hu'] & _).
      apply for_range_In in Hcol, Hcol'; try lia.
      destruct Hcol as [_ [v Hv]]. destruct Hcol' as [_ [v' Hv']].
      rewrite Z.sub_0_r in Hv, Hv'.
      unfold x, x', y, y' in *. rewrite Hu, Hu', Hv, Hv' in *.
      rewrite !Z.quot_mul in * by lia. subst. reflexivity. }
    destruct (Z.lt_ge_cases (x' + y' * n_cols) (x + y * n_cols));
      [left | right]; nia.
Qed.

Lemma workspace_example_in_range : workspace_in_range workspace_example_params.
Proof. unfold workspace_in_range. cbn. lia. Qed.

(** The instance of X11 for the block (1, 2) of that problem. *)
Lemma workspace_slabs_disjoint_witness :
  exists w,
    advance_to_block_workspace Sm50_f16_default workspace_example_params
      0 1 2 = Some w /\
    workspace_gq w + workspace_elements_gq Sm50_f16_default
                       workspace_example_params
      <= workspace_gk w + workspace_strideBH Sm50_f16_default
                            workspace_example_params.
Proof.
  assert (Hb : 0 <= 1 < num_batches workspace_example_params)
    by (cbn; lia).
  assert (Hh : 0 <= 2 < num_heads workspace_example_params) by (cbn; lia).
  assert (HBH : num_batches workspace_example_params
                * num_heads workspace_example_params < 2 ^ 31)
    by (cbn; lia).
  assert (Htot : num_batches workspace_example_params
                 * num_heads workspace_example_params
                 * workspace_strideBH Sm50_f16_default
                     workspace_example_params * sizeof_float < 2 ^ 63)
    by (vm_compute; reflexivity).
  destruct (workspace_slabs_disjoint Sm50_f16_default
              workspace_example_params 0 1 2 workspace_example_in_range
              Hb Hh HBH Htot)
    as (w & H1 & _ & _ & _ & H5 & _).
  exists w. split; assumption.
Defined.

(** The instance of X12 for the dQ tile of the call on (64, 64) at the
    column 0, with the three areas at 0, 20480 and 40960. *)
Lemma accumulator_tiles_in_workspace_witness :
  workspace_gq {| workspace_gk := 0; workspace_gv := 20480;
                  workspace_gq := 40960 |}
  <= MatmulGradQ_gmem_tile Sm50_f16_default workspace_example_params
       {| workspace_gk := 0; workspace_gv := 20480; workspace_gq := 40960 |}
       64 0.
Proof.
  refine (proj1 (proj2 (proj2
    (accumulator_tiles_in_workspace Sm50_f16_default workspace_example_params
       {| workspace_gk := 0; workspace_gv := 20480; workspace_gq := 40960 |}
       (Build_BlockCall true 64 64) 0 workspace_example_in_range _)) _ _)).
  - vm_compute. tauto.
  - vm_compute. tauto.
  - vm_compute. reflexivity.
Defined.

(** ** The dropout mask: footprint and position *)

(** X13. The generation of the dropout mask writes the shared tile [zij]
    only at the keys of the tile and at the queries of the extent of the
    block: the groups of four elements that a thread writes may pass the
    last key of a partial block, but never the [kBlockSizeJ] rows of the
    tile, and no row of a query outside the block is touched. *)
Theorem generate_zij_stays_in_tile K stream skipBoundsChecks p
  query_start key_start st zij_before m n :
  1 <= num_queries_in_block K skipBoundsChecks p query_start
    <= kBlockSizeI K ->
  1 <= num_keys_in_block K skipBoundsChecks p key_start <= kBlockSizeJ K ->
  m < 0 \/ kBlockSizeJ K <= m \/ n < 0 \/
  num_queries_in_block K skipBoundsChecks p query_start <= n ->
  generate_zij K stream skipBoundsChecks p query_start key_start
    st zij_before m n = zij_before m n.
Proof.
  intros Hq Hk Hout.
  set (nq := num_queries_in_block K skipBoundsChecks p query_start) in *.
  set (nk := num_keys_in_block K skipBoundsChecks p key_start) in *.
  destruct (zij_geometry K nq nk Hq Hk) as (Htpr & Hrow & Hept & Hdiv & Hcov).
  set (tpr := zij_threads_per_row K nq nk) in *.
  set (ept := zij_elts_per_thread K nq nk) in *.
  unfold generate_zij. destruct (kApplyDropout K); [| reflexivity].
  rewrite (fold_store_obs Z Tile (fun z => z m n)
             (zij_thread K stream skipBoundsChecks p query_start key_start st)
             (fun _ => false) 0%R).
  - destruct (existsb (fun _ => false) (thread_ids K)) eqn:Ex;
      [| reflexivity].
    apply existsb_exists in Ex. destruct Ex as (x & _ & Hx). discriminate.
  - discriminate.
  - intros zij t Hin _. apply thread_ids_In in Hin.
    rewrite zij_thread_spec by assumption. cbv zeta.
    fold nq nk tpr ept.
    match goal with
    | |- (if ?b then _ else _) = _ => destruct b eqn:Hw; [| reflexivity]
    end.
    exfalso.
    repeat (apply andb_prop in Hw; destruct Hw as [Hw ?]).
    apply Z.ltb_lt in Hw.
    match goal with H : (n =? _) = true |- _ => apply Z.eqb_eq in H end.
    match goal with H : (_ <=? m) = true |- _ => apply Z.leb_le in H end.
    match goal with H : (m <? _) = true |- _ => apply Z.ltb_lt in H end.
    match goal with H : (_ <? nk) = true |- _ => apply Z.ltb_lt in H end.
    assert (Hrem : 0 <= Z.rem t tpr < tpr).
    { rewrite Z.rem_mod_nonneg by lia. apply Z.mod_pos_bound. lia. }
    assert (Hquot : 0 <= Z.quot t tpr) by (apply Z.quot_pos; lia).
    destruct Hdiv as [e4 He4].
    set (tsj := Z.rem t tpr * ept) in *.
    assert (Htsj : tsj = 4 * (Z.rem t tpr * e4)) by (unfold tsj; lia).
    assert (0 <= tsj) by (unfold tsj; nia).
    assert (Hlim : tsj + 4 * ((Z.min (tsj + ept) nk - tsj + 3) / 4)
                   <= kBlockSizeJ K).
    { destruct (kBlockSizeJ_cases K) as [EJ | EJ]; rewrite EJ in *;
        Z.to_euclidean_division_equations; lia. }
    lia.
Qed.

Lemma radix_inj a a' r r' n :
  0 <= r < n -> 0 <= r' < n -> a * n + r = a' * n + r' -> a = a' /\ r = r'.
Proof. intros Hr Hr' E. assert (a = a') by nia. subst. lia. Qed.

Lemma reference_stream_position_inj p b h q k b' h' q' k' :
  0 <= h < num_heads p -> 0 <= q < num_queries p -> 0 <= k < num_keys p ->
  0 <= h' < num_heads p -> 0 <= q' < num_queries p -> 0 <= k' < num_keys p ->
  reference_stream_position p b h q k =
  reference_stream_position p b' h' q' k' ->
  b = b' /\ h = h' /\ q = q' /\ k = k'.
Proof.
  intros Hh Hq Hk Hh' Hq' Hk' E. unfold reference_stream_position in E.
  destruct (radix_inj ((b * num_heads p + h) * num_queries p + q)
              ((b' * num_heads p + h') * num_queries p + q') k k'
              (num_keys p) Hk Hk' ltac:(lia)) as [E1 ->].
  destruct (radix_inj (b * num_heads p + h) (b' * num_heads p + h') q q'
              (num_queries p) Hq Hq' E1) as [E2 ->].
  destruct (radix_inj b b' h h' (num_heads p) Hh Hh' E2) as [-> ->].
  auto.
Qed.

(** X14. When the offsets fit 32 bits, the mask entry of an element
    (batch, head, query, key) is the draw found at the position
    [rng_offset + reference_stream_position] of the stream, whatever the
    tile sizes of the kernel, the block that contains the element and the
    thread that generates it: two kernels, or two blocks, regenerate the
    same entry for the same element; and no other element of the
    attention matrix has that position. *)
Theorem dropout_mask_independent_of_tiling
  K1 K2 stream p batch_id head_id skip1 skip2
  query_start1 key_start1 query_start2 key_start2 zij1 zij2 m1 n1 m2 n2 :
  kApplyDropout K1 = true -> kApplyDropout K2 = true ->
  mask_cell_in_problem K1 skip1 p query_start1 key_start1 m1 n1 ->
  mask_cell_in_problem K2 skip2 p query_start2 key_start2 m2 n2 ->
  0 <= batch_id -> 0 <= head_id < num_heads p ->
  num_heads p * num_queries p * num_keys p < 2 ^ 31 ->
  0 <= rng_offset p ->
  rng_offset p +
    batch_id * (num_heads p * num_queries p * num_keys p) +
    head_id * (num_queries p * num_keys p) < 2 ^ 63 ->
  (query_start1 + n1 = query_start2 + n2 ->
   key_start1 + m1 = key_start2 + m2 ->
   generate_zij K1 stream skip1 (advance_to_block p batch_id head_id)
     query_start1 key_start1
     (rng_state_init (advance_to_block p batch_id head_id)) zij1 m1 n1 =
   generate_zij K2 stream skip2 (advance_to_block p batch_id head_id)
     query_start2 key_start2
     (rng_state_init (advance_to_block p batch_id head_id)) zij2 m2 n2) /\
  generate_zij K1 stream skip1 (advance_to_block p batch_id head_id)
    query_start1 key_start1
    (rng_state_init (advance_to_block p batch_id head_id)) zij1 m1 n1 =
  mask_of_draw stream p (rng_state_init p)
    (rng_offset p +
     reference_stream_position p batch_id head_id
       (query_start1 + n1) (key_start1 + m1)) /\
  forall batch_id' head_id' query_row' key_column',
    0 <= head_id' < num_heads p ->
    0 <= query_row' < num_queries p -> 0 <= key_column' < num_keys p ->
    reference_stream_position p batch_id' head_id' query_row' key_column' =
    reference_stream_position p batch_id head_id
      (query_start1 + n1) (key_start1 + m1) ->
    batch_id' = batch_id /\ head_id' = head_id /\
    query_row' = query_start1 + n1 /\ key_column' = key_start1 + m1.
Proof.
  intros D1 D2 (Q1 & J1 & M1 & N1 & S1 & T1 & U1 & V1)
    (Q2 & J2 & M2 & N2 & S2 & T2 & U2 & V2) Hb Hh Hprod Hoff Htot.
  assert (R1 := generate_zij_reference_position K1 stream skip1 p
                  batch_id head_id query_start1 key_start1 zij1 m1 n1
                  D1 Q1 J1 M1 N1 S1 T1 ltac:(lia) U1 V1 Hb Hh Hprod Hoff
                  Htot).
  assert (R2 := generate_zij_reference_position K2 stream skip2 p
                  batch_id head_id query_start2 key_start2 zij2 m2 n2
                  D2 Q2 J2 M2 N2 S2 T2 ltac:(lia) U2 V2 Hb Hh Hprod Hoff
                  Htot).
  split; [| split].
  - intros Eq Ek. rewrite R1, R2, Eq, Ek. reflexivity.
  - rewrite R1. reflexivity.
  - intros b' h' q' k' Hh' Hq' Hk' E.
    apply (reference_stream_position_inj p b' h' q' k'); try assumption; lia.
Qed.

(** The instance of X13 for the row 64 of the mask of a block of 4 queries
    and 4 keys. *)
Lemma generate_zij_stays_in_tile_witness :
  generate_zij Sm80_f16_k64_dropout (fun _ _ _ => 1%R) false
    (make_params 1 1 4 4 8 8 false 1 0) 0 0
    (rng_state_init (make_params 1 1 4 4 8 8 false 1 0)) clear 64 0 =
  clear 64 0.
Proof.
  refine (generate_zij_stays_in_tile Sm80_f16_k64_dropout (fun _ _ _ => 1%R)
            false (make_params 1 1 4 4 8 8 false 1 0) 0 0
            (rng_state_init (make_params 1 1 4 4 8 8 false 1 0)) clear
            64 0 _ _ _).
  - split; discriminate.
  - split; discriminate.
  - right. left. discriminate.
Defined.

(** The instance of X14 for the element (70, 133) of the block (1, 2),
    generated in the tile that starts at (64, 128). *)
Lemma dropout_mask_independent_of_tiling_witness :
  generate_zij Sm80_f16_k64_dropout (fun _ _ _ => 1%R) true
    (advance_to_block dropout_example_params 1 2) 64 128
    (rng_state_init (advance_to_block dropout_example_params 1 2)) clear
    5 6 =
  mask_of_draw (fun _ _ _ => 1%R) dropout_example_params
    (rng_state_init dropout_example_params)
    (rng_offset dropout_example_params +
     reference_stream_position dropout_example_params 1 2 (64 + 6) (128 + 5)).
Proof.
  refine (proj1 (proj2
    (dropout_mask_independent_of_tiling
       Sm80_f16_k64_dropout Sm80_f16_k64_dropout (fun _ _ _ => 1%R)
       dropout_example_params 1 2 true true 64 128 64 128 clear clear
       5 6 5 6 _ _ _ _ _ _ _ _ _))).
  - reflexivity.
  - reflexivity.
  - unfold mask_cell_in_problem. vm_compute. intuition discriminate.
  - unfold mask_cell_in_problem. vm_compute. intuition discriminate.
  - lia.
  - cbn. lia.
  - cbn. lia.
  - cbn. lia.
  - cbn. lia.
Defined.

(** ** [computeDelta]: footprint and head dimensions beyond the bound *)

Lemma kKernelComputesDelta_true K : kKernelComputesDelta K = true.
Proof.
  unfold kKernelComputesDelta. rewrite kIsHalf_true. cbn [andb].
  destruct (tile_shape_cases K)
    as [(_ & _ & _ & ->) | [(_ & H & _ & _ & ->) |
        [(_ & _ & _ & _ & ->) | (_ & _ & _ & _ & ->)]]];
    try reflexivity.
  destruct (Z.eqb_spec (ArchTag_ K) 70); [lia | reflexivity].
Qed.

Lemma computeDelta_thread_outside K E p T query_start buf t r :
  0 <= query_start -> query_start + kBlockSizeI K <= 2 ^ 31 ->
  0 <= t < kNumThreads K ->
  r < 0 \/ num_queries p <= r ->
  computeDelta_thread K E p T query_start buf t r = buf r.
Proof.
  intros Hq Hq' Ht Hr.
  assert (HT : 0 < kNumThreadsPerLine K)
    by (destruct (kNumThreadsPerLine_cases K); lia).
  assert (Hrow : 0 <= Z.quot t (kNumThreadsPerLine K) < kBlockSizeI K).
  { rewrite kNumThreads_PerLine in Ht.
    rewrite Z.quot_div_nonneg by lia. split.
    - apply Z.div_pos; lia.
    - apply Z.div_lt_upper_bound; lia. }
  unfold computeDelta_thread.
  rewrite int32_id by (unfold in_int32; lia).
  destruct (Z.ltb_spec (query_start + Z.quot t (kNumThreadsPerLine K))
              (num_queries p)); [| reflexivity].
  destruct (Z.eqb_spec r (query_start + Z.quot t (kNumThreadsPerLine K)));
    [lia | reflexivity].
Qed.

Lemma computeDelta_outside K E p T query_start buf r :
  0 <= query_start -> query_start + kBlockSizeI K <= 2 ^ 31 ->
  r < 0 \/ num_queries p <= r ->
  computeDelta K E p T query_start buf r = buf r.
Proof.
  intros Hq Hq' Hr. unfold computeDelta.
  rewrite (fold_store_value Z (computeDelta_thread K E p T query_start)
             (fun _ => false) r 0%R).
  - destruct (existsb (fun _ => false) (thread_ids K)) eqn:Ex;
      [| reflexivity].
    apply existsb_exists in Ex. destruct Ex as (x & _ & Hx). discriminate.
  - discriminate.
  - intros buf' t Hin _. apply thread_ids_In in Hin.
    apply computeDelta_thread_outside; assumption.
Qed.

(** X15. The first phase of [kernel] writes [p.delta_ptr] only at the
    queries of the problem: the threads whose row is past [num_queries] do
    not store ([rowPred]), so that the row deltas of the next block, which
    follow in the same buffer, are not overwritten. *)
Theorem kernel_computeDelta_footprint K p T delta_buf r :
  num_queries p + kBlockSizeI K <= 2 ^ 31 ->
  r < 0 \/ num_queries p <= r ->
  kernel_computeDelta K p T delta_buf r = delta_buf r.
Proof.
  intros Hn Hr.
  assert (HI : 0 < kBlockSizeI K) by (destruct (kBlockSizeI_cases K); lia).
  assert (Hfold : forall E,
            fold_left (fun d query_start =>
                         computeDelta K E p T query_start d)
              (for_range 0 (num_queries p) (kBlockSizeI K)) delta_buf r
            = delta_buf r).
  { intros E.
    rewrite (fold_store_value Z
               (fun d query_start => computeDelta K E p T query_start d)
               (fun _ => false) r 0%R).
    - destruct (existsb (fun _ => false) _) eqn:Ex; [| reflexivity].
      apply existsb_exists in Ex. destruct Ex as (x & _ & Hx). discriminate.
    - discriminate.
    - intros buf' q Hin _.
      apply for_range_In in Hin; [| lia | lia | lia].
      apply computeDelta_outside; lia. }
  unfold kernel_computeDelta.
  destruct (kKernelComputesDelta K); [| reflexivity].
  destruct (Z.rem (head_dim_value p) _ =? 0); apply Hfold.
Qed.

Lemma shfl_reduce_ext K fuel : forall i v v',
  (forall lane_id, v lane_id = v' lane_id) ->
  forall lane_id,
    shfl_reduce K fuel i v lane_id = shfl_reduce K fuel i v' lane_id.
Proof.
  induction fuel as [| fuel IH]; intros i v v' Hv lane_id; cbn [shfl_reduce].
  - apply Hv.
  - destruct (i <? kNumThreadsPerLine K); [| apply Hv].
    apply IH. intros l. rewrite !Hv. reflexivity.
Qed.

(** A thread of [computeDelta] never looks at a column from [kMaxK] on:
    the value head dimension only matters up to [kMaxK]. *)
Lemma computeDelta_partial_trunc K E p T query_start warp_id lane_id :
  0 < E < 2 ^ 31 -> 0 <= kMaxK K ->
  computeDelta_partial K E p T query_start warp_id lane_id =
  computeDelta_partial K E
    (set_head_dim_value p (Z.min (head_dim_value p) (kMaxK K)))
    T query_start warp_id lane_id.
Proof.
  intros HE HK.
  assert (HT : 0 < kNumThreadsPerLine K)
    by (destruct (kNumThreadsPerLine_cases K); lia).
  rewrite !computeDelta_partial_spec by assumption. cbv zeta.
  apply sum_upto_ext. intros it Hit.
  unfold stage_pred. cbn [head_dim_value num_queries set_head_dim_value].
  set (lfc := E * Z.rem lane_id (kNumThreadsPerLine K)).
  assert (Hrem : Z.rem lane_id (kNumThreadsPerLine K)
                 <= kNumThreadsPerLine K - 1).
  { destruct (kNumThreadsPerLine_cases K) as [-> | ->];
      Z.to_euclidean_division_equations; lia. }
  assert (Hlfc : lfc <= E * (kNumThreadsPerLine K - 1))
    by (unfold lfc; apply Z.mul_le_mono_nonneg_l; lia).
  assert (Hq : kMaxIters K E * (E * kNumThreadsPerLine K) <= kMaxK K).
  { unfold kMaxIters.
    pose proof (quot_mul_bounds (kMaxK K) (E * kNumThreadsPerLine K) HK
                  ltac:(nia)). lia. }
  assert (Hcol : lfc + it * E * kNumThreadsPerLine K < kMaxK K) by nia.
  destruct (Z.ltb_spec (lfc + it * E * kNumThreadsPerLine K)
              (head_dim_value p)),
    (Z.ltb_spec (lfc + it * E * kNumThreadsPerLine K)
       (Z.min (head_dim_value p) (kMaxK K))); try lia; reflexivity.
Qed.

Lemma fold_left_pointwise (A : Type) (f g : (Z -> R) -> A -> Z -> R)
  (l : list A) :
  (forall b b' a, (forall x, b x = b' x) -> forall x, f b a x = g b' a x) ->
  forall b b', (forall x, b x = b' x) ->
  forall x, fold_left f l b x = fold_left g l b' x.
Proof.
  intros Hfg. induction l as [| a l IH]; intros b b' Hb x; cbn [fold_left].
  - apply Hb.
  - apply IH. intros y. apply Hfg. exact Hb.
Qed.

Lemma computeDelta_trunc K E p T query_start buf r :
  0 < E < 2 ^ 31 -> 0 <= kMaxK K ->
  computeDelta K E p T query_start buf r =
  computeDelta K E
    (set_head_dim_value p (Z.min (head_dim_value p) (kMaxK K)))
    T query_start buf r.
Proof.
  intros HE HK. unfold computeDelta.
  apply fold_left_pointwise; [| reflexivity].
  intros b b' t Hb x. unfold computeDelta_thread.
  cbn [num_queries set_head_dim_value].
  destruct (int32 (query_start + Z.quot t (kNumThreadsPerLine K))
            <? num_queries p); [| apply Hb].
  destruct (x =? _); [| apply Hb].
  unfold computeDelta_value. apply shfl_reduce_ext. intros lane.
  apply computeDelta_partial_trunc; assumption.
Qed.


(** The instance of X15 for the entry 4 of the buffer, with 4 queries. *)
Lemma kernel_computeDelta_footprint_witness :
  kernel_computeDelta Sm80_f16_k64 (make_params 1 1 4 4 8 8 false 1 0)
    (constant_tensors 1 1 1 0 8 2 3 0) (fun _ => 7%R) 4 = 7%R.
Proof.
  refine (kernel_computeDelta_footprint Sm80_f16_k64
            (make_params 1 1 4 4 8 8 false 1 0)
            (constant_tensors 1 1 1 0 8 2 3 0) (fun _ => 7%R) 4 _ _).
  - vm_compute. discriminate.
  - right. vm_compute. discriminate.
Defined.


(** ** The accumulation of the gradients *)

Lemma kNumThreads_cases K :
  kNumThreads K = 128 \/ kNumThreads K = 256 \/ kNumThreads K = 512.
Proof.
  rewrite kNumThreads_eq.
  destruct (kBlockSizeI_cases K) as [-> | ->];
    destruct (kBlockSizeJ_cases K) as [-> | ->]; cbn; lia.
Qed.

Lemma FragmentC_kElements_eq K : MatmulGradQ_FragmentC_kElements K = 32.
Proof.
  unfold MatmulGradQ_FragmentC_kElements. rewrite kNumThreads_eq.
  destruct (kBlockSizeI_cases K) as [-> | ->];
    destruct (kBlockSizeJ_cases K) as [-> | ->]; reflexivity.
Qed.

Lemma kElementsStored_threads K :
  AccumTileGmem_kElementsStored K = 32 * kNumThreads K.
Proof.
  rewrite AccumTileGmem_kElementsStored_eq, kNumThreads_eq.
  destruct (kBlockSizeI_cases K) as [-> | ->];
    destruct (kBlockSizeJ_cases K) as [-> | ->]; reflexivity.
Qed.

Lemma tile_of_fragments_of_tile NT E kM kN L X m n :
  layout_covers NT E kM kN L -> 0 <= m < kM -> 0 <= n < kN ->
  tile_of_fragments L (fragments_of_tile L X) m n = X m n.
Proof.
  intros HL Hm Hn. destruct (HL m n Hm Hn) as (_ & _ & Hc).
  unfold tile_of_fragments, fragments_of_tile. rewrite Hc. reflexivity.
Qed.

Lemma AccumTileGmem_offset_bounds K t e :
  0 <= t < kNumThreads K -> 0 <= e < 32 ->
  0 <= AccumTileGmem_offset K t e < AccumTileGmem_kElementsStored K.
Proof.
  intros Ht He. rewrite kElementsStored_threads.
  unfold AccumTileGmem_offset.
  assert (0 <= e / 4 < 8) by (Z.to_euclidean_division_equations; lia).
  assert (0 <= e mod 4 < 4) by (Z.to_euclidean_division_equations; lia).
  nia.
Qed.

Lemma gmem_tile_load_at K mem ptr frags t e :
  0 <= e < 32 ->
  gmem_tile_load K mem ptr frags t e = mem (ptr + AccumTileGmem_offset K t e).
Proof.
  intros He. unfold gmem_tile_load. rewrite FragmentC_kElements_eq.
  pose proof (kNumThreads_cases K) as HNT.
  rewrite GmemTile_load_spec by lia.
  change (4 * (32 / 4)) with 32.
  destruct (Z.leb_spec 0 e); [| lia]. destruct (Z.ltb_spec e 32); [| lia].
  cbn [andb]. unfold AccumTileGmem_offset. f_equal. ring.
Qed.

Lemma gmem_tile_store_at K mem ptr frags t e :
  0 <= t < kNumThreads K -> 0 <= e < 32 ->
  gmem_tile_store K mem ptr frags (ptr + AccumTileGmem_offset K t e) =
  frags t e.
Proof.
  intros Ht He. unfold gmem_tile_store. rewrite FragmentC_kElements_eq.
  pose proof (kNumThreads_cases K) as HNT.
  rewrite GmemTile_store_block_spec by lia.
  replace (ptr + AccumTileGmem_offset K t e - ptr)
    with (AccumTileGmem_offset K t e) by ring.
  pose proof (AccumTileGmem_offset_bounds K t e Ht He) as Hb.
  rewrite kElementsStored_threads in Hb.
  change (32 / 4) with 8.
  unfold AccumTileGmem_offset in *.
  assert (H4 : 0 <= e / 4 < 8) by (Z.to_euclidean_division_equations; lia).
  assert (Hm : 0 <= e mod 4 < 4) by (Z.to_euclidean_division_equations; lia).
  destruct (tile_address_decomp (kNumThreads K) (e / 4) t (e mod 4)
              ltac:(lia) ltac:(lia) Ht Hm) as (D1 & D2 & D3).
  rewrite D1, D2, D3.
  replace (4 * (e / 4) + e mod 4) with e
    by (Z.to_euclidean_division_equations; lia).
  destruct (Z.leb_spec 0 (t * 4 + e / 4 * (4 * kNumThreads K) + e mod 4));
    [| lia].
  destruct (Z.ltb_spec (t * 4 + e / 4 * (4 * kNumThreads K) + e mod 4)
              (8 * (4 * kNumThreads K))); [reflexivity | lia].
Qed.

Lemma gmem_tile_store_outside K mem ptr frags a :
  a < ptr \/ ptr + AccumTileGmem_kElementsStored K <= a ->
  gmem_tile_store K mem ptr frags a = mem a.
Proof.
  intros Ha. unfold gmem_tile_store. rewrite FragmentC_kElements_eq.
  pose proof (kNumThreads_cases K) as HNT.
  rewrite GmemTile_store_block_spec by lia.
  rewrite kElementsStored_threads in Ha. change (32 / 4) with 8.
  destruct (Z.leb_spec 0 (a - ptr)); [| reflexivity].
  destruct (Z.ltb_spec (a - ptr) (8 * (4 * kNumThreads K)));
    [| reflexivity].
  lia.
Qed.

Lemma fold_left_inv (A S : Type) (P : S -> Prop) (step : S -> A -> S)
  (l : list A) :
  (forall s a, In a l -> P s -> P (step s a)) ->
  forall s, P s -> P (fold_left step l s).
Proof.
  induction l as [| a l IH]; intros Hstep s Hs; [exact Hs |].
  cbn [fold_left]. apply IH.
  - intros s' a' Hin. apply Hstep. right. exact Hin.
  - apply Hstep; [left; reflexivity | exact Hs].
Qed.

Lemma accumulateInGmem_in kM kN accum dest row0 col0 rows cols first m n :
  0 <= m < Z.min rows kM -> 0 <= n < Z.min cols kN ->
  accumulateInGmem kM kN accum dest row0 col0 rows cols first
    (row0 + m) (col0 + n) =
  if first then accum m n else (accum m n + dest (row0 + m)%Z (col0 + n)%Z)%R.
Proof.
  intros Hm Hn. unfold accumulateInGmem. cbv zeta.
  replace (row0 + m - row0) with m by ring.
  replace (col0 + n - col0) with n by ring.
  destruct (Z.leb_spec 0 m); [| lia].
  destruct (Z.ltb_spec m (Z.min rows kM)); [| lia].
  destruct (Z.leb_spec 0 n); [| lia].
  destruct (Z.ltb_spec n (Z.min cols kN)); [| lia].
  reflexivity.
Qed.

Lemma accumulateInGmem_out kM kN accum dest row0 col0 rows cols first i j :
  i < row0 \/ row0 + Z.min rows kM <= i \/
  j < col0 \/ col0 + Z.min cols kN <= j ->
  accumulateInGmem kM kN accum dest row0 col0 rows cols first i j = dest i j.
Proof.
  intros H. unfold accumulateInGmem. cbv zeta.
  destruct (Z.leb_spec 0 (i - row0)); [| reflexivity].
  destruct (Z.ltb_spec (i - row0) (Z.min rows kM)); [| reflexivity].
  destruct (Z.leb_spec 0 (j - col0)); [| reflexivity].
  destruct (Z.ltb_spec (j - col0) (Z.min cols kN)); [| reflexivity].
  lia.
Qed.

(** *** One turn of a loop on [col] *)

Section AccumColumn.

Variable K : KernelConfig.
Variable L : FragmentLayout.
Variable kM kN : Z.
Hypothesis HL :
  layout_covers (kNumThreads K) (MatmulGradQ_FragmentC_kElements K) kM kN L.

Lemma accumulator_address_bounds ptr m n :
  0 <= m < kM -> 0 <= n < kN ->
  ptr <= accumulator_address K L ptr m n
      < ptr + AccumTileGmem_kElementsStored K.
Proof.
  intros Hm Hn. destruct (HL m n Hm Hn) as (Ht & He & _).
  rewrite FragmentC_kElements_eq in He.
  pose proof (AccumTileGmem_offset_bounds K _ _ Ht He).
  unfold accumulator_address. lia.
Qed.

Lemma gmem_tile_load_cell mem ptr frags m n :
  0 <= m < kM -> 0 <= n < kN ->
  tile_of_fragments L (gmem_tile_load K mem ptr frags) m n =
  mem (accumulator_address K L ptr m n).
Proof.
  intros Hm Hn. destruct (HL m n Hm Hn) as (Ht & He & _).
  rewrite FragmentC_kElements_eq in He.
  unfold tile_of_fragments. rewrite gmem_tile_load_at by exact He.
  reflexivity.
Qed.

Lemma gmem_tile_store_cell mem ptr frags m n :
  0 <= m < kM -> 0 <= n < kN ->
  gmem_tile_store K mem ptr frags (accumulator_address K L ptr m n) =
  tile_of_fragments L frags m n.
Proof.
  intros Hm Hn. destruct (HL m n Hm Hn) as (Ht & He & _).
  rewrite FragmentC_kElements_eq in He.
  unfold accumulator_address. rewrite gmem_tile_store_at by assumption.
  reflexivity.
Qed.

Variable matmul : Tile -> Tile.
Hypothesis Hadd :
  forall X m n, matmul X m n = (X m n + matmul clear m n)%R.

Lemma mma_fragments_cell frags m n :
  0 <= m < kM -> 0 <= n < kN ->
  tile_of_fragments L (mma_fragments L matmul frags) m n =
  (tile_of_fragments L frags m n + matmul clear m n)%R.
Proof.
  intros Hm Hn. unfold mma_fragments.
  rewrite (tile_of_fragments_of_tile _ _ _ _ _ _ _ _ HL Hm Hn).
  apply Hadd.
Qed.

(** In the workspace mode, the turn on the tile at [ptr] adds the product
    to the accumulator it finds in the tile, or to 0 on the first call,
    and leaves the sum in the tile, or in the destination on the last
    call. *)
Lemma accum_column_cell is_first is_last ptr row0 col0 rows cols
  frags mem dest m n :
  0 <= m < Z.min rows kM -> 0 <= n < Z.min cols kN ->
  let st' :=
    accum_column K L kM kN false is_first true is_last matmul
      ptr row0 col0 rows cols (frags, mem, dest) in
  let v :=
    ((if is_first then 0 else mem (accumulator_address K L ptr m n))
     + matmul clear m n)%R in
  if is_last then snd st' (row0 + m) (col0 + n) = v
  else snd (fst st') (accumulator_address K L ptr m n) = v.
Proof.
  intros Hm Hn st' v. unfold st', accum_column.
  cbn [negb fst snd andb]. rewrite orb_true_r.
  assert (Hm' : 0 <= m < kM) by lia. assert (Hn' : 0 <= n < kN) by lia.
  assert (Hv : tile_of_fragments L
                 (mma_fragments L matmul
                    (if is_first || negb true then clear_fragments
                     else gmem_tile_load K mem ptr frags)) m n = v).
  { rewrite mma_fragments_cell by assumption. unfold v.
    destruct is_first; cbn [orb negb].
    - reflexivity.
    - rewrite gmem_tile_load_cell by assumption. reflexivity. }
  destruct is_last; cbn [negb fst snd].
  - rewrite accumulateInGmem_in by assumption. exact Hv.
  - rewrite gmem_tile_store_cell by assumption. exact Hv.
Qed.

(** A turn writes the workspace in its tile only, and only when it is not
    the last call. *)
Lemma accum_column_workspace in_rf is_first needs is_last ptr row0 col0
  rows cols st a :
  (in_rf = false -> needs = true -> is_last = false ->
   a < ptr \/ ptr + AccumTileGmem_kElementsStored K <= a) ->
  snd (fst (accum_column K L kM kN in_rf is_first needs is_last matmul
              ptr row0 col0 rows cols st)) a = snd (fst st) a.
Proof.
  intros Ha. unfold accum_column.
  destruct in_rf; cbn [negb]; [reflexivity |].
  destruct needs; cbn [andb]; [| reflexivity].
  destruct is_last; cbn [negb]; [reflexivity |]. cbn [fst snd].
  apply gmem_tile_store_outside. apply Ha; reflexivity.
Qed.

(** A turn writes the destination in the extent of its iterator only, and
    only on the last call. *)
Lemma accum_column_dest in_rf is_first needs is_last ptr row0 col0
  rows cols st i j :
  (in_rf = false -> needs && negb is_last = false ->
   i < row0 \/ row0 + Z.min rows kM <= i \/
   j < col0 \/ col0 + Z.min cols kN <= j) ->
  snd (accum_column K L kM kN in_rf is_first needs is_last matmul
         ptr row0 col0 rows cols st) i j = snd st i j.
Proof.
  intros Ha. unfold accum_column.
  destruct in_rf; cbn [negb]; [reflexivity |].
  destruct (needs && negb is_last) eqn:E; [reflexivity |]. cbn [snd].
  apply accumulateInGmem_out. apply Ha; reflexivity.
Qed.

(** When the accumulators stay in the registers, a turn adds the product
    to the fragments and writes nothing. *)
Lemma accum_column_registers is_first needs is_last ptr row0 col0
  rows cols st :
  accum_column K L kM kN true is_first needs is_last matmul
    ptr row0 col0 rows cols st =
  (mma_fragments L matmul (fst (fst st)), snd (fst st), snd st).
Proof. reflexivity. Qed.

End AccumColumn.

(** *** The three loops on [col], as turns of that shape *)

Lemma GradV_column_accum K L skip p w T qs ks attn zij s col :
  let s' := GradV_column K L skip p w T qs ks attn zij s col in
  (output_frags_gradV s', gmem_workspace s', gmem_grad_value s') =
  accum_column K (layout_gradV L) (kBlockSizeJ K) (kBlockSizeI K)
    (kOutputInRF K) (isFirstQuery p qs ks) (kNeedsAccumGradV K)
    (isLastQuery K p qs ks) (MatmulGradV K skip p T qs attn zij col)
    (MatmulGradV_gmem_tile K w col) ks col
    (num_keys_in_block K skip p ks) (head_dim_value p - col)
    (output_frags_gradV s, gmem_workspace s, gmem_grad_value s).
Proof.
  unfold GradV_column, accum_column. cbv zeta. cbn [fst snd].
  destruct (kOutputInRF K); cbn [negb]; [reflexivity |].
  destruct (kNeedsAccumGradV K && negb (isLastQuery K p qs ks));
    reflexivity.
Qed.

Lemma GradV_column_others K L skip p w T qs ks attn zij s col :
  let s' := GradV_column K L skip p w T qs ks attn zij s col in
  smem_di s' = smem_di s /\ smem_zij s' = smem_zij s /\
  output_frags_gradK s' = output_frags_gradK s /\
  gmem_grad_key s' = gmem_grad_key s /\
  gmem_grad_query s' = gmem_grad_query s /\
  gmem_grad_bias s' = gmem_grad_bias s.
Proof.
  unfold GradV_column. cbv zeta.
  destruct (kOutputInRF K); cbn [negb];
    [| destruct (kNeedsAccumGradV K && negb (isLastQuery K p qs ks))];
    repeat split; reflexivity.
Qed.

Lemma GradK_column_accum K L skip p w T qs ks attn zij di s col :
  let s' := GradK_column K L skip p w T qs ks attn zij di s col in
  (output_frags_gradK s', gmem_workspace s', gmem_grad_key s') =
  accum_column K (layout_gradK L) (kBlockSizeJ K) (kBlockSizeI K)
    (kOutputInRF K) (isFirstQuery p qs ks) (kNeedsAccumGradK K)
    (isLastQuery K p qs ks) (MatmulGradK K skip p T qs ks attn zij di col)
    (MatmulGradK_gmem_tile K w col) ks col
    (num_keys_in_block K skip p ks) (head_dim p - col)
    (output_frags_gradK s, gmem_workspace s, gmem_grad_key s).
Proof.
  unfold GradK_column, accum_column. cbv zeta. cbn [fst snd].
  destruct (kOutputInRF K); cbn [negb]; [reflexivity |].
  destruct (kNeedsAccumGradK K && negb (isLastQuery K p qs ks));
    reflexivity.
Qed.

Lemma GradK_column_others K L skip p w T qs ks attn zij di s col :
  let s' := GradK_column K L skip p w T qs ks attn zij di s col in
  smem_di s' = smem_di s /\ smem_zij s' = smem_zij s /\
  output_frags_gradV s' = output_frags_gradV s /\
  gmem_grad_value s' = gmem_grad_value s /\
  gmem_grad_query s' = gmem_grad_query s /\
  gmem_grad_bias s' = gmem_grad_bias s.
Proof.
  unfold GradK_column. cbv zeta.
  destruct (kOutputInRF K); cbn [negb];
    [| destruct (kNeedsAccumGradK K && negb (isLastQuery K p qs ks))];
    repeat split; reflexivity.
Qed.

Lemma GradQ_column_accum K L skip p w T qs ks attn zij di s col :
  let s' := GradQ_column K L skip p w T qs ks attn zij di s col in
  let st' :=
    accum_column K (layout_gradQ L) (kBlockSizeI K) (kBlockSizeJ K)
      false (MatmulGradQ_isFirst ks) (kNeedsAccumGradQ K)
      (MatmulGradQ_isLast K p qs ks)
      (MatmulGradQ K skip p T qs ks attn zij di col)
      (MatmulGradQ_gmem_tile K p w qs col) qs col
      (num_queries_in_block K skip p qs) (head_dim p - col)
      (clear_fragments, gmem_workspace s, gmem_grad_query s) in
  gmem_workspace s' = snd (fst st') /\ gmem_grad_query s' = snd st'.
Proof.
  unfold GradQ_column, accum_column. cbv zeta. cbn [fst snd negb].
  destruct (kNeedsAccumGradQ K && negb (MatmulGradQ_isLast K p qs ks));
    split; reflexivity.
Qed.

Lemma GradQ_column_others K L skip p w T qs ks attn zij di s col :
  let s' := GradQ_column K L skip p w T qs ks attn zij di s col in
  smem_di s' = smem_di s /\ smem_zij s' = smem_zij s /\
  output_frags_gradV s' = output_frags_gradV s /\
  output_frags_gradK s' = output_frags_gradK s /\
  gmem_grad_value s' = gmem_grad_value s /\
  gmem_grad_key s' = gmem_grad_key s /\
  gmem_grad_bias s' = gmem_grad_bias s.
Proof.
  unfold GradQ_column. cbv zeta.
  destruct (kNeedsAccumGradQ K && negb (MatmulGradQ_isLast K p qs ks));
    repeat split; reflexivity.
Qed.

(** The matmuls add their product to the accumulators. *)
Lemma MatmulGradV_adds K skip p T qs attn zij col X m n :
  MatmulGradV K skip p T qs attn zij col X m n =
  (X m n + MatmulGradV K skip p T qs attn zij col clear m n)%R.
Proof. unfold MatmulGradV, mma, clear. ring. Qed.

Lemma MatmulGradK_adds K skip p T qs ks attn zij di col X m n :
  MatmulGradK K skip p T qs ks attn zij di col X m n =
  (X m n + MatmulGradK K skip p T qs ks attn zij di col clear m n)%R.
Proof. unfold MatmulGradK, mma, clear. ring. Qed.

Lemma MatmulGradQ_adds K skip p T qs ks attn zij di col X m n :
  MatmulGradQ K skip p T qs ks attn zij di col X m n =
  (X m n + MatmulGradQ K skip p T qs ks attn zij di col clear m n)%R.
Proof. unfold MatmulGradQ, mma, clear. ring. Qed.

(** In a loop whose turns are all different, the turn [a0] reads [obs_in]
    and writes [obs_out], and the other turns touch neither. *)
Lemma fold_single_writer (A S : Type) (step : S -> A -> S)
  (obs_in obs_out : S -> R) (f : R -> R) (a0 : A) (l : list A) :
  NoDup l -> In a0 l ->
  (forall s, obs_out (step s a0) = f (obs_in s)) ->
  (forall s a, In a l -> a <> a0 ->
     obs_in (step s a) = obs_in s /\ obs_out (step s a) = obs_out s) ->
  forall s, obs_out (fold_left step l s) = f (obs_in s).
Proof.
  intros Hnd Hin Hw Hf s.
  destruct (in_split _ _ Hin) as (l1 & l2 & ->).
  apply NoDup_remove_2 in Hnd.
  rewrite fold_left_app. cbn [fold_left].
  assert (H2 : forall s', obs_out (fold_left step l2 s') = obs_out s').
  { intros s'.
    apply (fold_left_inv A S (fun t => obs_out t = obs_out s'));
      [| reflexivity].
    intros t a Ha Ht. rewrite <- Ht. apply Hf.
    - apply in_or_app. right. right. exact Ha.
    - intros ->. apply Hnd. apply in_or_app. right. exact Ha. }
  rewrite H2, Hw. f_equal.
  apply (fold_left_inv A S (fun t => obs_in t = obs_in s)); [| reflexivity].
  intros t a Ha Ht. rewrite <- Ht. apply Hf.
  - apply in_or_app. left. exact Ha.
  - intros ->. apply Hnd. apply in_or_app. left. exact Ha.
Qed.

(** *** An accumulator that a sequence of steps builds up

    Among the steps [l] some are relevant to an accumulator: the first of
    them starts from 0, the others from the value [cell] that the one
    before left, and the last leaves the sum in [out]. *)
Section FlaggedAccumulation.

Variables A S : Type.
Variable step : S -> A -> S.
Variables rel first last : A -> bool.
Variable C : A -> R.
Variables cell out : S -> R.
Variable l : list A.

Hypothesis Heff : forall s a, In a l -> rel a = true ->
  if last a
  then out (step s a) = ((if first a then 0 else cell s) + C a)%R
  else cell (step s a) = ((if first a then 0 else cell s) + C a)%R.
Hypothesis Hout : forall s a, In a l -> rel a = false ->
  out (step s a) = out s.
Hypothesis Hfirst : forall l1 a l2, l = l1 ++ a :: l2 -> rel a = true ->
  first a = negb (existsb rel l1).
Hypothesis Hlast : forall l1 a l2, l = l1 ++ a :: l2 -> rel a = true ->
  last a = negb (existsb rel l2).
Hypothesis Hcell : forall l1 a l2 s, l = l1 ++ a :: l2 -> rel a = false ->
  existsb rel l1 = true -> existsb rel l2 = true ->
  cell (step s a) = cell s.

Lemma filter_none (l0 : list A) : existsb rel l0 = false -> filter rel l0 = [].
Proof.
  induction l0 as [| a l0 IH]; [reflexivity |]. cbn [existsb filter].
  intros H. apply orb_false_iff in H. destruct H as [Ha H].
  rewrite Ha. apply IH, H.
Qed.

Lemma flagged_accumulation_prefix s0 : forall l1 l2, l = l1 ++ l2 ->
  existsb rel l1 = true ->
  if existsb rel l2
  then cell (fold_left step l1 s0) =
       fold_left (fun acc a => (acc + C a)%R) (filter rel l1) 0%R
  else out (fold_left step l1 s0) =
       fold_left (fun acc a => (acc + C a)%R) (filter rel l1) 0%R.
Proof.
  induction l1 as [| a l1 IH] using rev_ind; intros l2 Hl Hex;
    [discriminate |].
  rewrite <- app_assoc in Hl. cbn [app] in Hl.
  specialize (IH (a :: l2) Hl).
  assert (Hin : In a l).
  { rewrite Hl. apply in_or_app. right. left. reflexivity. }
  rewrite fold_left_app. cbn [fold_left].
  rewrite filter_app, existsb_app in *. cbn [filter existsb] in *.
  destruct (rel a) eqn:Ra.
  - rewrite fold_left_app. cbn [fold_left orb] in *.
    pose proof (Heff (fold_left step l1 s0) a Hin Ra) as He.
    rewrite (Hfirst _ _ _ Hl Ra), (Hlast _ _ _ Hl Ra) in He.
    assert (Hv : (if negb (existsb rel l1) then 0%R
                  else cell (fold_left step l1 s0)) =
                 fold_left (fun acc a => (acc + C a)%R) (filter rel l1) 0%R).
    { destruct (existsb rel l1) eqn:E1; cbn [negb].
      - apply IH. reflexivity.
      - rewrite filter_none by exact E1. reflexivity. }
    rewrite Hv in He.
    destruct (existsb rel l2); cbn [negb] in He; exact He.
  - rewrite app_nil_r. rewrite !orb_false_r in *. cbn [orb] in IH.
    specialize (IH Hex).
    destruct (existsb rel l2) eqn:E2.
    + rewrite (Hcell _ _ _ _ Hl Ra Hex E2). exact IH.
    + rewrite (Hout _ _ Hin Ra). exact IH.
Qed.

Lemma flagged_accumulation s0 :
  existsb rel l = true ->
  out (fold_left step l s0) =
  fold_left (fun acc a => (acc + C a)%R) (filter rel l) 0%R.
Proof.
  intros Hex.
  pose proof (flagged_accumulation_prefix s0 l [] (eq_sym (app_nil_r l)) Hex)
    as H.
  exact H.
Qed.

End FlaggedAccumulation.

(** *** The steps of [kernel] *)

Lemma step_calls_app l1 l2 :
  step_calls (l1 ++ l2) = step_calls l1 ++ step_calls l2.
Proof. unfold step_calls. apply flat_map_app. Qed.

Lemma step_calls_map l : step_calls (map call_processBlockIJ l) = l.
Proof.
  induction l as [| c l IH]; [reflexivity |].
  cbn [map]. unfold step_calls in *. cbn [flat_map app]. rewrite IH.
  reflexivity.
Qed.

Lemma step_calls_key_steps K skip ks calls :
  step_calls (kernel_key_steps K skip ks calls) = calls.
Proof.
  unfold kernel_key_steps.
  change (output_frags_clear :: ?l) with ([output_frags_clear] ++ l).
  rewrite !step_calls_app, step_calls_map.
  destruct (kOutputInRF K); cbn; rewrite app_nil_r; reflexivity.
Qed.

Lemma step_calls_flat_map (f : Z -> list KernelStep) l :
  step_calls (flat_map f l) = flat_map (fun x => step_calls (f x)) l.
Proof.
  induction l as [| x l IH]; [reflexivity |].
  cbn [flat_map]. rewrite step_calls_app, IH. reflexivity.
Qed.

Lemma kernel_steps_all_tiles K p :
  0 <= num_queries p -> num_queries p + 128 <= 2 ^ 31 ->
  0 <= num_keys p -> num_keys p + 128 <= 2 ^ 31 ->
  kernel_steps K p = all_tile_steps K p.
Proof.
  intros Hq Hq' Hk Hk'.
  assert (HJ : 0 < kBlockSizeJ K <= 128)
    by (destruct (kBlockSizeJ_cases K); lia).
  pose proof (quot_mul_bounds (num_keys p) (kBlockSizeJ K) Hk ltac:(lia))
    as Bk.
  unfold kernel_steps, all_tile_steps.
  rewrite int64_int32_id by (unfold in_int32; lia).
  rewrite (for_range_split 0 (num_keys p)) by lia.
  rewrite Z.sub_0_r, Z.add_0_l.
  set (ke := Z.quot (num_keys p) (kBlockSizeJ K) * kBlockSizeJ K) in *.
  rewrite flat_map_app. f_equal.
  - apply flat_map_ext_In. intros ks Hks.
    apply for_range_In in Hks; [| lia | lia | lia].
    destruct Hks as [Hks [d Hd]].
    assert (d + 1 <= Z.quot (num_keys p) (kBlockSizeJ K))
      by (unfold ke in *; nia).
    assert (Hfull : ks + kBlockSizeJ K <= num_keys p)
      by (unfold ke in *; nia).
    rewrite kernel_key_iteration_tiles by lia.
    destruct (Z.leb_spec (ks + kBlockSizeJ K) (num_keys p)); [| lia].
    reflexivity.
  - rewrite for_range_exit_exact; try lia.
    2:{ exists (Z.quot (num_keys p) (kBlockSizeJ K)). unfold ke. lia. }
    destruct (Z.ltb_spec ke (num_keys p)).
    + cbn [flat_map]. rewrite app_nil_r.
      destruct (Z.eqb_spec ke (num_keys p)); [lia |]. cbn [negb].
      rewrite kernel_last_key_tiles by lia.
      destruct (Z.leb_spec (ke + kBlockSizeJ K) (num_keys p));
        [| reflexivity].
      unfold ke in *. lia.
    + destruct (Z.eqb_spec ke (num_keys p)); [reflexivity | lia].
Qed.

Lemma step_calls_kernel_steps K p :
  step_calls (kernel_steps K p) = kernel_calls K p.
Proof.
  unfold kernel_steps, kernel_calls. cbv zeta.
  rewrite step_calls_app, step_calls_flat_map. f_equal.
  - apply flat_map_ext_In. intros ks _. apply step_calls_key_steps.
  - destruct (negb (_ =? num_keys p)) eqn:E.
    + apply step_calls_key_steps.
    + unfold kernel_last_key. rewrite E. reflexivity.
Qed.

Lemma existsb_is_call f l :
  existsb (is_call f) l = existsb f (step_calls l).
Proof.
  induction l as [| e l IH]; [reflexivity |].
  unfold step_calls in *. cbn [existsb flat_map].
  rewrite existsb_app, <- IH.
  destruct e; cbn [is_call existsb]; rewrite ?orb_false_r; reflexivity.
Qed.

Lemma filter_is_call f l :
  step_calls (filter (is_call f) l) = filter f (step_calls l).
Proof.
  induction l as [| e l IH]; [reflexivity |].
  unfold step_calls in *. cbn [filter flat_map].
  rewrite filter_app, <- IH.
  destruct e; cbn [is_call]; try reflexivity.
  cbn [filter]. destruct (f c); reflexivity.
Qed.

Lemma sum_is_call (C : BlockCall -> R) f l : forall v,
  fold_left
    (fun acc e =>
       (acc + match e with call_processBlockIJ c => C c | _ => 0 end)%R)
    (filter (is_call f) l) v =
  fold_left (fun acc c => (acc + C c)%R) (filter f (step_calls l)) v.
Proof.
  induction l as [| e l IH]; intros v; [reflexivity |].
  unfold step_calls in *. cbn [filter flat_map]. rewrite filter_app.
  rewrite fold_left_app, <- IH.
  destruct e; cbn [is_call]; try reflexivity.
  cbn [filter]. destruct (f c); reflexivity.
Qed.

(** The flags of [processBlockIJ], for the tiles of the scheduler. *)
Lemma isFirstQuery_spec K p c :
  num_queries p + 128 <= 2 ^ 31 -> num_keys p + 128 <= 2 ^ 31 ->
  scheduled_tile K p c ->
  isFirstQuery p (call_query_start c) (call_key_start c) =
  (call_query_start c =? getQueryStart K p (call_key_start c)).
Proof.
  intros Hq Hk (Hdk & Hks & [a Ha] & Hqs & _).
  assert (HI : 0 < kBlockSizeI K) by (destruct (kBlockSizeI_cases K); lia).
  destruct (getQueryStart_bounds K p (call_key_start c) ltac:(lia))
    as [Hb Hd].
  unfold isFirstQuery.
  destruct (causal p) eqn:Hc; cbn [andb].
  - rewrite (getQueryStart_causal K p _ Hc) in * by lia.
    rewrite Z.quot_div_nonneg in * by lia.
    pose proof (Z.div_mod (call_key_start c) (kBlockSizeI K) ltac:(lia))
      as Hdm.
    pose proof (Z.mod_pos_bound (call_key_start c) (kBlockSizeI K)
                  ltac:(lia)) as Hmb.
    set (g := call_key_start c / kBlockSizeI K) in *.
    set (r := call_key_start c mod kBlockSizeI K) in *.
    destruct (Z.eqb_spec (call_query_start c) (g * kBlockSizeI K)) as [E | N].
    + apply orb_true_iff. right. apply Z.leb_le. lia.
    + apply orb_false_iff. split.
      * apply Z.eqb_neq. lia.
      * apply Z.leb_gt.
        assert (a <> g) by (intros ->; lia).
        assert (g < a) by nia. nia.
  - rewrite orb_false_r.
    unfold getQueryStart. rewrite Hc. reflexivity.
Qed.

Lemma isLastQuery_spec K p c :
  0 <= num_queries p -> num_queries p + 128 <= 2 ^ 31 ->
  num_keys p + 128 <= 2 ^ 31 ->
  scheduled_tile K p c ->
  isLastQuery K p (call_query_start c) (call_key_start c) =
  (call_query_start c + kBlockSizeI K >=? num_queries p).
Proof.
  intros Hq0 Hq Hk (Hdk & Hks & [a Ha] & Hqs & _).
  assert (HI : 0 < kBlockSizeI K <= 128)
    by (destruct (kBlockSizeI_cases K); lia).
  assert (HJ : 0 < kBlockSizeJ K <= 128)
    by (destruct (kBlockSizeJ_cases K); lia).
  destruct (getQueryStart_bounds K p (call_key_start c) ltac:(lia))
    as [Hb Hd].
  unfold isLastQuery. cbv zeta.
  rewrite incrIteration_spec by lia.
  destruct (call_query_start c + kBlockSizeI K >=? num_queries p);
    cbn [snd].
  - apply negb_true_iff. apply Z.eqb_neq. lia.
  - apply negb_false_iff. apply Z.eqb_refl.
Qed.

Lemma MatmulGradQ_isLast_spec K p qs ks :
  0 <= num_queries p -> num_queries p + 128 < 2 ^ 31 ->
  0 <= ks -> ks + 128 < 2 ^ 31 ->
  MatmulGradQ_isLast K p qs ks =
  (causal p && (getQueryStart K p (ks + kBlockSizeJ K) >? qs)) ||
  (ks + kBlockSizeJ K >=? num_keys p).
Proof.
  intros Hq0 Hq Hk0 Hk.
  assert (HI : 0 < kBlockSizeI K <= 128)
    by (destruct (kBlockSizeI_cases K); lia).
  assert (HJ : 0 < kBlockSizeJ K <= 128)
    by (destruct (kBlockSizeJ_cases K); lia).
  unfold MatmulGradQ_isLast. cbv zeta.
  rewrite incrIteration_spec by lia.
  destruct (Z.geb_spec (num_queries p + kBlockSizeI K) (num_queries p));
    [| lia].
  reflexivity.
Qed.

(** Where a call stands among the steps of [kernel]: the calls before it
    and after it are the tiles of the scheduler before and after its
    tile. *)
Lemma kernel_steps_split K p l1 c l2 :
  0 <= num_queries p -> num_queries p + 128 <= 2 ^ 31 ->
  0 <= num_keys p -> num_keys p + 128 <= 2 ^ 31 ->
  kernel_steps K p = l1 ++ call_processBlockIJ c :: l2 ->
  scheduled_tile K p c /\
  (forall c', In c' (step_calls l1) <-> scheduled_tile K p c' /\ call_lt c' c)
  /\
  (forall c', In c' (step_calls l2) <-> scheduled_tile K p c' /\ call_lt c c').
Proof.
  intros Hq Hq' Hk Hk' Hl.
  pose proof (step_calls_kernel_steps K p) as Hc.
  rewrite Hl, step_calls_app in Hc.
  change (call_processBlockIJ c :: l2)
    with ([call_processBlockIJ c] ++ l2) in Hc.
  rewrite step_calls_app in Hc.
  change (step_calls [call_processBlockIJ c]) with [c] in Hc.
  cbn [app] in Hc.
  pose proof (all_tile_calls_sorted K p Hq Hq' Hk Hk') as Hs.
  rewrite <- kernel_calls_all_tiles, <- Hc in Hs by assumption.
  assert (Hin : forall c', scheduled_tile K p c' <->
                  In c' (step_calls l1 ++ c :: step_calls l2)).
  { intros c'. rewrite Hc. symmetry. apply kernel_calls_In; assumption. }
  apply StronglySorted_app_inv in Hs. destruct Hs as (_ & Hs2 & H12).
  apply StronglySorted_inv in Hs2. destruct Hs2 as [_ Hc2].
  rewrite Forall_forall in Hc2.
  assert (Hsc : scheduled_tile K p c).
  { apply Hin. apply in_or_app. right. left. reflexivity. }
  split; [exact Hsc |]. split.
  - intros c'. split.
    + intros H1. split.
      * apply Hin. apply in_or_app. left. exact H1.
      * apply H12; [exact H1 | left; reflexivity].
    + intros [H1 Hlt]. apply Hin in H1. apply in_app_or in H1.
      destruct H1 as [H1 | [<- | H1]]; [exact H1 | |].
      * unfold call_lt in Hlt. lia.
      * specialize (Hc2 _ H1). unfold call_lt in *. lia.
  - intros c'. split.
    + intros H1. split.
      * apply Hin. apply in_or_app. right. right. exact H1.
      * apply Hc2, H1.
    + intros [H1 Hlt]. apply Hin in H1. apply in_app_or in H1.
      destruct H1 as [H1 | [<- | H1]]; [| | exact H1].
      * specialize (H12 c' c H1 ltac:(left; reflexivity)).
        unfold call_lt in *. lia.
      * unfold call_lt in Hlt. lia.
Qed.

(** *** The loops of a call and the workspace *)

Section KernelRun.

Variable K : KernelConfig.
Variable L : MmaLayouts.
Variable stream : Z -> Z -> Z -> R.
Variable p : Params.
Variable w : WorkspacePtrs.
Variable T : Tensors.

Hypothesis HL : layouts_cover K L.
Hypothesis Hr : workspace_in_range p.
Hypothesis Hgv : workspace_gv w = workspace_gk w + workspace_elements_gk K p.
Hypothesis Hgq : workspace_gq w = workspace_gv w + workspace_elements_gv K p.

Lemma tile_sizes :
  0 < kBlockSizeI K <= 128 /\ 0 < kBlockSizeJ K <= 128 /\
  0 < AccumTileGmem_kElementsStored K.
Proof.
  rewrite AccumTileGmem_kElementsStored_eq.
  destruct (kBlockSizeI_cases K) as [-> | ->];
    destruct (kBlockSizeJ_cases K) as [-> | ->]; lia.
Qed.

Lemma cols_In hd b col :
  0 <= hd -> hd + 128 < 2 ^ 31 -> 0 < b <= 128 ->
  In col (for_range 0 hd b) <-> 0 <= col < hd /\ (b | col).
Proof.
  intros H0 H1 Hb. rewrite for_range_In by lia. rewrite Z.sub_0_r.
  reflexivity.
Qed.

Lemma cols_NoDup hd b :
  0 <= hd -> hd + 128 < 2 ^ 31 -> 0 < b <= 128 ->
  NoDup (for_range 0 hd b).
Proof.
  intros H0 H1 Hb.
  apply (StronglySorted_NoDup Z Z.lt); [intros a; lia |].
  apply for_range_sorted; lia.
Qed.

(** The GradV loop writes the workspace in the area of dV only. *)
Lemma GradV_loop_workspace c attn zij s a :
  In c (kernel_calls K p) ->
  a < workspace_gv w \/ workspace_gv w + workspace_elements_gv K p <= a ->
  gmem_workspace
    (fold_left
       (GradV_column K L (call_skipBoundsChecks c) p w T
          (call_query_start c) (call_key_start c) attn zij)
       (MatmulGradV_cols K p) s) a = gmem_workspace s a.
Proof.
  intros Hc Ha. destruct tile_sizes as (HI & HJ & HES).
  apply (fold_left_inv Z KernelState
           (fun t => gmem_workspace t a = gmem_workspace s a));
    [| reflexivity].
  intros t col Hcol Ht. rewrite <- Ht.
  pose proof (GradV_column_accum K L (call_skipBoundsChecks c) p w T
                (call_query_start c) (call_key_start c) attn zij t col)
    as Hacc.
  cbv zeta in Hacc. apply (f_equal (fun x => snd (fst x))) in Hacc.
  cbn [fst snd] in Hacc. rewrite Hacc.
  rewrite accum_column_workspace; [reflexivity |].
  intros HRF Hn Hlast.
  destruct (MatmulGradV_gmem_tile_in_area K p w c col Hr Hc Hcol)
    as (-> & B0 & B1).
  { unfold MatmulGradV_stores. rewrite HRF, Hn, Hlast.
    apply orb_true_r. }
  nia.
Qed.

(** The GradK loop writes the workspace in the area of dK only. *)
Lemma GradK_loop_workspace c attn zij di s a :
  In c (kernel_calls K p) ->
  a < workspace_gk w \/ workspace_gk w + workspace_elements_gk K p <= a ->
  gmem_workspace
    (fold_left
       (GradK_column K L (call_skipBoundsChecks c) p w T
          (call_query_start c) (call_key_start c) attn zij di)
       (MatmulGradK_cols K p) s) a = gmem_workspace s a.
Proof.
  intros Hc Ha. destruct tile_sizes as (HI & HJ & HES).
  apply (fold_left_inv Z KernelState
           (fun t => gmem_workspace t a = gmem_workspace s a));
    [| reflexivity].
  intros t col Hcol Ht. rewrite <- Ht.
  pose proof (GradK_column_accum K L (call_skipBoundsChecks c) p w T
                (call_query_start c) (call_key_start c) attn zij di t col)
    as Hacc.
  cbv zeta in Hacc. apply (f_equal (fun x => snd (fst x))) in Hacc.
  cbn [fst snd] in Hacc. rewrite Hacc.
  rewrite accum_column_workspace; [reflexivity |].
  intros HRF Hn Hlast.
  destruct (MatmulGradK_gmem_tile_in_area K p w c col Hr Hc Hcol)
    as (-> & B0 & B1).
  { unfold MatmulGradK_stores. rewrite HRF, Hn, Hlast.
    apply orb_true_r. }
  nia.
Qed.

(** The GradQ loop writes the workspace in the area of dQ only. *)
Lemma GradQ_loop_workspace c attn zij di s a :
  In c (kernel_calls K p) ->
  a < workspace_gq w \/ workspace_gq w + workspace_elements_gq K p <= a ->
  gmem_workspace
    (fold_left
       (GradQ_column K L (call_skipBoundsChecks c) p w T
          (call_query_start c) (call_key_start c) attn zij di)
       (MatmulGradQ_cols K p) s) a = gmem_workspace s a.
Proof.
  intros Hc Ha. destruct tile_sizes as (HI & HJ & HES).
  apply (fold_left_inv Z KernelState
           (fun t => gmem_workspace t a = gmem_workspace s a));
    [| reflexivity].
  intros t col Hcol Ht. rewrite <- Ht.
  destruct (GradQ_column_accum K L (call_skipBoundsChecks c) p w T
              (call_query_start c) (call_key_start c) attn zij di t col)
    as [Hacc _].
  rewrite Hacc.
  rewrite accum_column_workspace; [reflexivity |].
  intros _ Hn Hlast.
  destruct (MatmulGradQ_gmem_tile_in_area K p w c col Hr Hc Hcol)
    as (-> & B0 & B1 & B2 & B3).
  { unfold MatmulGradQ_stores. rewrite Hn, Hlast. apply orb_true_r. }
  nia.
Qed.

(** The loops write their destination in the rows of the tile only. *)
Lemma GradV_loop_rows skip qs ks attn zij s i j :
  i < ks \/ ks + Z.min (num_keys_in_block K skip p ks) (kBlockSizeJ K) <= i \/
  head_dim_value p <= j ->
  gmem_grad_value
    (fold_left (GradV_column K L skip p w T qs ks attn zij)
       (MatmulGradV_cols K p) s) i j = gmem_grad_value s i j.
Proof.
  intros Hi.
  apply (fold_left_inv Z KernelState
           (fun t => gmem_grad_value t i j = gmem_grad_value s i j));
    [| reflexivity].
  intros t col Hcol Ht. rewrite <- Ht.
  pose proof (GradV_column_accum K L skip p w T qs ks attn zij t col)
    as Hacc.
  cbv zeta in Hacc. apply (f_equal snd) in Hacc.
  cbn [fst snd] in Hacc. rewrite Hacc.
  rewrite accum_column_dest; [reflexivity |]. intros _ _. lia.
Qed.

Lemma GradK_loop_rows skip qs ks attn zij di s i j :
  i < ks \/ ks + Z.min (num_keys_in_block K skip p ks) (kBlockSizeJ K) <= i \/
  head_dim p <= j ->
  gmem_grad_key
    (fold_left (GradK_column K L skip p w T qs ks attn zij di)
       (MatmulGradK_cols K p) s) i j = gmem_grad_key s i j.
Proof.
  intros Hi.
  apply (fold_left_inv Z KernelState
           (fun t => gmem_grad_key t i j = gmem_grad_key s i j));
    [| reflexivity].
  intros t col Hcol Ht. rewrite <- Ht.
  pose proof (GradK_column_accum K L skip p w T qs ks attn zij di t col)
    as Hacc.
  cbv zeta in Hacc. apply (f_equal snd) in Hacc.
  cbn [fst snd] in Hacc. rewrite Hacc.
  rewrite accum_column_dest; [reflexivity |]. intros _ _. lia.
Qed.

Lemma GradQ_loop_rows skip qs ks attn zij di s i j :
  i < qs \/
  qs + Z.min (num_queries_in_block K skip p qs) (kBlockSizeI K) <= i \/
  head_dim p <= j ->
  gmem_grad_query
    (fold_left (GradQ_column K L skip p w T qs ks attn zij di)
       (MatmulGradQ_cols K p) s) i j = gmem_grad_query s i j.
Proof.
  intros Hi.
  apply (fold_left_inv Z KernelState
           (fun t => gmem_grad_query t i j = gmem_grad_query s i j));
    [| reflexivity].
  intros t col Hcol Ht. rewrite <- Ht.
  destruct (GradQ_column_accum K L skip p w T qs ks attn zij di t col)
    as [_ Hacc].
  rewrite Hacc.
  rewrite accum_column_dest; [reflexivity |]. intros _ _. lia.
Qed.

(** What the loops leave as it is. *)
Lemma GradV_loop_others skip qs ks attn zij s :
  let s' :=
    fold_left (GradV_column K L skip p w T qs ks attn zij)
      (MatmulGradV_cols K p) s in
  smem_di s' = smem_di s /\ smem_zij s' = smem_zij s /\
  output_frags_gradK s' = output_frags_gradK s /\
  gmem_grad_key s' = gmem_grad_key s /\
  gmem_grad_query s' = gmem_grad_query s /\
  gmem_grad_bias s' = gmem_grad_bias s.
Proof.
  cbv zeta.
  apply (fold_left_inv Z KernelState
           (fun t =>
              smem_di t = smem_di s /\ smem_zij t = smem_zij s /\
              output_frags_gradK t = output_frags_gradK s /\
              gmem_grad_key t = gmem_grad_key s /\
              gmem_grad_query t = gmem_grad_query s /\
              gmem_grad_bias t = gmem_grad_bias s));
    [| repeat split; reflexivity].
  intros t col _ (H1 & H2 & H3 & H4 & H5 & H6).
  destruct (GradV_column_others K L skip p w T qs ks attn zij t col)
    as (E1 & E2 & E3 & E4 & E5 & E6).
  rewrite E1, E2, E3, E4, E5, E6. repeat split; assumption.
Qed.

Lemma GradK_loop_others skip qs ks attn zij di s :
  let s' :=
    fold_left (GradK_column K L skip p w T qs ks attn zij di)
      (MatmulGradK_cols K p) s in
  smem_di s' = smem_di s /\ smem_zij s' = smem_zij s /\
  output_frags_gradV s' = output_frags_gradV s /\
  gmem_grad_value s' = gmem_grad_value s /\
  gmem_grad_query s' = gmem_grad_query s /\
  gmem_grad_bias s' = gmem_grad_bias s.
Proof.
  cbv zeta.
  apply (fold_left_inv Z KernelState
           (fun t =>
              smem_di t = smem_di s /\ smem_zij t = smem_zij s /\
              output_frags_gradV t = output_frags_gradV s /\
              gmem_grad_value t = gmem_grad_value s /\
              gmem_grad_query t = gmem_grad_query s /\
              gmem_grad_bias t = gmem_grad_bias s));
    [| repeat split; reflexivity].
  intros t col _ (H1 & H2 & H3 & H4 & H5 & H6).
  destruct (GradK_column_others K L skip p w T qs ks attn zij di t col)
    as (E1 & E2 & E3 & E4 & E5 & E6).
  rewrite E1, E2, E3, E4, E5, E6. repeat split; assumption.
Qed.

Lemma GradQ_loop_others skip qs ks attn zij di s :
  let s' :=
    fold_left (GradQ_column K L skip p w T qs ks attn zij di)
      (MatmulGradQ_cols K p) s in
  smem_di s' = smem_di s /\ smem_zij s' = smem_zij s /\
  output_frags_gradV s' = output_frags_gradV s /\
  output_frags_gradK s' = output_frags_gradK s /\
  gmem_grad_value s' = gmem_grad_value s /\
  gmem_grad_key s' = gmem_grad_key s /\
  gmem_grad_bias s' = gmem_grad_bias s.
Proof.
  cbv zeta.
  apply (fold_left_inv Z KernelState
           (fun t =>
              smem_di t = smem_di s /\ smem_zij t = smem_zij s /\
              output_frags_gradV t = output_frags_gradV s /\
              output_frags_gradK t = output_frags_gradK s /\
              gmem_grad_value t = gmem_grad_value s /\
              gmem_grad_key t = gmem_grad_key s /\
              gmem_grad_bias t = gmem_grad_bias s));
    [| repeat split; reflexivity].
  intros t col _ (H1 & H2 & H3 & H4 & H5 & H6 & H7).
  destruct (GradQ_column_others K L skip p w T qs ks attn zij di t col)
    as (E1 & E2 & E3 & E4 & E5 & E6 & E7).
  rewrite E1, E2, E3, E4, E5, E6, E7. repeat split; assumption.
Qed.

Lemma workspace_mode : kOutputInRF K = false ->
  kNeedsAccumGradV K = true /\ kNeedsAccumGradK K = true.
Proof.
  intros HRF. destruct (kNeedsAccumGradKV_eq K) as [-> ->].
  rewrite HRF. split; reflexivity.
Qed.

Lemma dims_in_range :
  0 <= num_queries p /\ 0 <= num_keys p /\
  0 <= head_dim p /\ 0 <= head_dim_value p /\
  num_queries p + 128 < 2 ^ 31 /\ num_keys p + 128 < 2 ^ 31 /\
  head_dim p + 128 < 2 ^ 31 /\ head_dim_value p + 128 < 2 ^ 31.
Proof.
  destruct (workspace_in_range_dims p Hr) as (A & B & C & D).
  destruct Hr as (E & F & G & H & _). repeat split; assumption.
Qed.

(** In the workspace mode, the GradV loop of a call adds the product of
    the call to the accumulator [(m, n)] of the column block [col0], which
    it finds in the tile of the workspace unless the call is the first of
    the key tile, and leaves the sum in the tile, or, on the last call of
    the key tile, in [grad_value]. *)
Lemma GradV_loop_cell c attn zij s col0 m n :
  kOutputInRF K = false -> In c (kernel_calls K p) ->
  In col0 (MatmulGradV_cols K p) ->
  0 <= m < Z.min (num_keys_in_block K (call_skipBoundsChecks c) p
                    (call_key_start c)) (kBlockSizeJ K) ->
  0 <= n < Z.min (head_dim_value p - col0) (kBlockSizeI K) ->
  let s' :=
    fold_left
      (GradV_column K L (call_skipBoundsChecks c) p w T
         (call_query_start c) (call_key_start c) attn zij)
      (MatmulGradV_cols K p) s in
  let a0 :=
    accumulator_address K (layout_gradV L)
      (MatmulGradV_gmem_tile K w col0) m n in
  let v :=
    ((if isFirstQuery p (call_query_start c) (call_key_start c)
      then 0 else gmem_workspace s a0) +
     MatmulGradV K (call_skipBoundsChecks c) p T (call_query_start c)
       attn zij col0 clear m n)%R in
  if isLastQuery K p (call_query_start c) (call_key_start c)
  then gmem_grad_value s' (call_key_start c + m) (col0 + n) = v
  else gmem_workspace s' a0 = v.
Proof.
  intros HRF Hc Hcol0 Hm Hn s' a0 v.
  destruct tile_sizes as (HI & HJ & HES).
  destruct dims_in_range as (Q0 & K0 & D0 & V0 & Q1 & K1 & D1 & V1).
  destruct (workspace_mode HRF) as [HnV HnK].
  destruct HL as (HLV & HLK & HLQ).
  set (skip := call_skipBoundsChecks c) in *.
  set (qs := call_query_start c) in *. set (ks := call_key_start c) in *.
  set (obs_in := fun t : KernelState => gmem_workspace t a0).
  set (obs_out := fun t : KernelState =>
         if isLastQuery K p qs ks
         then gmem_grad_value t (ks + m) (col0 + n)
         else gmem_workspace t a0).
  set (f := fun x : R =>
         ((if isFirstQuery p qs ks then 0 else x) +
          MatmulGradV K skip p T qs attn zij col0 clear m n)%R).
  assert (Hcols : MatmulGradV_cols K p =
                  for_range 0 (head_dim_value p) (kBlockSizeI K)).
  { unfold MatmulGradV_cols. rewrite HRF. reflexivity. }
  assert (Hgoal : obs_out s' = f (obs_in s)).
  { unfold s'.
    apply (fold_single_writer Z KernelState _ obs_in obs_out f col0).
    - rewrite Hcols. apply cols_NoDup; lia.
    - exact Hcol0.
    - intros t.
      pose proof (GradV_column_accum K L skip p w T qs ks attn zij t col0)
        as Hacc.
      cbv zeta in Hacc. rewrite HRF, HnV in Hacc.
      pose proof (accum_column_cell K (layout_gradV L) (kBlockSizeJ K)
                    (kBlockSizeI K) HLV
                    (MatmulGradV K skip p T qs attn zij col0)
                    (MatmulGradV_adds K skip p T qs attn zij col0)
                    (isFirstQuery p qs ks) (isLastQuery K p qs ks)
                    (MatmulGradV_gmem_tile K w col0) ks col0
                    (num_keys_in_block K skip p ks) (head_dim_value p - col0)
                    (output_frags_gradV t) (gmem_workspace t)
                    (gmem_grad_value t) m n Hm Hn) as Hcell.
      cbv zeta in Hcell. rewrite <- Hacc in Hcell. cbn [fst snd] in Hcell.
      unfold obs_out, obs_in, f, a0.
      destruct (isLastQuery K p qs ks); exact Hcell.
    - intros t col Hcol Hne.
      pose proof (GradV_column_accum K L skip p w T qs ks attn zij t col)
        as Hacc.
      cbv zeta in Hacc.
      assert (Hw : gmem_workspace
                     (GradV_column K L skip p w T qs ks attn zij t col) a0
                   = gmem_workspace t a0).
      { apply (f_equal (fun x => snd (fst x))) in Hacc.
        cbn [fst snd] in Hacc. rewrite Hacc.
        rewrite accum_column_workspace; [reflexivity |].
        intros _ _ Hlast.
        assert (Hst : MatmulGradV_loads K p qs ks ||
                      MatmulGradV_stores K p qs ks = true).
        { unfold MatmulGradV_stores. rewrite HRF, HnV, Hlast.
          apply orb_true_r. }
        destruct (MatmulGradV_gmem_tile_in_area K p w c col Hr Hc Hcol Hst)
          as (E & B0 & B1).
        destruct (MatmulGradV_gmem_tile_in_area K p w c col0 Hr Hc Hcol0 Hst)
          as (E0 & B00 & B10).
        pose proof (accumulator_address_bounds K (layout_gradV L)
                      (kBlockSizeJ K) (kBlockSizeI K) HLV
                      (MatmulGradV_gmem_tile K w col0) m n
                      ltac:(lia) ltac:(lia)) as Ha0.
        fold a0 in Ha0. rewrite E. rewrite E0 in Ha0.
        rewrite Hcols in Hcol, Hcol0.
        apply cols_In in Hcol, Hcol0; try lia.
        destruct Hcol as [Hcb [u Hu]]. destruct Hcol0 as [Hcb0 [u0 Hu0]].
        rewrite Hu, Hu0 in *. rewrite !Z.quot_mul in * by lia.
        assert (u <> u0) by (intros ->; apply Hne; reflexivity).
        destruct (Z.lt_ge_cases u u0); [right | left]; nia. }
      split; [exact Hw |]. unfold obs_out.
      destruct (isLastQuery K p qs ks) eqn:Hlast; [| exact Hw].
      apply (f_equal snd) in Hacc. cbn [fst snd] in Hacc. rewrite Hacc.
      rewrite accum_column_dest; [reflexivity |]. intros _ _.
      rewrite Hcols in Hcol, Hcol0.
      apply cols_In in Hcol, Hcol0; try lia.
      destruct Hcol as [Hcb [u Hu]]. destruct Hcol0 as [Hcb0 [u0 Hu0]].
      assert (u <> u0) by (intros ->; apply Hne; lia).
      right. right. nia. }
  unfold obs_out, obs_in, f in Hgoal. unfold v.
  destruct (isLastQuery K p qs ks); exact Hgoal.
Qed.

(** In the workspace mode, the GradK loop of a call adds the product of
    the call to the accumulator [(m, n)] of the column block [col0], which
    it finds in the tile of the workspace unless the call is the first of
    the key tile, and leaves the sum in the tile, or, on the last call of
    the key tile, in [grad_key]. *)
Lemma GradK_loop_cell c attn zij di s col0 m n :
  kOutputInRF K = false -> In c (kernel_calls K p) ->
  In col0 (MatmulGradK_cols K p) ->
  0 <= m < Z.min (num_keys_in_block K (call_skipBoundsChecks c) p
                    (call_key_start c)) (kBlockSizeJ K) ->
  0 <= n < Z.min (head_dim p - col0) (kBlockSizeI K) ->
  let s' :=
    fold_left
      (GradK_column K L (call_skipBoundsChecks c) p w T
         (call_query_start c) (call_key_start c) attn zij di)
      (MatmulGradK_cols K p) s in
  let a0 :=
    accumulator_address K (layout_gradK L)
      (MatmulGradK_gmem_tile K w col0) m n in
  let v :=
    ((if isFirstQuery p (call_query_start c) (call_key_start c)
      then 0 else gmem_workspace s a0) +
     MatmulGradK K (call_skipBoundsChecks c) p T (call_query_start c)
       (call_key_start c) attn zij di col0 clear m n)%R in
  if isLastQuery K p (call_query_start c) (call_key_start c)
  then gmem_grad_key s' (call_key_start c + m) (col0 + n) = v
  else gmem_workspace s' a0 = v.
Proof.
  intros HRF Hc Hcol0 Hm Hn s' a0 v.
  destruct tile_sizes as (HI & HJ & HES).
  destruct dims_in_range as (Q0 & K0 & D0 & V0 & Q1 & K1 & D1 & V1).
  destruct (workspace_mode HRF) as [HnV HnK].
  destruct HL as (HLV & HLK_ & HLQ).
  set (skip := call_skipBoundsChecks c) in *.
  set (qs := call_query_start c) in *. set (ks := call_key_start c) in *.
  set (obs_in := fun t : KernelState => gmem_workspace t a0).
  set (obs_out := fun t : KernelState =>
         if isLastQuery K p qs ks
         then gmem_grad_key t (ks + m) (col0 + n)
         else gmem_workspace t a0).
  set (f := fun x : R =>
         ((if isFirstQuery p qs ks then 0 else x) +
          MatmulGradK K skip p T qs ks attn zij di col0 clear m n)%R).
  assert (Hcols : MatmulGradK_cols K p =
                  for_range 0 (head_dim p) (kBlockSizeI K)).
  { unfold MatmulGradK_cols. rewrite HRF. reflexivity. }
  assert (Hgoal : obs_out s' = f (obs_in s)).
  { unfold s'.
    apply (fold_single_writer Z KernelState _ obs_in obs_out f col0).
    - rewrite Hcols. apply cols_NoDup; lia.
    - exact Hcol0.
    - intros t.
      pose proof (GradK_column_accum K L skip p w T qs ks attn zij di t col0)
        as Hacc.
      cbv zeta in Hacc. rewrite HRF, HnK in Hacc.
      pose proof (accum_column_cell K (layout_gradK L) (kBlockSizeJ K)
                    (kBlockSizeI K) HLK_
                    (MatmulGradK K skip p T qs ks attn zij di col0)
                    (MatmulGradK_adds K skip p T qs ks attn zij di col0)
                    (isFirstQuery p qs ks) (isLastQuery K p qs ks)
                    (MatmulGradK_gmem_tile K w col0) ks col0
                    (num_keys_in_block K skip p ks) (head_dim p - col0)
                    (output_frags_gradK t) (gmem_workspace t)
                    (gmem_grad_key t) m n Hm Hn) as Hcell.
      cbv zeta in Hcell. rewrite <- Hacc in Hcell. cbn [fst snd] in Hcell.
      unfold obs_out, obs_in, f, a0.
      destruct (isLastQuery K p qs ks); exact Hcell.
    - intros t col Hcol Hne.
      pose proof (GradK_column_accum K L skip p w T qs ks attn zij di t col)
        as Hacc.
      cbv zeta in Hacc.
      assert (Hw : gmem_workspace
                     (GradK_column K L skip p w T qs ks attn zij di t col) a0
                   = gmem_workspace t a0).
      { apply (f_equal (fun x => snd (fst x))) in Hacc.
        cbn [fst snd] in Hacc. rewrite Hacc.
        rewrite accum_column_workspace; [reflexivity |].
        intros _ _ Hlast.
        assert (Hst : MatmulGradK_loads K p qs ks ||
                      MatmulGradK_stores K p qs ks = true).
        { unfold MatmulGradK_stores. rewrite HRF, HnK, Hlast.
          apply orb_true_r. }
        destruct (MatmulGradK_gmem_tile_in_area K p w c col Hr Hc Hcol Hst)
          as (E & B0 & B1).
        destruct (MatmulGradK_gmem_tile_in_area K p w c col0 Hr Hc Hcol0 Hst)
          as (E0 & B00 & B10).
        pose proof (accumulator_address_bounds K (layout_gradK L)
                      (kBlockSizeJ K) (kBlockSizeI K) HLK_
                      (MatmulGradK_gmem_tile K w col0) m n
                      ltac:(lia) ltac:(lia)) as Ha0.
        fold a0 in Ha0. rewrite E. rewrite E0 in Ha0.
        rewrite Hcols in Hcol, Hcol0.
        apply cols_In in Hcol, Hcol0; try lia.
        destruct Hcol as [Hcb [u Hu]]. destruct Hcol0 as [Hcb0 [u0 Hu0]].
        rewrite Hu, Hu0 in *. rewrite !Z.quot_mul in * by lia.
        assert (u <> u0) by (intros ->; apply Hne; reflexivity).
        destruct (Z.lt_ge_cases u u0); [right | left]; nia. }
      split; [exact Hw |]. unfold obs_out.
      destruct (isLastQuery K p qs ks) eqn:Hlast; [| exact Hw].
      apply (f_equal snd) in Hacc. cbn [fst snd] in Hacc. rewrite Hacc.
      rewrite accum_column_dest; [reflexivity |]. intros _ _.
      rewrite Hcols in Hcol, Hcol0.
      apply cols_In in Hcol, Hcol0; try lia.
      destruct Hcol as [Hcb [u Hu]]. destruct Hcol0 as [Hcb0 [u0 Hu0]].
      assert (u <> u0) by (intros ->; apply Hne; lia).
      right. right. nia. }
  unfold obs_out, obs_in, f in Hgoal. unfold v.
  destruct (isLastQuery K p qs ks); exact Hgoal.
Qed.

(** The GradQ loop of a call does the same to the accumulator [(m, n)] of
    the column block [col0] of its query tile, between the first and the
    last key tile that visit the query tile. *)
Lemma GradQ_loop_cell c attn zij di s col0 m n :
  In c (kernel_calls K p) ->
  In col0 (MatmulGradQ_cols K p) ->
  0 <= m < Z.min (num_queries_in_block K (call_skipBoundsChecks c) p
                    (call_query_start c)) (kBlockSizeI K) ->
  0 <= n < Z.min (head_dim p - col0) (kBlockSizeJ K) ->
  let s' :=
    fold_left
      (GradQ_column K L (call_skipBoundsChecks c) p w T
         (call_query_start c) (call_key_start c) attn zij di)
      (MatmulGradQ_cols K p) s in
  let a0 :=
    accumulator_address K (layout_gradQ L)
      (MatmulGradQ_gmem_tile K p w (call_query_start c) col0) m n in
  let v :=
    ((if MatmulGradQ_isFirst (call_key_start c)
      then 0 else gmem_workspace s a0) +
     MatmulGradQ K (call_skipBoundsChecks c) p T (call_query_start c)
       (call_key_start c) attn zij di col0 clear m n)%R in
  if MatmulGradQ_isLast K p (call_query_start c) (call_key_start c)
  then gmem_grad_query s' (call_query_start c + m) (col0 + n) = v
  else gmem_workspace s' a0 = v.
Proof.
  intros Hc Hcol0 Hm Hn s' a0 v.
  destruct tile_sizes as (HI & HJ & HES).
  destruct dims_in_range as (Q0 & K0 & D0 & V0 & Q1 & K1 & D1 & V1).
  pose proof (kNeedsAccumGradQ_true K) as HnQ.
  destruct HL as (HLV & HLK & HLQ).
  set (skip := call_skipBoundsChecks c) in *.
  set (qs := call_query_start c) in *. set (ks := call_key_start c) in *.
  set (obs_in := fun t : KernelState => gmem_workspace t a0).
  set (obs_out := fun t : KernelState =>
         if MatmulGradQ_isLast K p qs ks
         then gmem_grad_query t (qs + m) (col0 + n)
         else gmem_workspace t a0).
  set (f := fun x : R =>
         ((if MatmulGradQ_isFirst ks then 0 else x) +
          MatmulGradQ K skip p T qs ks attn zij di col0 clear m n)%R).
  assert (Hgoal : obs_out s' = f (obs_in s)).
  { unfold s'.
    apply (fold_single_writer Z KernelState _ obs_in obs_out f col0).
    - apply cols_NoDup; lia.
    - exact Hcol0.
    - intros t.
      destruct (GradQ_column_accum K L skip p w T qs ks attn zij di t col0)
        as [Hw Hd].
      cbv zeta in Hw, Hd. rewrite HnQ in Hw, Hd.
      pose proof (accum_column_cell K (layout_gradQ L) (kBlockSizeI K)
                    (kBlockSizeJ K) HLQ
                    (MatmulGradQ K skip p T qs ks attn zij di col0)
                    (MatmulGradQ_adds K skip p T qs ks attn zij di col0)
                    (MatmulGradQ_isFirst ks) (MatmulGradQ_isLast K p qs ks)
                    (MatmulGradQ_gmem_tile K p w qs col0) qs col0
                    (num_queries_in_block K skip p qs) (head_dim p - col0)
                    clear_fragments (gmem_workspace t)
                    (gmem_grad_query t) m n Hm Hn) as Hcell.
      cbv zeta in Hcell. rewrite <- Hw, <- Hd in Hcell.
      unfold obs_out, obs_in, f, a0.
      destruct (MatmulGradQ_isLast K p qs ks); exact Hcell.
    - intros t col Hcol Hne.
      destruct (GradQ_column_accum K L skip p w T qs ks attn zij di t col)
        as [Hw Hd].
      cbv zeta in Hw, Hd.
      assert (Hws : gmem_workspace
                      (GradQ_column K L skip p w T qs ks attn zij di t col)
                      a0 = gmem_workspace t a0).
      { rewrite Hw.
        rewrite accum_column_workspace; [reflexivity |].
        intros _ _ Hlast.
        assert (Hst : MatmulGradQ_loads K ks ||
                      MatmulGradQ_stores K p qs ks = true).
        { unfold MatmulGradQ_stores. rewrite HnQ, Hlast.
          apply orb_true_r. }
        destruct (MatmulGradQ_gmem_tile_in_area K p w c col Hr Hc Hcol Hst)
          as (E & B0 & B1 & B2 & B3).
        destruct (MatmulGradQ_gmem_tile_in_area K p w c col0 Hr Hc Hcol0
                    Hst) as (E0 & B00 & B10 & B20 & B30).
        pose proof (accumulator_address_bounds K (layout_gradQ L)
                      (kBlockSizeI K) (kBlockSizeJ K) HLQ
                      (MatmulGradQ_gmem_tile K p w qs col0) m n
                      ltac:(lia) ltac:(lia)) as Ha0.
        fold a0 in Ha0. fold qs in E, E0. rewrite E. rewrite E0 in Ha0.
        unfold MatmulGradQ_cols in Hcol, Hcol0.
        apply cols_In in Hcol, Hcol0; try lia.
        destruct Hcol as [Hcb [u Hu]]. destruct Hcol0 as [Hcb0 [u0 Hu0]].
        rewrite Hu, Hu0 in *. rewrite !Z.quot_mul in * by lia.
        assert (u <> u0) by (intros ->; apply Hne; reflexivity).
        destruct (Z.lt_ge_cases u u0); [right | left]; nia. }
      split; [exact Hws |]. unfold obs_out.
      destruct (MatmulGradQ_isLast K p qs ks) eqn:Hlast; [| exact Hws].
      rewrite Hd.
      rewrite accum_column_dest; [reflexivity |]. intros _ _.
      unfold MatmulGradQ_cols in Hcol, Hcol0.
      apply cols_In in Hcol, Hcol0; try lia.
      destruct Hcol as [Hcb [u Hu]]. destruct Hcol0 as [Hcb0 [u0 Hu0]].
      assert (u <> u0) by (intros ->; apply Hne; lia).
      right. right. nia. }
  unfold obs_out, obs_in, f in Hgoal. unfold v.
  destruct (MatmulGradQ_isLast K p qs ks); exact Hgoal.
Qed.

(** *** What a call computes does not depend on what it finds in shared
    memory *)

Lemma scheduled_extents c :
  scheduled_tile K p c ->
  1 <= num_queries_in_block K (call_skipBoundsChecks c) p
         (call_query_start c) <= kBlockSizeI K /\
  1 <= num_keys_in_block K (call_skipBoundsChecks c) p
         (call_key_start c) <= kBlockSizeJ K /\
  call_query_start c +
    num_queries_in_block K (call_skipBoundsChecks c) p (call_query_start c)
    <= num_queries p /\
  call_key_start c +
    num_keys_in_block K (call_skipBoundsChecks c) p (call_key_start c)
    <= num_keys p /\
  0 <= call_query_start c /\ 0 <= call_key_start c.
Proof.
  intros (Hdk & Hks & Hdq & Hqs & Hskip).
  destruct tile_sizes as (HI & HJ & HES).
  destruct dims_in_range as (Q0 & K0 & D0 & V0 & Q1 & K1 & D1 & V1).
  destruct (getQueryStart_bounds K p (call_key_start c) ltac:(lia))
    as [Hb _].
  assert (Hfull : call_skipBoundsChecks c = true ->
                  call_query_start c + kBlockSizeI K <= num_queries p /\
                  call_key_start c + kBlockSizeJ K <= num_keys p).
  { intros E. rewrite Hskip in E. unfold tile_is_full in E.
    apply andb_true_iff in E. rewrite !Z.leb_le in E. exact E. }
  rewrite block_extent_queries by (try lia; intros E; apply Hfull, E).
  rewrite block_extent_keys by (try lia; intros E; apply Hfull, E).
  lia.
Qed.

Section SharedMemory.

Variable c : BlockCall.
Hypothesis Hc : scheduled_tile K p c.
Variables zij_before zij_before' : Tile.
Variables di_before di_before' : Z -> R.

Lemma zij_independent m n :
  kApplyDropout K = true ->
  0 <= m < num_keys_in_block K (call_skipBoundsChecks c) p
             (call_key_start c) ->
  0 <= n < num_queries_in_block K (call_skipBoundsChecks c) p
             (call_query_start c) ->
  generate_zij K stream (call_skipBoundsChecks c) p (call_query_start c)
    (call_key_start c) (rng_state_init p) zij_before m n =
  generate_zij K stream (call_skipBoundsChecks c) p (call_query_start c)
    (call_key_start c) (rng_state_init p) zij_before' m n.
Proof.
  intros Hd Hm Hn.
  destruct (scheduled_extents c Hc) as (E1 & E2 & _).
  rewrite !generate_zij_cell by assumption. reflexivity.
Qed.

Lemma di_independent m :
  0 <= m < num_queries_in_block K (call_skipBoundsChecks c) p
             (call_query_start c) ->
  loadDi K p T (call_query_start c) di_before m =
  loadDi K p T (call_query_start c) di_before' m.
Proof.
  intros Hm. destruct (scheduled_extents c Hc) as (E1 & _).
  rewrite !loadDi_spec by lia. reflexivity.
Qed.

Lemma dSij_independent m n :
  0 <= m < num_queries_in_block K (call_skipBoundsChecks c) p
             (call_query_start c) ->
  0 <= n < num_keys_in_block K (call_skipBoundsChecks c) p
             (call_key_start c) ->
  dSij K (call_skipBoundsChecks c) p T (call_query_start c)
    (call_key_start c)
    (attn_T K (call_skipBoundsChecks c) p T (call_query_start c)
       (call_key_start c))
    (generate_zij K stream (call_skipBoundsChecks c) p (call_query_start c)
       (call_key_start c) (rng_state_init p) zij_before)
    (loadDi K p T (call_query_start c) di_before) m n =
  dSij K (call_skipBoundsChecks c) p T (call_query_start c)
    (call_key_start c)
    (attn_T K (call_skipBoundsChecks c) p T (call_query_start c)
       (call_key_start c))
    (generate_zij K stream (call_skipBoundsChecks c) p (call_query_start c)
       (call_key_start c) (rng_state_init p) zij_before')
    (loadDi K p T (call_query_start c) di_before') m n.
Proof.
  intros Hm Hn. rewrite !dSij_in by assumption.
  rewrite (di_independent m Hm). f_equal. f_equal.
  unfold MatmulDOIVJ_dropout.
  destruct (kApplyDropout K) eqn:Hd; [| reflexivity].
  rewrite (zij_independent n m Hd Hn Hm). reflexivity.
Qed.

Lemma MatmulGradV_independent col m n :
  0 <= m < num_keys_in_block K (call_skipBoundsChecks c) p
             (call_key_start c) ->
  MatmulGradV K (call_skipBoundsChecks c) p T (call_query_start c)
    (attn_T K (call_skipBoundsChecks c) p T (call_query_start c)
       (call_key_start c))
    (generate_zij K stream (call_skipBoundsChecks c) p (call_query_start c)
       (call_key_start c) (rng_state_init p) zij_before)
    col clear m n =
  MatmulGradV K (call_skipBoundsChecks c) p T (call_query_start c)
    (attn_T K (call_skipBoundsChecks c) p T (call_query_start c)
       (call_key_start c))
    (generate_zij K stream (call_skipBoundsChecks c) p (call_query_start c)
       (call_key_start c) (rng_state_init p) zij_before')
    col clear m n.
Proof.
  intros Hm. unfold MatmulGradV.
  apply (mma_operand_A_ext _ _ _ _ _ _ _ _
           (num_queries_in_block K (call_skipBoundsChecks c) p
              (call_query_start c))).
  - intros j Hj. unfold MatmulGradV_operand_A.
    destruct (kApplyDropout K) eqn:Hd; [| reflexivity].
    rewrite (zij_independent m j Hd Hm Hj). reflexivity.
  - intros j Hj. unfold MatmulGradV_operand_B.
    apply PredicatedTileIterator_out. lia.
Qed.

Lemma MatmulGradQ_independent col m n :
  0 <= m < num_queries_in_block K (call_skipBoundsChecks c) p
             (call_query_start c) ->
  MatmulGradQ K (call_skipBoundsChecks c) p T (call_query_start c)
    (call_key_start c)
    (attn_T K (call_skipBoundsChecks c) p T (call_query_start c)
       (call_key_start c))
    (generate_zij K stream (call_skipBoundsChecks c) p (call_query_start c)
       (call_key_start c) (rng_state_init p) zij_before)
    (loadDi K p T (call_query_start c) di_before) col clear m n =
  MatmulGradQ K (call_skipBoundsChecks c) p T (call_query_start c)
    (call_key_start c)
    (attn_T K (call_skipBoundsChecks c) p T (call_query_start c)
       (call_key_start c))
    (generate_zij K stream (call_skipBoundsChecks c) p (call_query_start c)
       (call_key_start c) (rng_state_init p) zij_before')
    (loadDi K p T (call_query_start c) di_before') col clear m n.
Proof.
  intros Hm. unfold MatmulGradQ.
  apply (mma_operand_A_ext _ _ _ _ _ _ _ _
           (num_keys_in_block K (call_skipBoundsChecks c) p
              (call_key_start c))).
  - intros j Hj. unfold tmp.
    rewrite (dSij_independent m j Hm Hj). reflexivity.
  - intros j Hj. unfold MatmulGradQ_operand_B.
    apply PredicatedTileIterator_out. lia.
Qed.

Lemma MatmulGradK_independent col m n :
  0 <= m < num_keys_in_block K (call_skipBoundsChecks c) p
             (call_key_start c) ->
  MatmulGradK K (call_skipBoundsChecks c) p T (call_query_start c)
    (call_key_start c)
    (attn_T K (call_skipBoundsChecks c) p T (call_query_start c)
       (call_key_start c))
    (generate_zij K stream (call_skipBoundsChecks c) p (call_query_start c)
       (call_key_start c) (rng_state_init p) zij_before)
    (loadDi K p T (call_query_start c) di_before) col clear m n =
  MatmulGradK K (call_skipBoundsChecks c) p T (call_query_start c)
    (call_key_start c)
    (attn_T K (call_skipBoundsChecks c) p T (call_query_start c)
       (call_key_start c))
    (generate_zij K stream (call_skipBoundsChecks c) p (call_query_start c)
       (call_key_start c) (rng_state_init p) zij_before')
    (loadDi K p T (call_query_start c) di_before') col clear m n.
Proof.
  intros Hm. unfold MatmulGradK.
  apply (mma_operand_A_ext _ _ _ _ _ _ _ _
           (num_queries_in_block K (call_skipBoundsChecks c) p
              (call_query_start c))).
  - intros j Hj. unfold tmpT, tmp.
    rewrite (dSij_independent j m Hj Hm). reflexivity.
  - intros j Hj. unfold MatmulGradK_operand_B.
    apply PredicatedTileIterator_out. lia.
Qed.

End SharedMemory.

(** *** One call of [processBlockIJ] *)

Lemma areas_nonneg :
  0 <= workspace_elements_gk K p /\ 0 <= workspace_elements_gv K p /\
  0 <= workspace_elements_gq K p.
Proof.
  destruct (workspace_elements_spec K p Hr) as (_ & _ & _ & A & B & C). lia.
Qed.

Lemma dV_cell_in_area c col0 m n :
  In c (kernel_calls K p) -> In col0 (MatmulGradV_cols K p) ->
  MatmulGradV_loads K p (call_query_start c) (call_key_start c) ||
  MatmulGradV_stores K p (call_query_start c) (call_key_start c) = true ->
  0 <= m < kBlockSizeJ K -> 0 <= n < kBlockSizeI K ->
  workspace_gv w
  <= accumulator_address K (layout_gradV L)
       (MatmulGradV_gmem_tile K w col0) m n
  < workspace_gv w + workspace_elements_gv K p.
Proof.
  intros Hc Hcol Hst Hm Hn. destruct HL as (HLV & _ & _).
  destruct tile_sizes as (HI & HJ & HES).
  destruct (MatmulGradV_gmem_tile_in_area K p w c col0 Hr Hc Hcol Hst)
    as (E & B0 & B1).
  pose proof (accumulator_address_bounds K (layout_gradV L) _ _ HLV
                (MatmulGradV_gmem_tile K w col0) m n Hm Hn) as Ha.
  rewrite E in Ha |- *. nia.
Qed.

Lemma dK_cell_in_area c col0 m n :
  In c (kernel_calls K p) -> In col0 (MatmulGradK_cols K p) ->
  MatmulGradK_loads K p (call_query_start c) (call_key_start c) ||
  MatmulGradK_stores K p (call_query_start c) (call_key_start c) = true ->
  0 <= m < kBlockSizeJ K -> 0 <= n < kBlockSizeI K ->
  workspace_gk w
  <= accumulator_address K (layout_gradK L)
       (MatmulGradK_gmem_tile K w col0) m n
  < workspace_gk w + workspace_elements_gk K p.
Proof.
  intros Hc Hcol Hst Hm Hn. destruct HL as (_ & HLK & _).
  destruct tile_sizes as (HI & HJ & HES).
  destruct (MatmulGradK_gmem_tile_in_area K p w c col0 Hr Hc Hcol Hst)
    as (E & B0 & B1).
  pose proof (accumulator_address_bounds K (layout_gradK L) _ _ HLK
                (MatmulGradK_gmem_tile K w col0) m n Hm Hn) as Ha.
  rewrite E in Ha |- *. nia.
Qed.

Lemma dQ_cell_in_area c col0 m n :
  In c (kernel_calls K p) -> In col0 (MatmulGradQ_cols K p) ->
  MatmulGradQ_loads K (call_key_start c) ||
  MatmulGradQ_stores K p (call_query_start c) (call_key_start c) = true ->
  0 <= m < kBlockSizeI K -> 0 <= n < kBlockSizeJ K ->
  workspace_gq w
  <= accumulator_address K (layout_gradQ L)
       (MatmulGradQ_gmem_tile K p w (call_query_start c) col0) m n
  < workspace_gq w + workspace_elements_gq K p.
Proof.
  intros Hc Hcol Hst Hm Hn. destruct HL as (_ & _ & HLQ).
  destruct tile_sizes as (HI & HJ & HES).
  destruct (MatmulGradQ_gmem_tile_in_area K p w c col0 Hr Hc Hcol Hst)
    as (E & B0 & B1 & B2 & B3).
  pose proof (accumulator_address_bounds K (layout_gradQ L) _ _ HLQ
                (MatmulGradQ_gmem_tile K p w (call_query_start c) col0)
                m n Hm Hn) as Ha.
  rewrite E in Ha |- *. nia.
Qed.

Lemma calls_scheduled c :
  In c (kernel_calls K p) <-> scheduled_tile K p c.
Proof.
  destruct dims_in_range as (Q0 & K0 & D0 & V0 & Q1 & K1 & D1 & V1).
  apply kernel_calls_In; lia.
Qed.

(** A call and the accumulator of dV in the workspace mode. *)
Lemma run_dV_cell c s col0 m n di0 zij0 gb0 :
  kOutputInRF K = false -> In c (kernel_calls K p) ->
  In col0 (MatmulGradV_cols K p) ->
  0 <= m < num_keys_in_block K (call_skipBoundsChecks c) p
             (call_key_start c) ->
  0 <= n < Z.min (head_dim_value p - col0) (kBlockSizeI K) ->
  let s' := processBlockIJ_run K L stream p w T s c in
  let a0 :=
    accumulator_address K (layout_gradV L)
      (MatmulGradV_gmem_tile K w col0) m n in
  let v :=
    ((if isFirstQuery p (call_query_start c) (call_key_start c)
      then 0 else gmem_workspace s a0) +
     block_gradV
       (processBlockIJ K stream (call_skipBoundsChecks c) p T
          (call_query_start c) (call_key_start c) (rng_state_init p)
          di0 zij0 gb0) col0 m n)%R in
  if isLastQuery K p (call_query_start c) (call_key_start c)
  then gmem_grad_value s' (call_key_start c + m) (col0 + n) = v
  else gmem_workspace s' a0 = v.
Proof.
  intros HRF Hc Hcol0 Hm Hn s' a0 v.
  destruct tile_sizes as (HI & HJ & HES).
  destruct dims_in_range as (Q0 & K0 & D0 & V0 & Q1 & K1 & D1 & V1).
  destruct areas_nonneg as (A1 & A2 & A3).
  destruct (workspace_mode HRF) as [HnV HnK].
  pose proof (proj1 (calls_scheduled c) Hc) as Hsc.
  destruct (scheduled_extents c Hsc) as (E1 & E2 & _).
  unfold s', processBlockIJ_run. cbv zeta.
  set (skip := call_skipBoundsChecks c) in *.
  set (qs := call_query_start c) in *. set (ks := call_key_start c) in *.
  set (attn := attn_T K skip p T qs ks).
  set (zij := generate_zij K stream skip p qs ks (rng_state_init p)
                (smem_zij s)).
  set (di := loadDi K p T qs (smem_di s)).
  set (s1 := set_smem s di zij).
  set (sV := fold_left (GradV_column K L skip p w T qs ks attn zij)
               (MatmulGradV_cols K p) s1).
  set (sB := set_gmem_grad_bias sV _).
  set (sQ := fold_left (GradQ_column K L skip p w T qs ks attn zij di)
               (MatmulGradQ_cols K p) sB).
  pose proof (GradV_loop_cell c attn zij s1 col0 m n HRF Hc Hcol0
                ltac:(fold skip ks; lia) Hn) as HVc.
  cbv zeta in HVc. fold skip qs ks sV a0 in HVc.
  change (gmem_workspace s1 a0) with (gmem_workspace s a0) in HVc.
  assert (Hv : MatmulGradV K skip p T qs attn zij col0 clear m n =
               block_gradV
                 (processBlockIJ K stream skip p T qs ks (rng_state_init p)
                    di0 zij0 gb0) col0 m n).
  { unfold processBlockIJ. cbn [block_gradV].
    apply (MatmulGradV_independent c Hsc). exact Hm. }
  rewrite Hv in HVc. fold v in HVc.
  destruct (isLastQuery K p qs ks) eqn:Hlast.
  - destruct (GradK_loop_others skip qs ks attn zij di sQ)
      as (_ & _ & _ & -> & _).
    unfold sQ.
    destruct (GradQ_loop_others skip qs ks attn zij di sB)
      as (_ & _ & _ & _ & -> & _).
    exact HVc.
  - assert (Hst : MatmulGradV_loads K p qs ks ||
                  MatmulGradV_stores K p qs ks = true).
    { unfold MatmulGradV_stores. rewrite HRF, HnV, Hlast.
      apply orb_true_r. }
    pose proof (dV_cell_in_area c col0 m n Hc Hcol0 Hst ltac:(lia)
                  ltac:(lia)) as Ha. fold a0 in Ha.
    pose proof (fun H => GradK_loop_workspace c attn zij di sQ a0 Hc H) as Hfr;
      fold skip qs ks in Hfr; rewrite Hfr by lia; clear Hfr.
    unfold sQ.
    pose proof (fun H => GradQ_loop_workspace c attn zij di sB a0 Hc H) as Hfr;
      fold skip qs ks in Hfr; rewrite Hfr by lia; clear Hfr.
    exact HVc.
Qed.

(** A call and the accumulator of dK in the workspace mode. *)
Lemma run_dK_cell c s col0 m n di0 zij0 gb0 :
  kOutputInRF K = false -> In c (kernel_calls K p) ->
  In col0 (MatmulGradK_cols K p) ->
  0 <= m < num_keys_in_block K (call_skipBoundsChecks c) p
             (call_key_start c) ->
  0 <= n < Z.min (head_dim p - col0) (kBlockSizeI K) ->
  let s' := processBlockIJ_run K L stream p w T s c in
  let a0 :=
    accumulator_address K (layout_gradK L)
      (MatmulGradK_gmem_tile K w col0) m n in
  let v :=
    ((if isFirstQuery p (call_query_start c) (call_key_start c)
      then 0 else gmem_workspace s a0) +
     block_gradK
       (processBlockIJ K stream (call_skipBoundsChecks c) p T
          (call_query_start c) (call_key_start c) (rng_state_init p)
          di0 zij0 gb0) col0 m n)%R in
  if isLastQuery K p (call_query_start c) (call_key_start c)
  then gmem_grad_key s' (call_key_start c + m) (col0 + n) = v
  else gmem_workspace s' a0 = v.
Proof.
  intros HRF Hc Hcol0 Hm Hn s' a0 v.
  destruct tile_sizes as (HI & HJ & HES).
  destruct dims_in_range as (Q0 & K0 & D0 & V0 & Q1 & K1 & D1 & V1).
  destruct areas_nonneg as (A1 & A2 & A3).
  destruct (workspace_mode HRF) as [HnV HnK].
  pose proof (proj1 (calls_scheduled c) Hc) as Hsc.
  destruct (scheduled_extents c Hsc) as (E1 & E2 & _).
  unfold s', processBlockIJ_run. cbv zeta.
  set (skip := call_skipBoundsChecks c) in *.
  set (qs := call_query_start c) in *. set (ks := call_key_start c) in *.
  set (attn := attn_T K skip p T qs ks).
  set (zij := generate_zij K stream skip p qs ks (rng_state_init p)
                (smem_zij s)).
  set (di := loadDi K p T qs (smem_di s)).
  set (s1 := set_smem s di zij).
  set (sV := fold_left (GradV_column K L skip p w T qs ks attn zij)
               (MatmulGradV_cols K p) s1).
  set (sB := set_gmem_grad_bias sV _).
  set (sQ := fold_left (GradQ_column K L skip p w T qs ks attn zij di)
               (MatmulGradQ_cols K p) sB).
  pose proof (GradK_loop_cell c attn zij di sQ col0 m n HRF Hc Hcol0
                ltac:(fold skip ks; lia) Hn) as HKc.
  cbv zeta in HKc. fold skip qs ks a0 in HKc.
  assert (Hv : MatmulGradK K skip p T qs ks attn zij di col0 clear m n =
               block_gradK
                 (processBlockIJ K stream skip p T qs ks (rng_state_init p)
                    di0 zij0 gb0) col0 m n).
  { unfold processBlockIJ. cbn [block_gradK].
    apply (MatmulGradK_independent c Hsc). exact Hm. }
  rewrite Hv in HKc.
  assert (Hw : isFirstQuery p qs ks = false ->
               gmem_workspace sQ a0 = gmem_workspace s a0).
  { intros Hfirst.
    assert (Hst : MatmulGradK_loads K p qs ks ||
                  MatmulGradK_stores K p qs ks = true).
    { unfold MatmulGradK_loads. rewrite HRF, HnK, Hfirst. reflexivity. }
    pose proof (dK_cell_in_area c col0 m n Hc Hcol0 Hst ltac:(lia)
                  ltac:(lia)) as Ha. fold a0 in Ha.
    unfold sQ.
    pose proof (fun H => GradQ_loop_workspace c attn zij di sB a0 Hc H) as Hfr;
      fold skip qs ks in Hfr; rewrite Hfr by lia; clear Hfr.
    change (gmem_workspace sB a0) with (gmem_workspace sV a0).
    unfold sV.
    pose proof (fun H => GradV_loop_workspace c attn zij s1 a0 Hc H) as Hfr;
      fold skip qs ks in Hfr; rewrite Hfr by lia; clear Hfr.
    reflexivity. }
  unfold v.
  destruct (isFirstQuery p qs ks) eqn:Hfirst; [| rewrite <- Hw by reflexivity];
    exact HKc.
Qed.

(** A call and the accumulator of dQ. *)
Lemma run_dQ_cell c s col0 m n di0 zij0 gb0 :
  In c (kernel_calls K p) ->
  In col0 (MatmulGradQ_cols K p) ->
  0 <= m < num_queries_in_block K (call_skipBoundsChecks c) p
             (call_query_start c) ->
  0 <= n < Z.min (head_dim p - col0) (kBlockSizeJ K) ->
  let s' := processBlockIJ_run K L stream p w T s c in
  let a0 :=
    accumulator_address K (layout_gradQ L)
      (MatmulGradQ_gmem_tile K p w (call_query_start c) col0) m n in
  let v :=
    ((if MatmulGradQ_isFirst (call_key_start c)
      then 0 else gmem_workspace s a0) +
     block_gradQ
       (processBlockIJ K stream (call_skipBoundsChecks c) p T
          (call_query_start c) (call_key_start c) (rng_state_init p)
          di0 zij0 gb0) col0 m n)%R in
  if MatmulGradQ_isLast K p (call_query_start c) (call_key_start c)
  then gmem_grad_query s' (call_query_start c + m) (col0 + n) = v
  else gmem_workspace s' a0 = v.
Proof.
  intros Hc Hcol0 Hm Hn s' a0 v.
  destruct tile_sizes as (HI & HJ & HES).
  destruct dims_in_range as (Q0 & K0 & D0 & V0 & Q1 & K1 & D1 & V1).
  destruct areas_nonneg as (A1 & A2 & A3).
  pose proof (kNeedsAccumGradQ_true K) as HnQ.
  pose proof (proj1 (calls_scheduled c) Hc) as Hsc.
  destruct (scheduled_extents c Hsc) as (E1 & E2 & _).
  unfold s', processBlockIJ_run. cbv zeta.
  set (skip := call_skipBoundsChecks c) in *.
  set (qs := call_query_start c) in *. set (ks := call_key_start c) in *.
  set (attn := attn_T K skip p T qs ks).
  set (zij := generate_zij K stream skip p qs ks (rng_state_init p)
                (smem_zij s)).
  set (di := loadDi K p T qs (smem_di s)).
  set (s1 := set_smem s di zij).
  set (sV := fold_left (GradV_column K L skip p w T qs ks attn zij)
               (MatmulGradV_cols K p) s1).
  set (sB := set_gmem_grad_bias sV _).
  set (sQ := fold_left (GradQ_column K L skip p w T qs ks attn zij di)
               (MatmulGradQ_cols K p) sB).
  pose proof (GradQ_loop_cell c attn zij di sB col0 m n Hc Hcol0
                ltac:(fold skip qs; lia) Hn) as HQc.
  cbv zeta in HQc. fold skip qs ks sQ a0 in HQc.
  change (gmem_workspace sB a0) with (gmem_workspace sV a0) in HQc.
  assert (Hv : MatmulGradQ K skip p T qs ks attn zij di col0 clear m n =
               block_gradQ
                 (processBlockIJ K stream skip p T qs ks (rng_state_init p)
                    di0 zij0 gb0) col0 m n).
  { unfold processBlockIJ. cbn [block_gradQ].
    apply (MatmulGradQ_independent c Hsc). exact Hm. }
  rewrite Hv in HQc.
  assert (Hw : MatmulGradQ_isFirst ks = false ->
               gmem_workspace sV a0 = gmem_workspace s a0).
  { intros Hfirst.
    assert (Hst : MatmulGradQ_loads K ks ||
                  MatmulGradQ_stores K p qs ks = true).
    { unfold MatmulGradQ_loads. rewrite HnQ, Hfirst. reflexivity. }
    pose proof (dQ_cell_in_area c col0 m n Hc Hcol0 Hst ltac:(lia)
                  ltac:(lia)) as Ha. fold qs a0 in Ha.
    unfold sV.
    pose proof (fun H => GradV_loop_workspace c attn zij s1 a0 Hc H) as Hfr;
      fold skip qs ks in Hfr; rewrite Hfr by lia; clear Hfr.
    reflexivity. }
  assert (HQ' : if MatmulGradQ_isLast K p qs ks
                then gmem_grad_query sQ (qs + m) (col0 + n) = v
                else gmem_workspace sQ a0 = v).
  { unfold v.
    destruct (MatmulGradQ_isFirst ks) eqn:Hfirst;
      [| rewrite <- Hw by reflexivity]; exact HQc. }
  destruct (MatmulGradQ_isLast K p qs ks) eqn:Hlast.
  - destruct (GradK_loop_others skip qs ks attn zij di sQ)
      as (_ & _ & _ & _ & -> & _).
    exact HQ'.
  - assert (Hst : MatmulGradQ_loads K ks ||
                  MatmulGradQ_stores K p qs ks = true).
    { unfold MatmulGradQ_stores. rewrite HnQ, Hlast. apply orb_true_r. }
    pose proof (dQ_cell_in_area c col0 m n Hc Hcol0 Hst ltac:(lia)
                  ltac:(lia)) as Ha. fold qs a0 in Ha.
    pose proof (fun H => GradK_loop_workspace c attn zij di sQ a0 Hc H) as Hfr;
      fold skip qs ks in Hfr; rewrite Hfr by lia; clear Hfr.
    exact HQ'.
Qed.

(** A call writes [grad_value] and [grad_key] in the rows of the extent of
    its key tile only, and [grad_query] in the rows of the extent of its
    query tile only; it writes no column past the head dimension. *)
Lemma run_rows c s :
  let s' := processBlockIJ_run K L stream p w T s c in
  (forall i j,
     i < call_key_start c \/
     call_key_start c +
       Z.min (num_keys_in_block K (call_skipBoundsChecks c) p
                (call_key_start c)) (kBlockSizeJ K) <= i ->
     gmem_grad_value s' i j = gmem_grad_value s i j /\
     gmem_grad_key s' i j = gmem_grad_key s i j) /\
  (forall i j,
     i < call_query_start c \/
     call_query_start c +
       Z.min (num_queries_in_block K (call_skipBoundsChecks c) p
                (call_query_start c)) (kBlockSizeI K) <= i \/
     head_dim p <= j ->
     gmem_grad_query s' i j = gmem_grad_query s i j) /\
  (forall i j, head_dim_value p <= j ->
     gmem_grad_value s' i j = gmem_grad_value s i j) /\
  (forall i j, head_dim p <= j ->
     gmem_grad_key s' i j = gmem_grad_key s i j).
Proof.
  unfold processBlockIJ_run. cbv zeta.
  set (skip := call_skipBoundsChecks c) in *.
  set (qs := call_query_start c) in *. set (ks := call_key_start c) in *.
  set (attn := attn_T K skip p T qs ks).
  set (zij := generate_zij K stream skip p qs ks (rng_state_init p)
                (smem_zij s)).
  set (di := loadDi K p T qs (smem_di s)).
  set (s1 := set_smem s di zij).
  set (sV := fold_left (GradV_column K L skip p w T qs ks attn zij)
               (MatmulGradV_cols K p) s1).
  set (sB := set_gmem_grad_bias sV _).
  set (sQ := fold_left (GradQ_column K L skip p w T qs ks attn zij di)
               (MatmulGradQ_cols K p) sB).
  destruct (GradK_loop_others skip qs ks attn zij di sQ)
    as (_ & _ & _ & EK1 & EK2 & _).
  destruct (GradQ_loop_others skip qs ks attn zij di sB)
    as (_ & _ & _ & _ & EQ1 & EQ2 & _).
  destruct (GradV_loop_others skip qs ks attn zij s1)
    as (_ & _ & _ & EV1 & EV2 & _).
  fold sQ in EK1, EK2, EQ1, EQ2. fold sV in EV1, EV2.
  assert (HV : forall i j,
            i < ks \/
            ks + Z.min (num_keys_in_block K skip p ks) (kBlockSizeJ K) <= i \/
            head_dim_value p <= j ->
            gmem_grad_value
              (fold_left (GradK_column K L skip p w T qs ks attn zij di)
                 (MatmulGradK_cols K p) sQ) i j = gmem_grad_value s i j).
  { intros i j Hi. rewrite EK1, EQ1.
    change (gmem_grad_value sB) with (gmem_grad_value sV). unfold sV.
    rewrite GradV_loop_rows by exact Hi. reflexivity. }
  assert (HK : forall i j,
            i < ks \/
            ks + Z.min (num_keys_in_block K skip p ks) (kBlockSizeJ K) <= i \/
            head_dim p <= j ->
            gmem_grad_key
              (fold_left (GradK_column K L skip p w T qs ks attn zij di)
                 (MatmulGradK_cols K p) sQ) i j = gmem_grad_key s i j).
  { intros i j Hi. rewrite GradK_loop_rows by exact Hi. rewrite EQ2.
    change (gmem_grad_key sB) with (gmem_grad_key sV). rewrite EV1.
    reflexivity. }
  split; [| split; [| split]].
  - intros i j Hi. split; [apply HV | apply HK]; lia.
  - intros i j Hi. rewrite EK2. unfold sQ.
    rewrite GradQ_loop_rows by exact Hi.
    change (gmem_grad_query sB) with (gmem_grad_query sV). rewrite EV2.
    reflexivity.
  - intros i j Hj. apply HV. lia.
  - intros i j Hj. apply HK. lia.
Qed.

(** A call leaves alone the tiles of dQ of the other query tiles. *)
Lemma run_workspace_other_query c c0 s col0 m n :
  In c (kernel_calls K p) -> In c0 (kernel_calls K p) ->
  call_query_start c <> call_query_start c0 ->
  In col0 (MatmulGradQ_cols K p) ->
  MatmulGradQ_loads K (call_key_start c0) ||
  MatmulGradQ_stores K p (call_query_start c0) (call_key_start c0) = true ->
  0 <= m < kBlockSizeI K -> 0 <= n < kBlockSizeJ K ->
  let a0 :=
    accumulator_address K (layout_gradQ L)
      (MatmulGradQ_gmem_tile K p w (call_query_start c0) col0) m n in
  gmem_workspace (processBlockIJ_run K L stream p w T s c) a0 =
  gmem_workspace s a0.
Proof.
  intros Hc Hc0 Hne Hcol0 Hst0 Hm Hn a0.
  destruct tile_sizes as (HI & HJ & HES).
  destruct dims_in_range as (Q0 & K0 & D0 & V0 & Q1 & K1 & D1 & V1).
  destruct areas_nonneg as (A1 & A2 & A3).
  pose proof (kNeedsAccumGradQ_true K) as HnQ.
  destruct HL as (HLV & HLK & HLQ).
  pose proof (dQ_cell_in_area c0 col0 m n Hc0 Hcol0 Hst0 Hm Hn) as Ha.
  fold a0 in Ha.
  unfold processBlockIJ_run. cbv zeta.
  set (skip := call_skipBoundsChecks c) in *.
  set (qs := call_query_start c) in *. set (ks := call_key_start c) in *.
  set (attn := attn_T K skip p T qs ks).
  set (zij := generate_zij K stream skip p qs ks (rng_state_init p)
                (smem_zij s)).
  set (di := loadDi K p T qs (smem_di s)).
  set (s1 := set_smem s di zij).
  set (sV := fold_left (GradV_column K L skip p w T qs ks attn zij)
               (MatmulGradV_cols K p) s1).
  set (sB := set_gmem_grad_bias sV _).
  set (sQ := fold_left (GradQ_column K L skip p w T qs ks attn zij di)
               (MatmulGradQ_cols K p) sB).
  pose proof (fun H => GradK_loop_workspace c attn zij di sQ a0 Hc H) as Hfr;
    fold skip qs ks in Hfr; rewrite Hfr by lia; clear Hfr.
  transitivity (gmem_workspace sB a0).
  2:{ change (gmem_workspace sB a0) with (gmem_workspace sV a0). unfold sV.
      pose proof (fun H => GradV_loop_workspace c attn zij s1 a0 Hc H)
        as Hfr;
        fold skip qs ks in Hfr; rewrite Hfr by lia; clear Hfr.
      reflexivity. }
  unfold sQ.
  apply (fold_left_inv Z KernelState
           (fun t => gmem_workspace t a0 = gmem_workspace sB a0));
    [| reflexivity].
  intros t col Hcol Ht. rewrite <- Ht.
  destruct (GradQ_column_accum K L skip p w T qs ks attn zij di t col)
    as [Hw _].
  rewrite Hw.
  rewrite accum_column_workspace; [reflexivity |].
  intros _ _ Hlast.
  assert (Hst : MatmulGradQ_loads K ks ||
                MatmulGradQ_stores K p qs ks = true).
  { unfold MatmulGradQ_stores. rewrite HnQ, Hlast. apply orb_true_r. }
  destruct (MatmulGradQ_gmem_tile_in_area K p w c col Hr Hc Hcol Hst)
    as (E & B0 & B1 & B2 & B3).
  destruct (MatmulGradQ_gmem_tile_in_area K p w c0 col0 Hr Hc0 Hcol0 Hst0)
    as (E0 & B00 & B10 & B20 & B30).
  pose proof (accumulator_address_bounds K (layout_gradQ L)
                (kBlockSizeI K) (kBlockSizeJ K) HLQ
                (MatmulGradQ_gmem_tile K p w (call_query_start c0) col0) m n
                Hm Hn) as Hb.
  fold a0 in Hb. fold qs in E. rewrite E. rewrite E0 in Hb.
  apply calls_scheduled in Hc, Hc0.
  destruct Hc as (_ & _ & [u Hu] & _). destruct Hc0 as (_ & _ & [u0 Hu0] & _).
  fold qs in Hu. rewrite Hu, Hu0 in *.
  rewrite !Z.quot_mul in * by lia.
  set (n_cols := (head_dim p + kBlockSizeJ K - 1) / kBlockSizeJ K) in *.
  set (x := Z.quot col (kBlockSizeJ K)) in *.
  set (x0 := Z.quot col0 (kBlockSizeJ K)) in *.
  assert (u <> u0) by (intros ->; apply Hne; reflexivity).
  assert (Hd : x + u * n_cols <> x0 + u0 * n_cols) by nia.
  destruct (Z.lt_ge_cases (x + u * n_cols) (x0 + u0 * n_cols));
    [right | left]; nia.
Qed.

(** *** The accumulators in the registers *)

Lemma for_range_one b : 0 < b -> for_range 0 1 b = [0].
Proof.
  intros Hb. unfold for_range. cbn. reflexivity.
Qed.

Lemma fold_left_accumulate (A S : Type) (step : S -> A -> S)
  (cell : S -> R) (C : A -> R) (l : list A) :
  (forall s a, In a l -> cell (step s a) = (cell s + C a)%R) ->
  forall s,
    cell (fold_left step l s) =
    fold_left (fun acc a => (acc + C a)%R) l (cell s).
Proof.
  induction l as [| a l IH]; intros Hstep s; [reflexivity |].
  cbn [fold_left]. rewrite IH.
  - rewrite Hstep by (left; reflexivity). reflexivity.
  - intros s' a' Hin. apply Hstep. right. exact Hin.
Qed.

(** When the accumulators stay in the registers, a call adds its products
    to the fragments of dV and dK, and writes neither the workspace through
    them nor [grad_value] and [grad_key]. *)
Lemma run_registers c s m n di0 zij0 gb0 :
  kOutputInRF K = true -> In c (kernel_calls K p) ->
  0 <= m < num_keys_in_block K (call_skipBoundsChecks c) p
             (call_key_start c) ->
  0 <= n < kBlockSizeI K ->
  let s' := processBlockIJ_run K L stream p w T s c in
  let r :=
    processBlockIJ K stream (call_skipBoundsChecks c) p T
      (call_query_start c) (call_key_start c) (rng_state_init p)
      di0 zij0 gb0 in
  tile_of_fragments (layout_gradV L) (output_frags_gradV s') m n =
    (tile_of_fragments (layout_gradV L) (output_frags_gradV s) m n +
     block_gradV r 0 m n)%R /\
  tile_of_fragments (layout_gradK L) (output_frags_gradK s') m n =
    (tile_of_fragments (layout_gradK L) (output_frags_gradK s) m n +
     block_gradK r 0 m n)%R /\
  gmem_grad_value s' = gmem_grad_value s /\
  gmem_grad_key s' = gmem_grad_key s.
Proof.
  intros HRF Hc Hm Hn s' r.
  destruct tile_sizes as (HI & HJ & HES).
  destruct HL as (HLV & HLK & HLQ).
  pose proof (proj1 (calls_scheduled c) Hc) as Hsc.
  destruct (scheduled_extents c Hsc) as (E1 & E2 & _).
  unfold s', r, processBlockIJ_run, processBlockIJ. cbv zeta.
  cbn [block_gradV block_gradK].
  set (skip := call_skipBoundsChecks c) in *.
  set (qs := call_query_start c) in *. set (ks := call_key_start c) in *.
  set (attn := attn_T K skip p T qs ks).
  set (zij := generate_zij K stream skip p qs ks (rng_state_init p)
                (smem_zij s)).
  set (di := loadDi K p T qs (smem_di s)).
  set (s1 := set_smem s di zij).
  unfold MatmulGradV_cols, MatmulGradK_cols. rewrite HRF.
  rewrite !for_range_one by lia. cbn [fold_left].
  set (sV := GradV_column K L skip p w T qs ks attn zij s1 0).
  set (sB := set_gmem_grad_bias sV _).
  set (sQ := fold_left (GradQ_column K L skip p w T qs ks attn zij di)
               (MatmulGradQ_cols K p) sB).
  pose proof (GradV_column_accum K L skip p w T qs ks attn zij s1 0) as HV.
  cbv zeta in HV. fold sV in HV. rewrite HRF in HV.
  rewrite accum_column_registers in HV. cbn [fst snd] in HV.
  injection HV as HV1 HV2 HV3.
  pose proof (GradK_column_accum K L skip p w T qs ks attn zij di sQ 0)
    as HK.
  cbv zeta in HK. rewrite HRF in HK.
  rewrite accum_column_registers in HK. cbn [fst snd] in HK.
  injection HK as HK1 HK2 HK3.
  destruct (GradK_column_others K L skip p w T qs ks attn zij di sQ 0)
    as (_ & _ & EK1 & EK2 & _).
  destruct (GradQ_loop_others skip qs ks attn zij di sB)
    as (_ & _ & EQ1 & EQ2 & EQ3 & EQ4 & _).
  fold sQ in EQ1, EQ2, EQ3, EQ4.
  repeat split.
  - rewrite EK1, EQ1.
    change (output_frags_gradV sB) with (output_frags_gradV sV).
    rewrite HV1.
    rewrite (mma_fragments_cell K (layout_gradV L) _ _ HLV _
               (MatmulGradV_adds K skip p T qs attn zij 0))
      by lia.
    f_equal. apply (MatmulGradV_independent c Hsc). exact Hm.
  - rewrite HK1, EQ2.
    change (output_frags_gradK sB) with (output_frags_gradK sV).
    destruct (GradV_column_others K L skip p w T qs ks attn zij s1 0)
      as (_ & _ & EV & _).
    fold sV in EV. rewrite EV.
    rewrite (mma_fragments_cell K (layout_gradK L) _ _ HLK _
               (MatmulGradK_adds K skip p T qs ks attn zij di 0))
      by lia.
    f_equal. apply (MatmulGradK_independent c Hsc). exact Hm.
  - rewrite EK2, EQ3. change (gmem_grad_value sB) with (gmem_grad_value sV).
    rewrite HV3. reflexivity.
  - rewrite HK3, EQ4. change (gmem_grad_key sB) with (gmem_grad_key sV).
    destruct (GradV_column_others K L skip p w T qs ks attn zij s1 0)
      as (_ & _ & _ & EV & _).
    fold sV in EV. rewrite EV. reflexivity.
Qed.

(** *** The accumulation of dQ over the key tiles *)

Lemma In_step_calls c l :
  In (call_processBlockIJ c) l <-> In c (step_calls l).
Proof.
  unfold step_calls. rewrite in_flat_map. split.
  - intros H. exists (call_processBlockIJ c). split; [exact H |].
    left. reflexivity.
  - intros (e & He & Hin). destruct e; cbn in Hin; try contradiction.
    destruct Hin as [-> | []]. exact He.
Qed.

Lemma sum_calls_ext (f g : BlockCall -> R) l :
  (forall c, In c l -> f c = g c) -> sum_calls f l = sum_calls g l.
Proof.
  unfold sum_calls. generalize 0%R.
  induction l as [| c l IH]; intros v H; [reflexivity |].
  cbn [fold_left]. rewrite (H c) by (left; reflexivity).
  apply IH. intros c' Hc'. apply H. right. exact Hc'.
Qed.

Lemma scheduled_extents_eq c :
  scheduled_tile K p c ->
  num_queries_in_block K (call_skipBoundsChecks c) p (call_query_start c) =
    Z.min (kBlockSizeI K) (num_queries p - call_query_start c) /\
  num_keys_in_block K (call_skipBoundsChecks c) p (call_key_start c) =
    Z.min (kBlockSizeJ K) (num_keys p - call_key_start c).
Proof.
  intros (Hdk & Hks & Hdq & Hqs & Hskip).
  destruct tile_sizes as (HI & HJ & HES).
  destruct dims_in_range as (Q0 & K0 & D0 & V0 & Q1 & K1 & D1 & V1).
  destruct (getQueryStart_bounds K p (call_key_start c) ltac:(lia))
    as [Hb _].
  assert (Hfull : call_skipBoundsChecks c = true ->
                  call_query_start c + kBlockSizeI K <= num_queries p /\
                  call_key_start c + kBlockSizeJ K <= num_keys p).
  { intros E. rewrite Hskip in E. unfold tile_is_full in E.
    apply andb_true_iff in E. rewrite !Z.leb_le in E. exact E. }
  rewrite block_extent_queries by (try lia; intros E; apply Hfull, E).
  rewrite block_extent_keys by (try lia; intros E; apply Hfull, E).
  split; reflexivity.
Qed.

(** A call for a query tile is not the last one when a later key tile
    visits the query tile too. *)
Lemma dQ_not_last c c' :
  scheduled_tile K p c -> scheduled_tile K p c' ->
  call_query_start c' = call_query_start c ->
  call_key_start c < call_key_start c' ->
  MatmulGradQ_isLast K p (call_query_start c) (call_key_start c) = false.
Proof.
  intros (Hdk & Hks & Hdq & Hqs & _) (Hdk' & Hks' & Hdq' & Hqs' & _) Eq Hlt.
  destruct tile_sizes as (HI & HJ & HES).
  destruct dims_in_range as (Q0 & K0 & D0 & V0 & Q1 & K1 & D1 & V1).
  rewrite MatmulGradQ_isLast_spec by lia.
  destruct Hdk as [u Hu]. destruct Hdk' as [u' Hu'].
  assert (Huu : u < u') by nia.
  assert (Hstep : call_key_start c + kBlockSizeJ K <= call_key_start c')
    by nia.
  pose proof (getQueryStart_mono K p (call_key_start c + kBlockSizeJ K)
                (call_key_start c') ltac:(lia) ltac:(lia)) as Hmono.
  apply orb_false_iff. split.
  - apply andb_false_iff. right. rewrite Z.gtb_ltb. apply Z.ltb_ge. lia.
  - rewrite Z.geb_leb. apply Z.leb_gt. lia.
Qed.

(** When a call for a query tile is not the last one, the next key tile
    visits the query tile too. *)
Lemma dQ_next_key_tile c :
  scheduled_tile K p c ->
  MatmulGradQ_isLast K p (call_query_start c) (call_key_start c) = false ->
  let c' :=
    Build_BlockCall
      (tile_is_full K p (call_query_start c)
         (call_key_start c + kBlockSizeJ K))
      (call_query_start c) (call_key_start c + kBlockSizeJ K) in
  scheduled_tile K p c' /\ call_lt c c'.
Proof.
  intros (Hdk & Hks & Hdq & Hqs & _) Hlast c'.
  destruct tile_sizes as (HI & HJ & HES).
  destruct dims_in_range as (Q0 & K0 & D0 & V0 & Q1 & K1 & D1 & V1).
  rewrite MatmulGradQ_isLast_spec in Hlast by lia.
  apply orb_false_iff in Hlast. destruct Hlast as [H1 H2].
  rewrite Z.geb_leb in H2. apply Z.leb_gt in H2.
  assert (Hg : getQueryStart K p (call_key_start c + kBlockSizeJ K)
               <= call_query_start c).
  { apply andb_false_iff in H1. destruct H1 as [H1 | H1].
    - unfold getQueryStart. rewrite H1.
      destruct (getQueryStart_bounds K p (call_key_start c) ltac:(lia)).
      lia.
    - rewrite Z.gtb_ltb in H1. apply Z.ltb_ge in H1. exact H1. }
  split.
  - unfold scheduled_tile, c'.
    cbn [call_query_start call_key_start call_skipBoundsChecks].
    repeat split; try lia; try assumption.
    destruct Hdk as [u Hu]. exists (u + 1). lia.
  - unfold call_lt, c'. cbn [call_query_start call_key_start]. lia.
Qed.

Lemma tile_of_index b i :
  0 < b -> 0 <= i ->
  (b | i / b * b) /\ 0 <= i / b * b <= i /\ i - i / b * b = i mod b /\
  0 <= i mod b < b.
Proof.
  intros Hb Hi.
  pose proof (Z.div_mod i b ltac:(lia)).
  pose proof (Z.mod_pos_bound i b ltac:(lia)).
  assert (0 <= i / b) by (apply Z.div_pos; lia).
  split; [exists (i / b); reflexivity |]. nia.
Qed.

Lemma grad_query_sum s i j di0 zij0 gb0 :
  0 <= i < num_queries p -> 0 <= j < head_dim p -> 0 < num_keys p ->
  gmem_grad_query (kernel_gradients K L stream p w T s) i j =
  sum_calls
    (fun c =>
       block_gradQ
         (processBlockIJ K stream (call_skipBoundsChecks c) p T
            (call_query_start c) (call_key_start c) (rng_state_init p)
            di0 zij0 gb0)
         (j / kBlockSizeJ K * kBlockSizeJ K)
         (i - call_query_start c) (j mod kBlockSizeJ K))
    (filter
       (fun c => call_query_start c =? i / kBlockSizeI K * kBlockSizeI K)
       (kernel_calls K p)).
Proof.
  intros Hi Hj Hnk.
  destruct tile_sizes as (HI & HJ & HES).
  destruct dims_in_range as (Q0 & K0 & D0 & V0 & Q1 & K1 & D1 & V1).
  pose proof (kNeedsAccumGradQ_true K) as HnQ.
  destruct (tile_of_index (kBlockSizeI K) i ltac:(lia) ltac:(lia))
    as (Hdq & Hq0 & Hqm & Hqb).
  destruct (tile_of_index (kBlockSizeJ K) j ltac:(lia) ltac:(lia))
    as (Hdc & Hc0 & Hcm & Hcb).
  set (qs0 := i / kBlockSizeI K * kBlockSizeI K) in *.
  set (col0 := j / kBlockSizeJ K * kBlockSizeJ K) in *.
  set (m := i mod kBlockSizeI K) in *.
  set (n := j mod kBlockSizeJ K) in *.
  set (relc := fun c : BlockCall => call_query_start c =? qs0).
  set (Cc := fun c : BlockCall =>
         block_gradQ
           (processBlockIJ K stream (call_skipBoundsChecks c) p T
              (call_query_start c) (call_key_start c) (rng_state_init p)
              di0 zij0 gb0) col0 m n).
  rewrite (sum_calls_ext _ Cc).
  2:{ intros c Hc. apply filter_In in Hc. destruct Hc as [_ Hc].
      apply Z.eqb_eq in Hc. unfold Cc. rewrite Hc. rewrite Hqm.
      reflexivity. }
  assert (Hcol0 : In col0 (MatmulGradQ_cols K p)).
  { unfold MatmulGradQ_cols.
    apply cols_In; [lia | lia | lia | split; [lia | exact Hdc]]. }
  set (a0 := accumulator_address K (layout_gradQ L)
               (MatmulGradQ_gmem_tile K p w qs0 col0) m n).
  set (first := fun e : KernelStep =>
         match e with
         | call_processBlockIJ c => MatmulGradQ_isFirst (call_key_start c)
         | _ => false
         end).
  set (last := fun e : KernelStep =>
         match e with
         | call_processBlockIJ c =>
             MatmulGradQ_isLast K p (call_query_start c) (call_key_start c)
         | _ => false
         end).
  set (C := fun e : KernelStep =>
         match e with call_processBlockIJ c => Cc c | _ => 0%R end).
  assert (Hi' : i = qs0 + m) by lia.
  assert (Hj' : j = col0 + n) by lia.
  assert (Hsplit := kernel_steps_split K p).
  assert (Hc0s : scheduled_tile K p
                   (Build_BlockCall (tile_is_full K p qs0 0) qs0 0)).
  { unfold scheduled_tile.
    cbn [call_query_start call_key_start call_skipBoundsChecks].
    destruct (getQueryStart_bounds K p 0 ltac:(lia)) as [Hg _].
    repeat split; try lia; try assumption. exists 0. reflexivity. }
  unfold kernel_gradients, sum_calls.
  rewrite <- (step_calls_kernel_steps K p).
  rewrite <- (sum_is_call Cc relc).
  rewrite Hi' at 1. rewrite Hj' at 1.
  apply (flagged_accumulation KernelStep KernelState
           (kernel_step K L stream p w T) (is_call relc) first last C
           (fun t => gmem_workspace t a0)
           (fun t => gmem_grad_query t (qs0 + m) (col0 + n))
           (kernel_steps K p)).
  - (* the calls of the query tile *)
    intros t e Hin Hrel. destruct e as [| c |]; try discriminate.
    cbn [is_call] in Hrel. unfold relc in Hrel. apply Z.eqb_eq in Hrel.
    apply In_step_calls in Hin. rewrite step_calls_kernel_steps in Hin.
    pose proof (proj1 (calls_scheduled c) Hin) as Hsc.
    destruct (scheduled_extents_eq c Hsc) as [Enq _].
    pose proof (run_dQ_cell c t col0 m n di0 zij0 gb0 Hin Hcol0) as Hrun.
    rewrite Hrel in *. cbv zeta in Hrun.
    specialize (Hrun ltac:(lia) ltac:(lia)).
    unfold first, last, C, Cc. cbn [kernel_step]. rewrite Hrel.
    exact Hrun.
  - (* the other steps and the rows of the query tile *)
    intros t e Hin Hrel. destruct e as [| c |]; try reflexivity.
    cbn [is_call] in Hrel. unfold relc in Hrel. apply Z.eqb_neq in Hrel.
    apply In_step_calls in Hin. rewrite step_calls_kernel_steps in Hin.
    destruct (proj1 (calls_scheduled c) Hin) as (_ & _ & [u Hu] & _).
    destruct Hdq as [u0 Hu0].
    cbn [kernel_step]. apply (proj1 (proj2 (run_rows c t))).
    assert (u <> u0) by (intros ->; apply Hrel; lia).
    nia.
  - (* first *)
    intros l1 e l2 Hl Hrel. destruct e as [| c |]; try discriminate.
    cbn [is_call] in Hrel. unfold relc in Hrel. apply Z.eqb_eq in Hrel.
    destruct (Hsplit l1 c l2 ltac:(lia) ltac:(lia) ltac:(lia) ltac:(lia) Hl)
      as (Hsc & H1 & H2).
    unfold first, MatmulGradQ_isFirst. rewrite existsb_is_call.
    destruct (Z.eqb_spec (call_key_start c) 0) as [E | N]; cbn [negb].
    + symmetry. apply negb_true_iff, not_true_is_false. intros Hex.
      apply existsb_exists in Hex. destruct Hex as (c' & Hc' & Hr').
      unfold relc in Hr'. apply Z.eqb_eq in Hr'.
      apply H1 in Hc'. destruct Hc' as [(_ & Hk' & _) Hlt].
      unfold call_lt in Hlt. lia.
    + symmetry. apply negb_false_iff, existsb_exists.
      exists (Build_BlockCall (tile_is_full K p qs0 0) qs0 0). split.
      * apply H1. split; [exact Hc0s |].
        destruct Hsc as (_ & Hk & _).
        unfold call_lt. cbn [call_query_start call_key_start]. lia.
      * unfold relc. cbn [call_query_start]. apply Z.eqb_refl.
  - (* last *)
    intros l1 e l2 Hl Hrel. destruct e as [| c |]; try discriminate.
    cbn [is_call] in Hrel. unfold relc in Hrel. apply Z.eqb_eq in Hrel.
    destruct (Hsplit l1 c l2 ltac:(lia) ltac:(lia) ltac:(lia) ltac:(lia) Hl)
      as (Hsc & H1 & H2).
    unfold last. rewrite existsb_is_call.
    destruct (MatmulGradQ_isLast K p (call_query_start c) (call_key_start c))
      eqn:Hlast; cbn [negb].
    + symmetry. apply negb_true_iff, not_true_is_false. intros Hex.
      apply existsb_exists in Hex. destruct Hex as (c' & Hc' & Hr').
      unfold relc in Hr'. apply Z.eqb_eq in Hr'.
      apply H2 in Hc'. destruct Hc' as [Hsc' Hlt].
      rewrite (dQ_not_last c c' Hsc Hsc') in Hlast; [discriminate | lia |].
      unfold call_lt in Hlt. lia.
    + symmetry. apply negb_false_iff, existsb_exists.
      destruct (dQ_next_key_tile c Hsc Hlast) as [Hn1 Hn2].
      eexists. split; [apply H2; split; [exact Hn1 | exact Hn2] |].
      unfold relc. cbn [call_query_start]. apply Z.eqb_eq. exact Hrel.
  - (* the other steps and the tile of the workspace *)
    intros l1 e l2 t Hl Hrel Hex1 Hex2.
    destruct e as [| c |]; try reflexivity.
    cbn [is_call] in Hrel. unfold relc in Hrel. apply Z.eqb_neq in Hrel.
    destruct (Hsplit l1 c l2 ltac:(lia) ltac:(lia) ltac:(lia) ltac:(lia) Hl)
      as (Hsc & H1 & H2).
    rewrite existsb_is_call in Hex1, Hex2.
    apply existsb_exists in Hex1, Hex2.
    destruct Hex1 as (c1 & Hc1 & Hr1). destruct Hex2 as (c2 & Hc2 & Hr2).
    unfold relc in Hr1, Hr2. apply Z.eqb_eq in Hr1, Hr2.
    apply H1 in Hc1. apply H2 in Hc2.
    destruct Hc1 as [Hsc1 Hlt1]. destruct Hc2 as [Hsc2 Hlt2].
    assert (Hlast1 : MatmulGradQ_isLast K p (call_query_start c1)
                       (call_key_start c1) = false).
    { apply (dQ_not_last c1 c2 Hsc1 Hsc2); [lia |].
      unfold call_lt in *. lia. }
    cbn [kernel_step].
    pose proof (run_workspace_other_query c c1 t col0 m n
                  (proj2 (calls_scheduled c) Hsc)
                  (proj2 (calls_scheduled c1) Hsc1)) as Hfr.
    rewrite Hr1 in Hfr. cbv zeta in Hfr. apply Hfr; try lia.
    + exact Hcol0.
    + unfold MatmulGradQ_stores. rewrite HnQ.
      rewrite <- Hr1. rewrite Hlast1. apply orb_true_r.
  - (* some call visits the query tile *)
    rewrite existsb_is_call. apply existsb_exists.
    exists (Build_BlockCall (tile_is_full K p qs0 0) qs0 0). split.
    + rewrite step_calls_kernel_steps. apply calls_scheduled. exact Hc0s.
    + unfold relc. cbn [call_query_start]. apply Z.eqb_refl.
Qed.

(** *** The accumulation of dV and dK over the query tiles *)

Lemma writeFragsToGmem_in_registers skip ks :
  In (call_writeFragsToGmem skip ks) (kernel_steps K p) ->
  kOutputInRF K = true.
Proof.
  unfold kernel_steps. cbv zeta. intros H.
  assert (Hk : forall sk k calls,
            In (call_writeFragsToGmem skip ks)
              (kernel_key_steps K sk k calls) -> kOutputInRF K = true).
  { intros sk k calls Hin. unfold kernel_key_steps in Hin.
    destruct Hin as [Hin | Hin]; [discriminate |].
    apply in_app_or in Hin. destruct Hin as [Hin | Hin].
    - apply in_map_iff in Hin. destruct Hin as (x & Hx & _). discriminate.
    - destruct (kOutputInRF K); [reflexivity | destruct Hin]. }
  apply in_app_or in H. destruct H as [H | H].
  - apply in_flat_map in H. destruct H as (k & _ & H). apply (Hk _ _ _ H).
  - destruct (negb (_ =? num_keys p)); [apply (Hk _ _ _ H) | destruct H].
Qed.

Lemma scheduled_next_query c :
  scheduled_tile K p c ->
  call_query_start c + kBlockSizeI K < num_queries p ->
  let c' :=
    Build_BlockCall
      (tile_is_full K p (call_query_start c + kBlockSizeI K)
         (call_key_start c))
      (call_query_start c + kBlockSizeI K) (call_key_start c) in
  scheduled_tile K p c' /\ call_lt c c'.
Proof.
  intros (Hdk & Hks & [u Hu] & Hqs & _) Hlt c'.
  destruct tile_sizes as (HI & HJ & HES).
  split.
  - unfold scheduled_tile, c'.
    cbn [call_query_start call_key_start call_skipBoundsChecks].
    repeat split; try lia; try assumption.
    exists (u + 1). lia.
  - unfold call_lt, c'. cbn [call_query_start call_key_start]. lia.
Qed.

(** In the workspace mode, an accumulator of a key tile that the calls of
    the tile build up in [cell] and leave in [out]. *)
Lemma key_tile_sum (cell out : KernelState -> R) (Cc : BlockCall -> R)
  ks0 s :
  kOutputInRF K = false ->
  (kBlockSizeJ K | ks0) -> 0 <= ks0 < num_keys p ->
  getQueryStart K p ks0 < num_queries p ->
  (forall t c, In c (kernel_calls K p) -> call_key_start c = ks0 ->
     if isLastQuery K p (call_query_start c) (call_key_start c)
     then out (processBlockIJ_run K L stream p w T t c) =
          ((if isFirstQuery p (call_query_start c) (call_key_start c)
            then 0 else cell t) + Cc c)%R
     else cell (processBlockIJ_run K L stream p w T t c) =
          ((if isFirstQuery p (call_query_start c) (call_key_start c)
            then 0 else cell t) + Cc c)%R) ->
  (forall t c, In c (kernel_calls K p) -> call_key_start c <> ks0 ->
     out (processBlockIJ_run K L stream p w T t c) = out t) ->
  (forall t gradV gradK,
     out (set_output_frags t gradV gradK) = out t /\
     cell (set_output_frags t gradV gradK) = cell t) ->
  out (kernel_gradients K L stream p w T s) =
  sum_calls Cc
    (filter (fun c => call_key_start c =? ks0) (kernel_calls K p)).
Proof.
  intros HRF Hdk Hks Hvis Heff Hout Hclear.
  destruct tile_sizes as (HI & HJ & HES).
  destruct dims_in_range as (Q0 & K0 & D0 & V0 & Q1 & K1 & D1 & V1).
  set (relc := fun c : BlockCall => call_key_start c =? ks0).
  set (first := fun e : KernelStep =>
         match e with
         | call_processBlockIJ c =>
             isFirstQuery p (call_query_start c) (call_key_start c)
         | _ => false
         end).
  set (last := fun e : KernelStep =>
         match e with
         | call_processBlockIJ c =>
             isLastQuery K p (call_query_start c) (call_key_start c)
         | _ => false
         end).
  set (C := fun e : KernelStep =>
         match e with call_processBlockIJ c => Cc c | _ => 0%R end).
  assert (Hsplit := kernel_steps_split K p).
  destruct (getQueryStart_bounds K p ks0 ltac:(lia)) as [Hg Hgd].
  assert (Hc0s : scheduled_tile K p
                   (Build_BlockCall
                      (tile_is_full K p (getQueryStart K p ks0) ks0)
                      (getQueryStart K p ks0) ks0)).
  { unfold scheduled_tile.
    cbn [call_query_start call_key_start call_skipBoundsChecks].
    repeat split; try lia; assumption. }
  unfold kernel_gradients, sum_calls.
  rewrite <- (step_calls_kernel_steps K p).
  rewrite <- (sum_is_call Cc relc).
  apply (flagged_accumulation KernelStep KernelState
           (kernel_step K L stream p w T) (is_call relc) first last C
           cell out (kernel_steps K p)).
  - intros t e Hin Hrel. destruct e as [| c |]; try discriminate.
    cbn [is_call] in Hrel. unfold relc in Hrel. apply Z.eqb_eq in Hrel.
    apply In_step_calls in Hin. rewrite step_calls_kernel_steps in Hin.
    unfold first, last, C. cbn [kernel_step]. apply Heff; assumption.
  - intros t e Hin Hrel. destruct e as [| c | sk k].
    + cbn [kernel_step]. apply Hclear.
    + cbn [is_call] in Hrel. unfold relc in Hrel. apply Z.eqb_neq in Hrel.
      apply In_step_calls in Hin. rewrite step_calls_kernel_steps in Hin.
      cbn [kernel_step]. apply Hout; assumption.
    + apply writeFragsToGmem_in_registers in Hin. congruence.
  - intros l1 e l2 Hl Hrel. destruct e as [| c |]; try discriminate.
    cbn [is_call] in Hrel. unfold relc in Hrel. apply Z.eqb_eq in Hrel.
    destruct (Hsplit l1 c l2 ltac:(lia) ltac:(lia) ltac:(lia) ltac:(lia) Hl)
      as (Hsc & H1 & H2).
    unfold first. rewrite existsb_is_call.
    rewrite (isFirstQuery_spec K p c) by (assumption || lia).
    rewrite Hrel.
    destruct (Z.eqb_spec (call_query_start c) (getQueryStart K p ks0))
      as [E | N]; cbn [negb].
    + symmetry. apply negb_true_iff, not_true_is_false. intros Hex.
      apply existsb_exists in Hex. destruct Hex as (c' & Hc' & Hr').
      unfold relc in Hr'. apply Z.eqb_eq in Hr'.
      apply H1 in Hc'. destruct Hc' as [(_ & _ & _ & Hq' & _) Hlt].
      rewrite Hr' in Hq'. unfold call_lt in Hlt. lia.
    + symmetry. apply negb_false_iff, existsb_exists.
      eexists. split; [apply H1; split; [exact Hc0s |] |].
      * destruct Hsc as (_ & _ & _ & Hq & _). rewrite Hrel in Hq.
        unfold call_lt. cbn [call_query_start call_key_start]. lia.
      * unfold relc. cbn [call_key_start]. apply Z.eqb_refl.
  - intros l1 e l2 Hl Hrel. destruct e as [| c |]; try discriminate.
    cbn [is_call] in Hrel. unfold relc in Hrel. apply Z.eqb_eq in Hrel.
    destruct (Hsplit l1 c l2 ltac:(lia) ltac:(lia) ltac:(lia) ltac:(lia) Hl)
      as (Hsc & H1 & H2).
    unfold last. rewrite existsb_is_call.
    rewrite (isLastQuery_spec K p c) by (assumption || lia).
    destruct (Z.geb_spec (call_query_start c + kBlockSizeI K)
                (num_queries p)) as [G | G]; cbn [negb].
    + symmetry. apply negb_true_iff, not_true_is_false. intros Hex.
      apply existsb_exists in Hex. destruct Hex as (c' & Hc' & Hr').
      unfold relc in Hr'. apply Z.eqb_eq in Hr'.
      apply H2 in Hc'. destruct Hc' as [(_ & _ & [u' Hu'] & Hq' & _) Hlt].
      destruct Hsc as (_ & _ & [u Hu] & _).
      unfold call_lt in Hlt.
      assert (u < u') by nia. nia.
    + symmetry. apply negb_false_iff, existsb_exists.
      destruct (scheduled_next_query c Hsc G) as [Hn1 Hn2].
      eexists. split; [apply H2; split; [exact Hn1 | exact Hn2] |].
      unfold relc. cbn [call_key_start]. apply Z.eqb_eq. exact Hrel.
  - intros l1 e l2 t Hl Hrel Hex1 Hex2. destruct e as [| c | sk k].
    + cbn [kernel_step]. apply Hclear.
    + exfalso.
      cbn [is_call] in Hrel. unfold relc in Hrel. apply Z.eqb_neq in Hrel.
      destruct (Hsplit l1 c l2 ltac:(lia) ltac:(lia) ltac:(lia) ltac:(lia)
                  Hl) as (Hsc & H1 & H2).
      rewrite existsb_is_call in Hex1, Hex2.
      apply existsb_exists in Hex1, Hex2.
      destruct Hex1 as (c1 & Hc1 & Hr1). destruct Hex2 as (c2 & Hc2 & Hr2).
      unfold relc in Hr1, Hr2. apply Z.eqb_eq in Hr1, Hr2.
      apply H1 in Hc1. apply H2 in Hc2.
      destruct Hc1 as [_ Hlt1]. destruct Hc2 as [_ Hlt2].
      unfold call_lt in *. lia.
    + exfalso.
      assert (Hin : In (call_writeFragsToGmem sk k) (kernel_steps K p)).
      { rewrite Hl. apply in_or_app. right. left. reflexivity. }
      apply writeFragsToGmem_in_registers in Hin. congruence.
  - rewrite existsb_is_call. apply existsb_exists.
    eexists. split.
    + rewrite step_calls_kernel_steps. apply calls_scheduled. exact Hc0s.
    + unfold relc. cbn [call_key_start]. apply Z.eqb_refl.
Qed.

Lemma filter_all (A : Type) (f : A -> bool) (l : list A) :
  (forall x, In x l -> f x = true) -> filter f l = l.
Proof.
  induction l as [| a l IH]; intros H; [reflexivity |]. cbn [filter].
  rewrite (H a) by (left; reflexivity). f_equal.
  apply IH. intros x Hx. apply H. right. exact Hx.
Qed.

Lemma filter_nothing (A : Type) (f : A -> bool) (l : list A) :
  (forall x, In x l -> f x = false) -> filter f l = [].
Proof.
  induction l as [| a l IH]; intros H; [reflexivity |]. cbn [filter].
  rewrite (H a) by (left; reflexivity).
  apply IH. intros x Hx. apply H. right. exact Hx.
Qed.

Lemma key_tile_calls_key c ks :
  In c (key_tile_calls K p ks) -> call_key_start c = ks.
Proof.
  unfold key_tile_calls. intros H. apply in_map_iff in H.
  destruct H as (q & <- & _). reflexivity.
Qed.

Lemma key_tiles_NoDup : NoDup (for_range 0 (num_keys p) (kBlockSizeJ K)).
Proof.
  destruct tile_sizes as (HI & HJ & HES).
  destruct dims_in_range as (Q0 & K0 & D0 & V0 & Q1 & K1 & D1 & V1).
  apply cols_NoDup; lia.
Qed.

Lemma filter_key_tile ks0 :
  In ks0 (for_range 0 (num_keys p) (kBlockSizeJ K)) ->
  filter (fun c => call_key_start c =? ks0) (kernel_calls K p) =
  key_tile_calls K p ks0.
Proof.
  intros Hin.
  destruct dims_in_range as (Q0 & K0 & D0 & V0 & Q1 & K1 & D1 & V1).
  rewrite kernel_calls_all_tiles by lia. unfold all_tile_calls.
  pose proof key_tiles_NoDup as Hnd.
  destruct (in_split _ _ Hin) as (l1 & l2 & E). rewrite E in *.
  apply NoDup_remove_2 in Hnd.
  assert (Hother : forall l, (forall k, In k l -> k <> ks0) ->
            filter (fun c => call_key_start c =? ks0)
              (flat_map (key_tile_calls K p) l) = []).
  { intros l Hl. apply filter_nothing. intros c Hc.
    apply in_flat_map in Hc. destruct Hc as (k & Hk & Hc).
    apply key_tile_calls_key in Hc. apply Z.eqb_neq. rewrite Hc.
    apply Hl, Hk. }
  rewrite flat_map_app. cbn [flat_map]. rewrite !filter_app.
  rewrite !Hother.
  - rewrite app_nil_r. cbn [app]. apply filter_all.
    intros c Hc. apply key_tile_calls_key in Hc. apply Z.eqb_eq, Hc.
  - intros k Hk ->. apply Hnd. apply in_or_app. right. exact Hk.
  - intros k Hk ->. apply Hnd. apply in_or_app. left. exact Hk.
Qed.

Lemma fold_left_map_step (A B S : Type) (step : S -> B -> S) (g : A -> B)
  (l : list A) : forall s,
  fold_left step (map g l) s = fold_left (fun t a => step t (g a)) l s.
Proof.
  induction l as [| a l IH]; intros s; [reflexivity |].
  cbn [map fold_left]. apply IH.
Qed.

Lemma key_tile_calls_scheduled ks c :
  In ks (for_range 0 (num_keys p) (kBlockSizeJ K)) ->
  In c (key_tile_calls K p ks) -> In c (kernel_calls K p).
Proof.
  intros Hks Hc.
  destruct dims_in_range as (Q0 & K0 & D0 & V0 & Q1 & K1 & D1 & V1).
  rewrite kernel_calls_all_tiles by lia. unfold all_tile_calls.
  apply in_flat_map. exists ks. split; assumption.
Qed.

(** When the accumulators stay in the registers, an accumulator of a key
    tile that the calls of the tile build up in the fragments, for
    [writeFragsToGmem] to leave it in [out]. *)
Lemma key_tile_sum_registers (frag out : KernelState -> R)
  (Cc : BlockCall -> R) ks0 s :
  kOutputInRF K = true ->
  In ks0 (for_range 0 (num_keys p) (kBlockSizeJ K)) ->
  (forall t c, In c (kernel_calls K p) -> call_key_start c = ks0 ->
     frag (processBlockIJ_run K L stream p w T t c) = (frag t + Cc c)%R) ->
  (forall t c, In c (kernel_calls K p) -> call_key_start c <> ks0 ->
     out (processBlockIJ_run K L stream p w T t c) = out t) ->
  (forall t,
     frag (set_output_frags t clear_fragments clear_fragments) = 0%R /\
     out (set_output_frags t clear_fragments clear_fragments) = out t) ->
  (forall t,
     out (writeFragsToGmem K L (ks0 + kBlockSizeJ K <=? num_keys p) p ks0 t)
     = frag t) ->
  (forall t sk k, In k (for_range 0 (num_keys p) (kBlockSizeJ K)) ->
     k <> ks0 -> out (writeFragsToGmem K L sk p k t) = out t) ->
  out (kernel_gradients K L stream p w T s) =
  sum_calls Cc
    (filter (fun c => call_key_start c =? ks0) (kernel_calls K p)).
Proof.
  intros HRF Hin Hadd Hout Hclear Hwrite Hwrite'.
  destruct dims_in_range as (Q0 & K0 & D0 & V0 & Q1 & K1 & D1 & V1).
  rewrite (filter_key_tile ks0 Hin).
  unfold kernel_gradients. rewrite kernel_steps_all_tiles by lia.
  unfold all_tile_steps.
  set (f := fun key_start : Z =>
         kernel_key_steps K (key_start + kBlockSizeJ K <=? num_keys p)
           key_start (key_tile_calls K p key_start)).
  set (step := kernel_step K L stream p w T).
  pose proof key_tiles_NoDup as Hnd.
  assert (Hall : forall k, In k (for_range 0 (num_keys p) (kBlockSizeJ K)) ->
                   k <> ks0 ->
                   forall t e, In e (f k) -> out (step t e) = out t).
  { intros k Hk Hne t e He. unfold f, kernel_key_steps in He.
    rewrite HRF in He.
    destruct He as [<- | He]; [apply Hclear |].
    apply in_app_or in He. destruct He as [He | [<- | []]].
    - apply in_map_iff in He. destruct He as (c & <- & Hc).
      cbn [step kernel_step]. apply Hout.
      + apply (key_tile_calls_scheduled k); assumption.
      + rewrite (key_tile_calls_key c k Hc). exact Hne.
    - cbn [step kernel_step]. apply Hwrite'; assumption. }
  destruct (in_split _ _ Hin) as (l1 & l2 & E). rewrite E in Hnd |- *.
  apply NoDup_remove_2 in Hnd.
  rewrite flat_map_app. cbn [flat_map]. rewrite !fold_left_app.
  set (t1 := fold_left step (flat_map f l1) s).
  transitivity (out (fold_left step (f ks0) t1)).
  { apply (fold_left_inv KernelStep KernelState
             (fun t => out t = out (fold_left step (f ks0) t1)));
      [| reflexivity].
    intros t e He Ht. rewrite <- Ht.
    apply in_flat_map in He. destruct He as (k & Hk & He).
    apply (Hall k);
      [rewrite E; apply in_or_app; right; right; exact Hk | | exact He].
    intros ->. apply Hnd. apply in_or_app. right. exact Hk. }
  unfold f at 1, kernel_key_steps. rewrite HRF.
  cbn [fold_left]. rewrite fold_left_app. cbn [fold_left].
  cbn [step kernel_step]. rewrite Hwrite.
  rewrite fold_left_map_step.
  rewrite (fold_left_accumulate BlockCall KernelState _ frag Cc).
  - rewrite (proj1 (Hclear t1)). reflexivity.
  - intros t c Hc. cbn [step kernel_step]. apply Hadd.
    + apply (key_tile_calls_scheduled ks0); assumption.
    + apply (key_tile_calls_key c ks0 Hc).
Qed.

Lemma grad_value_sum s j c di0 zij0 gb0 :
  0 <= j < num_keys p -> 0 <= c < head_dim_value p ->
  (kOutputInRF K = true -> c < kBlockSizeI K) ->
  (kOutputInRF K = false ->
   getQueryStart K p (j / kBlockSizeJ K * kBlockSizeJ K) < num_queries p) ->
  gmem_grad_value (kernel_gradients K L stream p w T s) j c =
  sum_calls
    (fun call =>
       block_gradV
         (processBlockIJ K stream (call_skipBoundsChecks call) p T
            (call_query_start call) (call_key_start call) (rng_state_init p)
            di0 zij0 gb0)
         (c / kBlockSizeI K * kBlockSizeI K)
         (j - call_key_start call) (c mod kBlockSizeI K))
    (filter
       (fun call => call_key_start call =? j / kBlockSizeJ K * kBlockSizeJ K)
       (kernel_calls K p)).
Proof.
  intros Hj Hc HcRF Hvis.
  destruct tile_sizes as (HI & HJ & HES).
  destruct dims_in_range as (Q0 & K0 & D0 & V0 & Q1 & K1 & D1 & V1).
  destruct (tile_of_index (kBlockSizeJ K) j ltac:(lia) ltac:(lia))
    as (Hdk & Hk0 & Hkm & Hkb).
  destruct (tile_of_index (kBlockSizeI K) c ltac:(lia) ltac:(lia))
    as (Hdc & Hc0 & Hcm & Hcb).
  set (ks0 := j / kBlockSizeJ K * kBlockSizeJ K) in *.
  set (col0 := c / kBlockSizeI K * kBlockSizeI K) in *.
  set (m := j mod kBlockSizeJ K) in *.
  set (n := c mod kBlockSizeI K) in *.
  set (Cc := fun call : BlockCall =>
         block_gradV
           (processBlockIJ K stream (call_skipBoundsChecks call) p T
              (call_query_start call) (call_key_start call)
              (rng_state_init p) di0 zij0 gb0) col0 m n).
  rewrite (sum_calls_ext _ Cc).
  2:{ intros c' Hc'. apply filter_In in Hc'. destruct Hc' as [_ Hc'].
      apply Z.eqb_eq in Hc'. unfold Cc. rewrite Hc'. rewrite Hkm.
      reflexivity. }
  assert (Hj' : j = ks0 + m) by lia. assert (Hc' : c = col0 + n) by lia.
  assert (Hks0 : In ks0 (for_range 0 (num_keys p) (kBlockSizeJ K))).
  { apply cols_In; [lia | lia | lia | split; [lia | exact Hdk]]. }
  assert (Hext : forall call, In call (kernel_calls K p) ->
            call_key_start call = ks0 ->
            0 <= m < num_keys_in_block K (call_skipBoundsChecks call) p
                       (call_key_start call)).
  { intros call Hin Hk. apply calls_scheduled in Hin.
    destruct (scheduled_extents_eq call Hin) as [_ ->]. rewrite Hk. lia. }
  assert (Hrows : forall t call, In call (kernel_calls K p) ->
            call_key_start call <> ks0 ->
            gmem_grad_value (processBlockIJ_run K L stream p w T t call)
              (ks0 + m) (col0 + n) = gmem_grad_value t (ks0 + m) (col0 + n)).
  { intros t call Hin Hne. apply (proj1 (run_rows call t)).
    apply calls_scheduled in Hin. destruct Hin as ([u Hu] & _).
    destruct Hdk as [u0 Hu0].
    assert (u <> u0) by (intros ->; apply Hne; lia). nia. }
  rewrite Hj' at 1. rewrite Hc' at 1.
  destruct (kOutputInRF K) eqn:HRF.
  - (* the accumulators in the registers *)
    specialize (HcRF eq_refl).
    assert (Ecol : col0 = 0).
    { unfold col0. rewrite Z.div_small by lia. reflexivity. }
    apply (key_tile_sum_registers
             (fun t => tile_of_fragments (layout_gradV L)
                         (output_frags_gradV t) m n)
             (fun t => gmem_grad_value t (ks0 + m) (col0 + n)) Cc ks0 s
             HRF Hks0).
    + intros t call Hin Hk.
      destruct (run_registers call t m n di0 zij0 gb0 HRF Hin
                  (Hext call Hin Hk) ltac:(lia)) as (H1 & _).
      unfold Cc. rewrite Ecol. exact H1.
    + exact Hrows.
    + intros t. split; reflexivity.
    + intros t. unfold writeFragsToGmem. cbv zeta.
      cbn [gmem_grad_value set_gmem_grad_key set_gmem_grad_value].
      rewrite Ecol. rewrite accumulateInGmem_in; [reflexivity | | lia].
      rewrite block_extent_keys; [lia | lia | lia |].
      intros E. apply Z.leb_le in E. exact E.
    + intros t sk k Hk Hne. unfold writeFragsToGmem. cbv zeta.
      cbn [gmem_grad_value set_gmem_grad_key set_gmem_grad_value].
      apply accumulateInGmem_out.
      apply cols_In in Hk; try lia. destruct Hk as [_ [u Hu]].
      destruct Hdk as [u0 Hu0].
      assert (u <> u0) by (intros ->; apply Hne; lia). nia.
  - (* the accumulators in the workspace *)
    specialize (Hvis eq_refl).
    assert (Hcol0 : In col0 (MatmulGradV_cols K p)).
    { unfold MatmulGradV_cols. rewrite HRF.
      apply cols_In; [lia | lia | lia | split; [lia | exact Hdc]]. }
    apply (key_tile_sum
             (fun t => gmem_workspace t
                         (accumulator_address K (layout_gradV L)
                            (MatmulGradV_gmem_tile K w col0) m n))
             (fun t => gmem_grad_value t (ks0 + m) (col0 + n)) Cc ks0 s
             HRF Hdk ltac:(lia) Hvis).
    + intros t call Hin Hk.
      pose proof (run_dV_cell call t col0 m n di0 zij0 gb0 HRF Hin Hcol0
                    (Hext call Hin Hk) ltac:(lia)) as Hrun.
      cbv zeta in Hrun. rewrite <- Hk. exact Hrun.
    + exact Hrows.
    + intros t gradV gradK. split; reflexivity.
Qed.

Lemma grad_key_sum s j c di0 zij0 gb0 :
  0 <= j < num_keys p -> 0 <= c < head_dim p ->
  (kOutputInRF K = true -> c < kBlockSizeI K) ->
  (kOutputInRF K = false ->
   getQueryStart K p (j / kBlockSizeJ K * kBlockSizeJ K) < num_queries p) ->
  gmem_grad_key (kernel_gradients K L stream p w T s) j c =
  sum_calls
    (fun call =>
       block_gradK
         (processBlockIJ K stream (call_skipBoundsChecks call) p T
            (call_query_start call) (call_key_start call) (rng_state_init p)
            di0 zij0 gb0)
         (c / kBlockSizeI K * kBlockSizeI K)
         (j - call_key_start call) (c mod kBlockSizeI K))
    (filter
       (fun call => call_key_start call =? j / kBlockSizeJ K * kBlockSizeJ K)
       (kernel_calls K p)).
Proof.
  intros Hj Hc HcRF Hvis.
  destruct tile_sizes as (HI & HJ & HES).
  destruct dims_in_range as (Q0 & K0 & D0 & V0 & Q1 & K1 & D1 & V1).
  destruct (tile_of_index (kBlockSizeJ K) j ltac:(lia) ltac:(lia))
    as (Hdk & Hk0 & Hkm & Hkb).
  destruct (tile_of_index (kBlockSizeI K) c ltac:(lia) ltac:(lia))
    as (Hdc & Hc0 & Hcm & Hcb).
  set (ks0 := j / kBlockSizeJ K * kBlockSizeJ K) in *.
  set (col0 := c / kBlockSizeI K * kBlockSizeI K) in *.
  set (m := j mod kBlockSizeJ K) in *.
  set (n := c mod kBlockSizeI K) in *.
  set (Cc := fun call : BlockCall =>
         block_gradK
           (processBlockIJ K stream (call_skipBoundsChecks call) p T
              (call_query_start call) (call_key_start call)
              (rng_state_init p) di0 zij0 gb0) col0 m n).
  rewrite (sum_calls_ext _ Cc).
  2:{ intros c' Hc'. apply filter_In in Hc'. destruct Hc' as [_ Hc'].
      apply Z.eqb_eq in Hc'. unfold Cc. rewrite Hc'. rewrite Hkm.
      reflexivity. }
  assert (Hj' : j = ks0 + m) by lia. assert (Hc' : c = col0 + n) by lia.
  assert (Hks0 : In ks0 (for_range 0 (num_keys p) (kBlockSizeJ K))).
  { apply cols_In; [lia | lia | lia | split; [lia | exact Hdk]]. }
  assert (Hext : forall call, In call (kernel_calls K p) ->
            call_key_start call = ks0 ->
            0 <= m < num_keys_in_block K (call_skipBoundsChecks call) p
                       (call_key_start call)).
  { intros call Hin Hk. apply calls_scheduled in Hin.
    destruct (scheduled_extents_eq call Hin) as [_ ->]. rewrite Hk. lia. }
  assert (Hrows : forall t call, In call (kernel_calls K p) ->
            call_key_start call <> ks0 ->
            gmem_grad_key (processBlockIJ_run K L stream p w T t call)
              (ks0 + m) (col0 + n) = gmem_grad_key t (ks0 + m) (col0 + n)).
  { intros t call Hin Hne. apply (proj1 (run_rows call t)).
    apply calls_scheduled in Hin. destruct Hin as ([u Hu] & _).
    destruct Hdk as [u0 Hu0].
    assert (u <> u0) by (intros ->; apply Hne; lia). nia. }
  rewrite Hj' at 1. rewrite Hc' at 1.
  destruct (kOutputInRF K) eqn:HRF.
  - (* the accumulators in the registers *)
    specialize (HcRF eq_refl).
    assert (Ecol : col0 = 0).
    { unfold col0. rewrite Z.div_small by lia. reflexivity. }
    apply (key_tile_sum_registers
             (fun t => tile_of_fragments (layout_gradK L)
                         (output_frags_gradK t) m n)
             (fun t => gmem_grad_key t (ks0 + m) (col0 + n)) Cc ks0 s
             HRF Hks0).
    + intros t call Hin Hk.
      destruct (run_registers call t m n di0 zij0 gb0 HRF Hin
                  (Hext call Hin Hk) ltac:(lia)) as (_ & H1 & _).
      unfold Cc. rewrite Ecol. exact H1.
    + exact Hrows.
    + intros t. split; reflexivity.
    + intros t. unfold writeFragsToGmem. cbv zeta.
      cbn [gmem_grad_key set_gmem_grad_key set_gmem_grad_key].
      rewrite Ecol. rewrite accumulateInGmem_in; [reflexivity | | lia].
      rewrite block_extent_keys; [lia | lia | lia |].
      intros E. apply Z.leb_le in E. exact E.
    + intros t sk k Hk Hne. unfold writeFragsToGmem. cbv zeta.
      cbn [gmem_grad_key set_gmem_grad_key set_gmem_grad_key].
      apply accumulateInGmem_out.
      apply cols_In in Hk; try lia. destruct Hk as [_ [u Hu]].
      destruct Hdk as [u0 Hu0].
      assert (u <> u0) by (intros ->; apply Hne; lia). nia.
  - (* the accumulators in the workspace *)
    specialize (Hvis eq_refl).
    assert (Hcol0 : In col0 (MatmulGradK_cols K p)).
    { unfold MatmulGradK_cols. rewrite HRF.
      apply cols_In; [lia | lia | lia | split; [lia | exact Hdc]]. }
    apply (key_tile_sum
             (fun t => gmem_workspace t
                         (accumulator_address K (layout_gradK L)
                            (MatmulGradK_gmem_tile K w col0) m n))
             (fun t => gmem_grad_key t (ks0 + m) (col0 + n)) Cc ks0 s
             HRF Hdk ltac:(lia) Hvis).
    + intros t call Hin Hk.
      pose proof (run_dK_cell call t col0 m n di0 zij0 gb0 HRF Hin Hcol0
                    (Hext call Hin Hk) ltac:(lia)) as Hrun.
      cbv zeta in Hrun. rewrite <- Hk. exact Hrun.
    + exact Hrows.
    + intros t gradV gradK. split; reflexivity.
Qed.

(** *** The bias gradient *)

Lemma store_grad_bias_out skip qs ks attn zij di grad_bias i j :
  grad_bias_ptr p = 0 \/
  i < qs \/ qs + num_queries_in_block K skip p qs <= i \/
  j < ks \/ ks + num_keys_in_block K skip p ks <= j ->
  store_grad_bias K skip p T qs ks attn zij di grad_bias i j = grad_bias i j.
Proof.
  intros H. unfold store_grad_bias.
  destruct (Z.eqb_spec (grad_bias_ptr p) 0) as [E | N]; [reflexivity |].
  cbn [negb]. unfold epilogue_store.
  destruct (Z.leb_spec 0 (i - qs)); [| reflexivity].
  destruct (Z.ltb_spec (i - qs) (num_queries_in_block K skip p qs));
    [| reflexivity].
  destruct (Z.leb_spec 0 (j - ks)); [| reflexivity].
  destruct (Z.ltb_spec (j - ks) (num_keys_in_block K skip p ks));
    [| reflexivity].
  lia.
Qed.

Lemma run_grad_bias c s :
  gmem_grad_bias (processBlockIJ_run K L stream p w T s c) =
  store_grad_bias K (call_skipBoundsChecks c) p T
    (call_query_start c) (call_key_start c)
    (attn_T K (call_skipBoundsChecks c) p T
       (call_query_start c) (call_key_start c))
    (generate_zij K stream (call_skipBoundsChecks c) p
       (call_query_start c) (call_key_start c) (rng_state_init p)
       (smem_zij s))
    (loadDi K p T (call_query_start c) (smem_di s))
    (gmem_grad_bias s).
Proof.
  unfold processBlockIJ_run. cbv zeta.
  set (skip := call_skipBoundsChecks c) in *.
  set (qs := call_query_start c) in *. set (ks := call_key_start c) in *.
  set (attn := attn_T K skip p T qs ks).
  set (zij := generate_zij K stream skip p qs ks (rng_state_init p)
                (smem_zij s)).
  set (di := loadDi K p T qs (smem_di s)).
  set (s1 := set_smem s di zij).
  set (sV := fold_left (GradV_column K L skip p w T qs ks attn zij)
               (MatmulGradV_cols K p) s1).
  set (sB := set_gmem_grad_bias sV _).
  set (sQ := fold_left (GradQ_column K L skip p w T qs ks attn zij di)
               (MatmulGradQ_cols K p) sB).
  destruct (GradK_loop_others skip qs ks attn zij di sQ)
    as (_ & _ & _ & _ & _ & ->).
  unfold sQ.
  destruct (GradQ_loop_others skip qs ks attn zij di sB)
    as (_ & _ & _ & _ & _ & _ & ->).
  unfold sB. cbn [gmem_grad_bias set_gmem_grad_bias].
  destruct (GradV_loop_others skip qs ks attn zij s1)
    as (_ & _ & _ & _ & _ & EV).
  fold sV in EV. rewrite EV. reflexivity.
Qed.

(** A call leaves the bias gradient of the other tiles as it is. *)
Lemma run_grad_bias_other c s i j :
  scheduled_tile K p c ->
  grad_bias_ptr p = 0 \/
  call_query_start c <> i / kBlockSizeI K * kBlockSizeI K \/
  call_key_start c <> j / kBlockSizeJ K * kBlockSizeJ K ->
  0 <= i -> 0 <= j ->
  gmem_grad_bias (processBlockIJ_run K L stream p w T s c) i j =
  gmem_grad_bias s i j.
Proof.
  intros Hsc H Hi Hj. rewrite run_grad_bias.
  destruct tile_sizes as (HI & HJ & HES).
  destruct (scheduled_extents c Hsc) as (E1 & E2 & _).
  destruct Hsc as ([u Hu] & _ & [v Hv] & _).
  destruct (tile_of_index (kBlockSizeI K) i ltac:(lia) Hi)
    as ([v0 Hv0] & Hq0 & Hqm & Hqb).
  destruct (tile_of_index (kBlockSizeJ K) j ltac:(lia) Hj)
    as ([u0 Hu0] & Hk0 & Hkm & Hkb).
  apply store_grad_bias_out.
  destruct H as [H | [H | H]]; [left; exact H | |].
  - assert (v <> v0) by (intros ->; apply H; lia). right. nia.
  - assert (u <> u0) by (intros ->; apply H; lia). right. right. right. nia.
Qed.

Lemma grad_bias_written s i j di0 zij0 gb0 :
  0 <= i < num_queries p -> 0 <= j < num_keys p ->
  let qs0 := i / kBlockSizeI K * kBlockSizeI K in
  let ks0 := j / kBlockSizeJ K * kBlockSizeJ K in
  grad_bias_ptr p <> 0 -> getQueryStart K p ks0 <= qs0 ->
  gmem_grad_bias (kernel_gradients K L stream p w T s) i j =
  block_grad_bias
    (processBlockIJ K stream (tile_is_full K p qs0 ks0) p T qs0 ks0
       (rng_state_init p) di0 zij0 gb0) i j.
Proof.
  intros Hi Hj qs0 ks0 Hptr Hvis.
  destruct tile_sizes as (HI & HJ & HES).
  destruct dims_in_range as (Q0 & K0 & D0 & V0 & Q1 & K1 & D1 & V1).
  destruct (tile_of_index (kBlockSizeI K) i ltac:(lia) ltac:(lia))
    as (Hdq & Hq0 & Hqm & Hqb).
  destruct (tile_of_index (kBlockSizeJ K) j ltac:(lia) ltac:(lia))
    as (Hdk & Hk0 & Hkm & Hkb).
  fold qs0 in Hdq, Hq0, Hqm. fold ks0 in Hdk, Hk0, Hkm.
  set (c0 := Build_BlockCall (tile_is_full K p qs0 ks0) qs0 ks0).
  assert (Hsc0 : scheduled_tile K p c0).
  { unfold scheduled_tile, c0.
    cbn [call_query_start call_key_start call_skipBoundsChecks].
    repeat split; try lia; assumption. }
  assert (Hin0 : In (call_processBlockIJ c0) (kernel_steps K p)).
  { apply In_step_calls. rewrite step_calls_kernel_steps.
    apply calls_scheduled. exact Hsc0. }
  destruct (in_split _ _ Hin0) as (l1 & l2 & E).
  destruct (kernel_steps_split K p l1 c0 l2 ltac:(lia) ltac:(lia)
              ltac:(lia) ltac:(lia) E) as (_ & _ & H2).
  unfold kernel_gradients. rewrite E, fold_left_app. cbn [fold_left].
  set (t1 := fold_left (kernel_step K L stream p w T) l1 s).
  transitivity (gmem_grad_bias
                  (kernel_step K L stream p w T t1
                     (call_processBlockIJ c0)) i j).
  { apply (fold_left_inv KernelStep KernelState
             (fun t => gmem_grad_bias t i j =
                       gmem_grad_bias
                         (kernel_step K L stream p w T t1
                            (call_processBlockIJ c0)) i j));
      [| reflexivity].
    intros t e He Ht. rewrite <- Ht.
    destruct e as [| c |]; try reflexivity.
    cbn [kernel_step]. apply In_step_calls, H2 in He.
    destruct He as [Hsc Hlt].
    apply run_grad_bias_other; try lia; [exact Hsc |].
    right. unfold call_lt, c0 in Hlt.
    cbn [call_query_start call_key_start] in Hlt. fold qs0 ks0. lia. }
  cbn [kernel_step]. rewrite run_grad_bias.
  unfold processBlockIJ. cbn [block_grad_bias].
  destruct (scheduled_extents_eq c0 Hsc0) as [Enq Enk].
  unfold c0 in *.
  cbn [call_query_start call_key_start call_skipBoundsChecks] in *.
  assert (Hst : forall zij di gb,
            store_grad_bias K (tile_is_full K p qs0 ks0) p T qs0 ks0
              (attn_T K (tile_is_full K p qs0 ks0) p T qs0 ks0)
              zij di gb i j =
            dSij K (tile_is_full K p qs0 ks0) p T qs0 ks0
              (attn_T K (tile_is_full K p qs0 ks0) p T qs0 ks0)
              zij di (i - qs0) (j - ks0)).
  { intros zij di gb.
    pose proof (store_grad_bias_in K (tile_is_full K p qs0 ks0) p T
                  qs0 ks0
                  (attn_T K (tile_is_full K p qs0 ks0) p T qs0 ks0)
                  zij di gb (i - qs0) (j - ks0) Hptr
                  ltac:(lia) ltac:(lia)) as H.
    replace (qs0 + (i - qs0)) with i in H by ring.
    replace (ks0 + (j - ks0)) with j in H by ring.
    exact H. }
  rewrite !Hst.
  apply (dSij_independent
           (Build_BlockCall (tile_is_full K p qs0 ks0) qs0 ks0) Hsc0);
    cbn [call_query_start call_key_start call_skipBoundsChecks]; lia.
Qed.

(** *** What the kernel leaves as it is *)

Lemma writeFragsToGmem_step skip ks :
  In (call_writeFragsToGmem skip ks) (kernel_steps K p) ->
  In ks (for_range 0 (num_keys p) (kBlockSizeJ K)) /\
  skip = (ks + kBlockSizeJ K <=? num_keys p).
Proof.
  destruct dims_in_range as (Q0 & K0 & D0 & V0 & Q1 & K1 & D1 & V1).
  rewrite kernel_steps_all_tiles by lia. unfold all_tile_steps.
  intros H. apply in_flat_map in H. destruct H as (k & Hk & H).
  unfold kernel_key_steps in H.
  destruct H as [H | H]; [discriminate |].
  apply in_app_or in H. destruct H as [H | H].
  - apply in_map_iff in H. destruct H as (x & Hx & _). discriminate.
  - destruct (kOutputInRF K); [| destruct H].
    destruct H as [H | []]. injection H as H1 H2. subst.
    split; [exact Hk | reflexivity].
Qed.

Lemma writeFragsToGmem_rows skip ks s i j :
  In (call_writeFragsToGmem skip ks) (kernel_steps K p) ->
  let s' := writeFragsToGmem K L skip p ks s in
  (i < ks \/ ks + kBlockSizeJ K <= i \/ num_keys p <= i \/
   head_dim_value p <= j ->
   gmem_grad_value s' i j = gmem_grad_value s i j) /\
  (i < ks \/ ks + kBlockSizeJ K <= i \/ num_keys p <= i \/ head_dim p <= j ->
   gmem_grad_key s' i j = gmem_grad_key s i j).
Proof.
  intros Hin s'.
  destruct tile_sizes as (HI & HJ & HES).
  destruct dims_in_range as (Q0 & K0 & D0 & V0 & Q1 & K1 & D1 & V1).
  destruct (writeFragsToGmem_step skip ks Hin) as [Hks ->].
  apply cols_In in Hks; try lia. destruct Hks as [Hks _].
  unfold s', writeFragsToGmem. cbv zeta.
  cbn [gmem_grad_value gmem_grad_key set_gmem_grad_key set_gmem_grad_value].
  rewrite block_extent_keys
    by (try lia; intros E; apply Z.leb_le in E; exact E).
  split; intros H; apply accumulateInGmem_out; lia.
Qed.

Lemma gradients_footprint s i j :
  let s' := kernel_gradients K L stream p w T s in
  (i < 0 \/ num_keys p <= i \/ head_dim_value p <= j \/
   (kOutputInRF K = false /\
    num_queries p <= getQueryStart K p (i / kBlockSizeJ K * kBlockSizeJ K)) ->
   gmem_grad_value s' i j = gmem_grad_value s i j) /\
  (i < 0 \/ num_keys p <= i \/ head_dim p <= j \/
   (kOutputInRF K = false /\
    num_queries p <= getQueryStart K p (i / kBlockSizeJ K * kBlockSizeJ K)) ->
   gmem_grad_key s' i j = gmem_grad_key s i j) /\
  (i < 0 \/ num_queries p <= i \/ head_dim p <= j ->
   gmem_grad_query s' i j = gmem_grad_query s i j).
Proof.
  intros s'.
  destruct tile_sizes as (HI & HJ & HES).
  destruct dims_in_range as (Q0 & K0 & D0 & V0 & Q1 & K1 & D1 & V1).
  assert (Hcall : forall c, In (call_processBlockIJ c) (kernel_steps K p) ->
            scheduled_tile K p c).
  { intros c Hin. apply calls_scheduled.
    rewrite <- step_calls_kernel_steps. apply In_step_calls. exact Hin. }
  assert (Hkey : forall c, scheduled_tile K p c ->
            i < 0 \/ num_keys p <= i \/
            (0 <= i /\
             num_queries p
             <= getQueryStart K p (i / kBlockSizeJ K * kBlockSizeJ K)) ->
            i < call_key_start c \/
            call_key_start c +
              Z.min (num_keys_in_block K (call_skipBoundsChecks c) p
                       (call_key_start c)) (kBlockSizeJ K) <= i).
  { intros c Hsc H.
    destruct (scheduled_extents c Hsc) as (E1 & E2 & E3 & E4 & E5 & E6).
    destruct H as [H | [H | [H0 H]]]; [lia | lia |].
    destruct Hsc as ([u Hu] & _ & _ & Hq & _).
    destruct (tile_of_index (kBlockSizeJ K) i ltac:(lia) H0)
      as ([u0 Hu0] & Hk0 & Hkm & Hkb).
    assert (u <> u0).
    { intros ->. rewrite <- Hu0 in Hu. rewrite <- Hu in H. lia. }
    nia. }
  unfold s', kernel_gradients.
  split; [| split]; intros H.
  - apply (fold_left_inv KernelStep KernelState
             (fun t => gmem_grad_value t i j = gmem_grad_value s i j));
      [| reflexivity].
    intros t e He Ht. rewrite <- Ht. destruct e as [| c | sk k].
    + reflexivity.
    + cbn [kernel_step]. specialize (Hcall c He).
      destruct (run_rows c t) as (R1 & _ & R3 & _).
      destruct (Z.le_gt_cases (head_dim_value p) j) as [Hj | Hj];
        [apply R3; exact Hj |].
      apply R1. apply Hkey; [exact Hcall |].
      destruct (Z.lt_ge_cases i 0); [left; assumption |]. lia.
    + cbn [kernel_step].
      apply (writeFragsToGmem_rows sk k t i j He).
      pose proof (writeFragsToGmem_in_registers sk k He) as HRF.
      destruct (writeFragsToGmem_step sk k He) as [Hk _].
      apply cols_In in Hk; try lia.
      destruct H as [H | [H | [H | [H _]]]]; [lia | lia | lia | congruence].
  - apply (fold_left_inv KernelStep KernelState
             (fun t => gmem_grad_key t i j = gmem_grad_key s i j));
      [| reflexivity].
    intros t e He Ht. rewrite <- Ht. destruct e as [| c | sk k].
    + reflexivity.
    + cbn [kernel_step]. specialize (Hcall c He).
      destruct (run_rows c t) as (R1 & _ & _ & R4).
      destruct (Z.le_gt_cases (head_dim p) j) as [Hj | Hj];
        [apply R4; exact Hj |].
      apply R1. apply Hkey; [exact Hcall |].
      destruct (Z.lt_ge_cases i 0); [left; assumption |]. lia.
    + cbn [kernel_step].
      apply (writeFragsToGmem_rows sk k t i j He).
      pose proof (writeFragsToGmem_in_registers sk k He) as HRF.
      destruct (writeFragsToGmem_step sk k He) as [Hk _].
      apply cols_In in Hk; try lia.
      destruct H as [H | [H | [H | [H _]]]]; [lia | lia | lia | congruence].
  - apply (fold_left_inv KernelStep KernelState
             (fun t => gmem_grad_query t i j = gmem_grad_query s i j));
      [| reflexivity].
    intros t e He Ht. rewrite <- Ht. destruct e as [| c | sk k];
      try reflexivity.
    cbn [kernel_step]. specialize (Hcall c He).
    destruct (scheduled_extents c Hcall) as (E1 & E2 & E3 & E4 & E5 & E6).
    apply (proj1 (proj2 (run_rows c t))). lia.
Qed.


Lemma grad_bias_untouched s i j :
  grad_bias_ptr p = 0 \/ i < 0 \/ num_queries p <= i \/
  j < 0 \/ num_keys p <= j \/
  i / kBlockSizeI K * kBlockSizeI K
  < getQueryStart K p (j / kBlockSizeJ K * kBlockSizeJ K) ->
  gmem_grad_bias (kernel_gradients K L stream p w T s) i j =
  gmem_grad_bias s i j.
Proof.
  intros H.
  destruct tile_sizes as (HI & HJ & HES).
  destruct dims_in_range as (Q0 & K0 & D0 & V0 & Q1 & K1 & D1 & V1).
  unfold kernel_gradients.
  apply (fold_left_inv KernelStep KernelState
           (fun t => gmem_grad_bias t i j = gmem_grad_bias s i j));
    [| reflexivity].
  intros t e He Ht. rewrite <- Ht. destruct e as [| c |]; try reflexivity.
  cbn [kernel_step].
  assert (Hsc : scheduled_tile K p c).
  { apply calls_scheduled. rewrite <- step_calls_kernel_steps.
    apply In_step_calls. exact He. }
  destruct (scheduled_extents c Hsc) as (E1 & E2 & E3 & E4 & E5 & E6).
  destruct (Z.lt_ge_cases i 0) as [Hi | Hi];
    [rewrite run_grad_bias; apply store_grad_bias_out; lia |].
  destruct (Z.lt_ge_cases j 0) as [Hj | Hj];
    [rewrite run_grad_bias; apply store_grad_bias_out; lia |].
  destruct H as [H | [H | [H | [H | [H | H]]]]];
    try (rewrite run_grad_bias; apply store_grad_bias_out; lia).
  apply run_grad_bias_other; try assumption.
  right.
  destruct (Z.eq_dec (call_key_start c)
              (j / kBlockSizeJ K * kBlockSizeJ K)) as [Ek | Nk];
    [left | right; exact Nk].
  destruct Hsc as (_ & _ & _ & Hq & _). rewrite Ek in Hq. lia.
Qed.

End KernelRun.

(** *** The gradients that [kernel] leaves *)

Lemma row_major_layout_covers NT E kM kN :
  0 < E -> 0 < kN -> 0 <= kM -> NT * E = kM * kN ->
  layout_covers NT E kM kN (row_major_layout E kN).
Proof.
  intros HE HN HM Heq m n Hm Hn.
  unfold row_major_layout. cbn [fragment_owner fragment_coord fst snd].
  set (x := m * kN + n).
  assert (Hx : 0 <= x < NT * E) by (unfold x; nia).
  pose proof (Z.div_mod x E ltac:(lia)) as Hd.
  pose proof (Z.mod_pos_bound x E ltac:(lia)) as Hb.
  split; [| split].
  - split; [apply Z.div_pos; lia |].
    apply Z.div_lt_upper_bound; lia.
  - exact Hb.
  - replace (x / E * E + x mod E) with x by lia.
    f_equal.
    + symmetry. apply (Z.div_unique x kN m n); unfold x; lia.
    + symmetry. apply (Z.mod_unique x kN m n); unfold x; lia.
Qed.

(** For every kernel there is a layout of the fragments that covers the
    tiles. *)
Lemma row_major_layouts_cover K : layouts_cover K (row_major_layouts K).
Proof.
  unfold layouts_cover, row_major_layouts.
  cbn [layout_gradV layout_gradK layout_gradQ].
  rewrite FragmentC_kElements_eq, kNumThreads_eq.
  destruct (kBlockSizeI_cases K) as [-> | ->];
    destruct (kBlockSizeJ_cases K) as [-> | ->];
    (split; [| split]); apply row_major_layout_covers; reflexivity || lia.
Qed.

Lemma advance_to_block_workspace_areas K p workspace batch_id head_id w :
  advance_to_block_workspace K p workspace batch_id head_id = Some w ->
  workspace_gv w = workspace_gk w + workspace_elements_gk K p /\
  workspace_gq w = workspace_gv w + workspace_elements_gv K p.
Proof.
  unfold advance_to_block_workspace. rewrite kNeedsAccumGradQ_true.
  cbn [orb]. intros H. injection H as <-.
  cbn [workspace_gk workspace_gv workspace_gq]. split; reflexivity.
Qed.









Lemma causal_example_in_range : workspace_in_range causal_example_params.
Proof. unfold workspace_in_range. cbn. lia. Qed.



(** ** The gradients in closed form *)

Lemma sum_upto_add a b (h : Z -> R) :
  0 <= a -> 0 <= b ->
  sum_upto (a + b) h = (sum_upto a h + sum_upto b (fun y => h (a + y)%Z))%R.
Proof.
  intros Ha Hb. unfold sum_upto. rewrite Z2Nat.inj_add by lia.
  rewrite sum_n_add. rewrite Z2Nat.id by lia. reflexivity.
Qed.

Lemma fold_sum_shift (A : Type) (f : A -> R) (l : list A) : forall v,
  fold_left (fun acc a => (acc + f a)%R) l v =
  (v + fold_left (fun acc a => (acc + f a)%R) l 0)%R.
Proof.
  induction l as [| a l IH]; intros v; cbn [fold_left]; [lra |].
  rewrite IH. rewrite (IH (0 + f a)%R). lra.
Qed.

Lemma fold_sum_ext (A : Type) (f g : A -> R) (l : list A) :
  (forall a, In a l -> f a = g a) -> forall v,
  fold_left (fun acc a => (acc + f a)%R) l v =
  fold_left (fun acc a => (acc + g a)%R) l v.
Proof.
  induction l as [| a l IH]; intros H v; [reflexivity |].
  cbn [fold_left]. rewrite (H a) by (left; reflexivity).
  apply IH. intros x Hx. apply H. right. exact Hx.
Qed.

Lemma sum_calls_app f l1 l2 :
  sum_calls f (l1 ++ l2) = (sum_calls f l1 + sum_calls f l2)%R.
Proof.
  unfold sum_calls. rewrite fold_left_app. apply fold_sum_shift.
Qed.

Lemma sum_calls_map (A : Type) f (g : A -> BlockCall) l :
  sum_calls f (map g l) = fold_left (fun acc x => (acc + f (g x))%R) l 0%R.
Proof. unfold sum_calls. apply fold_left_map_step. Qed.

Lemma sum_calls_flat_map (A : Type) f (g : A -> list BlockCall) l :
  sum_calls f (flat_map g l) =
  fold_left (fun acc x => (acc + sum_calls f (g x))%R) l 0%R.
Proof.
  induction l as [| x l IH]; [reflexivity |].
  cbn [flat_map fold_left]. rewrite sum_calls_app, IH.
  rewrite (fold_sum_shift A _ l (0 + _)%R). lra.
Qed.

(** The sums over the tiles of a range add up to the sum over the range. *)
Lemma sum_tiles_loop (F : Z -> R) stop b fuel : forall i,
  0 < b -> 0 <= i -> stop + b <= 2 ^ 31 ->
  (Z.to_nat (stop - i) <= fuel)%nat ->
  fold_left
    (fun acc x =>
       (acc + sum_upto (Z.min b (stop - x)) (fun k => F (x + k)%Z))%R)
    (for_loop fuel i stop b) 0%R =
  sum_upto (stop - i) (fun k => F (i + k)%Z).
Proof.
  induction fuel as [| fuel IH]; intros i Hb Hi Hstop Hf; cbn [for_loop].
  - cbn [fold_left]. rewrite sum_upto_nonpos by lia. reflexivity.
  - destruct (Z.ltb_spec i stop) as [Hlt | Hge].
    + rewrite int32_id by (unfold in_int32; lia).
      cbn [fold_left]. rewrite fold_sum_shift.
      rewrite IH by lia. rewrite Rplus_0_l.
      destruct (Z.le_gt_cases (stop - i) b) as [Hs | Hs].
      * rewrite Z.min_r by lia.
        rewrite (sum_upto_nonpos (stop - (i + b))) by lia. lra.
      * rewrite Z.min_l by lia.
        assert (E : sum_upto (stop - i) (fun k => F (i + k)%Z) =
                    (sum_upto b (fun k => F (i + k)%Z) +
                     sum_upto (stop - (i + b))
                       (fun y => F (i + (b + y))%Z))%R).
        { replace (stop - i) with (b + (stop - (i + b))) by ring.
          apply sum_upto_add; lia. }
        rewrite E. f_equal.
        apply sum_upto_ext. intros k Hk. f_equal. ring.
    + cbn [fold_left]. rewrite sum_upto_nonpos by lia. reflexivity.
Qed.

Lemma sum_tiles (F : Z -> R) start stop b :
  0 < b -> 0 <= start -> stop + b <= 2 ^ 31 ->
  fold_left
    (fun acc x =>
       (acc + sum_upto (Z.min b (stop - x)) (fun k => F (x + k)%Z))%R)
    (for_range start stop b) 0%R =
  sum_upto (stop - start) (fun k => F (start + k)%Z).
Proof.
  intros Hb Hs Hstop. unfold for_range. apply sum_tiles_loop; lia.
Qed.

(** The sum over a range whose first entries vanish. *)
Lemma sum_upto_skip (F : Z -> R) start stop :
  0 <= start ->
  (forall k, 0 <= k < start -> k < stop -> F k = 0%R) ->
  sum_upto (stop - start) (fun k => F (start + k)%Z) = sum_upto stop F.
Proof.
  intros Hs H0.
  destruct (Z.le_gt_cases start stop) as [Hle | Hgt].
  - assert (E : sum_upto stop F =
                (sum_upto start F +
                 sum_upto (stop - start) (fun k => F (start + k)%Z))%R).
    { replace stop with (start + (stop - start)) at 1 by ring.
      apply sum_upto_add; lia. }
    rewrite E.
    rewrite (sum_upto_zero start) by (intros k Hk; apply H0; lia). lra.
  - rewrite sum_upto_nonpos by lia. symmetry.
    apply sum_upto_zero. intros k Hk. apply H0; lia.
Qed.

Section ClosedForm.

Variable K : KernelConfig.
Variable stream : Z -> Z -> Z -> R.
Variable p : Params.
Variable T : Tensors.
Hypothesis Hrange : closed_form_in_range K p.

Lemma closed_form_dims :
  0 <= num_queries p /\ 0 <= num_keys p /\
  0 <= head_dim p /\ 0 <= head_dim_value p /\
  num_queries p + 128 < 2 ^ 31 /\ num_keys p + 128 < 2 ^ 31 /\
  head_dim p + 128 < 2 ^ 31 /\ head_dim_value p + 128 < 2 ^ 31 /\
  0 < ThreadK K <= 128 /\
  0 < kBlockSizeI K <= 128 /\ 0 < kBlockSizeJ K <= 128.
Proof.
  destruct Hrange as (Hr & HT & _).
  destruct (dims_in_range p Hr) as (Q0 & K0 & D0 & V0 & Q1 & K1 & D1 & V1).
  destruct (tile_sizes K) as (HI & HJ & _).
  repeat split; lia.
Qed.

Section OneCall.

Variable c : BlockCall.
Hypothesis Hc : scheduled_tile K p c.

Lemma call_extents :
  num_queries_in_block K (call_skipBoundsChecks c) p (call_query_start c) =
    Z.min (kBlockSizeI K) (num_queries p - call_query_start c) /\
  num_keys_in_block K (call_skipBoundsChecks c) p (call_key_start c) =
    Z.min (kBlockSizeJ K) (num_keys p - call_key_start c) /\
  0 <= call_query_start c < num_queries p /\
  0 <= call_key_start c < num_keys p.
Proof.
  destruct Hrange as (Hr & _).
  destruct (scheduled_extents_eq K p Hr c Hc) as [E1 E2].
  destruct (scheduled_extents K p Hr c Hc) as (B1 & B2 & B3 & B4 & B5 & B6).
  repeat split; try assumption; lia.
Qed.

(** The probability tile holds the probabilities of its pairs. *)
Lemma attn_T_entry m n :
  0 <= m < num_keys_in_block K (call_skipBoundsChecks c) p
             (call_key_start c) ->
  0 <= n < num_queries_in_block K (call_skipBoundsChecks c) p
             (call_query_start c) ->
  attn_T K (call_skipBoundsChecks c) p T (call_query_start c)
    (call_key_start c) m n =
  P_entry p T (call_query_start c + n) (call_key_start c + m).
Proof.
  intros Hm Hn.
  destruct closed_form_dims
    as (Q0 & K0 & D0 & V0 & Q1 & K1 & D1 & V1 & HT & HI & HJ).
  destruct call_extents as (E1 & E2 & Bq & Bk).
  unfold attn_T, accumApplyLSEToSmem, MatmulQK_mask, P_entry.
  rewrite (int32_id (n + call_query_start c)) by (unfold in_int32; lia).
  rewrite int32_id by (unfold in_int32; lia).
  assert (Hb : (m >? n + call_query_start c - call_key_start c) =
               (call_key_start c + m >? call_query_start c + n)).
  { destruct (Z.gtb_spec m (n + call_query_start c - call_key_start c));
      destruct (Z.gtb_spec (call_key_start c + m) (call_query_start c + n));
      reflexivity || lia. }
  rewrite Hb.
  destruct (causal p && (call_key_start c + m >? call_query_start c + n));
    [reflexivity |].
  rewrite MatmulQK_bias_in by (assumption || lia). reflexivity.
Qed.

(** The mask tile holds the masks of its pairs. *)
Lemma zij_entry zij_before m n :
  kApplyDropout K = true ->
  0 <= m < num_keys_in_block K (call_skipBoundsChecks c) p
             (call_key_start c) ->
  0 <= n < num_queries_in_block K (call_skipBoundsChecks c) p
             (call_query_start c) ->
  generate_zij K stream (call_skipBoundsChecks c) p (call_query_start c)
    (call_key_start c) (rng_state_init p) zij_before m n =
  Z_entry K stream p (call_query_start c + n) (call_key_start c + m).
Proof.
  intros Hd Hm Hn.
  destruct closed_form_dims
    as (Q0 & K0 & D0 & V0 & Q1 & K1 & D1 & V1 & HT & HI & HJ).
  destruct call_extents as (E1 & E2 & Bq & Bk).
  destruct Hrange as (Hr & _ & Hdrop). specialize (Hdrop Hd).
  unfold Z_entry. rewrite Hd.
  apply generate_zij_in; try assumption; try lia.
  assert (call_query_start c + n <= num_queries p - 1) by lia.
  assert (call_key_start c + m <= num_keys p - 1) by lia.
  nia.
Qed.

(** The score gradient of the block holds the score gradients of its
    pairs. *)
Lemma dSij_entry zij_before di_before m n :
  0 <= m < num_queries_in_block K (call_skipBoundsChecks c) p
             (call_query_start c) ->
  0 <= n < num_keys_in_block K (call_skipBoundsChecks c) p
             (call_key_start c) ->
  dSij K (call_skipBoundsChecks c) p T (call_query_start c)
    (call_key_start c)
    (attn_T K (call_skipBoundsChecks c) p T (call_query_start c)
       (call_key_start c))
    (generate_zij K stream (call_skipBoundsChecks c) p (call_query_start c)
       (call_key_start c) (rng_state_init p) zij_before)
    (loadDi K p T (call_query_start c) di_before) m n =
  dS_entry K stream p T (call_query_start c + m) (call_key_start c + n).
Proof.
  intros Hm Hn.
  destruct closed_form_dims
    as (Q0 & K0 & D0 & V0 & Q1 & K1 & D1 & V1 & HT & HI & HJ).
  destruct call_extents as (E1 & E2 & Bq & Bk).
  rewrite dSij_in by assumption.
  rewrite attn_T_entry by assumption.
  rewrite loadDi_spec by lia.
  rewrite (int32_id (call_query_start c + m)) by (unfold in_int32; lia).
  destruct (Z.ltb_spec (call_query_start c + m) (num_queries p)); [| lia].
  unfold dS_entry, dP_entry. f_equal. f_equal.
  unfold MatmulDOIVJ_dropout.
  destruct (kApplyDropout K) eqn:Hd.
  - rewrite (int32_id (call_query_start c + m)) by (unfold in_int32; lia).
    rewrite (int32_id (call_key_start c + n)) by (unfold in_int32; lia).
    destruct (Z.ltb_spec (call_query_start c + m) (num_queries p)); [| lia].
    destruct (Z.ltb_spec (call_key_start c + n) (num_keys p)); [| lia].
    rewrite orb_true_r.
    rewrite MatmulDOIVJ_mma_in by (assumption || lia).
    rewrite zij_entry by assumption. reflexivity.
  - rewrite MatmulDOIVJ_mma_in by (assumption || lia).
    unfold Z_entry. rewrite Hd. lra.
Qed.

(** What the three matmuls of the call add to a cleared accumulator. *)
Lemma block_gradV_entry di_before zij_before grad_bias col m n :
  0 <= m < num_keys_in_block K (call_skipBoundsChecks c) p
             (call_key_start c) ->
  0 <= n < head_dim_value p - col ->
  block_gradV (call_result K stream p T di_before zij_before grad_bias c)
    col m n =
  sum_upto
    (Z.min (kBlockSizeI K) (num_queries p - call_query_start c))
    (fun k =>
       P_entry p T (call_query_start c + k) (call_key_start c + m) *
       Z_entry K stream p (call_query_start c + k) (call_key_start c + m) *
       grad_output T (call_query_start c + k)%Z (col + n)%Z)%R.
Proof.
  intros Hm Hn.
  destruct closed_form_dims
    as (Q0 & K0 & D0 & V0 & Q1 & K1 & D1 & V1 & HT & HI & HJ).
  destruct call_extents as (E1 & E2 & Bq & Bk).
  unfold call_result, processBlockIJ. cbn [block_gradV].
  unfold MatmulGradV.
  rewrite mma_extent; try lia.
  - unfold clear. rewrite Rplus_0_l. rewrite <- E1.
    apply sum_upto_ext. intros k Hk.
    unfold MatmulGradV_operand_A, MatmulGradV_operand_B.
    rewrite PredicatedTileIterator_in by lia.
    rewrite attn_T_entry by assumption.
    destruct (kApplyDropout K) eqn:Hd.
    + rewrite zij_entry by assumption. reflexivity.
    + unfold Z_entry. rewrite Hd. lra.
  - intros j Hj. unfold MatmulGradV_operand_B.
    rewrite PredicatedTileIterator_out by lia. lra.
Qed.

Lemma block_gradK_entry di_before zij_before grad_bias col m n :
  0 <= m < num_keys_in_block K (call_skipBoundsChecks c) p
             (call_key_start c) ->
  0 <= n < head_dim p - col ->
  block_gradK (call_result K stream p T di_before zij_before grad_bias c)
    col m n =
  sum_upto
    (Z.min (kBlockSizeI K) (num_queries p - call_query_start c))
    (fun k =>
       dS_entry K stream p T (call_query_start c + k) (call_key_start c + m)
       * scale p * query T (call_query_start c + k)%Z (col + n)%Z)%R.
Proof.
  intros Hm Hn.
  destruct closed_form_dims
    as (Q0 & K0 & D0 & V0 & Q1 & K1 & D1 & V1 & HT & HI & HJ).
  destruct call_extents as (E1 & E2 & Bq & Bk).
  unfold call_result, processBlockIJ. cbn [block_gradK].
  unfold MatmulGradK.
  rewrite mma_extent; try lia.
  - unfold clear. rewrite Rplus_0_l. rewrite <- E1.
    apply sum_upto_ext. intros k Hk.
    unfold tmpT, tmp, MatmulGradK_operand_B.
    rewrite PredicatedTileIterator_in by lia.
    rewrite dSij_entry by assumption. reflexivity.
  - intros j Hj. unfold MatmulGradK_operand_B.
    rewrite PredicatedTileIterator_out by lia. lra.
Qed.

Lemma block_gradQ_entry di_before zij_before grad_bias col m n :
  0 <= m < num_queries_in_block K (call_skipBoundsChecks c) p
             (call_query_start c) ->
  0 <= n < head_dim p - col ->
  block_gradQ (call_result K stream p T di_before zij_before grad_bias c)
    col m n =
  sum_upto
    (Z.min (kBlockSizeJ K) (num_keys p - call_key_start c))
    (fun k =>
       dS_entry K stream p T (call_query_start c + m) (call_key_start c + k)
       * scale p * key T (call_key_start c + k)%Z (col + n)%Z)%R.
Proof.
  intros Hm Hn.
  destruct closed_form_dims
    as (Q0 & K0 & D0 & V0 & Q1 & K1 & D1 & V1 & HT & HI & HJ).
  destruct call_extents as (E1 & E2 & Bq & Bk).
  unfold call_result, processBlockIJ. cbn [block_gradQ].
  unfold MatmulGradQ.
  rewrite mma_extent; try lia.
  - unfold clear. rewrite Rplus_0_l. rewrite <- E2.
    apply sum_upto_ext. intros k Hk.
    unfold tmp, MatmulGradQ_operand_B.
    rewrite PredicatedTileIterator_in by lia.
    rewrite dSij_entry by assumption. reflexivity.
  - intros j Hj. unfold MatmulGradQ_operand_B.
    rewrite PredicatedTileIterator_out by lia. lra.
Qed.

End OneCall.

Lemma P_entry_masked i j :
  causal p = true -> i < j -> P_entry p T i j = 0%R.
Proof.
  intros Hc Hij. unfold P_entry. rewrite Hc.
  destruct (Z.gtb_spec j i); [reflexivity | lia].
Qed.

(** The queries before the first query tile of a key tile are masked for
    the keys of the tile. *)
Lemma getQueryStart_masks ks i :
  0 <= ks < 2 ^ 31 -> i < getQueryStart K p ks -> 0 <= i ->
  causal p = true /\ i < ks.
Proof.
  intros Hks Hi H0.
  destruct (getQueryStart_bounds K p ks Hks) as [Hb _].
  split; [| lia].
  unfold getQueryStart in Hi. destruct (causal p); [reflexivity | lia].
Qed.

Lemma filter_map_comm (A B : Type) (f : B -> bool) (g : A -> B) l :
  filter f (map g l) = map g (filter (fun a => f (g a)) l).
Proof.
  induction l as [| a l IH]; [reflexivity |]. cbn [map filter].
  destruct (f (g a)); cbn [map]; rewrite IH; reflexivity.
Qed.

Lemma filter_flat_map_comm (A B : Type) (f : B -> bool) (g : A -> list B) l :
  filter f (flat_map g l) = flat_map (fun a => filter f (g a)) l.
Proof.
  induction l as [| a l IH]; [reflexivity |]. cbn [flat_map].
  rewrite filter_app, IH. reflexivity.
Qed.

Lemma filter_eqb_NoDup l a :
  NoDup l ->
  filter (fun x => x =? a) l = if existsb (fun x => x =? a) l then [a] else [].
Proof.
  induction l as [| x l IH]; intros Hnd; [reflexivity |].
  apply NoDup_cons_iff in Hnd. destruct Hnd as [Hx Hnd].
  cbn [filter existsb]. destruct (Z.eqb_spec x a) as [-> | Hne]; cbn [orb].
  - f_equal. apply filter_nothing. intros y Hy. apply Z.eqb_neq.
    intros ->. exact (Hx Hy).
  - apply IH, Hnd.
Qed.

(** The calls for a query tile among the calls for a key tile: one, when
    the key tile visits the query tile. *)
Lemma filter_query_tile ks qs0 :
  0 <= ks < num_keys p -> (kBlockSizeI K | qs0) ->
  0 <= qs0 < num_queries p ->
  filter (fun c => call_query_start c =? qs0) (key_tile_calls K p ks) =
  if getQueryStart K p ks <=? qs0
  then [Build_BlockCall (tile_is_full K p qs0 ks) qs0 ks] else [].
Proof.
  intros Hks Hd Hq.
  destruct closed_form_dims
    as (Q0 & K0 & D0 & V0 & Q1 & K1 & D1 & V1 & HT & HI & HJ).
  destruct (getQueryStart_bounds K p ks ltac:(lia)) as [Hg [u Hu]].
  unfold key_tile_calls. rewrite filter_map_comm.
  cbn [call_query_start].
  rewrite filter_eqb_NoDup.
  2:{ apply (StronglySorted_NoDup Z Z.lt); [intros a; lia |].
      apply for_range_sorted; lia. }
  assert (Hex : existsb (fun x => x =? qs0)
                  (for_range (getQueryStart K p ks) (num_queries p)
                     (kBlockSizeI K)) =
                (getQueryStart K p ks <=? qs0)).
  { apply eq_true_iff_eq. rewrite existsb_exists, Z.leb_le. split.
    - intros (x & Hx & Hxe). apply Z.eqb_eq in Hxe. subst x.
      apply for_range_In in Hx; lia.
    - intros Hle. exists qs0. split; [| apply Z.eqb_refl].
      apply for_range_In; try lia. split; [lia |].
      destruct Hd as [v Hv]. exists (v - u). lia. }
  rewrite Hex. destruct (getQueryStart K p ks <=? qs0); reflexivity.
Qed.

Section Gradients.

Variable L : MmaLayouts.
Variable w : WorkspacePtrs.
Hypothesis HL : layouts_cover K L.
Hypothesis Hgv : workspace_gv w = workspace_gk w + workspace_elements_gk K p.
Hypothesis Hgq : workspace_gq w = workspace_gv w + workspace_elements_gv K p.

(** The sum over the calls for a key tile of sums over the queries of
    their tiles is a sum over the queries of the problem, when the
    summand vanishes under the causal mask. *)
Lemma key_tile_calls_sum (Cc : BlockCall -> R) (F : Z -> R) ks0 j :
  (kBlockSizeJ K | ks0) -> 0 <= ks0 < num_keys p -> ks0 <= j ->
  (forall c, In c (key_tile_calls K p ks0) ->
     Cc c =
     sum_upto (Z.min (kBlockSizeI K) (num_queries p - call_query_start c))
       (fun k => F (call_query_start c + k)%Z)) ->
  (forall i, causal p = true -> i < j -> F i = 0%R) ->
  sum_calls Cc (key_tile_calls K p ks0) = sum_upto (num_queries p) F.
Proof.
  intros Hd Hks Hj HCc Hmask.
  destruct closed_form_dims
    as (Q0 & K0 & D0 & V0 & Q1 & K1 & D1 & V1 & HT & HI & HJ).
  destruct (getQueryStart_bounds K p ks0 ltac:(lia)) as [Hg _].
  rewrite (sum_calls_ext _
             (fun c =>
                sum_upto
                  (Z.min (kBlockSizeI K)
                     (num_queries p - call_query_start c))
                  (fun k => F (call_query_start c + k)%Z)) _ HCc).
  unfold key_tile_calls. rewrite sum_calls_map. cbn [call_query_start].
  rewrite sum_tiles by lia.
  apply sum_upto_skip; [lia |].
  intros k Hk _.
  destruct (getQueryStart_masks ks0 k ltac:(lia) ltac:(lia) ltac:(lia))
    as [Hc Hlt].
  apply Hmask; [exact Hc | lia].
Qed.

Lemma grad_value_closed_form s j c :
  0 <= j < num_keys p -> 0 <= c < head_dim_value p ->
  (kOutputInRF K = true -> c < kBlockSizeI K) ->
  (kOutputInRF K = false ->
   getQueryStart K p (tile_start (kBlockSizeJ K) j) < num_queries p) ->
  gmem_grad_value (kernel_gradients K L stream p w T s) j c =
  sum_upto (num_queries p)
    (fun i =>
       P_entry p T i j * Z_entry K stream p i j * grad_output T i c)%R.
Proof.
  intros Hj Hc HRF Hvis.
  destruct closed_form_dims
    as (Q0 & K0 & D0 & V0 & Q1 & K1 & D1 & V1 & HT & HI & HJ).
  pose proof Hrange as (Hr & _).
  destruct (tile_of_index (kBlockSizeJ K) j ltac:(lia) ltac:(lia))
    as (Hdk & Hk0 & Hkm & Hkb).
  destruct (tile_of_index (kBlockSizeI K) c ltac:(lia) ltac:(lia))
    as (Hdc & Hc0 & Hcm & Hcb).
  rewrite (grad_value_sum K L stream p w T HL Hr Hgv Hgq s j c
             (fun _ => 0%R) clear clear Hj Hc HRF Hvis).
  unfold tile_start in *.
  set (ks0 := j / kBlockSizeJ K * kBlockSizeJ K) in *.
  set (col0 := c / kBlockSizeI K * kBlockSizeI K) in *.
  assert (Hks0 : In ks0 (for_range 0 (num_keys p) (kBlockSizeJ K))).
  { apply cols_In; [lia | lia | lia | split; [lia | exact Hdk]]. }
  rewrite (filter_key_tile K p Hr ks0 Hks0).
  apply (key_tile_calls_sum _ _ ks0 j Hdk ltac:(lia) ltac:(lia)).
  - intros call Hin.
    pose proof (key_tile_calls_key K p call ks0 Hin) as Ek.
    assert (Hsc : scheduled_tile K p call).
    { apply (calls_scheduled K p Hr).
      apply (key_tile_calls_scheduled K p Hr ks0); assumption. }
    destruct (call_extents call Hsc) as (E1 & E2 & Bq & Bk).
    change (processBlockIJ K stream (call_skipBoundsChecks call) p T
              (call_query_start call) (call_key_start call)
              (rng_state_init p) (fun _ => 0%R) clear clear)
      with (call_result K stream p T (fun _ => 0%R) clear clear call).
    rewrite (block_gradV_entry call Hsc) by lia.
    apply sum_upto_ext. intros k Hk.
    replace (call_key_start call + (j - call_key_start call)) with j by ring.
    replace (col0 + c mod kBlockSizeI K) with c by lia. reflexivity.
  - intros i Hc' Hij. rewrite P_entry_masked by assumption. lra.
Qed.

Lemma grad_key_closed_form s j c :
  0 <= j < num_keys p -> 0 <= c < head_dim p ->
  (kOutputInRF K = true -> c < kBlockSizeI K) ->
  (kOutputInRF K = false ->
   getQueryStart K p (tile_start (kBlockSizeJ K) j) < num_queries p) ->
  gmem_grad_key (kernel_gradients K L stream p w T s) j c =
  sum_upto (num_queries p)
    (fun i => dS_entry K stream p T i j * scale p * query T i c)%R.
Proof.
  intros Hj Hc HRF Hvis.
  destruct closed_form_dims
    as (Q0 & K0 & D0 & V0 & Q1 & K1 & D1 & V1 & HT & HI & HJ).
  pose proof Hrange as (Hr & _).
  destruct (tile_of_index (kBlockSizeJ K) j ltac:(lia) ltac:(lia))
    as (Hdk & Hk0 & Hkm & Hkb).
  destruct (tile_of_index (kBlockSizeI K) c ltac:(lia) ltac:(lia))
    as (Hdc & Hc0 & Hcm & Hcb).
  rewrite (grad_key_sum K L stream p w T HL Hr Hgv Hgq s j c
             (fun _ => 0%R) clear clear Hj Hc HRF Hvis).
  unfold tile_start in *.
  set (ks0 := j / kBlockSizeJ K * kBlockSizeJ K) in *.
  set (col0 := c / kBlockSizeI K * kBlockSizeI K) in *.
  assert (Hks0 : In ks0 (for_range 0 (num_keys p) (kBlockSizeJ K))).
  { apply cols_In; [lia | lia | lia | split; [lia | exact Hdk]]. }
  rewrite (filter_key_tile K p Hr ks0 Hks0).
  apply (key_tile_calls_sum _ _ ks0 j Hdk ltac:(lia) ltac:(lia)).
  - intros call Hin.
    pose proof (key_tile_calls_key K p call ks0 Hin) as Ek.
    assert (Hsc : scheduled_tile K p call).
    { apply (calls_scheduled K p Hr).
      apply (key_tile_calls_scheduled K p Hr ks0); assumption. }
    destruct (call_extents call Hsc) as (E1 & E2 & Bq & Bk).
    change (processBlockIJ K stream (call_skipBoundsChecks call) p T
              (call_query_start call) (call_key_start call)
              (rng_state_init p) (fun _ => 0%R) clear clear)
      with (call_result K stream p T (fun _ => 0%R) clear clear call).
    rewrite (block_gradK_entry call Hsc) by lia.
    apply sum_upto_ext. intros k Hk.
    replace (call_key_start call + (j - call_key_start call)) with j by ring.
    replace (col0 + c mod kBlockSizeI K) with c by lia. reflexivity.
  - intros i Hc' Hij. unfold dS_entry.
    rewrite P_entry_masked by assumption. lra.
Qed.

Lemma grad_query_closed_form s i c :
  0 <= i < num_queries p -> 0 <= c < head_dim p -> 0 < num_keys p ->
  gmem_grad_query (kernel_gradients K L stream p w T s) i c =
  sum_upto (num_keys p)
    (fun j => dS_entry K stream p T i j * scale p * key T j c)%R.
Proof.
  intros Hi Hc Hnk.
  destruct closed_form_dims
    as (Q0 & K0 & D0 & V0 & Q1 & K1 & D1 & V1 & HT & HI & HJ).
  pose proof Hrange as (Hr & _).
  destruct (tile_of_index (kBlockSizeI K) i ltac:(lia) ltac:(lia))
    as (Hdq & Hq0 & Hqm & Hqb).
  destruct (tile_of_index (kBlockSizeJ K) c ltac:(lia) ltac:(lia))
    as (Hdc & Hc0 & Hcm & Hcb).
  rewrite (grad_query_sum K L stream p w T HL Hr Hgv Hgq s i c
             (fun _ => 0%R) clear clear Hi Hc Hnk).
  unfold tile_start in *.
  set (qs0 := i / kBlockSizeI K * kBlockSizeI K) in *.
  set (col0 := c / kBlockSizeJ K * kBlockSizeJ K) in *.
  set (G := fun j : Z =>
         (dS_entry K stream p T i j * scale p * key T j c)%R).
  rewrite kernel_calls_all_tiles by lia. unfold all_tile_calls.
  rewrite filter_flat_map_comm, sum_calls_flat_map.
  rewrite (fold_sum_ext Z _
             (fun ks =>
                sum_upto (Z.min (kBlockSizeJ K) (num_keys p - ks))
                  (fun k => G (ks + k)%Z))).
  - rewrite sum_tiles by lia. rewrite Z.sub_0_r.
    apply sum_upto_ext. intros k Hk. reflexivity.
  - intros ks Hks. apply cols_In in Hks; try lia.
    destruct Hks as [Hks Hdk].
    rewrite filter_query_tile by (assumption || lia).
    destruct (Z.leb_spec (getQueryStart K p ks) qs0) as [Hvis | Hvis].
    + unfold sum_calls. cbn [fold_left]. rewrite Rplus_0_l.
      cbn [call_query_start call_key_start call_skipBoundsChecks].
      assert (Hsc : scheduled_tile K p
                (Build_BlockCall (tile_is_full K p qs0 ks) qs0 ks)).
      { unfold scheduled_tile.
        cbn [call_query_start call_key_start call_skipBoundsChecks].
        split; [exact Hdk |]. split; [lia |]. split; [exact Hdq |].
        split; [lia | reflexivity]. }
      pose proof (block_gradQ_entry _ Hsc (fun _ => 0%R) clear clear
                    col0 (i - qs0) (c mod kBlockSizeJ K)) as HQ.
      unfold call_result in HQ.
      cbn [call_query_start call_key_start call_skipBoundsChecks] in HQ.
      destruct (call_extents _ Hsc) as (E1 & E2 & Bq & Bk).
      cbn [call_query_start call_key_start call_skipBoundsChecks]
        in E1, E2, Bq, Bk.
      rewrite HQ by lia.
      apply sum_upto_ext. intros k Hk. unfold G.
      replace (qs0 + (i - qs0)) with i by ring.
      replace (col0 + c mod kBlockSizeJ K) with c by lia. reflexivity.
    + unfold sum_calls. cbn [fold_left]. symmetry.
      apply sum_upto_zero. intros k Hk. unfold G, dS_entry.
      destruct (getQueryStart_bounds K p ks ltac:(lia)) as [Hg [u Hu]].
      destruct Hdq as [v Hv].
      assert (Hcausal : causal p = true).
      { unfold getQueryStart in Hvis.
        destruct (causal p); [reflexivity | lia]. }
      rewrite P_entry_masked; [lra | exact Hcausal |].
      assert (Hvu : v < u).
      { apply (Z.mul_lt_mono_pos_r (kBlockSizeI K)); lia. }
      assert (Hstep : (v + 1) * kBlockSizeI K <= u * kBlockSizeI K).
      { apply Z.mul_le_mono_nonneg_r; lia. }
      lia.
Qed.

End Gradients.

End ClosedForm.

Lemma workspace_example_closed_form :
  closed_form_in_range Sm50_f16_default workspace_example_params.
Proof.
  split; [exact workspace_example_in_range |].
  split; [cbn; lia | intros H; discriminate H].
Qed.

Lemma scheduler_example_closed_form :
  closed_form_in_range Sm80_f16_k64_dropout scheduler_example_params.
Proof.
  split; [unfold workspace_in_range; cbn; lia |].
  split; [cbn; lia | intros _; cbn; lia].
Qed.







Lemma causal_example_closed_form :
  closed_form_in_range Sm80_f16_k64_dropout causal_example_params.
Proof.
  split; [exact causal_example_in_range |].
  split; [cbn; lia | intros _; cbn; lia].
Qed.


